(* ===== verification/_CoqProject ===== *)
-Q . S2P
Prelude.v
RingBuffer.v
Fifo.v
SPSC.v
Player.v
PlayerAPI.v
DiskReader.v
DSPCore.v
WavFormat.v
Recorder.v
RecorderABI.v
RecorderRace.v
Plugin.v
Converter.v
