(* ===== verification/Prelude.v ===== *)
(** * A verification development of the atome audio core

    The repository (atomecorp/a) holds a real-time audio streaming and
    capture pipeline written in C++, with its host glue and tools:

    - [src/src/core/ring_buffer.cpp]: [atome::RingBuffer], a planar,
      multi-channel single-producer/single-consumer ring buffer whose two
      cursors are monotonically increasing [size_t] counters;
    - [src/src/core/disk_reader.cpp]: [atome::DiskReader], a background
      producer thread that pushes blocks of 1024 silent frames into a
      ring buffer and sleeps 2 ms when the ring is full;
    - [src/src/core/dsp_core.cpp]: [atome::DSPCore], the real-time
      renderer: it owns one ring buffer and one disk reader, pops frames
      into the host's output planes, zero-fills on underrun and applies
      the gain parameter;
    - [src/src/native/iplug/recorder/RecorderCore.cpp]: the capture sink,
      a process-wide singleton that owns a second ring buffer, a writer
      thread converting float samples to 16-bit PCM, and a WAV file whose
      44-byte header is patched when the session stops; its C ABI
      ([squirrel_recorder_core_*], declared in RecorderCore.h) hands
      error strings allocated with [malloc] to the caller;
    - [src/src/native/iplug/dsp]: the lock-free [SPSCRingBuffer<T>]
      template (RingBuffer.h), an ADSR [Envelope] and the [PlayerDSP]
      voice-pool skeleton;
    - glue: [src/src/au/Plugin.cpp] (host callbacks, the recorder tap on
      the plugin output) and [src/src/web/wam_entry.cpp];
    - [src/server/src/assets/uploads/DKD_converter.cpp]: a command-line
      tool that cuts a recording at its onsets into one WAV file per hit
      by running ffmpeg through [system].

    The audio components interact through the ring buffers: the disk
    reader pushes and the renderer pops on one ring; the plugin's tap
    pushes (through the C ABI) and the writer thread pops on the other.

    ** Layout of the development

    - [Prelude] (this file): fixed-width integer conversions ([wrap],
      [to_signed] and the notations [u64[z]], [u32[z]], [u16[z]],
      [i32[z]] in [audio_scope]), the model of [memcpy]/[memset] on a
      plane ([memcpy_list]), the lemmas on them shared by every
      component, the hint database [audio] and the tactics [zwrap] and
      [discharge] (evaluation of the side conditions of a witness).
    - [RingBuffer] (Section [RingBuffer], generic in the sample type and
      its [0.0f]): state [RingBuffer] = the fields of ring_buffer.h;
      [new_ring], [push], [pop], [clear] translate the constructor and
      the methods of ring_buffer.cpp line by line, the two [memcpy]s of
      each transfer being [plane_write]/[plane_read], with [size_t]
      arithmetic wrapping at 2^64.  [contents] is the abstract queue per
      channel.  Theorems: the capacity invariant [cursor_inv] preserved
      by every operation sequence; push and pop refine a bounded FIFO
      queue ([push_spec], [pop_spec]) across the physical wraparound;
      the round trip; the out-of-range inputs (negative frame counts,
      and, for every capacity that does not divide 2^64, the write cursor
      crossing 2^64 puts the next frame in slot 0 and pop returns a stale
      sample).
    - [Fifo]: the contract of a bounded queue as the typeclass
      [BoundedQueue] with its laws [BoundedQueueLaws]; the client theorem
      [run_queue_refines] is proved once against the interface, and the
      one-channel [RingBuffer] is an instance.
    - [SPSC] (Module [SPSC]): [SPSCRingBuffer<T>] of RingBuffer.h, an
      instance of [BoundedQueue] for power-of-two capacities up to 4096;
      the odd and the oversized capacities; push and pop split into their
      atomic accesses as the step relation [sys_step] of a producer and a
      consumer, whose invariant gives a lossless FIFO transfer in every
      interleaving.
    - [Player] (Modules [Envelope], [PlayerDSP]): the ADSR state machine
      of Envelope.h ([set], [noteOn], [noteOff], [process]) and the
      zero-filling [process] of PlayerDSP.cpp.  Theorems: the decay
      ramps toward [1 - s] and jumps to [s]; [PlayerDSP::process] writes
      silence into its block.
    - [PlayerAPI] (Module [PlayerAPI]): the structs of PlayerAPI.h with
      their default member initialisers, the abstract class [PlayerAPI]
      as a typeclass over an implementation's state, and [WebBridge]'s
      members, constructor and [setEmit] (WebBridge.h).  No class of the
      repository implements the API, and [onUIMessage] has no
      definition: there is nothing more to model and nothing to prove
      beyond the data.
    - [DiskReader] (Module [DiskReader]): the producer thread of
      disk_reader.cpp as a program counter [thread_pc]; [thread_step] is
      one statement of [threadFunc] on the reader and the shared ring (the
      load of [mShouldStop] and the push being two statements, so a
      thread that has read [false] still pushes one block during a join);
      [open], [stop], the fuelled [join] and the destructor [destroy].
      Theorems: [stop] terminates and joins from every reachable state,
      back-pressure (a push on a full ring writes nothing and sleeps);
      [reader_ok] (a running reader has [mShouldStop] clear) is kept by
      [open] and by the thread's steps.
    - [DSPCore] (Module [DSPCore]): the renderer of dsp_core.cpp:
      [init], [setParameter] (and [setParameter_int], the
      [static_cast<ParamId>] of wam_entry.cpp), [setTransport],
      [process] with its silence, underrun and gain paths, [loadFile],
      [clear], the destructor [destroy] and the empty
      [processTimeStretch].  The system of the host calls and of the reader's thread
      stepping on the shared ring is the relation [core_step]; its
      invariant [core_inv] (the ring only ever holds silence) is proved
      by rule induction, and with it that playback renders silence; the
      second invariant [core_reader_inv] (the reader satisfies
      [reader_ok] and has a ring) gives that [clear] and [~DSPCore]
      join the reader's thread before deleting the ring.
    - [WavFormat] (Module [Wav]): bytes, little-endian fields, the C
      [FILE*] as [CFile] ([fwrite], [fseek] to 0), [write_wav_header] of
      RecorderCore.cpp, a parser of the header ([parse_wav_header],
      written from the file-format contract of the spec), and the
      float-to-[int16_t] conversion of the writer thread.  Theorems: the
      header round trip and the bounds of the conversion.
    - [Recorder] (Module [Recorder]): RecorderCore.cpp.  State
      [Recorder] = the fields of [RecorderCore] ([mMutex] apart, every
      public operation being one atomic step); [start], [stop], [push],
      [push_interleaved] (with [deinterleave_plane] and the chunk loop
      [interleaved_loop]), the writer thread as [writer_state] with its
      two atomic accesses as [writer_step] (the [pop], the load of
      [mRunning]), whole iterations [writer_iteration] and the [join], the
      queries.  [rec_step] is the relation of the control calls, the taps
      and the writer's steps; [rec_inv] is its invariant.  Theorems: [stop]
      writes into the file every queued frame the writer still sees
      ([flushed_frames]: all of them when the writer is at its pop, none
      when its last pop found the ring empty and it has yet to test
      [mRunning]) before patching the header; while recording, the
      writer's loop alone ([writer_run]) empties the ring into the file
      within one iteration per chunk; a whole session writes exactly the
      WAV file of the pushed frames when the push precedes the writer's
      first pop, and loses them when the pop comes first;
      the integer overflows of the ring size and of the frame count; the
      stride of [push_interleaved].
    - [RecorderABI] (Module [RecorderABI]): the C ABI as functions of a
      [World] (the singleton and the C heap [CHeap] of the error
      strings): [dup_cstr], the [err_out] protocol ([set_err_out]), every
      [squirrel_recorder_core_*] function and [squirrel_string_free];
      [abi_step] runs one call, [client_step] is a caller that frees only
      what it received.  Every call is zero or one [rec_step], so the
      recorder's theorems hold of the ABI's worlds.  Theorems: the
      ownership of the error strings (exactly the held ones are live, each
      can be freed once, nothing leaks), what [err_out] receives; the
      file a session leaves is a well-formed WAV (a file-length invariant
      [file_inv] of the ABI's runs); the interleaved push is equivalent to
      the planar push of the de-interleaved planes.  The contract that
      [src/src-tauri/native/recorder.h] states in its comments is the
      class [RecorderCAPI] with its laws; the core ABI is an instance
      when [malloc] succeeds ([core_capi_laws]).
    - [RecorderRace] (Module [RecorderRace]): [push] split into its
      guard and its body, [stop] into the store of [mRunning], the join
      and the end under the lock (each split proved equal to the atomic
      definition), and [race_step], the interleaving of the tap thread,
      the thread running [stop] and the writer.  Theorem: [push] takes no
      lock, so a tap that passed its guard can dereference the deleted
      ring, or put frames into a ring the writer has already drained,
      which the file never receives.
    - [Plugin] (Modules [Plugin], [Wam]): the host callbacks of
      Plugin.cpp over a [DSPCore] and the recorder, and the WAM entry
      points.  The glue's system (host callbacks, the core's reader
      thread, the recorder's calls and writer) is the relation
      [plugin_step] on the pair of the plugin and the recorder; each of
      its steps is at most one step of the core's system and one of the
      recorder's ([plugin_step_parts]), so the invariants of both hold
      of every state it reaches.  Theorems: [ProcessBlock] renders
      through the core and taps the rendered samples into the recorder;
      composed with the core's invariant, a recording of the plugin
      source is silence.
    - [Converter] (Module [Converter]): [main] of DKD_converter.cpp as
      its exit status and list of effects; the Essentia pipeline as the
      frame loop [frame_loop] over a record [Essentia] of the library's
      algorithms and of their port table, every binding of the code
      checked against it ([bind_ok]), composed with [main] as [dkd_main];
      the [%zu]/[%03zu] formatting,
      the [snprintf] truncation, [std::to_string(double)]; a model of the
      word splitting of [/bin/sh] ([sh_parse]).  Theorems: the names
      read back to the hit number; for names without shell-special
      characters the shell runs exactly the intended ffmpeg argument
      vectors; a double quote in the input name injects a command that
      runs once per hit; a long output directory makes every hit
      overwrite one file; with Essentia's documented ports the binding of
      line 52 throws, so the program never cuts a hit.

    ** Fuel

    The joins are the only unbounded loops.  [DiskReader.join] needs three
    statements from any state of the reader's thread (a pending push,
    the return to the loop head, the load of [mShouldStop] that exits);
    [Recorder.join] runs whole iterations of the writer and drains a ring
    holding [filled] frames with [fuel] iterations as soon as
    [filled <= 1024 * (fuel - 1)] (one chunk per iteration, plus the
    final empty pop and its test, which exits), so [stop 3] finalises a session of up to
    2048 frames and, in general, fuel [filled / 1024 + 2] suffices;
    [interleaved_loop] is fuelled with the frame count, an upper bound on
    its chunks.  [Recorder.writer_run n] finishes the writer's current
    iteration and runs [n] more of its loop, which never exits while
    [mRunning] is set:
    [filled <= 1024 * n] iterations empty the ring (no final iteration
    is needed, the loop does not return).  The termination theorems give
    the fuel explicitly.
    [Converter.dec_width] counts decimal digits with fuel 20, enough for
    every [size_t] (below 2^64 < 10^21).  [Converter.frame_loop] is
    fuelled with its iterations; the converter's theorem holds for every
    fuel, since the exception comes before the loop.

    ** Not modelled

    Samples and times are exact rationals: the [float]/[double] rounding
    of the code is not modelled (the conversion to [int16_t] and the
    [%f] formatting of a value are, exactly), and no theorem states a
    count that the rounding changes (the number of [Envelope::process]
    calls a release takes is one of them: float32 arithmetic ends it one
    call earlier than exact arithmetic at [r = 0.3f], [sr = 44100]).
    NaN samples are outside the model of [to_int16].  Memory orderings are not
    modelled: each atomic access is one step of a sequentially consistent
    interleaving.  The recorder's operations are atomic steps of
    [rec_step] except in [RecorderRace], which splits [push] and [stop]
    at the points where the code releases or never takes [mMutex]; the
    writer thread steps at each of its two atomic accesses.  [fwrite]
    never fails in the model.  The algorithms of Essentia are an external
    library: the converter's pipeline is modelled over them as functions
    with their port table (the port names and types Essentia checks when
    a vector is bound are modelled, the DSP itself is a parameter); the host SDK is outside the
    repository (its answers are inputs).  [WebBridge::onUIMessage] and
    the methods of [PlayerAPI] have no definition in the repository, so
    only their signatures and the data they exchange are modelled. *)

From stdpp Require Import base list.
From Stdlib Require Import ZArith Lia.

Declare Scope audio_scope.
Delimit Scope audio_scope with audio.
Open Scope Z_scope.

(** ** Fixed-width integers *)

(** Reduction of a mathematical integer to an unsigned [w]-bit value: what a
    C++ conversion to an unsigned type, or unsigned arithmetic, does. *)
Definition wrap (w : Z) (z : Z) : Z := z mod 2 ^ w.

(** Two's-complement reinterpretation as a signed [w]-bit value
    (conversion of an out-of-range value to [int], as the compilers the
    repository targets do it). *)
Definition to_signed (w : Z) (z : Z) : Z :=
  let u := wrap w z in if u <? 2 ^ (w - 1) then u else u - 2 ^ w.

Notation "'u64[' z ']'" := (wrap 64 z) (at level 0, z at level 200) : audio_scope.
Notation "'u32[' z ']'" := (wrap 32 z) (at level 0, z at level 200) : audio_scope.
Notation "'u16[' z ']'" := (wrap 16 z) (at level 0, z at level 200) : audio_scope.
Notation "'i32[' z ']'" := (to_signed 32 z) (at level 0, z at level 200) : audio_scope.
Open Scope audio_scope.

Definition INT_MAX : Z := 2 ^ 31 - 1.

(** ** Byte copies into a plane *)

(** [std::memcpy(dst + off, src, n * sizeof(float))] on a plane held as a
    list: the elements [off .. off+n) of [dst] are replaced by the first [n]
    elements of [src].  The theorems use it only where the code stays in
    bounds ([off + n <= length dst], [n <= length src]). *)
Definition memcpy_list {A} (dst : list A) (off : nat) (src : list A) (n : nat) : list A :=
  take off dst ++ take n src ++ drop (off + n) dst.

(** ** Shared lemmas *)

Lemma Z_pow2_64 : 2 ^ 64 = 18446744073709551616.
Proof. reflexivity. Qed.

Lemma INT_MAX_val : INT_MAX = 2147483647.
Proof. reflexivity. Qed.

Lemma wrap_range w z : 0 <= w -> 0 <= wrap w z < 2 ^ w.
Proof. intros Hw. unfold wrap. apply Z.mod_pos_bound. apply Z.pow_pos_nonneg; lia. Qed.

Lemma wrap_small w z : 0 <= z < 2 ^ w -> wrap w z = z.
Proof. intros H. unfold wrap. apply Z.mod_small. exact H. Qed.

Lemma wrap_sub_small w a b : 0 <= b -> b <= a -> a < 2 ^ w -> wrap w (a - b) = a - b.
Proof. intros. apply wrap_small. lia. Qed.

Lemma to_signed_small w z : 1 <= w -> 0 <= z < 2 ^ (w - 1) -> to_signed w z = z.
Proof.
  intros Hw Hz. unfold to_signed.
  assert (2 ^ w = 2 * 2 ^ (w - 1)) as E.
  { rewrite <- Z.pow_succ_r by lia. f_equal. lia. }
  rewrite wrap_small by lia.
  destruct (Z.ltb_spec z (2 ^ (w - 1))); lia.
Qed.

Lemma to_signed_range w z : 1 <= w -> - 2 ^ (w - 1) <= to_signed w z < 2 ^ (w - 1).
Proof.
  intros Hw. unfold to_signed.
  assert (2 ^ w = 2 * 2 ^ (w - 1)) as E.
  { rewrite <- Z.pow_succ_r by lia. f_equal. lia. }
  pose proof (wrap_range w z ltac:(lia)).
  destruct (Z.ltb_spec (wrap w z) (2 ^ (w - 1))); lia.
Qed.

Lemma wrap_idem w z : 0 <= w -> wrap w (wrap w z) = wrap w z.
Proof. intros Hw. unfold wrap. apply Z.mod_mod. pose proof (Z.pow_pos_nonneg 2 w). lia. Qed.

(** Reading back a [w]-bit two's complement value stored as its unsigned
    bit pattern gives the value. *)
Lemma to_signed_wrap w z :
  1 <= w -> - 2 ^ (w - 1) <= z < 2 ^ (w - 1) -> to_signed w (wrap w z) = z.
Proof.
  intros Hw Hz. unfold to_signed. rewrite wrap_idem by lia.
  assert (2 ^ w = 2 * 2 ^ (w - 1)) as E.
  { rewrite <- Z.pow_succ_r by lia. f_equal. lia. }
  destruct (Z.le_gt_cases 0 z).
  - rewrite wrap_small by lia. destruct (Z.ltb_spec z (2 ^ (w - 1))); lia.
  - assert (wrap w z = z + 2 ^ w) as ->.
    { unfold wrap. rewrite <- (Z.mod_add _ 1) by lia.
      rewrite Z.mod_small; lia. }
    destruct (Z.ltb_spec (z + 2 ^ w) (2 ^ (w - 1))); lia.
Qed.

Lemma length_memcpy_list {A} (dst src : list A) off n :
  (off + n <= length dst)%nat -> (n <= length src)%nat ->
  length (memcpy_list dst off src n) = length dst.
Proof.
  intros H1 H2. unfold memcpy_list.
  rewrite !length_app, !length_take, length_drop. lia.
Qed.

Lemma lookup_memcpy_list {A} (dst src : list A) off n i :
  (off + n <= length dst)%nat -> (n <= length src)%nat ->
  memcpy_list dst off src n !! i =
    if decide (i < off)%nat then dst !! i
    else if decide (i < off + n)%nat then src !! (i - off)%nat
    else dst !! i.
Proof.
  intros H1 H2. unfold memcpy_list.
  destruct (decide (i < off)%nat).
  - rewrite lookup_app_l by (rewrite length_take; lia).
    apply lookup_take_lt. lia.
  - rewrite lookup_app_r by (rewrite length_take; lia).
    rewrite length_take, Nat.min_l by lia.
    destruct (decide (i < off + n)%nat).
    + rewrite lookup_app_l by (rewrite length_take; lia).
      apply lookup_take_lt. lia.
    + rewrite lookup_app_r by (rewrite length_take; lia).
      rewrite length_take, Nat.min_l by lia.
      rewrite lookup_drop. f_equal. lia.
Qed.

Lemma drop_eq_ge {A} (l1 l2 : list A) n m :
  drop n l1 = drop n l2 -> (n <= m)%nat -> drop m l1 = drop m l2.
Proof.
  intros H Hle. replace m with (n + (m - n))%nat by lia.
  rewrite <- !drop_drop. by rewrite H.
Qed.

Create HintDb audio.
Create Rewrite HintDb audio_rw.
#[export] Hint Resolve wrap_range wrap_small : audio.
Lemma Forall_memcpy_list {A} (P : A -> Prop) (dst src : list A) off n :
  Forall P dst -> Forall P src -> Forall P (memcpy_list dst off src n).
Proof.
  intros Hd Hs. unfold memcpy_list.
  repeat apply Forall_app_2; auto using Forall_take, Forall_drop.
Qed.

Lemma Forall_eq_replicate {A} (l : list A) x :
  Forall (fun y => y = x) l -> l = replicate (length l) x.
Proof. induction 1; simpl; congruence. Qed.

#[export] Hint Rewrite @length_memcpy_list using lia : audio_rw.

(** [zwrap] removes the [wrap]s whose argument is provably in range. *)
Ltac zwrap :=
  repeat match goal with
  | |- context [wrap ?w ?z] => rewrite (wrap_small w z) by lia
  | H : context [wrap ?w ?z] |- _ => rewrite (wrap_small w z) in H by lia
  end.

(** ** Modular arithmetic of the cursors *)

Lemma pow2_nonzero w : 0 <= w -> 2 ^ w <> 0.
Proof. intros Hw. apply Z.pow_nonzero; lia. Qed.

(** Advancing one cursor and subtracting the other commute with the
    reduction modulo 2^w: what makes [size_t] cursor differences exact. *)
Lemma wrap_add_sub_l w a t b :
  0 <= w -> wrap w (wrap w (a + t) - b) = wrap w (wrap w (a - b) + t).
Proof.
  intros Hw. unfold wrap.
  rewrite Zminus_mod_idemp_l, Z.add_mod_idemp_l by (apply pow2_nonzero; lia).
  f_equal. lia.
Qed.

Lemma wrap_sub_add_r w a b t :
  wrap w (a - wrap w (b + t)) = wrap w (wrap w (a - b) - t).
Proof.
  unfold wrap. rewrite Zminus_mod_idemp_r, Zminus_mod_idemp_l. f_equal. lia.
Qed.

(** The distance from [base] to [k] going forward around a circle of
    [cap] slots. *)
Lemma mod_shift cap base k :
  0 <= base < cap -> 0 <= k < cap ->
  (k - base) mod cap = if base <=? k then k - base else k - base + cap.
Proof.
  intros Hb Hk. destruct (Z.leb_spec base k).
  - apply Z.mod_small. lia.
  - transitivity ((k - base + cap + (-1) * cap) mod cap); [f_equal; lia |].
    rewrite Z.mod_add by lia. apply Z.mod_small. lia.
Qed.

(** A position [base + i] with [i < cap] wraps at most once. *)
Lemma mod_once cap x :
  0 <= x < 2 * cap -> x mod cap = if x <? cap then x else x - cap.
Proof.
  intros Hx. destruct (Z.ltb_spec x cap).
  - apply Z.mod_small. lia.
  - transitivity ((x - cap + 1 * cap) mod cap); [f_equal; lia |].
    rewrite Z.mod_add by lia. apply Z.mod_small. lia.
Qed.

(** [discharge] closes a hypothesis of a theorem at a concrete input: by
    computation, by deciding a decidable proposition with [vm_compute], or
    by [lia] once the constants are evaluated. *)
Ltac discharge :=
  first [ reflexivity
        | apply (bool_decide_unpack _); vm_compute; exact I
        | rewrite ?INT_MAX_val, ?Z_pow2_64; lia
        | vm_compute; lia
        | vm_compute; discriminate ].
