(* ===== verification/RingBuffer.v ===== *)
(** * RingBuffer: the planar SPSC ring buffer of [src/src/core/ring_buffer.cpp]

    [atome::RingBuffer] keeps [mChannels] planes of [mCapacityFrames]
    samples and two [size_t] cursors that only grow (modulo 2^64).  This
    file translates its constructor, [push], [pop] and [clear], defines the
    abstract content of the buffer (per channel, the queue of frames that
    [pop] will return), and proves: the capacity invariant, the exact frame
    counts, the FIFO refinement across the physical wraparound, and what
    happens when the inputs leave the range the code expects. *)

From S2P Require Import Prelude.
From stdpp Require Import base list.
From Stdlib Require Import ZArith Lia.

Open Scope Z_scope.
Open Scope audio_scope.

Section RingBuffer.
(** The sample type ([float] in the code) and its [0.0f]. *)
Context {A : Type} (zero : A).

(** The fields of the class, in the order of ring_buffer.h. *)
Record RingBuffer := mkRing {
  mChannels : Z;             (* int *)
  mCapacityFrames : Z;       (* int *)
  mData : list (list A);     (* std::vector<std::vector<float>>, [ch][frame] *)
  mWriteIndex : Z;           (* std::atomic<size_t> *)
  mReadIndex : Z             (* std::atomic<size_t> *)
}.

(** The constructor.  [mData(channels)] and [assign(capacityFrames, 0.0f)]
    convert a negative [int] to a huge [size_t] and throw
    [std::length_error]: that outcome is [None].  With zero channels the
    [assign] loop does not run, so a negative capacity is then accepted. *)
Definition new_ring (channels capacityFrames : Z) : option RingBuffer :=
  if channels <? 0 then None
  else if (0 <? channels) && (capacityFrames <? 0) then None
  else Some (mkRing channels capacityFrames
               (replicate (Z.to_nat channels) (replicate (Z.to_nat capacityFrames) zero))
               0 0).

(** [clear()]: both cursors to zero, every plane filled with [0.0f]. *)
Definition clear (rb : RingBuffer) : RingBuffer :=
  mkRing (mChannels rb) (mCapacityFrames rb)
    (map (fun v => replicate (length v) zero) (mData rb)) 0 0.

(** The copy of one input plane into the storage: [first] frames at
    [wmod], then, when [second] is not zero, [second] frames at the head
    of the plane (lines 33-34). *)
Definition plane_write (plane src : list A) (wmod first second : Z) : list A :=
  let p := memcpy_list plane (Z.to_nat wmod) src (Z.to_nat first) in
  if second =? 0 then p
  else memcpy_list p 0 (drop (Z.to_nat first) src) (Z.to_nat second).

(** The loop [for (ch = 0; ch < std::min(channels, mChannels); ++ch)] of
    [push]: the planes of index below [nch] receive their input plane. *)
Definition planes_write (data inp : list (list A)) (nch wmod first second : Z)
    : list (list A) :=
  imap (fun ch plane =>
          if Z.of_nat ch <? nch
          then plane_write plane (default [] (inp !! ch)) wmod first second
          else plane) data.

(** [push(in, channels, frames)], lines 20-39.  [size_t] arithmetic
    wraps at 2^64, the [int] [frames] is converted to [size_t], and the
    result is converted back to [int]. *)
Definition push (rb : RingBuffer) (inp : list (list A)) (channels frames : Z)
    : RingBuffer * Z :=
  let write := mWriteIndex rb in
  let read := mReadIndex rb in
  let filled := u64[write - read] in
  let freeSpace := u64[u64[mCapacityFrames rb] - filled] in
  let toWrite := Z.min u64[frames] freeSpace in
  if toWrite =? 0 then (rb, 0)
  else
    let cap := u64[mCapacityFrames rb] in
    let wmod := write mod cap in
    let first := Z.min toWrite u64[cap - wmod] in
    let second := u64[toWrite - first] in
    (mkRing (mChannels rb) (mCapacityFrames rb)
       (planes_write (mData rb) inp (Z.min channels (mChannels rb)) wmod first second)
       u64[write + toWrite] read,
     i32[toWrite]).

(** The copy of one storage plane into an output plane (lines 53-54). *)
Definition plane_read (out plane : list A) (rmod first second : Z) : list A :=
  let o := memcpy_list out 0 (drop (Z.to_nat rmod) plane) (Z.to_nat first) in
  if second =? 0 then o
  else memcpy_list o (Z.to_nat first) plane (Z.to_nat second).

(** The loop over the output planes of [pop]. *)
Definition planes_read (out data : list (list A)) (nch rmod first second : Z)
    : list (list A) :=
  imap (fun ch o =>
          if Z.of_nat ch <? nch
          then plane_read o (default [] (data !! ch)) rmod first second
          else o) out.

(** [pop(out, channels, frames)], lines 41-59: the new ring, the output
    planes as the caller sees them afterwards, and the result. *)
Definition pop (rb : RingBuffer) (out : list (list A)) (channels frames : Z)
    : RingBuffer * list (list A) * Z :=
  let write := mWriteIndex rb in
  let read := mReadIndex rb in
  let available := u64[write - read] in
  let toRead := Z.min u64[frames] available in
  if toRead =? 0 then (rb, out, 0)
  else
    let cap := u64[mCapacityFrames rb] in
    let rmod := read mod cap in
    let first := Z.min toRead u64[cap - rmod] in
    let second := u64[toRead - first] in
    (mkRing (mChannels rb) (mCapacityFrames rb) (mData rb) write u64[read + toRead],
     planes_read out (mData rb) (Z.min channels (mChannels rb)) rmod first second,
     i32[toRead]).

(** ** Abstract view *)

(** The number of frames pushed and not yet popped, as the code computes it. *)
Definition filled (rb : RingBuffer) : Z := u64[mWriteIndex rb - mReadIndex rb].

(** The sample of channel [ch] held in slot [k]. *)
Definition slot (rb : RingBuffer) (ch : nat) (k : Z) : A :=
  default zero (default [] (mData rb !! ch) !! Z.to_nat k).

(** The queue of channel [ch]: the [filled] samples that follow the read
    cursor, slot [(read + i) mod capacity] for the [i]-th. *)
Definition contents (rb : RingBuffer) (ch : nat) : list A :=
  (fun i => slot rb ch ((mReadIndex rb + Z.of_nat i) mod mCapacityFrames rb))
    <$> seq 0 (Z.to_nat (filled rb)).

(** The cursor invariant: the cursor ranges and the capacity invariant of
    the spec ([write - read <= N], computed in [size_t]). *)
Definition cursor_inv (rb : RingBuffer) : Prop :=
  0 <= mCapacityFrames rb <= INT_MAX /\
  0 <= mReadIndex rb < 2 ^ 64 /\ 0 <= mWriteIndex rb < 2 ^ 64 /\
  filled rb <= mCapacityFrames rb.

(** The shape of the storage: [mChannels] planes of [mCapacityFrames]. *)
Definition ring_shape (rb : RingBuffer) : Prop :=
  0 <= mChannels rb /\
  length (mData rb) = Z.to_nat (mChannels rb) /\
  Forall (fun p => length p = Z.to_nat (mCapacityFrames rb)) (mData rb).

Definition ring_wf (rb : RingBuffer) : Prop := cursor_inv rb /\ ring_shape rb.

(** The caller's planes [ps] hold at least [nch] planes of at least [n]
    samples each (the memory the C++ code reads or writes). *)
Definition planes_cover (ps : list (list A)) (nch n : Z) : Prop :=
  (Z.to_nat nch <= length ps)%nat /\
  Forall (fun p => (Z.to_nat n <= length p)%nat) (take (Z.to_nat nch) ps).

(** Sequences of calls on one ring, as the producer, the consumer and
    the owner issue them (one after the other: the cursor protocol makes
    each call act on the cursors it read as one step). *)
Inductive ring_op : Type :=
| OpPush (inp : list (list A)) (channels frames : Z)
| OpPop (out : list (list A)) (channels frames : Z)
| OpClear.

Definition apply_op (rb : RingBuffer) (op : ring_op) : RingBuffer :=
  match op with
  | OpPush inp channels frames => fst (push rb inp channels frames)
  | OpPop out channels frames => fst (fst (pop rb out channels frames))
  | OpClear => clear rb
  end.

Definition run_ops (rb : RingBuffer) (ops : list ring_op) : RingBuffer :=
  fold_left apply_op ops rb.

End RingBuffer.

Arguments RingBuffer : clear implicits.
Arguments mkRing {A}.
Arguments ring_op : clear implicits.

#[export] Instance cursor_inv_dec {A} (rb : RingBuffer A) : Decision (cursor_inv rb).
Proof. unfold cursor_inv. apply _. Defined.
#[export] Instance ring_shape_dec {A} (rb : RingBuffer A) : Decision (ring_shape rb).
Proof. unfold ring_shape. apply _. Defined.
#[export] Instance ring_wf_dec {A} (rb : RingBuffer A) : Decision (ring_wf rb).
Proof. unfold ring_wf. apply _. Defined.
#[export] Instance planes_cover_dec {A} (ps : list (list A)) nch n :
  Decision (planes_cover ps nch n).
Proof. unfold planes_cover. apply _. Defined.

Lemma filled_range {A} (rb : RingBuffer A) : 0 <= filled rb < 2 ^ 64.
Proof. apply wrap_range. lia. Qed.

(** Brings the facts of the cursor invariant into the context, with the
    constants evaluated so that [lia] uses them. *)
Ltac cursor_facts rb :=
  let Hf := fresh "Hf" in
  pose proof (filled_range rb) as Hf;
  unfold cursor_inv in *; rewrite ?Z_pow2_64, ?INT_MAX_val in *.

(** ** Lemmas on the plane copies *)

Section PlaneCopies.
Context {A : Type}.
Implicit Types plane src out : list A.

(** [plane_write] as the code uses it ([first = min n (cap - wmod)],
    [second = n - first]): slot [k] receives the input sample at its
    forward distance from [wmod], when that distance is below [n]. *)
Lemma plane_write_lookup plane src cap wm n k :
  length plane = Z.to_nat cap -> 0 <= wm < cap -> 0 < n <= cap ->
  (Z.to_nat n <= length src)%nat -> 0 <= k < cap ->
  plane_write plane src wm (Z.min n (cap - wm)) (n - Z.min n (cap - wm)) !! Z.to_nat k =
  if decide ((k - wm) mod cap < n) then src !! Z.to_nat ((k - wm) mod cap)
  else plane !! Z.to_nat k.
Proof.
  intros Hl Hw Hn Hs Hk. rewrite mod_shift by lia. unfold plane_write.
  destruct (Z.eqb_spec (n - Z.min n (cap - wm)) 0) as [E | E].
  - rewrite lookup_memcpy_list by lia.
    destruct (Z.leb_spec wm k);
      repeat case_decide; try (f_equal; lia); lia.
  - rewrite lookup_memcpy_list
      by (rewrite ?length_memcpy_list, ?length_drop by lia; lia).
    rewrite lookup_memcpy_list by lia.
    destruct (Z.leb_spec wm k); repeat case_decide;
      rewrite ?lookup_drop; try (f_equal; lia); lia.
Qed.

Lemma length_plane_write plane src cap wm n :
  length plane = Z.to_nat cap -> 0 <= wm < cap -> 0 < n <= cap ->
  (Z.to_nat n <= length src)%nat ->
  length (plane_write plane src wm (Z.min n (cap - wm)) (n - Z.min n (cap - wm)))
    = length plane.
Proof.
  intros Hl Hw Hn Hs. unfold plane_write.
  assert (length (memcpy_list plane (Z.to_nat wm) src (Z.to_nat (Z.min n (cap - wm))))
          = length plane) as E by (apply length_memcpy_list; lia).
  case_match; [exact E |].
  rewrite length_memcpy_list; rewrite ?E, ?length_drop; lia.
Qed.

(** [plane_read]: the [j]-th output sample, for [j < n], is the sample in
    slot [(rmod + j) mod cap]; the rest of the output plane is kept. *)
Lemma plane_read_lookup out plane cap rm n j :
  length plane = Z.to_nat cap -> 0 <= rm < cap -> 0 < n <= cap ->
  (Z.to_nat n <= length out)%nat ->
  plane_read out plane rm (Z.min n (cap - rm)) (n - Z.min n (cap - rm)) !! j =
  if decide (j < Z.to_nat n)%nat then plane !! Z.to_nat ((rm + Z.of_nat j) mod cap)
  else out !! j.
Proof.
  intros Hl Hr Hn Ho. unfold plane_read.
  assert (length (memcpy_list out 0 (drop (Z.to_nat rm) plane) (Z.to_nat (Z.min n (cap - rm))))
          = length out) as E
    by (apply length_memcpy_list; rewrite ?length_drop; lia).
  case_decide as Hj.
  - rewrite mod_once by lia.
    case_match; [| rewrite lookup_memcpy_list by (rewrite ?E; lia)];
      rewrite ?lookup_memcpy_list by (rewrite ?length_drop; lia);
      repeat case_decide; rewrite ?lookup_drop;
      destruct (Z.ltb_spec (rm + Z.of_nat j) cap); try (f_equal; lia); lia.
  - case_match; [| rewrite lookup_memcpy_list by (rewrite ?E; lia)];
      rewrite ?lookup_memcpy_list by (rewrite ?length_drop; lia);
      repeat case_decide; lia || done.
Qed.

Lemma length_plane_read out plane cap rm n :
  length plane = Z.to_nat cap -> 0 <= rm < cap -> 0 < n <= cap ->
  (Z.to_nat n <= length out)%nat ->
  length (plane_read out plane rm (Z.min n (cap - rm)) (n - Z.min n (cap - rm)))
    = length out.
Proof.
  intros Hl Hr Hn Ho. unfold plane_read.
  assert (length (memcpy_list out 0 (drop (Z.to_nat rm) plane) (Z.to_nat (Z.min n (cap - rm))))
          = length out) as E
    by (apply length_memcpy_list; rewrite ?length_drop; lia).
  case_match; [exact E |].
  rewrite length_memcpy_list; rewrite ?E; lia.
Qed.
End PlaneCopies.

(** ** Unfolding push and pop on a well-formed ring *)

Section RingProofs.
Context {A : Type} (zero : A).
Implicit Types rb : RingBuffer A.

(** On a ring with the cursor invariant and a count [0 <= frames], [push]
    writes [n = min frames (cap - filled)] frames at [write mod cap]. *)
Lemma push_eq rb inp channels frames :
  cursor_inv rb -> 0 <= frames <= INT_MAX ->
  push rb inp channels frames =
    let n := Z.min frames (mCapacityFrames rb - filled rb) in
    if n =? 0 then (rb, 0)
    else
      let cap := mCapacityFrames rb in
      let wm := mWriteIndex rb mod cap in
      (mkRing (mChannels rb) cap
         (planes_write (mData rb) inp (Z.min channels (mChannels rb))
            wm (Z.min n (cap - wm)) (n - Z.min n (cap - wm)))
         u64[mWriteIndex rb + n] (mReadIndex rb), n).
Proof.
  intros Hinv Hfr. cursor_facts rb. unfold push. fold (filled rb).
  destruct Hinv as (Hc & Hr & Hw & Hfl).
  rewrite (wrap_small 64 (mCapacityFrames rb)), (wrap_small 64 frames),
    (wrap_small 64 (_ - filled rb)) by (rewrite Z_pow2_64; lia).
  cbv zeta. destruct (Z.eqb_spec (Z.min frames (mCapacityFrames rb - filled rb)) 0);
    [reflexivity |].
  assert (0 <= mWriteIndex rb mod mCapacityFrames rb < mCapacityFrames rb)
    by (apply Z.mod_pos_bound; lia).
  rewrite (wrap_small 64 (_ - _ mod _)), (wrap_small 64 (Z.min _ _ - _)),
    (to_signed_small 32) by (rewrite ?Z_pow2_64; simpl; lia).
  reflexivity.
Qed.

(** Symmetrically, [pop] reads [n = min frames filled] frames from
    [read mod cap]. *)
Lemma pop_eq rb out channels frames :
  cursor_inv rb -> 0 <= frames <= INT_MAX ->
  pop rb out channels frames =
    let n := Z.min frames (filled rb) in
    if n =? 0 then (rb, out, 0)
    else
      let cap := mCapacityFrames rb in
      let rm := mReadIndex rb mod cap in
      (mkRing (mChannels rb) cap (mData rb) (mWriteIndex rb) u64[mReadIndex rb + n],
       planes_read out (mData rb) (Z.min channels (mChannels rb))
         rm (Z.min n (cap - rm)) (n - Z.min n (cap - rm)), n).
Proof.
  intros Hinv Hfr. cursor_facts rb. unfold pop. fold (filled rb).
  destruct Hinv as (Hc & Hr & Hw & Hfl).
  rewrite (wrap_small 64 frames) by (rewrite Z_pow2_64; lia).
  cbv zeta. destruct (Z.eqb_spec (Z.min frames (filled rb)) 0); [reflexivity |].
  assert (0 <= mReadIndex rb mod mCapacityFrames rb < mCapacityFrames rb)
    by (apply Z.mod_pos_bound; lia).
  rewrite (wrap_small 64 (mCapacityFrames rb)) by (rewrite Z_pow2_64; lia).
  rewrite (wrap_small 64 (_ - _ mod _)), (wrap_small 64 (Z.min _ _ - _)),
    (to_signed_small 32) by (rewrite ?Z_pow2_64; simpl; lia).
  reflexivity.
Qed.

(** The frame counts after [push]: [n = min frames (cap - filled)]
    frames are accepted, and the fill level grows by [n]. *)
Lemma push_filled rb inp channels frames :
  cursor_inv rb -> 0 <= frames <= INT_MAX ->
  snd (push rb inp channels frames) = Z.min frames (mCapacityFrames rb - filled rb) /\
  filled (fst (push rb inp channels frames)) =
    filled rb + Z.min frames (mCapacityFrames rb - filled rb).
Proof.
  intros Hinv Hfr. rewrite push_eq by done. cbv zeta.
  cursor_facts rb. case_match; simplify_eq/=; [split; lia |].
  split; [done |]. unfold filled; simpl.
  rewrite wrap_add_sub_l by lia. fold (filled rb). apply wrap_small.
  rewrite Z_pow2_64. lia.
Qed.

Lemma pop_filled rb out channels frames :
  cursor_inv rb -> 0 <= frames <= INT_MAX ->
  snd (pop rb out channels frames) = Z.min frames (filled rb) /\
  filled (fst (fst (pop rb out channels frames))) =
    filled rb - Z.min frames (filled rb).
Proof.
  intros Hinv Hfr. rewrite pop_eq by done. cbv zeta.
  cursor_facts rb. case_match; simplify_eq/=; [split; lia |].
  split; [done |]. unfold filled; simpl.
  rewrite wrap_sub_add_r. fold (filled rb). apply wrap_small.
  rewrite Z_pow2_64. lia.
Qed.

(** [push] keeps the cursor invariant whatever its arguments, a negative
    or oversized [frames] included: the count it writes never exceeds
    the free space. *)
Lemma push_cursor_inv rb inp channels frames :
  cursor_inv rb -> cursor_inv (fst (push rb inp channels frames)).
Proof.
  intros Hinv. pose proof (wrap_range 64 frames ltac:(lia)) as Hfr.
  assert (0 <= filled rb <= mCapacityFrames rb) by (cursor_facts rb; lia).
  unfold push; fold (filled rb).
  rewrite (wrap_small 64 (mCapacityFrames rb)), (wrap_small 64 (_ - filled rb))
    by (cursor_facts rb; lia).
  cbv zeta. case_match; [done |].
  cursor_facts rb. destruct Hinv as (Hc & Hr & Hw & Hfl).
  unfold cursor_inv, filled; simpl. rewrite wrap_add_sub_l by lia. fold (filled rb).
  pose proof (wrap_range 64 (mWriteIndex rb + Z.min (wrap 64 frames)
                (mCapacityFrames rb - filled rb)) ltac:(lia)).
  rewrite (wrap_small 64 (filled rb + _)); rewrite ?Z_pow2_64 in *; lia.
Qed.

Lemma pop_cursor_inv rb out channels frames :
  cursor_inv rb -> cursor_inv (fst (fst (pop rb out channels frames))).
Proof.
  intros Hinv. pose proof (wrap_range 64 frames ltac:(lia)) as Hfr.
  unfold pop; fold (filled rb). cbv zeta. case_match; [done |].
  cursor_facts rb. destruct Hinv as (Hc & Hr & Hw & Hfl).
  unfold cursor_inv, filled; simpl. rewrite wrap_sub_add_r. fold (filled rb).
  pose proof (wrap_range 64 (mReadIndex rb + Z.min (wrap 64 frames) (filled rb)) ltac:(lia)).
  rewrite (wrap_small 64 (filled rb - _)); rewrite ?Z_pow2_64 in *; lia.
Qed.

Lemma clear_cursor_inv rb : cursor_inv rb -> cursor_inv (clear zero rb).
Proof. intros Hinv. cursor_facts rb. unfold filled; simpl. rewrite wrap_small; lia. Qed.

(** ** Shape of the storage *)

Lemma lookup_planes_write (data inp : list (list A)) nch wm f s ch :
  planes_write data inp nch wm f s !! ch =
    (fun plane => if Z.of_nat ch <? nch
                  then plane_write plane (default [] (inp !! ch)) wm f s
                  else plane) <$> data !! ch.
Proof. apply list_lookup_imap. Qed.

Lemma lookup_planes_read (out data : list (list A)) nch rm f s ch :
  planes_read out data nch rm f s !! ch =
    (fun o => if Z.of_nat ch <? nch
              then plane_read o (default [] (data !! ch)) rm f s
              else o) <$> out !! ch.
Proof. apply list_lookup_imap. Qed.

Lemma shape_plane rb ch :
  ring_shape rb -> (ch < Z.to_nat (mChannels rb))%nat ->
  exists plane, mData rb !! ch = Some plane /\
                length plane = Z.to_nat (mCapacityFrames rb).
Proof.
  intros (Hc & Hl & Hp) Hch.
  destruct (lookup_lt_is_Some_2 (mData rb) ch) as [plane Hplane]; [lia |].
  exists plane. split; [done |]. rewrite Forall_lookup in Hp. by apply (Hp ch).
Qed.

Lemma planes_cover_lookup (ps : list (list A)) nch m ch :
  planes_cover ps nch m -> (ch < Z.to_nat nch)%nat ->
  exists p, ps !! ch = Some p /\ (Z.to_nat m <= length p)%nat.
Proof.
  intros [Hl Hf] Hch.
  destruct (lookup_lt_is_Some_2 ps ch) as [p Hp]; [lia |].
  exists p. split; [done |].
  rewrite Forall_lookup in Hf. apply (Hf ch). by rewrite lookup_take_lt by lia.
Qed.

(** [push] keeps the storage shape when the caller's planes hold the
    frames the code copies. *)
Lemma push_shape rb inp channels frames :
  ring_wf rb -> 0 <= frames <= INT_MAX ->
  planes_cover inp (Z.min channels (mChannels rb)) frames ->
  ring_shape (fst (push rb inp channels frames)).
Proof.
  intros [Hinv Hsh] Hfr Hcov. rewrite push_eq by done. cbv zeta.
  case_match; [exact Hsh |]. simpl.
  pose proof Hsh as (Hc & Hl & Hp).
  assert (0 <= filled rb <= mCapacityFrames rb) by (cursor_facts rb; lia).
  assert (0 <= mWriteIndex rb mod mCapacityFrames rb < mCapacityFrames rb)
    by (apply Z.mod_pos_bound; lia).
  unfold ring_shape; simpl. split_and!; [lia | by unfold planes_write; rewrite length_imap |].
  apply Forall_lookup_2. intros ch plane' Hch.
  rewrite lookup_planes_write in Hch.
  destruct (mData rb !! ch) as [plane |] eqn:Hplane; simplify_eq/=.
  assert (length plane = Z.to_nat (mCapacityFrames rb))
    by (rewrite Forall_lookup in Hp; by apply (Hp ch)).
  case_match; [| done].
  destruct (planes_cover_lookup inp _ frames ch Hcov) as (src & Hsrc & Hlen); [lia |].
  rewrite Hsrc; simpl. rewrite length_plane_write; lia.
Qed.

Lemma pop_shape rb out channels frames :
  ring_shape rb -> ring_shape (fst (fst (pop rb out channels frames))).
Proof. intros Hsh. unfold pop. cbv zeta. by case_match. Qed.

Lemma clear_shape rb : ring_shape rb -> ring_shape (clear zero rb).
Proof.
  intros (Hc & Hl & Hp). unfold ring_shape, clear; simpl.
  split_and!; [lia | by rewrite length_map |].
  apply Forall_map. eapply Forall_impl; [exact Hp |].
  intros v Hv. by rewrite length_replicate.
Qed.

(** ** The queue of each channel *)

Lemma lookup_contents rb ch i :
  contents zero rb ch !! i =
    if decide (i < Z.to_nat (filled rb))%nat
    then Some (slot zero rb ch ((mReadIndex rb + Z.of_nat i) mod mCapacityFrames rb))
    else None.
Proof.
  unfold contents. rewrite list_lookup_fmap. case_decide as Hi.
  - by rewrite lookup_seq_lt.
  - by rewrite lookup_seq_ge by lia.
Qed.

Lemma length_contents rb ch : length (contents zero rb ch) = Z.to_nat (filled rb).
Proof. unfold contents. by rewrite length_fmap, length_seq. Qed.

(** The forward distance from the write slot to the slot of the [i]-th
    queued frame, when no cursor has wrapped. *)
Lemma slot_distance r w i cap :
  0 < cap -> ((r + i) mod cap - w mod cap) mod cap = (i - (w - r)) mod cap.
Proof.
  intros Hc. rewrite Zminus_mod_idemp_r, Zminus_mod_idemp_l. f_equal. lia.
Qed.

Lemma filled_nowrap rb :
  cursor_inv rb -> mReadIndex rb <= mWriteIndex rb ->
  filled rb = mWriteIndex rb - mReadIndex rb.
Proof. intros Hinv Hrw. cursor_facts rb. unfold filled. apply wrap_small. lia. Qed.

(** Refinement of [push]: on every channel the code copies, the queue
    grows by the [n] frames that [push] reports, taken in order from the
    caller's plane; across the physical end of the storage too.  The
    hypotheses say that neither cursor has wrapped around 2^64. *)
Lemma push_contents rb inp channels frames ch :
  ring_wf rb -> 0 <= frames <= INT_MAX ->
  planes_cover inp (Z.min channels (mChannels rb)) frames ->
  (ch < Z.to_nat (Z.min channels (mChannels rb)))%nat ->
  mReadIndex rb <= mWriteIndex rb -> mWriteIndex rb + frames < 2 ^ 64 ->
  contents zero (fst (push rb inp channels frames)) ch =
    contents zero rb ch ++
    take (Z.to_nat (snd (push rb inp channels frames))) (default [] (inp !! ch)).
Proof.
  intros [Hinv Hsh] Hfr Hcov Hch Hrw Hov.
  destruct (push_filled rb inp channels frames Hinv Hfr) as [Hn Hfill].
  rewrite Hn. apply list_eq. intros i. rewrite lookup_contents, Hfill.
  rewrite lookup_app, length_contents, lookup_contents.
  rewrite push_eq by done. cbv zeta.
  pose proof (filled_nowrap rb Hinv Hrw) as Hfw.
  destruct (planes_cover_lookup inp _ frames ch Hcov) as (src & Hsrc & Hlen); [lia |].
  destruct (shape_plane rb ch Hsh) as (plane & Hplane & Hpl); [lia |].
  rewrite Hsrc; simpl.
  destruct (Z.eqb_spec (Z.min frames (mCapacityFrames rb - filled rb)) 0) as [E | E].
  { rewrite E. simpl. repeat case_decide; simpl; rewrite ?lookup_nil; done || lia. }
  cursor_facts rb. destruct Hinv as (Hc & Hr & Hw & Hfl).
  assert (0 <= mWriteIndex rb mod mCapacityFrames rb < mCapacityFrames rb)
    by (apply Z.mod_pos_bound; lia).
  unfold slot; simpl. rewrite lookup_planes_write, Hplane; simpl.
  replace (Z.of_nat ch <? Z.min channels (mChannels rb)) with true
    by (symmetry; apply Z.ltb_lt; lia).
  simpl. rewrite Hsrc; simpl.
  rewrite plane_write_lookup by (try apply Z.mod_pos_bound; lia).
  rewrite slot_distance by lia. rewrite <- Hfw.
  destruct (decide (i < Z.to_nat (filled rb))%nat).
  - rewrite (mod_shift _ (filled rb) (Z.of_nat i)) by lia.
    rewrite (proj2 (Z.leb_gt _ _)) by lia.
    repeat case_decide; done || lia.
  - destruct (decide (i < Z.to_nat (filled rb + Z.min frames (mCapacityFrames rb - filled rb))))%nat.
    + rewrite (Z.mod_small (Z.of_nat i - filled rb)) by lia.
      destruct (lookup_lt_is_Some_2 src (i - Z.to_nat (filled rb))) as [x Hx]; [lia |].
      replace (Z.to_nat (Z.of_nat i - filled rb)) with (i - Z.to_nat (filled rb))%nat by lia.
      repeat case_decide; try lia.
      rewrite lookup_take_lt by lia. by rewrite Hx.
    + repeat case_decide; try lia. rewrite lookup_take_ge by lia. done.
Qed.

Lemma lookup_planes_read_ch (out data : list (list A)) nch rm f s ch o :
  out !! ch = Some o -> (Z.of_nat ch < nch) ->
  planes_read out data nch rm f s !! ch =
    Some (plane_read o (default [] (data !! ch)) rm f s).
Proof.
  intros Ho Hch. rewrite lookup_planes_read, Ho; simpl.
  by rewrite (proj2 (Z.ltb_lt _ _) Hch).
Qed.

(** Refinement of [pop]: on every channel the code copies, the first [n]
    samples of the output plane are the first [n] frames of the queue,
    the rest of the output plane is untouched, and the queue loses
    exactly that prefix. *)
Lemma pop_contents rb out channels frames ch :
  ring_wf rb -> 0 <= frames <= INT_MAX ->
  planes_cover out (Z.min channels (mChannels rb)) frames ->
  (ch < Z.to_nat (Z.min channels (mChannels rb)))%nat ->
  mReadIndex rb <= mWriteIndex rb ->
  let '(rb', out', n) := pop rb out channels frames in
  take (Z.to_nat n) (default [] (out' !! ch)) = take (Z.to_nat n) (contents zero rb ch) /\
  drop (Z.to_nat n) (default [] (out' !! ch)) = drop (Z.to_nat n) (default [] (out !! ch)) /\
  contents zero rb' ch = drop (Z.to_nat n) (contents zero rb ch).
Proof.
  intros [Hinv Hsh] Hfr Hcov Hch Hrw.
  pose proof (pop_filled rb out channels frames Hinv Hfr) as [_ Hpf].
  rewrite pop_eq in Hpf |- * by done. cbv zeta in Hpf |- *.
  pose proof (filled_nowrap rb Hinv Hrw) as Hfw.
  destruct (planes_cover_lookup out _ frames ch Hcov) as (o & Ho & Hlen); [lia |].
  destruct (shape_plane rb ch Hsh) as (plane & Hplane & Hpl); [lia |].
  destruct (Z.eqb_spec (Z.min frames (filled rb)) 0) as [E | E].
  { simpl. rewrite !drop_0. done. }
  simpl in Hpf.
  cursor_facts rb. destruct Hinv as (Hc & Hr & Hw & Hfl).
  assert (0 <= mReadIndex rb mod mCapacityFrames rb < mCapacityFrames rb)
    by (apply Z.mod_pos_bound; lia).
  rewrite (lookup_planes_read_ch _ _ _ _ _ _ ch o) by (done || lia).
  rewrite Hplane; simpl. split_and!.
  - apply list_eq. intros j. rewrite !lookup_take.
    case_decide; [| done].
    rewrite plane_read_lookup, lookup_contents by lia.
    rewrite !decide_True by lia.
    rewrite Z.add_mod_idemp_l by lia.
    unfold slot. rewrite Hplane; simpl.
    destruct (lookup_lt_is_Some_2 plane (Z.to_nat ((mReadIndex rb + Z.of_nat j) mod mCapacityFrames rb)))
      as [x Hx]; [pose proof (Z.mod_pos_bound (mReadIndex rb + Z.of_nat j) (mCapacityFrames rb)); lia |].
    by rewrite Hx.
  - apply list_eq. intros j. rewrite !lookup_drop, Ho; simpl.
    rewrite plane_read_lookup by lia. rewrite decide_False by lia. done.
  - apply list_eq. intros j. rewrite lookup_drop, !lookup_contents.
    rewrite (wrap_small 64 (mReadIndex rb + _)) in Hpf |- * by (rewrite Z_pow2_64; lia).
    unfold slot; simpl.
    repeat case_decide; rewrite ?Hpf in *; try lia; try done.
    by replace (mReadIndex rb + Z.min frames (filled rb) + Z.of_nat j)
      with (mReadIndex rb + Z.of_nat (Z.to_nat (Z.min frames (filled rb)) + j)) by lia.
Qed.
End RingProofs.

(** ** Sequences of operations *)

Section RingSequences.
Context {A : Type} (zero : A).
Implicit Types rb : RingBuffer A.

Lemma apply_op_cursor_inv rb op :
  cursor_inv rb ->
  cursor_inv (apply_op zero rb op) /\
  mCapacityFrames (apply_op zero rb op) = mCapacityFrames rb.
Proof.
  intros Hinv. destruct op as [inp c f | out c f |]; simpl.
  - split; [by apply push_cursor_inv |]. unfold push. cbv zeta. by case_match.
  - split; [by apply pop_cursor_inv |]. unfold pop. cbv zeta. by case_match.
  - split; [by apply clear_cursor_inv | done].
Qed.

Lemma run_ops_cursor_inv rb ops :
  cursor_inv rb ->
  cursor_inv (run_ops zero rb ops) /\
  mCapacityFrames (run_ops zero rb ops) = mCapacityFrames rb.
Proof.
  revert rb. induction ops as [| op ops IH]; intros rb Hinv; [done |].
  simpl. destruct (apply_op_cursor_inv rb op Hinv) as [H1 H2].
  destruct (IH _ H1) as [H3 H4]. split; [done | congruence].
Qed.

Lemma new_ring_fields channels cap rb :
  new_ring zero channels cap = Some rb ->
  mChannels rb = channels /\ mCapacityFrames rb = cap /\
  mReadIndex rb = 0 /\ mWriteIndex rb = 0 /\
  mData rb = replicate (Z.to_nat channels) (replicate (Z.to_nat cap) zero).
Proof. unfold new_ring. repeat case_match; intros; simplify_eq/=; done. Qed.

Lemma new_ring_cursor_inv channels cap rb :
  new_ring zero channels cap = Some rb -> 0 <= cap <= INT_MAX -> cursor_inv rb.
Proof.
  intros Hn Hc. destruct (new_ring_fields _ _ _ Hn) as (_ & Hcap & Hr & Hw & _).
  unfold cursor_inv, filled, wrap. rewrite Hcap, Hr, Hw.
  rewrite Z.sub_diag, Z.mod_0_l by (apply pow2_nonzero; lia).
  rewrite INT_MAX_val, Z_pow2_64 in *. lia.
Qed.

Lemma push_fields rb inp channels frames :
  cursor_inv rb -> 0 <= frames <= INT_MAX ->
  let rb' := fst (push rb inp channels frames) in
  mChannels rb' = mChannels rb /\ mCapacityFrames rb' = mCapacityFrames rb /\
  mReadIndex rb' = mReadIndex rb /\
  mWriteIndex rb' = u64[mWriteIndex rb + snd (push rb inp channels frames)].
Proof.
  intros Hinv Hfr. rewrite push_eq by done. cbv zeta.
  destruct (Z.eqb_spec (Z.min frames (mCapacityFrames rb - filled rb)) 0) as [E | E];
    simpl; [| done].
  rewrite Z.add_0_r, wrap_small by (cursor_facts rb; lia). done.
Qed.

Lemma pop_fields rb out channels frames :
  cursor_inv rb -> 0 <= frames <= INT_MAX ->
  let rb' := fst (fst (pop rb out channels frames)) in
  mChannels rb' = mChannels rb /\ mCapacityFrames rb' = mCapacityFrames rb /\
  mData rb' = mData rb /\ mWriteIndex rb' = mWriteIndex rb /\
  mReadIndex rb' = u64[mReadIndex rb + snd (pop rb out channels frames)].
Proof.
  intros Hinv Hfr. rewrite pop_eq by done. cbv zeta.
  destruct (Z.eqb_spec (Z.min frames (filled rb)) 0) as [E | E]; simpl; [| done].
  rewrite Z.add_0_r, wrap_small by (cursor_facts rb; lia). done.
Qed.

(** The output planes that [pop] does not copy into are left as they were. *)
Lemma pop_out_other rb out channels frames ch :
  cursor_inv rb -> 0 <= frames <= INT_MAX ->
  (Z.to_nat (Z.min channels (mChannels rb)) <= ch)%nat ->
  snd (fst (pop rb out channels frames)) !! ch = out !! ch.
Proof.
  intros Hinv Hfr Hch. rewrite pop_eq by done. cbv zeta.
  case_match; simpl; [done |]. rewrite lookup_planes_read.
  destruct (out !! ch); simpl; [| done].
  by rewrite (proj2 (Z.ltb_ge _ _)) by lia.
Qed.

(** One output plane after [pop], for a plane holding at least [frames]
    samples: same length, its first [n] samples from the channel's queue
    (or kept, on a channel the ring does not copy), the rest kept. *)
Lemma pop_plane rb out channels frames i o :
  ring_wf rb -> 0 <= frames <= INT_MAX -> mReadIndex rb <= mWriteIndex rb ->
  planes_cover out (Z.min channels (mChannels rb)) frames ->
  out !! i = Some o -> (Z.to_nat frames <= length o)%nat ->
  let n := Z.to_nat (Z.min frames (filled rb)) in
  exists o1, snd (fst (pop rb out channels frames)) !! i = Some o1 /\
    length o1 = length o /\
    take n o1 = take n (if decide (i < Z.to_nat (Z.min channels (mChannels rb)))%nat
                        then contents zero rb i else o) /\
    drop n o1 = drop n o.
Proof.
  intros Hwf Hfr Hrw Hcov Ho Hlo. cbv zeta.
  pose proof (pop_contents zero rb out channels frames i Hwf Hfr Hcov) as Hc.
  pose proof (pop_out_other rb out channels frames i (proj1 Hwf) Hfr) as Hother.
  pose proof (pop_filled rb out channels frames (proj1 Hwf) Hfr) as [Hn _].
  assert (exists o1, snd (fst (pop rb out channels frames)) !! i = Some o1 /\
                     length o1 = length o) as (o1 & Ho1 & Hl1).
  { pose proof Hwf as [Hinv Hsh].
    rewrite pop_eq by done. cbv zeta.
    destruct (Z.eqb_spec (Z.min frames (filled rb)) 0); simpl; [by exists o |].
    rewrite lookup_planes_read, Ho; simpl.
    destruct (Z.ltb_spec (Z.of_nat i) (Z.min channels (mChannels rb))); [| by exists o].
    eexists; split; [reflexivity |].
    destruct (shape_plane rb i Hsh) as (plane & Hplane & Hpl); [lia |].
    rewrite Hplane. simpl. cursor_facts rb.
    apply length_plane_read; try apply Z.mod_pos_bound; lia. }
  destruct (pop rb out channels frames) as [[rb' out'] k]; simpl in *. subst k.
  exists o1. split_and!; [done | done | |].
  - case_decide.
    + destruct (Hc ltac:(done) Hrw) as (Ht & _). by rewrite Ho1 in Ht.
    + rewrite Hother in Ho1 by lia. by simplify_eq.
  - destruct (decide (i < Z.to_nat (Z.min channels (mChannels rb)))%nat).
    + destruct (Hc ltac:(done) Hrw) as (_ & Hd & _). by rewrite Ho1, Ho in Hd.
    + rewrite Hother in Ho1 by lia. by simplify_eq.
Qed.

Lemma planes_cover_le (ps : list (list A)) nch nch' n :
  nch' <= nch -> planes_cover ps nch n -> planes_cover ps nch' n.
Proof.
  intros Hle [Hl Hall]. split; [lia |].
  apply (Forall_take _ (Z.to_nat nch')) in Hall.
  rewrite take_take in Hall. by rewrite Nat.min_l in Hall by lia.
Qed.

Lemma planes_cover_frames (ps : list (list A)) nch n n' :
  0 <= n' <= n -> planes_cover ps nch n -> planes_cover ps nch n'.
Proof.
  intros Hn [Hl Hall]. split; [done |].
  eapply Forall_impl; [exact Hall |]. simpl. intros x Hx. lia.
Qed.

Lemma contents_empty rb ch : filled rb = 0 -> contents zero rb ch = [].
Proof. intros H. apply nil_length_inv. by rewrite length_contents, H. Qed.

(** A negative [int] count, converted to a huge [size_t], makes [push]
    behave as a push of the whole free space. *)
Lemma push_negative_eq rb inp channels frames :
  cursor_inv rb -> - 2 ^ 31 <= frames < 0 ->
  push rb inp channels frames = push rb inp channels (mCapacityFrames rb - filled rb).
Proof.
  intros Hinv Hfr. cursor_facts rb. unfold push; fold (filled rb).
  rewrite (wrap_small 64 (mCapacityFrames rb)), (wrap_small 64 (_ - filled rb))
    by (rewrite ?Z_pow2_64, ?INT_MAX_val in *; lia).
  assert (wrap 64 frames = frames + 2 ^ 64) as ->.
  { unfold wrap. rewrite <- (Z.mod_add _ 1) by (apply pow2_nonzero; lia).
    rewrite Z.mul_1_l. apply Z.mod_small. rewrite Z_pow2_64 in *. lia. }
  rewrite Z.min_r by (rewrite Z_pow2_64; lia).
  by rewrite Z.min_id.
Qed.

(** What [push] does with any [int] count: the same as [push] with the
    count it accepts ([n = min(frames, N - filled)] for a non-negative
    count, the whole free space for a negative one). *)
Lemma push_exact rb inp channels frames :
  cursor_inv rb -> - 2 ^ 31 <= frames <= INT_MAX ->
  0 <= snd (push rb inp channels frames) <= INT_MAX /\
  push rb inp channels frames = push rb inp channels (snd (push rb inp channels frames)).
Proof.
  intros Hinv Hfr.
  assert (Hf : exists f, 0 <= f <= INT_MAX /\ push rb inp channels frames = push rb inp channels f).
  { destruct (Z.le_gt_cases 0 frames) as [Hp | Hn]; [exists frames; split; [lia | done] |].
    exists (mCapacityFrames rb - filled rb).
    split; [cursor_facts rb; lia | apply push_negative_eq; [exact Hinv | lia]]. }
  destruct Hf as (f & Hf & ->).
  destruct (push_filled rb inp channels f Hinv Hf) as [Hn _]. rewrite Hn.
  pose proof (filled_range rb). cursor_facts rb.
  split; [lia |].
  rewrite (push_eq rb inp channels f), (push_eq rb inp channels (Z.min f _))
    by (done || rewrite ?INT_MAX_val in *; lia). cbv zeta.
  assert (Z.min (Z.min f (mCapacityFrames rb - filled rb)) (mCapacityFrames rb - filled rb)
          = Z.min f (mCapacityFrames rb - filled rb)) as -> by lia.
  done.
Qed.

Lemma new_ring_shape channels cap rb :
  new_ring zero channels cap = Some rb -> ring_shape rb.
Proof.
  unfold new_ring. intros Hn. repeat case_match; simplify_eq/=.
  unfold ring_shape; simpl. split_and!; [lia | by rewrite length_replicate |].
  apply Forall_replicate. by rewrite length_replicate.
Qed.
End RingSequences.

(** ** Properties of the ring buffer *)

(** The slot of the cursor 2^64 - 1 is not the last one when the
    capacity does not divide 2^64. *)
Lemma wrap_slot cap : 2 <= cap -> 2 ^ 64 mod cap <> 0 ->
  0 <= (2 ^ 64 - 1) mod cap <= cap - 2.
Proof.
  intros Hc Hm. pose proof (Z.mod_pos_bound (2 ^ 64 - 1) cap ltac:(lia)).
  split; [lia |]. destruct (Z.eq_dec ((2 ^ 64 - 1) mod cap) (cap - 1)) as [E | E]; [| lia].
  exfalso. apply Hm. pose proof (Z.div_mod (2 ^ 64 - 1) cap ltac:(lia)) as Hd.
  rewrite E in Hd. replace (2 ^ 64) with (((2 ^ 64 - 1) / cap + 1) * cap) by lia.
  apply Z.mod_mul. lia.
Qed.

Lemma take2_drop {A} (z : A) (l : list A) k :
  (k + 2 <= length l)%nat -> take 2 (drop k l) = [default z (l !! k); default z (l !! S k)].
Proof.
  intros Hk. replace (l !! k) with (drop k l !! 0%nat) by (rewrite lookup_drop; f_equal; lia).
  replace (l !! S k) with (drop k l !! 1%nat) by (rewrite lookup_drop; f_equal; lia).
  assert (2 <= length (drop k l))%nat by (rewrite length_drop; lia).
  destruct (drop k l) as [| a [| b r]]; simpl in *; try lia. done.
Qed.

Section RingClaims.
Context {A : Type} (zero : A).
Implicit Types rb : RingBuffer A.

(** C1. Capacity invariant: starting from a freshly constructed ring of
    capacity [N] (an [int] in [0, INT_MAX]), every sequence of [push],
    [pop] and [clear] calls, with any arguments (negative or oversized
    counts included), keeps the capacity at [N] and the number of
    unread frames [write - read] (computed in [size_t]) within [0, N]. *)
Theorem ring_capacity_invariant channels cap rb0 (ops : list (ring_op A)) :
  new_ring zero channels cap = Some rb0 -> 0 <= cap <= INT_MAX ->
  mCapacityFrames (run_ops zero rb0 ops) = cap /\
  0 <= filled (run_ops zero rb0 ops) <= cap /\
  cursor_inv (run_ops zero rb0 ops).
Proof.
  intros Hn Hc. pose proof (new_ring_cursor_inv zero _ _ _ Hn Hc) as Hinv.
  destruct (new_ring_fields zero _ _ _ Hn) as (_ & Hcap & _).
  destruct (run_ops_cursor_inv zero rb0 ops Hinv) as [Hinv' Hcap'].
  pose proof (filled_range (run_ops zero rb0 ops)).
  split_and!; [congruence | lia | | done]. destruct Hinv' as (_ & _ & _ & ?). lia.
Qed.

(** C2. Functional behaviour of [push]: it accepts
    [n = min(frames, N - filled)] frames (never overwriting unread data),
    keeps the ring well formed, advances only the write cursor by [n],
    and on every copied channel appends the first [n] samples of the
    caller's plane to the channel's queue, across the physical end of
    the storage.  Hypotheses: a well-formed ring, a count in the [int]
    range, caller planes holding [frames] samples, and cursors that have
    not wrapped around 2^64. *)
Theorem push_spec rb inp channels frames :
  ring_wf rb -> 0 <= frames <= INT_MAX ->
  planes_cover inp (Z.min channels (mChannels rb)) frames ->
  mReadIndex rb <= mWriteIndex rb -> mWriteIndex rb + frames < 2 ^ 64 ->
  let '(rb', n) := push rb inp channels frames in
  n = Z.min frames (mCapacityFrames rb - filled rb) /\
  ring_wf rb' /\ filled rb' = filled rb + n /\
  mReadIndex rb' = mReadIndex rb /\ mWriteIndex rb' = mWriteIndex rb + n /\
  (forall ch, (ch < Z.to_nat (Z.min channels (mChannels rb)))%nat ->
     contents zero rb' ch =
       contents zero rb ch ++ take (Z.to_nat n) (default [] (inp !! ch))).
Proof.
  intros Hwf Hfr Hcov Hrw Hov.
  pose proof Hwf as [Hinv Hsh].
  destruct (push_filled rb inp channels frames Hinv Hfr) as [Hn Hfill].
  destruct (push_fields rb inp channels frames Hinv Hfr) as (_ & _ & Hr & Hw).
  pose proof (push_contents zero rb inp channels frames) as Hc.
  pose proof (push_cursor_inv rb inp channels frames Hinv) as Hinv'.
  pose proof (push_shape rb inp channels frames Hwf Hfr Hcov) as Hsh'.
  destruct (push rb inp channels frames) as [rb' n]; simpl in *. subst n.
  split_and!; try done.
  - rewrite Hw, wrap_small; [done |]. cursor_facts rb. lia.
  - intros ch Hch. by apply Hc.
Qed.

(** C3. Functional behaviour of [pop]: it returns
    [n = min(frames, filled)] frames (never more than were pushed and
    not yet popped), advances only the read cursor, leaves the storage
    untouched, writes the first [n] frames of each copied channel's queue
    at the start of the output plane (the rest of the plane is kept),
    removes them from the queue, and leaves the other output planes as
    they were. *)
Theorem pop_spec rb out channels frames :
  ring_wf rb -> 0 <= frames <= INT_MAX ->
  planes_cover out (Z.min channels (mChannels rb)) frames ->
  mReadIndex rb <= mWriteIndex rb ->
  let '(rb', out', n) := pop rb out channels frames in
  n = Z.min frames (filled rb) /\
  ring_wf rb' /\ filled rb' = filled rb - n /\
  mWriteIndex rb' = mWriteIndex rb /\ mReadIndex rb' = mReadIndex rb + n /\
  mData rb' = mData rb /\
  (forall ch, (ch < Z.to_nat (Z.min channels (mChannels rb)))%nat ->
     take (Z.to_nat n) (default [] (out' !! ch)) = take (Z.to_nat n) (contents zero rb ch) /\
     drop (Z.to_nat n) (default [] (out' !! ch)) = drop (Z.to_nat n) (default [] (out !! ch)) /\
     contents zero rb' ch = drop (Z.to_nat n) (contents zero rb ch)) /\
  (forall ch, (Z.to_nat (Z.min channels (mChannels rb)) <= ch)%nat -> out' !! ch = out !! ch).
Proof.
  intros Hwf Hfr Hcov Hrw.
  pose proof Hwf as [Hinv Hsh].
  destruct (pop_filled rb out channels frames Hinv Hfr) as [Hn Hfill].
  destruct (pop_fields rb out channels frames Hinv Hfr) as (_ & _ & Hd & Hw & Hr).
  pose proof (pop_contents zero rb out channels frames) as Hc.
  pose proof (pop_out_other rb out channels frames) as Ho.
  pose proof (pop_cursor_inv rb out channels frames Hinv) as Hinv'.
  pose proof (pop_shape rb out channels frames Hsh) as Hsh'.
  destruct (pop rb out channels frames) as [[rb' out'] n]; simpl in *. subst n.
  split_and!; try done.
  - rewrite Hr, wrap_small; [done |]. pose proof (filled_nowrap rb Hinv Hrw).
    cursor_facts rb. lia.
  - intros ch Hch. by apply (Hc ch).
  - intros ch Hch. by apply Ho.
Qed.

(** C4. Round trip across the wraparound: on an empty well-formed ring,
    whatever the position of its cursors (hence wherever the physical
    end of the storage falls), pushing [n <= N] frames and then popping
    [n] frames hands back, on every copied channel, exactly the [n]
    samples pushed, in order, and leaves the ring empty. *)
Theorem push_pop_roundtrip rb inp out channels n :
  ring_wf rb -> filled rb = 0 -> 0 <= n <= mCapacityFrames rb ->
  mReadIndex rb <= mWriteIndex rb -> mWriteIndex rb + n < 2 ^ 64 ->
  planes_cover inp (Z.min channels (mChannels rb)) n ->
  planes_cover out (Z.min channels (mChannels rb)) n ->
  let '(rb1, k1) := push rb inp channels n in
  let '(rb2, out', k2) := pop rb1 out channels n in
  k1 = n /\ k2 = n /\ filled rb2 = 0 /\
  forall ch, (ch < Z.to_nat (Z.min channels (mChannels rb)))%nat ->
    take (Z.to_nat n) (default [] (out' !! ch)) = take (Z.to_nat n) (default [] (inp !! ch)).
Proof.
  intros Hwf H0 Hn Hrw Hov Hin Hout.
  assert (0 <= n <= INT_MAX) as Hn' by (destruct Hwf as [(? & _) _]; lia).
  pose proof Hwf as [Hinv Hsh].
  destruct (push_filled rb inp channels n Hinv Hn') as [Hk1 Hf1].
  destruct (push_fields rb inp channels n Hinv Hn') as (Hch1 & _ & Hr1 & Hw1).
  pose proof (push_contents zero rb inp channels n) as Hc1.
  pose proof (push_cursor_inv rb inp channels n Hinv) as Hinv1.
  pose proof (push_shape rb inp channels n Hwf Hn' Hin) as Hsh1.
  destruct (push rb inp channels n) as [rb1 k1]; simpl in *.
  rewrite H0, Z.sub_0_r, Z.min_l in Hk1 by lia. subst k1.
  rewrite H0, Z.min_l in Hf1 by lia. simpl in Hf1.
  rewrite wrap_small in Hw1 by (cursor_facts rb; lia).
  assert (ring_wf rb1) as Hwf1 by done.
  assert (mReadIndex rb1 <= mWriteIndex rb1) as Hrw1 by lia.
  rewrite <- Hch1 in Hout.
  destruct (pop_filled rb1 out channels n Hinv1 Hn') as [Hk2 Hf2].
  pose proof (fun ch Hch => pop_contents zero rb1 out channels n ch Hwf1 Hn' Hout Hch Hrw1)
    as Hc2.
  destruct (pop rb1 out channels n) as [[rb2 out'] k2]; simpl in *.
  rewrite Hf1, Z.min_l in Hk2 by lia. subst k2.
  split_and!; [done | done | rewrite Hf2, Hf1; lia |].
  intros ch Hch.
  destruct (Hc2 ch) as (Hout' & _); [by rewrite Hch1 |].
  rewrite Hout', Hc1 by done.
  rewrite contents_empty by done. simpl.
  by rewrite take_take, Nat.min_id.
Qed.

(** C5. A negative [frames] count (for instance an [uint32_t] count
    above [INT_MAX] converted to [int], as [RecorderCore::push] does) is
    converted to a huge [size_t]: [push] then copies the whole free space
    ([N - filled] frames) from the caller's planes instead of none. *)
Theorem push_negative_frames rb inp channels frames :
  cursor_inv rb -> - 2 ^ 31 <= frames < 0 ->
  snd (push rb inp channels frames) = mCapacityFrames rb - filled rb.
Proof.
  intros Hinv Hfr. rewrite push_negative_eq by done.
  destruct (push_filled rb inp channels (mCapacityFrames rb - filled rb) Hinv) as [-> _];
    [cursor_facts rb; lia |].
  apply Z.min_id.
Qed.
(** C7. The cursors are [size_t] counters reduced modulo a capacity
    that need not divide 2^64: when the write cursor wraps from 2^64 - 1
    to 0, the next frame goes to slot 0 instead of the slot after the
    last one.  On every well-formed single-channel ring whose capacity
    [N >= 2] does not divide 2^64 and whose cursors are at 2^64 - 1,
    pushing one frame [x], then one frame [y], then popping two frames
    accepts and returns two frames, but not [x; y]: the pop reads the
    slots [m] and [m + 1], [m = (2^64 - 1) mod N], where slot [m] holds
    [x] (or [y], which overwrote it, when [m = 0]) and slot [m + 1]
    still holds its stale sample. *)
Theorem cursor_wrap_overwrites cap (plane : list A) x y o0 o1 :
  2 <= cap <= INT_MAX -> 2 ^ 64 mod cap <> 0 -> length plane = Z.to_nat cap ->
  let rb0 := mkRing 1 cap [plane] (2 ^ 64 - 1) (2 ^ 64 - 1) in
  let m := (2 ^ 64 - 1) mod cap in
  ring_wf rb0 /\
  let '(rb1, k1) := push rb0 [[x]] 1 1 in
  let '(rb2, k2) := push rb1 [[y]] 1 1 in
  let '(_, out, k3) := pop rb2 [[o0; o1]] 1 2 in
  k1 = 1 /\ k2 = 1 /\ k3 = 2 /\
  out = [[if m =? 0 then y else x; default zero (plane !! Z.to_nat (m + 1))]].
Proof.
  intros Hc Hm Hl rb0 m. pose proof (wrap_slot cap ltac:(lia) Hm) as Hs. fold m in Hs.
  rewrite INT_MAX_val in Hc.
  split.
  { split; [unfold cursor_inv, filled; simpl; rewrite INT_MAX_val, Z_pow2_64; unfold wrap;
            rewrite Z.sub_diag, Z.mod_0_l by lia; lia |].
    split_and!; simpl; try lia. by constructor. }
  assert (u64[cap] = cap) as Ecap by (apply wrap_small; lia).
  assert (push rb0 [[x]] 1 1 =
            (mkRing 1 cap [memcpy_list plane (Z.to_nat m) [x] 1] 0 (2 ^ 64 - 1), 1)) as E1.
  { unfold push. simpl.
    replace (u64[2 ^ 64 - 1 - (2 ^ 64 - 1)]) with 0 by reflexivity.
    replace (u64[1]) with 1 by reflexivity. rewrite Ecap, Z.sub_0_r, Ecap.
    rewrite Z.min_l by lia. fold m.
    rewrite (wrap_small 64 (cap - m)), (Z.min_l 1 (cap - m)), Z.sub_diag by lia.
    replace (u64[2 ^ 64 - 1 + 1]) with 0 by reflexivity. replace (u64[0]) with 0 by reflexivity.
    simpl. reflexivity. }
  rewrite E1.
  assert (forall p, push (mkRing 1 cap [p] 0 (2 ^ 64 - 1)) [[y]] 1 1 =
            (mkRing 1 cap [memcpy_list p 0 [y] 1] 1 (2 ^ 64 - 1), 1)) as E2.
  { intros p. unfold push. simpl. rewrite Ecap.
    replace (u64[0 - (2 ^ 64 - 1)]) with 1 by reflexivity.
    replace (u64[1]) with 1 by reflexivity.
    rewrite (wrap_small 64 (cap - 1)), (Z.min_l 1 (cap - 1)) by lia.
    rewrite Z.mod_0_l, Z.sub_0_r, Ecap, (Z.min_l 1 cap), Z.sub_diag by lia.
    replace (u64[0]) with 0 by reflexivity. replace (u64[0 + 1]) with 1 by reflexivity.
    reflexivity. }
  rewrite E2.
  assert (forall p, pop (mkRing 1 cap [p] 1 (2 ^ 64 - 1)) [[o0; o1]] 1 2 =
            (mkRing 1 cap [p] 1 1, [take 2 (drop (Z.to_nat m) p)], 2)) as E3.
  { intros p. unfold pop. simpl.
    replace (u64[2]) with 2 by reflexivity.
    replace (u64[1 - (2 ^ 64 - 1)]) with 2 by reflexivity.
    rewrite Z.min_id, Ecap. fold m.
    rewrite (wrap_small 64 (cap - m)), (Z.min_l 2 (cap - m)), Z.sub_diag by lia.
    replace (u64[2 ^ 64 - 1 + 2]) with 1 by reflexivity.
    replace (u64[0]) with 0 by reflexivity. replace (i32[2]) with 2 by reflexivity.
    unfold planes_read, plane_read, memcpy_list. simpl. by rewrite ?app_nil_r. }
  rewrite E3. split_and!; try done. f_equal.
  assert (Hm0 : (Z.to_nat m + 1 <= length plane)%nat) by lia.
  assert (Hl1 : length (memcpy_list plane (Z.to_nat m) [x] 1) = Z.to_nat cap)
    by (rewrite length_memcpy_list; simpl; lia).
  assert (Hl2 : length (memcpy_list (memcpy_list plane (Z.to_nat m) [x] 1) 0 [y] 1) = Z.to_nat cap)
    by (rewrite length_memcpy_list; simpl; lia).
  rewrite (take2_drop zero) by lia.
  rewrite !lookup_memcpy_list by (simpl; lia).
  destruct (Z.eqb_spec m 0) as [E0 | E0]; rewrite ?E0;
    repeat first [rewrite decide_True by lia | rewrite decide_False by lia]; simpl.
  all: rewrite ?Nat.sub_diag; simpl; repeat f_equal; lia.
Qed.
End RingClaims.

(** ** Concrete runs *)

(** The scenario of the spec's test list ("capacity 1024, push 700
    then 700 more, pop 1400 returns the exact original sequence") does not
    happen in the code: the second push accepts only the 324 free frames,
    and the pop returns the first 1024 samples of the pattern. *)
Theorem spec_scenario_1024 :
  match new_ring (0 : Z) 1 1024 with
  | Some rb0 =>
      let '(rb1, k1) := push rb0 [seqZ 0 700] 1 700 in
      let '(rb2, k2) := push rb1 [seqZ 700 700] 1 700 in
      let '(_, out, k3) := pop rb2 [replicate 1400 0] 1 1400 in
      k1 = 700 /\ k2 = 324 /\ k3 = 1024 /\ out = [seqZ 0 1024 ++ replicate 376 0]
  | None => False
  end.
Proof. vm_compute. split_and!; reflexivity. Qed.

(** The wrap on a ring of capacity 3: the pop returns [2; 0]. *)
Lemma cursor_wrap_overwrites_witness :
  (let rb0 := mkRing 1 3 [[0; 0; 0]] (2 ^ 64 - 1) (2 ^ 64 - 1) in
   let m := (2 ^ 64 - 1) mod 3 in
   ring_wf rb0 /\
   let '(rb1, k1) := push rb0 [[1]] 1 1 in
   let '(rb2, k2) := push rb1 [[2]] 1 1 in
   let '(_, out, k3) := pop rb2 [[0; 0]] 1 2 in
   k1 = 1 /\ k2 = 1 /\ k3 = 2 /\
   out = [[if m =? 0 then 2 else 1; default 0 ([0; 0; 0] !! Z.to_nat (m + 1))]]) /\
  (if (2 ^ 64 - 1) mod 3 =? 0 then 2 else 1) = 2.
Proof.
  split; [| reflexivity].
  apply (cursor_wrap_overwrites 0 3 [0; 0; 0] 1 2 0 0); [rewrite INT_MAX_val; lia | discriminate | reflexivity].
Defined.

(** Witnesses of the hypotheses of C1-C5 on a two-channel ring of capacity
    4 whose cursors sit at 3, so that three frames wrap around the end. *)
Definition ex_ring : RingBuffer Z := mkRing 2 4 [[0; 0; 0; 0]; [0; 0; 0; 0]] 3 3.
Definition ex_in : list (list Z) := [[1; 2; 3]; [4; 5; 6]].
Definition ex_out : list (list Z) := [[0; 0; 0]; [0; 0; 0]].
Definition ex_ops : list (ring_op Z) :=
  [OpPush ex_in 2 3; OpPop ex_out 2 2; OpPush ex_in 2 (-1); OpClear; OpPush ex_in 2 3].

Lemma ring_capacity_invariant_witness :
  match new_ring (0 : Z) 2 4 with
  | Some rb0 => mCapacityFrames (run_ops 0 rb0 ex_ops) = 4 /\
                0 <= filled (run_ops 0 rb0 ex_ops) <= 4 /\ cursor_inv (run_ops 0 rb0 ex_ops)
  | None => False
  end.
Proof.
  apply (ring_capacity_invariant 0 2 4 _ ex_ops); [reflexivity | rewrite INT_MAX_val; lia].
Defined.

Lemma push_spec_witness :
  let '(rb', n) := push ex_ring ex_in 2 3 in
  n = Z.min 3 (mCapacityFrames ex_ring - filled ex_ring) /\
  ring_wf rb' /\ filled rb' = filled ex_ring + n /\
  mReadIndex rb' = mReadIndex ex_ring /\ mWriteIndex rb' = mWriteIndex ex_ring + n /\
  (forall ch, (ch < Z.to_nat (Z.min 2 (mChannels ex_ring)))%nat ->
     contents 0 rb' ch = contents 0 ex_ring ch ++ take (Z.to_nat n) (default [] (ex_in !! ch))).
Proof.
  apply (push_spec 0 ex_ring ex_in 2 3);
    first [apply (bool_decide_unpack _); vm_compute; exact I | vm_compute; lia].
Defined.

Lemma pop_spec_witness :
  let rb := fst (push ex_ring ex_in 2 3) in
  let '(rb', out', n) := pop rb ex_out 2 2 in
  n = Z.min 2 (filled rb) /\
  ring_wf rb' /\ filled rb' = filled rb - n /\
  mWriteIndex rb' = mWriteIndex rb /\ mReadIndex rb' = mReadIndex rb + n /\
  mData rb' = mData rb /\
  (forall ch, (ch < Z.to_nat (Z.min 2 (mChannels rb)))%nat ->
     take (Z.to_nat n) (default [] (out' !! ch)) = take (Z.to_nat n) (contents 0 rb ch) /\
     drop (Z.to_nat n) (default [] (out' !! ch)) = drop (Z.to_nat n) (default [] (ex_out !! ch)) /\
     contents 0 rb' ch = drop (Z.to_nat n) (contents 0 rb ch)) /\
  (forall ch, (Z.to_nat (Z.min 2 (mChannels rb)) <= ch)%nat -> out' !! ch = ex_out !! ch).
Proof.
  apply (pop_spec 0 (fst (push ex_ring ex_in 2 3)) ex_out 2 2);
    first [apply (bool_decide_unpack _); vm_compute; exact I | vm_compute; lia].
Defined.

Lemma push_pop_roundtrip_witness :
  let '(rb1, k1) := push ex_ring ex_in 2 3 in
  let '(rb2, out', k2) := pop rb1 ex_out 2 3 in
  k1 = 3 /\ k2 = 3 /\ filled rb2 = 0 /\
  forall ch, (ch < Z.to_nat (Z.min 2 (mChannels ex_ring)))%nat ->
    take (Z.to_nat 3) (default [] (out' !! ch)) = take (Z.to_nat 3) (default [] (ex_in !! ch)).
Proof.
  apply (push_pop_roundtrip 0 ex_ring ex_in ex_out 2 3);
    first [apply (bool_decide_unpack _); vm_compute; exact I | vm_compute; lia | reflexivity].
Defined.

Lemma push_negative_frames_witness :
  snd (push ex_ring ex_in 2 (-1)) = mCapacityFrames ex_ring - filled ex_ring.
Proof.
  apply (push_negative_frames ex_ring ex_in 2 (-1));
    first [apply (bool_decide_unpack _); vm_compute; exact I | lia].
Defined.
