(* ===== verification/Fifo.v ===== *)
(** * Fifo: the bounded FIFO queue both ring buffers promise

    The repository has two single-producer/single-consumer ring buffers:
    the planar [atome::RingBuffer] of ring_buffer.cpp (file [RingBuffer])
    and the one-element [SPSCRingBuffer<T>] template of
    native/iplug/dsp/RingBuffer.h (file [SPSC]).  What a producer and a
    consumer rely on is the same contract: a queue of bounded room,
    [push] appends when there is room and reports whether it did, [pop]
    removes the oldest element.  This file states that contract:
    - the abstract queue ([apush], [apop], [arun]);
    - the interface [BoundedQueue] (operations, abstraction to a list,
      room, and a well-formedness predicate [bq_ok q n] that says the
      state can take [n] more calls) with its laws [BoundedQueueLaws];
    - the client theorem [run_queue_refines], proved once against the
      interface: any sequence of calls on an implementation returns what
      the abstract queue returns;
    - the instance of the planar ring used with one channel and one frame
      per call ([ring_push1], [ring_pop1]), whose laws are discharged by
      the refinement lemmas of [RingBuffer]. *)

From S2P Require Import Prelude RingBuffer.
From stdpp Require Import base list.
From Stdlib Require Import ZArith Lia.
Open Scope Z_scope.

Section AbstractQueue.
Context {T : Type}.

(** The calls a client makes and what each returns. *)
Inductive qop : Type := QPush (v : T) | QPop.
Inductive qres : Type := RPushed (ok : bool) | RPopped (r : option T).

(** The abstract bounded queue of room [room]. *)
Definition apush (room : nat) (xs : list T) (v : T) : list T * bool :=
  if decide (length xs < room)%nat then (xs ++ [v], true) else (xs, false).

Definition apop (xs : list T) : list T * option T :=
  match xs with [] => ([], None) | v :: r => (r, Some v) end.

Definition astep (room : nat) (xs : list T) (op : qop) : list T * qres :=
  match op with
  | QPush v => let '(xs', b) := apush room xs v in (xs', RPushed b)
  | QPop => let '(xs', r) := apop xs in (xs', RPopped r)
  end.

Fixpoint arun (room : nat) (xs : list T) (ops : list qop) : list T * list qres :=
  match ops with
  | [] => (xs, [])
  | op :: ops' =>
      let '(xs1, r) := astep room xs op in
      let '(xs2, rs) := arun room xs1 ops' in (xs2, r :: rs)
  end.

End AbstractQueue.
Arguments qop : clear implicits.
Arguments qres : clear implicits.

(** What an implementation provides.  [None] results are undefined
    behaviour of the code (an access outside its storage). *)
Class BoundedQueue (Q T : Type) := {
  bq_push : Q -> T -> option (Q * bool);
  bq_pop : Q -> option (Q * option T);
  bq_contents : Q -> list T;
  bq_room : Q -> nat;
  bq_ok : Q -> nat -> Prop
}.

(** What it promises: on a state good for one more call, each call is
    defined, acts on the abstraction as the abstract queue does, keeps the
    room, and leaves a state good for the remaining calls. *)
Class BoundedQueueLaws (Q T : Type) `{BoundedQueue Q T} := {
  bq_push_law q n v : bq_ok q (S n) ->
    exists q' b, bq_push q v = Some (q', b) /\ bq_ok q' n /\ bq_room q' = bq_room q /\
      (bq_contents q', b) = apush (bq_room q) (bq_contents q) v;
  bq_pop_law q n : bq_ok q (S n) ->
    exists q' r, bq_pop q = Some (q', r) /\ bq_ok q' n /\ bq_room q' = bq_room q /\
      (bq_contents q', r) = apop (bq_contents q)
}.

Section ClientCalls.
Context {Q T : Type} `{BoundedQueue Q T}.

(** A client issuing the calls [ops] one after the other. *)
Definition qstep (q : Q) (op : qop T) : option (Q * qres T) :=
  match op with
  | QPush v => '(q', b) ← bq_push q v; Some (q', RPushed b)
  | QPop => '(q', r) ← bq_pop q; Some (q', RPopped r)
  end.

Fixpoint run_queue (q : Q) (ops : list (qop T)) : option (Q * list (qres T)) :=
  match ops with
  | [] => Some (q, [])
  | op :: ops' =>
      '(q1, r) ← qstep q op;
      '(q2, rs) ← run_queue q1 ops';
      Some (q2, r :: rs)
  end.

End ClientCalls.

(** ** The planar ring as a bounded queue *)

Section RingQueueCalls.
Context {T : Type} (zero : T).

(** A client of [atome::RingBuffer] that moves one sample at a time on a
    one-channel ring: [push(&in, 1, 1)] with a one-sample input plane and
    [pop(&out, 1, 1)] into a one-sample output plane; a call succeeded
    when the code returns 1. *)
Definition ring_push1 (rb : RingBuffer T) (v : T) : option (RingBuffer T * bool) :=
  let '(rb', n) := push rb [[v]] 1 1 in Some (rb', bool_decide (n = 1)).

Definition ring_pop1 (rb : RingBuffer T) : option (RingBuffer T * option T) :=
  let '(rb', out, n) := pop rb [[zero]] 1 1 in
  Some (rb', if bool_decide (n = 1) then head (default [] (out !! 0%nat)) else None).

(** Well formed, one channel, and no cursor reaching 2^64 within [n]
    more calls. *)
Definition ring_ok (rb : RingBuffer T) (n : nat) : Prop :=
  ring_wf rb /\ mChannels rb = 1 /\ mReadIndex rb <= mWriteIndex rb /\
  mWriteIndex rb + Z.of_nat n < 2 ^ 64.

#[export] Instance ring_bq : BoundedQueue (RingBuffer T) T := {
  bq_push := ring_push1;
  bq_pop := ring_pop1;
  bq_contents rb := contents zero rb 0;
  bq_room rb := Z.to_nat (mCapacityFrames rb);
  bq_ok := ring_ok
}.

End RingQueueCalls.

(** ** Proofs against the interface *)

Section Client.
Context {Q T : Type} `{BoundedQueueLaws Q T}.

Lemma qstep_law q n op :
  bq_ok q (S n) ->
  exists q' r, qstep q op = Some (q', r) /\ bq_ok q' n /\ bq_room q' = bq_room q /\
    (bq_contents q', r) = astep (bq_room q) (bq_contents q) op.
Proof.
  intros Hok. destruct op as [v |]; simpl.
  - destruct (bq_push_law q n v Hok) as (q' & b & -> & Hok' & Hroom & Hc).
    exists q', (RPushed b). simpl. rewrite <- Hc. auto.
  - destruct (bq_pop_law q n Hok) as (q' & r & -> & Hok' & Hroom & Hc).
    exists q', (RPopped r). simpl. rewrite <- Hc. auto.
Qed.

(** The client theorem: a state good for [length ops] calls runs the
    whole sequence, with the results and the final queue of the abstract
    queue. *)
Lemma run_queue_refines q ops :
  bq_ok q (length ops) ->
  exists q', run_queue q ops = Some (q', snd (arun (bq_room q) (bq_contents q) ops)) /\
    bq_contents q' = fst (arun (bq_room q) (bq_contents q) ops).
Proof.
  revert q. induction ops as [| op ops IH]; intros q Hok; simpl.
  - by exists q.
  - destruct (qstep_law q _ op Hok) as (q1 & r & -> & Hok1 & Hroom & Hc). simpl.
    destruct (IH q1 Hok1) as (q2 & -> & Hc2). simpl.
    rewrite <- Hc, <- Hroom. simpl.
    destruct (arun _ _ _) as [xs2 rs] eqn:E. simpl in *. by exists q2.
Qed.

End Client.

(** ** The abstract queue transfers what it is given, in order *)

Lemma arun_pushes {T} room (xs ys : list T) :
  (length xs + length ys <= room)%nat ->
  arun room xs (QPush <$> ys) = (xs ++ ys, (fun _ => RPushed true) <$> ys).
Proof.
  revert xs. induction ys as [| y ys IH]; intros xs Hlen; simpl in *.
  - by rewrite app_nil_r.
  - unfold apush. rewrite decide_True by lia.
    rewrite IH by (rewrite length_app; simpl; lia). by rewrite <- app_assoc.
Qed.

Lemma arun_pops {T} room (xs : list T) :
  arun room xs (replicate (length xs) QPop) = ([], (fun v => RPopped (Some v)) <$> xs).
Proof. induction xs as [| x xs IH]; simpl; [done |]. by rewrite IH. Qed.

Lemma arun_app {T} room (xs : list T) ops1 ops2 :
  arun room xs (ops1 ++ ops2) =
    let '(xs1, rs1) := arun room xs ops1 in
    let '(xs2, rs2) := arun room xs1 ops2 in (xs2, rs1 ++ rs2).
Proof.
  revert xs. induction ops1 as [| op ops1 IH]; intros xs; simpl.
  - by destruct (arun room xs ops2).
  - destruct (astep room xs op) as [xs1 r]. rewrite IH.
    destruct (arun room xs1 ops1) as [xs2 rs1].
    by destruct (arun room xs2 ops2).
Qed.

Section RingQueue.
Context {T : Type} (zero : T).

Lemma planes_cover_one (v : T) : planes_cover [[v]] (Z.min 1 1) 1.
Proof. apply (bool_decide_unpack _). by vm_compute. Qed.

Lemma head_take_1 (l : list T) x : take 1 l = [x] -> head l = Some x.
Proof. destruct l; simpl; congruence. Qed.

#[export] Instance ring_bq_laws : @BoundedQueueLaws (RingBuffer T) T (ring_bq zero).
Proof.
  split; intros rb n; simpl.
  - intros v (Hwf & Hch & Hrw & Hov). unfold ring_push1.
    assert (planes_cover [[v]] (Z.min 1 (mChannels rb)) 1) as Hcov
      by (rewrite Hch; apply planes_cover_one).
    assert (0 <= 1 <= INT_MAX) as H1 by (rewrite INT_MAX_val; lia).
    pose proof (push_filled rb [[v]] 1 1 (proj1 Hwf) H1) as [Hk _].
    pose proof (push_fields rb [[v]] 1 1 (proj1 Hwf) H1) as (Hc1 & Hc2 & Hr & Hw).
    pose proof (push_contents zero rb [[v]] 1 1 0 Hwf H1 Hcov) as Hct.
    pose proof (push_cursor_inv rb [[v]] 1 1 (proj1 Hwf)) as Hinv'.
    pose proof (push_shape rb [[v]] 1 1 Hwf H1 Hcov) as Hsh'.
    pose proof (length_contents zero rb 0) as Hlen.
    destruct (push rb [[v]] 1 1) as [rb' k] eqn:E; simpl in *.
    assert (ring_wf rb') as Hwf' by done.
    pose proof (filled_range rb). destruct Hwf as [Hinv Hsh]. cursor_facts rb.
    rewrite Hw, Hk in *. rewrite wrap_small in * by lia.
    eexists rb', _. split; [done |]. split_and!.
    + split_and!; try done; try lia.
    + by rewrite Hc2.
    + rewrite Hct by (rewrite ?Hch; lia). unfold apush.
      destruct (decide _) as [Hlt | Hge].
      * rewrite Z.min_l by lia. simpl. by rewrite ?bool_decide_eq_true_2.
      * rewrite Z.min_r by lia. replace (_ - _) with 0 by lia. simpl.
        by rewrite app_nil_r.
  - intros (Hwf & Hch & Hrw & Hov). unfold ring_pop1.
    assert (planes_cover [[zero]] (Z.min 1 (mChannels rb)) 1) as Hcov
      by (rewrite Hch; apply planes_cover_one).
    assert (0 <= 1 <= INT_MAX) as H1 by (rewrite INT_MAX_val; lia).
    pose proof (pop_filled rb [[zero]] 1 1 (proj1 Hwf) H1) as [Hk _].
    pose proof (pop_fields rb [[zero]] 1 1 (proj1 Hwf) H1) as (Hc1 & Hc2 & Hd & Hw & Hr).
    pose proof (pop_contents zero rb [[zero]] 1 1 0 Hwf H1 Hcov) as Hct.
    pose proof (pop_cursor_inv rb [[zero]] 1 1 (proj1 Hwf)) as Hinv'.
    pose proof (pop_shape rb [[zero]] 1 1 (proj2 Hwf)) as Hsh'.
    pose proof (length_contents zero rb 0) as Hlen.
    destruct (pop rb [[zero]] 1 1) as [[rb' out'] k] eqn:E; simpl in *.
    assert (ring_wf rb') as Hwf' by done.
    destruct Hct as (Htake & _ & Hrest); [rewrite ?Hch; lia | done |].
    pose proof (filled_range rb). destruct Hwf as [Hinv Hsh].
    pose proof (filled_nowrap rb Hinv Hrw). cursor_facts rb.
    rewrite Hr, Hk in *. rewrite wrap_small in * by lia.
    eexists rb', _. split; [done |]. split_and!.
    + split_and!; try done; try lia.
    + by rewrite Hc2.
    + rewrite Hrest. destruct (contents zero rb 0) as [| x xs] eqn:Ec; simpl in *.
      * assert (filled rb = 0) as -> by lia. done.
      * rewrite Z.min_l in * by lia. simpl in *.
        f_equal. by apply head_take_1.
Qed.

Lemma new_ring_ok cap rb n :
  0 <= cap <= INT_MAX -> new_ring zero 1 cap = Some rb -> Z.of_nat n < 2 ^ 64 ->
  ring_ok rb n /\ contents zero rb 0 = [].
Proof.
  intros Hc Hn Hlen.
  pose proof (new_ring_cursor_inv zero 1 cap rb Hn Hc) as Hinv.
  pose proof (new_ring_shape zero 1 cap rb Hn) as Hsh.
  destruct (new_ring_fields zero 1 cap rb Hn) as (Hch & _ & Hr & Hw & _).
  split; [split_and!; [split | | |]; try done; lia |].
  apply contents_empty. unfold filled. by rewrite Hr, Hw.
Qed.

(** C33: a one-channel [atome::RingBuffer] fresh from its constructor,
    used one sample per call, behaves for any sequence of fewer than 2^64
    calls as the abstract bounded queue of room [capacityFrames]: each
    push succeeds exactly when fewer than [capacityFrames] samples are
    queued, each pop returns the oldest queued sample, and the queue left
    is the abstract one. *)
Theorem ring_queue_refines cap rb (ops : list (qop T)) :
  0 <= cap <= INT_MAX -> new_ring zero 1 cap = Some rb ->
  Z.of_nat (length ops) < 2 ^ 64 ->
  exists rb', @run_queue _ _ (ring_bq zero) rb ops = Some (rb', snd (arun (Z.to_nat cap) [] ops)) /\
    contents zero rb' 0 = fst (arun (Z.to_nat cap) [] ops).
Proof.
  intros Hc Hn Hlen. destruct (new_ring_ok cap rb _ Hc Hn Hlen) as [Hok Hnil].
  destruct (new_ring_fields zero 1 cap rb Hn) as (_ & Hcap & _).
  destruct (@run_queue_refines _ _ (ring_bq zero) ring_bq_laws rb ops Hok) as (rb' & Hrun & Hct).
  simpl in Hrun, Hct. rewrite Hnil, Hcap in *. eauto.
Qed.

End RingQueue.

(** ** Witnesses *)

Definition ex_ring1 : RingBuffer Z := mkRing 1 2 [[0; 0]] 0 0.
Definition ex_qops : list (qop Z) :=
  [QPush 1; QPush 2; QPush 3; QPop; QPush 4; QPop; QPop; QPop].

Lemma ring_queue_refines_witness :
  new_ring 0 1 2 = Some ex_ring1 /\
  exists rb', @run_queue _ _ (ring_bq 0) ex_ring1 ex_qops = Some (rb', snd (arun 2 [] ex_qops)) /\
    contents 0 rb' 0 = fst (arun 2 [] ex_qops).
Proof.
  split; [reflexivity |].
  apply (ring_queue_refines 0 2 ex_ring1 ex_qops); discharge.
Defined.
