(* ===== verification/SPSC.v ===== *)
(** * SPSC: the lock-free [SPSCRingBuffer<T>] of [src/src/native/iplug/dsp/RingBuffer.h]

    A one-element single-producer/single-consumer queue: a fixed array
    [T mBuf[1<<12]], a capacity given to the constructor, a mask
    [capacity - 1], and two [size_t] indices that [push] and [pop] keep
    reduced by the mask.  This file translates the constructor, [push],
    [pop] and [capacity()], and proves:
    - with a power-of-two capacity of at most 4096 slots, the template is
      an implementation of the bounded queue of [Fifo] whose room is
      [capacity - 1] (one slot stays empty to tell full from empty);
    - with an odd capacity the mask clears bit 0 and every push fails;
    - with a power-of-two capacity above 4096 the 4097th push writes
      past the end of [mBuf];
    - split into their atomic loads and stores, a producer and a consumer
      running concurrently in any interleaving transfer the producer's
      items in order, without loss or duplication (the relation
      [sys_step] and its invariant [sys_inv]).
    The memory orders ([relaxed], [acquire], [release]) are not
    modelled: the interleaving is sequentially consistent. *)

From S2P Require Import Prelude Fifo.
From stdpp Require Import base list relations.
From Stdlib Require Import ZArith Lia.
Open Scope Z_scope.

Module SPSC.

Section SPSCDefs.
(** The element type and the value a slot holds before its first write
    (the default-initialised [mBuf]). *)
Context {T : Type} (dflt : T).

(** [T mBuf[1<<12]]. *)
Definition kSlots : Z := 2 ^ 12.

(** The fields of the template, in declaration order. *)
Record SPSCRingBuffer := mkSPSC {
  mCapacity : Z;     (* const size_t *)
  mMask : Z;         (* const size_t *)
  mWrite : Z;        (* std::atomic<size_t> *)
  mRead : Z;         (* std::atomic<size_t> *)
  mBuf : list T      (* T[1<<12] *)
}.

(** [explicit SPSCRingBuffer(size_t capacity)]: [mMask(capacity-1)] in
    [size_t] arithmetic. *)
Definition new_spsc (capacity : Z) : SPSCRingBuffer :=
  mkSPSC capacity u64[capacity - 1] 0 0 (replicate (Z.to_nat kSlots) dflt).

(** [bool push(const T& v)], lines 15-22.  The slot [w & mMask] lies
    outside [mBuf] when the mask exceeds the array: [None]. *)
Definition push (q : SPSCRingBuffer) (v : T) : option (SPSCRingBuffer * bool) :=
  let w := mWrite q in
  let r := mRead q in
  if bool_decide (Z.land u64[w + 1] (mMask q) = r) then Some (q, false)
  else
    let i := Z.land w (mMask q) in
    if bool_decide (i < kSlots) then
      Some (mkSPSC (mCapacity q) (mMask q) (Z.land u64[w + 1] (mMask q)) r
              (<[Z.to_nat i := v]> (mBuf q)), true)
    else None.

(** [bool pop(T& out)], lines 23-30: the new queue and the value stored
    into [out] when the call returns [true]. *)
Definition pop (q : SPSCRingBuffer) : option (SPSCRingBuffer * option T) :=
  let r := mRead q in
  let w := mWrite q in
  if bool_decide (r = w) then Some (q, None)
  else
    match mBuf q !! Z.to_nat (Z.land r (mMask q)) with
    | Some v =>
        Some (mkSPSC (mCapacity q) (mMask q) w (Z.land u64[r + 1] (mMask q)) (mBuf q),
              Some v)
    | None => None
    end.

(** [size_t capacity() const]. *)
Definition capacity (q : SPSCRingBuffer) : Z := mCapacity q.

(** ** Abstract view *)

(** The number of queued elements and the queue, read from the read
    index forward around the [mCapacity] slots. *)
Definition spsc_size (q : SPSCRingBuffer) : Z := (mWrite q - mRead q) mod mCapacity q.

Definition spsc_contents (q : SPSCRingBuffer) : list T :=
  (fun j => default dflt (mBuf q !! Z.to_nat ((mRead q + Z.of_nat j) mod mCapacity q)))
    <$> seq 0 (Z.to_nat (spsc_size q)).

(** The shape the code needs: a power-of-two capacity that fits the
    array, the mask of the constructor, reduced indices. *)
Definition spsc_wf (q : SPSCRingBuffer) : Prop :=
  1 <= mCapacity q <= kSlots /\ mCapacity q = 2 ^ Z.log2 (mCapacity q) /\
  mMask q = mCapacity q - 1 /\
  0 <= mRead q < mCapacity q /\ 0 <= mWrite q < mCapacity q /\
  length (mBuf q) = Z.to_nat kSlots.

#[export] Instance spsc_wf_dec q : Decision (spsc_wf q).
Proof. unfold spsc_wf. apply _. Defined.

#[export] Instance spsc_bq : BoundedQueue SPSCRingBuffer T := {
  bq_push := push;
  bq_pop := pop;
  bq_contents := spsc_contents;
  bq_room q := Z.to_nat (mCapacity q - 1);
  bq_ok q _ := spsc_wf q
}.

(** ** The producer and the consumer as concurrent threads *)

(** Where the producer stands inside the [push] of the head of its list:
    after [mWrite.load], after [mRead.load], after [mBuf[w & mMask] = v]
    (before the release store of [mWrite]). *)
Inductive prod_pc : Type :=
| PIdle
| PLoadedW (w : Z)
| PLoadedR (w r : Z)
| PStored (w : Z).

(** Where the consumer stands inside [pop]: after [mRead.load], after
    [mWrite.load], after [out = mBuf[r & mMask]] (before the release
    store of [mRead]). *)
Inductive cons_pc : Type :=
| CIdle
| CLoadedR (r : Z)
| CLoadedW (r w : Z)
| CRead (r : Z) (v : T).

(** The shared queue, the two threads, the items the producer has still
    to push (it retries a push that returned [false]), the items whose
    push returned [true] (a ghost record), and what the consumer has
    popped, in order. *)
Record sys := mkSys {
  squeue : SPSCRingBuffer;
  sprod : prod_pc;
  scons : cons_pc;
  spending : list T;
  ssent : list T;
  sreceived : list T
}.

Definition sys_init (items : list T) (capacity : Z) : sys :=
  mkSys (new_spsc capacity) PIdle CIdle items [] [].

Definition with_queue (s : sys) (q : SPSCRingBuffer) (p : prod_pc) (c : cons_pc) : sys :=
  mkSys q p c (spending s) (ssent s) (sreceived s).

(** One atomic action of either thread; the other thread's local state is
    untouched. *)
Inductive sys_step : sys -> sys -> Prop :=
| PLoadW s v rest :
    sprod s = PIdle -> spending s = v :: rest ->
    sys_step s (with_queue s (squeue s) (PLoadedW (mWrite (squeue s))) (scons s))
| PLoadR s w :
    sprod s = PLoadedW w ->
    sys_step s (with_queue s (squeue s) (PLoadedR w (mRead (squeue s))) (scons s))
| PFull s w r :
    sprod s = PLoadedR w r -> Z.land u64[w + 1] (mMask (squeue s)) = r ->
    sys_step s (with_queue s (squeue s) PIdle (scons s))
| PStore s w r v rest :
    sprod s = PLoadedR w r -> Z.land u64[w + 1] (mMask (squeue s)) <> r ->
    spending s = v :: rest -> Z.land w (mMask (squeue s)) < kSlots ->
    let q := squeue s in
    sys_step s (with_queue s
      (mkSPSC (mCapacity q) (mMask q) (mWrite q) (mRead q)
         (<[Z.to_nat (Z.land w (mMask q)) := v]> (mBuf q)))
      (PStored w) (scons s))
| PPublish s w v rest :
    sprod s = PStored w -> spending s = v :: rest ->
    let q := squeue s in
    sys_step s (mkSys
      (mkSPSC (mCapacity q) (mMask q) (Z.land u64[w + 1] (mMask q)) (mRead q) (mBuf q))
      PIdle (scons s) rest (ssent s ++ [v]) (sreceived s))
| CLoadR s :
    scons s = CIdle ->
    sys_step s (with_queue s (squeue s) (sprod s) (CLoadedR (mRead (squeue s))))
| CLoadW s r :
    scons s = CLoadedR r ->
    sys_step s (with_queue s (squeue s) (sprod s) (CLoadedW r (mWrite (squeue s))))
| CEmpty s r w :
    scons s = CLoadedW r w -> r = w ->
    sys_step s (with_queue s (squeue s) (sprod s) CIdle)
| CFetch s r w v :
    scons s = CLoadedW r w -> r <> w ->
    mBuf (squeue s) !! Z.to_nat (Z.land r (mMask (squeue s))) = Some v ->
    sys_step s (with_queue s (squeue s) (sprod s) (CRead r v))
| CPublish s r v :
    scons s = CRead r v ->
    let q := squeue s in
    sys_step s (mkSys
      (mkSPSC (mCapacity q) (mMask q) (mWrite q) (Z.land u64[r + 1] (mMask q)) (mBuf q))
      (sprod s) CIdle (spending s) (ssent s) (sreceived s ++ [v])).

(** The invariant of the interleavings.  What the producer believes in
    the middle of a push: its [w] is the write index, the read index it
    loaded is at most as far as the real one (the consumer may have
    advanced since), and after its store the queue has a free slot and
    the slot holds the item.  What the consumer believes in the middle of
    a pop: its [r] is the read index, the write index it loaded is at
    most as far as the real one, and the value it fetched is the head. *)
Definition prod_ok (q : SPSCRingBuffer) (pending : list T) (p : prod_pc) : Prop :=
  match p with
  | PIdle => True
  | PLoadedW w => w = mWrite q /\ pending <> []
  | PLoadedR w r =>
      w = mWrite q /\ pending <> [] /\ 0 <= r < mCapacity q /\
      spsc_size q <= (w - r) mod mCapacity q
  | PStored w =>
      w = mWrite q /\ spsc_size q < mCapacity q - 1 /\
      exists v rest, pending = v :: rest /\ mBuf q !! Z.to_nat w = Some v
  end.

Definition cons_ok (q : SPSCRingBuffer) (c : cons_pc) : Prop :=
  match c with
  | CIdle => True
  | CLoadedR r => r = mRead q
  | CLoadedW r w => r = mRead q /\ 0 <= w < mCapacity q /\ (w - r) mod mCapacity q <= spsc_size q
  | CRead r v => r = mRead q /\ head (spsc_contents q) = Some v
  end.

Definition sys_inv (s : sys) : Prop :=
  spsc_wf (squeue s) /\
  sreceived s ++ spsc_contents (squeue s) = ssent s /\
  prod_ok (squeue s) (spending s) (sprod s) /\
  cons_ok (squeue s) (scons s).

End SPSCDefs.
Arguments SPSCRingBuffer : clear implicits.
Arguments prod_pc : clear implicits.
Arguments cons_pc : clear implicits.
Arguments sys : clear implicits.

(** Rewrites the reductions of indices below [2 * cap] and the forward
    distances between reduced indices into case splits for [lia]. *)
Ltac mod_cases :=
  repeat (match goal with
          | |- context [(?k - ?b) mod ?c] => rewrite (mod_shift c b k) by lia
          | H : context [(?k - ?b) mod ?c] |- _ => rewrite (mod_shift c b k) in H by lia
          | |- context [?x mod ?c] => rewrite (mod_once c x) by lia
          | H : context [?x mod ?c] |- _ => rewrite (mod_once c x) in H by lia
          | |- context [?a <=? ?b] => destruct (Z.leb_spec a b)
          | |- context [?a <? ?b] => destruct (Z.ltb_spec a b)
          | H : context [?a <=? ?b] |- _ => destruct (Z.leb_spec a b)
          | H : context [?a <? ?b] |- _ => destruct (Z.ltb_spec a b)
          end; cbv iota in * );
  try lia.

Section SPSCProofs.
Context {T : Type} (dflt : T).
Implicit Types q : SPSCRingBuffer T.

(** ** Index arithmetic *)

(** With a power-of-two capacity, [x & (capacity - 1)] is [x mod capacity]. *)
Lemma land_mask cap x :
  1 <= cap -> cap = 2 ^ Z.log2 cap -> Z.land x (cap - 1) = x mod cap.
Proof.
  intros H1 H2. rewrite H2.
  rewrite Z.sub_1_r, <- Z.ones_equiv, Z.land_ones; [done | apply Z.log2_nonneg].
Qed.

Lemma size_bound r w c : 0 <= r < c -> 0 <= w < c -> 0 <= (w - r) mod c < c.
Proof. intros. apply Z.mod_pos_bound. lia. Qed.

(** The producer's test: the slot after [w] is [r] exactly when the
    distance from [r] to [w] is [c - 1]. *)
Lemma full_iff r w c :
  0 <= r < c -> 0 <= w < c -> (w + 1) mod c = r <-> (w - r) mod c = c - 1.
Proof. intros. mod_cases; split; intros; lia. Qed.

Lemma size_succ r w c :
  0 <= r < c -> 0 <= w < c -> (w - r) mod c < c - 1 ->
  ((w + 1) mod c - r) mod c = (w - r) mod c + 1.
Proof. intros. mod_cases. Qed.

Lemma size_pred r w c :
  0 <= r < c -> 0 <= w < c -> r <> w ->
  (w - (r + 1) mod c) mod c = (w - r) mod c - 1.
Proof. intros. mod_cases. Qed.

(** The [j]-th queued slot is the write slot exactly when [j] is the
    queue length. *)
Lemma queued_slot r w c j :
  0 <= r < c -> 0 <= w < c -> 0 <= j <= (w - r) mod c ->
  ((r + j) mod c = w <-> j = (w - r) mod c).
Proof. intros. mod_cases; split; intros; lia. Qed.

Lemma next_slot r c j :
  0 < c -> ((r + 1) mod c + j) mod c = (r + (j + 1)) mod c.
Proof. intros. rewrite Z.add_mod_idemp_l by lia. f_equal. lia. Qed.

(** ** The queue read back *)

Lemma lookup_spsc_contents q j :
  spsc_contents dflt q !! j =
    if decide (j < Z.to_nat (spsc_size q))%nat
    then Some (default dflt (mBuf q !! Z.to_nat ((mRead q + Z.of_nat j) mod mCapacity q)))
    else None.
Proof.
  unfold spsc_contents. rewrite list_lookup_fmap.
  case_decide.
  - by rewrite lookup_seq_lt.
  - by rewrite lookup_seq_ge by lia.
Qed.

Lemma length_spsc_contents q : length (spsc_contents dflt q) = Z.to_nat (spsc_size q).
Proof. unfold spsc_contents. by rewrite length_fmap, length_seq. Qed.

(** ** [push] and [pop] on a well-formed queue *)

Lemma spsc_push_eq q v :
  spsc_wf q ->
  push q v =
    if bool_decide (spsc_size q = mCapacity q - 1) then Some (q, false)
    else Some (mkSPSC (mCapacity q) (mMask q) ((mWrite q + 1) mod mCapacity q) (mRead q)
                 (<[Z.to_nat (mWrite q) := v]> (mBuf q)), true).
Proof.
  intros (Hc & Hpow & Hm & Hr & Hw & Hlen). change kSlots with 4096 in *.
  unfold push, spsc_size. change kSlots with 4096.
  rewrite (wrap_small 64 (mWrite q + 1)) by (rewrite Z_pow2_64; lia).
  rewrite Hm, !land_mask by first [lia | done]. rewrite (Z.mod_small (mWrite q)) by lia.
  rewrite (bool_decide_ext _ _ (full_iff (mRead q) (mWrite q) (mCapacity q) Hr Hw)).
  case_bool_decide; [done |]. by rewrite bool_decide_eq_true_2 by lia.
Qed.

Lemma spsc_pop_eq q :
  spsc_wf q ->
  pop q =
    if bool_decide (mRead q = mWrite q) then Some (q, None)
    else Some (mkSPSC (mCapacity q) (mMask q) (mWrite q) ((mRead q + 1) mod mCapacity q) (mBuf q),
               Some (default dflt (mBuf q !! Z.to_nat (mRead q)))).
Proof.
  intros (Hc & Hpow & Hm & Hr & Hw & Hlen). change kSlots with 4096 in *.
  unfold pop. case_bool_decide; [done |].
  rewrite Hm, !land_mask by first [lia | done]. rewrite (Z.mod_small (mRead q)) by lia.
  rewrite (wrap_small 64 (mRead q + 1)) by (rewrite Z_pow2_64; lia).
  destruct (lookup_lt_is_Some_2 (mBuf q) (Z.to_nat (mRead q))) as [x Hx]; [lia |].
  by rewrite Hx.
Qed.

Lemma spsc_wf_step q w' r' (buf' : list T) :
  spsc_wf q -> 0 <= w' < mCapacity q -> 0 <= r' < mCapacity q ->
  length buf' = length (mBuf q) ->
  spsc_wf (mkSPSC (mCapacity q) (mMask q) w' r' buf').
Proof. intros (Hc & Hpow & Hm & Hr & Hw & Hlen) ? ? ?. unfold spsc_wf; simpl. lia. Qed.

Lemma Z_to_nat_ne a b : 0 <= a -> 0 <= b -> a <> b -> Z.to_nat a <> Z.to_nat b.
Proof. lia. Qed.

(** Storing into the slot at the write index changes no queued element
    while the queue has a free slot besides it. *)
Lemma spsc_contents_store q v :
  spsc_wf q -> spsc_size q < mCapacity q - 1 ->
  spsc_contents dflt (mkSPSC (mCapacity q) (mMask q) (mWrite q) (mRead q)
                        (<[Z.to_nat (mWrite q) := v]> (mBuf q))) =
    spsc_contents dflt q.
Proof.
  intros Hwf Hnf. pose proof Hwf as (Hc & Hpow & Hm & Hr & Hw & Hlen).
  pose proof (size_bound (mRead q) (mWrite q) (mCapacity q) Hr Hw).
  apply list_eq. intros j. rewrite !lookup_spsc_contents. unfold spsc_size in *; simpl.
  pose proof (Z.mod_pos_bound (mRead q + Z.of_nat j) (mCapacity q) ltac:(lia)).
  case_decide; [| done]. rewrite list_lookup_insert_ne; [done |].
  apply Z_to_nat_ne; try lia. intros Heq. symmetry in Heq.
  apply (queued_slot (mRead q) (mWrite q) (mCapacity q)) in Heq; lia.
Qed.

(** Advancing the write index past a slot that holds [v] appends [v]. *)
Lemma spsc_contents_publish q v :
  spsc_wf q -> spsc_size q < mCapacity q - 1 -> mBuf q !! Z.to_nat (mWrite q) = Some v ->
  spsc_contents dflt (mkSPSC (mCapacity q) (mMask q) ((mWrite q + 1) mod mCapacity q)
                        (mRead q) (mBuf q)) =
    spsc_contents dflt q ++ [v].
Proof.
  intros Hwf Hnf Hv. pose proof Hwf as (Hc & Hpow & Hm & Hr & Hw & Hlen).
  pose proof (size_bound (mRead q) (mWrite q) (mCapacity q) Hr Hw).
  apply list_eq. intros j.
  rewrite lookup_app, length_spsc_contents, !lookup_spsc_contents. unfold spsc_size in *; simpl.
  rewrite size_succ by lia.
  destruct (decide (j < Z.to_nat ((mWrite q - mRead q) mod mCapacity q)))%nat.
  - by rewrite decide_True by lia.
  - destruct (decide (j = Z.to_nat ((mWrite q - mRead q) mod mCapacity q))) as [-> |].
    + rewrite decide_True by lia. rewrite Nat.sub_diag, Z2Nat.id by lia. simpl.
      rewrite (proj2 (queued_slot (mRead q) (mWrite q) (mCapacity q)
                        ((mWrite q - mRead q) mod mCapacity q) Hr Hw ltac:(lia)))
        by done.
      by rewrite Hv.
    + rewrite decide_False by lia. symmetry. apply lookup_ge_None_2. simpl. lia.
Qed.

Lemma spsc_size_bound q : spsc_wf q -> 0 <= spsc_size q < mCapacity q.
Proof. intros (Hc & _ & _ & Hr & Hw & _). apply size_bound; lia. Qed.

Lemma spsc_size_store q v :
  spsc_size (mkSPSC (mCapacity q) (mMask q) (mWrite q) (mRead q)
               (<[Z.to_nat (mWrite q) := v]> (mBuf q))) = spsc_size q.
Proof. done. Qed.

(** A successful push appends [v] to the queue. *)
Lemma spsc_push_contents q v :
  spsc_wf q -> spsc_size q <> mCapacity q - 1 ->
  spsc_contents dflt (mkSPSC (mCapacity q) (mMask q) ((mWrite q + 1) mod mCapacity q)
                        (mRead q) (<[Z.to_nat (mWrite q) := v]> (mBuf q))) =
    spsc_contents dflt q ++ [v].
Proof.
  intros Hwf Hnf. pose proof (spsc_size_bound q Hwf).
  set (q1 := mkSPSC (mCapacity q) (mMask q) (mWrite q) (mRead q)
               (<[Z.to_nat (mWrite q) := v]> (mBuf q))).
  assert (spsc_wf q1) by (pose proof Hwf as (_ & _ & _ & ? & ? & _);
                          apply spsc_wf_step; try done; apply length_insert).
  rewrite <- (spsc_contents_store q v) by first [done | lia].
  apply (spsc_contents_publish q1); [done | |]; unfold q1; cbn [mBuf mWrite mCapacity].
  - change (spsc_size _) with (spsc_size q). lia.
  - apply list_lookup_insert_eq. destruct Hwf as (Hc & _ & _ & _ & Hw & ->).
    change kSlots with 4096 in *. lia.
Qed.

(** A successful pop returns the head of the queue and leaves its tail. *)
Lemma spsc_pop_contents q :
  spsc_wf q -> mRead q <> mWrite q ->
  spsc_contents dflt q =
    default dflt (mBuf q !! Z.to_nat (mRead q)) ::
    spsc_contents dflt (mkSPSC (mCapacity q) (mMask q) (mWrite q)
                          ((mRead q + 1) mod mCapacity q) (mBuf q)).
Proof.
  intros Hwf Hne. pose proof Hwf as (Hc & Hpow & Hm & Hr & Hw & Hlen).
  assert ((mWrite q - mRead q) mod mCapacity q <> 0) by (mod_cases).
  pose proof (size_bound (mRead q) (mWrite q) (mCapacity q) Hr Hw).
  apply list_eq. intros [| j]; simpl; rewrite !lookup_spsc_contents; unfold spsc_size; simpl.
  - rewrite decide_True by lia. rewrite Z.add_0_r, Z.mod_small by lia. done.
  - rewrite size_pred by done. rewrite next_slot by lia.
    replace (Z.of_nat (S j)) with (Z.of_nat j + 1) by lia.
    destruct (decide _), (decide _); try done; lia.
Qed.

#[export] Instance spsc_bq_laws : @BoundedQueueLaws (SPSCRingBuffer T) T (spsc_bq dflt).
Proof.
  split; intros q n; simpl.
  - intros v Hwf. pose proof Hwf as (Hc & Hpow & Hm & Hr & Hw & Hlen).
    pose proof (length_spsc_contents q) as Hl.
    pose proof (size_bound (mRead q) (mWrite q) (mCapacity q) Hr Hw).
    rewrite spsc_push_eq by done. unfold apush. case_bool_decide as Hfull.
    + eexists _, _. split; [done |]. split_and!; [done | done |].
      rewrite decide_False by (unfold spsc_size in *; lia). done.
    + eexists _, _. split; [done |]. split_and!.
      * apply spsc_wf_step; try done; first [apply Z.mod_pos_bound; lia | apply length_insert].
      * done.
      * simpl. rewrite decide_True by (unfold spsc_size in *; lia).
        by rewrite spsc_push_contents.
  - intros Hwf. pose proof Hwf as (Hc & Hpow & Hm & Hr & Hw & Hlen).
    rewrite spsc_pop_eq by done. case_bool_decide as Hemp.
    + eexists _, _. split; [done |]. split_and!; [done | done |].
      assert (spsc_contents dflt q = []) as ->; [| done].
      apply nil_length_inv. rewrite length_spsc_contents. unfold spsc_size.
      rewrite Hemp, Z.sub_diag, Z.mod_0_l by lia. done.
    + eexists _, _. split; [done |]. split_and!.
      * apply spsc_wf_step; try done; apply Z.mod_pos_bound; lia.
      * done.
      * simpl. by rewrite (spsc_pop_contents q).
Qed.

End SPSCProofs.

Section SPSCThreads.
Context {T : Type} (dflt : T).
Implicit Types q : SPSCRingBuffer T.

Lemma mask_idx q x : spsc_wf q -> 0 <= x < mCapacity q -> Z.land x (mMask q) = x.
Proof.
  intros (Hc & Hpow & -> & _) Hx. rewrite land_mask by first [lia | done].
  apply Z.mod_small. lia.
Qed.

Lemma mask_succ q x :
  spsc_wf q -> 0 <= x < mCapacity q -> Z.land u64[x + 1] (mMask q) = (x + 1) mod mCapacity q.
Proof.
  intros (Hc & Hpow & -> & _) Hx. change kSlots with 4096 in *.
  rewrite wrap_small by (rewrite Z_pow2_64; lia). apply land_mask; [lia | done].
Qed.

Lemma spsc_empty_iff q : spsc_wf q -> (spsc_size q = 0 <-> mRead q = mWrite q).
Proof. intros (Hc & _ & _ & Hr & Hw & _). unfold spsc_size. mod_cases; split; intros; lia. Qed.

Lemma head_contents_size q v :
  head (spsc_contents dflt q) = Some v -> 0 < spsc_size q.
Proof.
  intros Hh. pose proof (length_spsc_contents dflt q).
  destruct (spsc_contents dflt q); simpl in *; [done | lia].
Qed.

(** The consumer's release store keeps what the producer believes. *)
Lemma prod_ok_pop q pending p :
  spsc_wf q -> mRead q <> mWrite q -> prod_ok q pending p ->
  prod_ok (mkSPSC (mCapacity q) (mMask q) (mWrite q) ((mRead q + 1) mod mCapacity q) (mBuf q))
    pending p.
Proof.
  intros Hwf Hne Hp. pose proof Hwf as (Hc & _ & _ & Hr & Hw & _).
  assert (spsc_size (mkSPSC (mCapacity q) (mMask q) (mWrite q) ((mRead q + 1) mod mCapacity q)
             (mBuf q)) = spsc_size q - 1) as Hsz
    by (unfold spsc_size; simpl; apply size_pred; lia).
  destruct p; simpl in *; rewrite ?Hsz; try done.
  - destruct Hp as (? & ? & ? & ?). split_and!; done || lia.
  - destruct Hp as (? & ? & ?). split_and!; done || lia.
Qed.

(** The producer's store into the free slot keeps what the consumer
    believes. *)
Lemma cons_ok_store q v c :
  spsc_wf q -> spsc_size q < mCapacity q - 1 -> cons_ok dflt q c ->
  cons_ok dflt (mkSPSC (mCapacity q) (mMask q) (mWrite q) (mRead q)
                  (<[Z.to_nat (mWrite q) := v]> (mBuf q))) c.
Proof.
  intros Hwf Hsz Hc. destruct c; simpl in *; try done.
  by rewrite spsc_contents_store.
Qed.

(** The producer's release store keeps what the consumer believes. *)
Lemma cons_ok_publish q v c :
  spsc_wf q -> spsc_size q < mCapacity q - 1 -> mBuf q !! Z.to_nat (mWrite q) = Some v ->
  cons_ok dflt q c ->
  cons_ok dflt (mkSPSC (mCapacity q) (mMask q) ((mWrite q + 1) mod mCapacity q) (mRead q)
                  (mBuf q)) c.
Proof.
  intros Hwf Hsz Hv Hc. pose proof Hwf as (_ & _ & _ & Hr & Hw & _).
  assert (spsc_size (mkSPSC (mCapacity q) (mMask q) ((mWrite q + 1) mod mCapacity q) (mRead q)
             (mBuf q)) = spsc_size q + 1) as Hsz'
    by (unfold spsc_size in *; simpl; apply size_succ; lia).
  destruct c; simpl in *; rewrite ?Hsz'; try done; [lia |].
  rewrite (spsc_contents_publish dflt q v) by done.
  destruct Hc as [-> Hh]. split; [done |].
  destruct (spsc_contents dflt q); simpl in *; congruence.
Qed.

Ltac sys_simpl :=
  repeat match goal with
  | H : ?a = ?a |- _ => clear H
  | H : sprod ?s = _, Hp : context [sprod ?s] |- _ => rewrite H in Hp
  | H : scons ?s = _, Hc : context [scons ?s] |- _ => rewrite H in Hc
  | H : spending ?s = _, Hp : context [spending ?s] |- _ => rewrite H in Hp
  end; simpl in *.

(** The producer's non-full test, read on what it loaded. *)
Lemma prod_not_full q w r :
  spsc_wf q -> w = mWrite q -> 0 <= r < mCapacity q -> spsc_size q <= (w - r) mod mCapacity q ->
  Z.land u64[w + 1] (mMask q) <> r -> spsc_size q < mCapacity q - 1.
Proof.
  intros Hwf -> Hr Hd Hnf. pose proof Hwf as (_ & _ & _ & _ & Hw & _).
  rewrite mask_succ in Hnf by done.
  pose proof (size_bound r (mWrite q) (mCapacity q) Hr Hw).
  rewrite (full_iff r (mWrite q)) in Hnf by done. lia.
Qed.

(** The consumer's non-empty test, read on what it loaded. *)
Lemma cons_not_empty q r w :
  spsc_wf q -> r = mRead q -> 0 <= w < mCapacity q -> (w - r) mod mCapacity q <= spsc_size q ->
  r <> w -> mRead q <> mWrite q.
Proof.
  intros Hwf -> Hw Hd Hne Heq. pose proof Hwf as (_ & _ & _ & Hr & _ & _).
  apply spsc_empty_iff in Heq; [| done]. rewrite Heq in Hd. mod_cases.
Qed.

Lemma spsc_wf_store q v :
  spsc_wf q -> spsc_wf (mkSPSC (mCapacity q) (mMask q) (mWrite q) (mRead q)
                         (<[Z.to_nat (mWrite q) := v]> (mBuf q))).
Proof.
  intros Hwf. pose proof Hwf as (_ & _ & _ & ? & ? & _).
  apply spsc_wf_step; try done. apply length_insert.
Qed.

(** The invariant holds after every atomic action of either thread. *)
Lemma sys_step_inv s s' : sys_inv dflt s -> sys_step s s' -> sys_inv dflt s'.
Proof.
  intros (Hwf & Hrc & Hp & Hc) Hstep. pose proof Hwf as (Hcap & Hpow & Hm & Hr & Hw & Hlen).
  destruct Hstep; sys_simpl; unfold sys_inv, with_queue; simpl;
    repeat match goal with x := squeue _ |- _ => subst x end.
  - (* PLoadW *) rewrite H0. done.
  - (* PLoadR *) destruct Hp as [-> ?]. unfold spsc_size. split_and!; try done; lia.
  - (* PFull *) done.
  - (* PStore *) destruct Hp as (-> & Hne & Hrr & Hd). rewrite mask_idx by done.
    pose proof (prod_not_full _ _ _ Hwf eq_refl Hrr Hd H0) as Hsz.
    split; [| split; [| split]].
    + by apply spsc_wf_store.
    + by rewrite spsc_contents_store.
    + split_and!; try done. exists v, rest. split; [done |].
      apply list_lookup_insert_eq. change kSlots with 4096 in *. lia.
    + by apply cons_ok_store.
  - (* PPublish *) destruct Hp as (-> & Hsz & v' & rest' & Hpend & Hv).
    simplify_eq. rewrite mask_succ by done.
    split; [| split; [| split]].
    + apply spsc_wf_step; try done. apply Z.mod_pos_bound. lia.
    + rewrite (spsc_contents_publish dflt _ v') by done. by rewrite app_assoc, Hrc.
    + done.
    + by apply (cons_ok_publish _ v').
  - (* CLoadR *) done.
  - (* CLoadW *) subst. unfold spsc_size. split_and!; try done; lia.
  - (* CEmpty *) done.
  - (* CFetch *) destruct Hc as (-> & Hw' & Hd).
    pose proof (cons_not_empty _ _ _ Hwf eq_refl Hw' Hd H0).
    rewrite mask_idx in H1 by done. split_and!; try done.
    rewrite (spsc_pop_contents dflt (squeue s)) by done. simpl. by rewrite H1.
  - (* CPublish *) destruct Hc as (-> & Hh). pose proof (head_contents_size _ v Hh) as Hsz.
    assert (mRead (squeue s) <> mWrite (squeue s)) by (rewrite <- spsc_empty_iff by done; lia).
    rewrite mask_succ by done.
    rewrite (spsc_pop_contents dflt (squeue s)) in Hh, Hrc by done. simpl in Hh. simplify_eq.
    split; [| split; [| split]].
    + apply spsc_wf_step; try done. apply Z.mod_pos_bound. lia.
    + rewrite <- Hrc. by rewrite <- app_assoc.
    + by apply prod_ok_pop.
    + done.
Qed.

End SPSCThreads.

Section SPSCClaims.
Context {T : Type} (dflt : T).

Lemma new_spsc_wf k :
  0 <= k <= 12 -> spsc_wf (new_spsc dflt (2 ^ k)) /\ spsc_contents dflt (new_spsc dflt (2 ^ k)) = [].
Proof.
  intros Hk. assert (1 <= 2 ^ k <= 2 ^ 12).
  { split; [apply (Z.pow_le_mono_r 2 0 k) | apply Z.pow_le_mono_r]; lia. }
  unfold spsc_wf, new_spsc, spsc_contents, spsc_size; simpl.
  rewrite Z.log2_pow2, wrap_small by (try rewrite Z_pow2_64; lia).
  change kSlots with (2 ^ 12). split; [split_and!; try lia; done | done].
Qed.

(** C34: an [SPSCRingBuffer] constructed with a power-of-two capacity
    [2^k] of at most 4096 slots behaves, for any sequence of calls, as
    the abstract bounded queue whose room is [2^k - 1]: a push succeeds
    exactly when fewer than [capacity - 1] elements are queued, a pop
    returns the oldest element, nothing is lost or reordered. *)
Theorem spsc_queue_refines k (ops : list (qop T)) :
  0 <= k <= 12 ->
  exists q', @run_queue _ _ (spsc_bq dflt) (new_spsc dflt (2 ^ k)) ops =
               Some (q', snd (arun (Z.to_nat (2 ^ k - 1)) [] ops)) /\
    spsc_contents dflt q' = fst (arun (Z.to_nat (2 ^ k - 1)) [] ops).
Proof.
  intros Hk. destruct (new_spsc_wf k Hk) as [Hwf Hnil].
  destruct (@run_queue_refines _ _ (spsc_bq dflt) (spsc_bq_laws dflt)
              (new_spsc dflt (2 ^ k)) ops Hwf) as (q' & Hrun & Hct).
  simpl in Hrun, Hct. rewrite Hnil in Hrun, Hct. eauto.
Qed.

(** [1 & (c - 1)] is [0] for an odd [c]. *)
Lemma land_1_even m : Z.even m = true -> Z.land 1 m = 0.
Proof.
  intros He. rewrite Z.land_comm.
  change 1 with (Z.ones 1). rewrite Z.land_ones by lia.
  rewrite Z.pow_1_r. apply Z.mod_divide; [lia |].
  apply Z.even_spec in He. destruct He as [x ->]. exists x. lia.
Qed.

(** C35: an [SPSCRingBuffer] constructed with an odd capacity (the
    constructor accepts any) is a queue that never holds anything: the
    mask [capacity - 1] has bit 0 clear, so [(w + 1) & mMask] is the read
    index [0] and every push reports full; every pop reports empty; the
    state never changes. *)
Theorem spsc_odd_capacity_full c (ops : list (qop T)) :
  Z.odd c = true -> 0 < c < 2 ^ 64 ->
  @run_queue _ _ (spsc_bq dflt) (new_spsc dflt c) ops =
    Some (new_spsc dflt c,
          (fun op => match op with QPush _ => RPushed false | QPop => RPopped None end) <$> ops).
Proof.
  intros Hodd Hc. induction ops as [| op ops IH]; [done |].
  assert (Z.land u64[0 + 1] u64[c - 1] = 0) as Hfull.
  { rewrite !wrap_small by (rewrite ?Z_pow2_64 in *; lia). apply land_1_even.
    rewrite Z.even_sub, <- Z.negb_odd, Hodd. done. }
  destruct op as [v |]; simpl.
  - unfold push; simpl. rewrite Hfull, bool_decide_eq_true_2 by done. simpl.
    rewrite IH. done.
  - rewrite IH. done.
Qed.

(** The [i]-th push on a queue whose mask exceeds the array, with no pop
    in between: the first 4096 store into [mBuf]; the next one indexes
    past it. *)
Lemma spsc_overflow_pushes c buf (xs : list T) ops i :
  2 ^ 13 <= c < 2 ^ 64 -> c = 2 ^ Z.log2 c -> length buf = Z.to_nat kSlots ->
  0 <= i <= kSlots -> length xs = Z.to_nat (kSlots - i + 1) ->
  @run_queue _ _ (spsc_bq dflt) (mkSPSC c (c - 1) i 0 buf) ((QPush <$> xs) ++ ops) = None.
Proof.
  change kSlots with 4096. intros Hc Hpow Hlen Hi Hxs.
  revert i buf Hlen Hi Hxs. induction xs as [| x xs IH]; intros i buf Hlen Hi Hxs;
    simpl in Hxs; [lia |].
  simpl. unfold push; simpl.
  rewrite wrap_small by (rewrite Z_pow2_64; lia).
  rewrite !land_mask by first [lia | done].
  rewrite !Z.mod_small by lia.
  rewrite bool_decide_eq_false_2 by lia. change kSlots with 4096.
  case_bool_decide; simpl; [| done].
  rewrite IH; [done | by rewrite length_insert | lia | lia].
Qed.

(** An [SPSCRingBuffer] constructed with a power-of-two capacity
    larger than the 4096-slot array [mBuf[1<<12]] (the constructor does
    not check it) has undefined behaviour after 4096 pushes without a
    pop: the 4097th push stores to [mBuf[4096]], past the end of the
    array, whatever the calls after it. *)
Theorem spsc_capacity_overflow k (xs : list T) ops :
  13 <= k < 64 -> length xs = 4097%nat ->
  @run_queue _ _ (spsc_bq dflt) (new_spsc dflt (2 ^ k)) ((QPush <$> xs) ++ ops) = None.
Proof.
  intros Hk Hxs. assert (2 ^ 13 <= 2 ^ k < 2 ^ 64) by (split; apply Z.pow_le_mono_r || apply Z.pow_lt_mono_r; lia).
  unfold new_spsc. rewrite wrap_small by lia.
  apply spsc_overflow_pushes; try done; try lia.
  by rewrite Z.log2_pow2 by lia.
Qed.

Lemma sys_init_inv items k : 0 <= k <= 12 -> sys_inv dflt (sys_init dflt items (2 ^ k)).
Proof.
  intros Hk. destruct (new_spsc_wf k Hk) as [Hwf Hnil].
  unfold sys_inv; simpl. by rewrite Hnil.
Qed.

Lemma sys_ghost_step (s s' : sys T) : sys_step s s' -> ssent s' ++ spending s' = ssent s ++ spending s.
Proof. destruct 1; simpl; try done. by rewrite H0, <- app_assoc. Qed.

Lemma sys_runs_inv items s s' :
  sys_inv dflt s -> ssent s ++ spending s = items -> rtc sys_step s s' ->
  sys_inv dflt s' /\ ssent s' ++ spending s' = items.
Proof.
  intros Hinv Hg Hrtc. revert Hinv Hg.
  induction Hrtc as [| x y z Hxy Hyz IH]; intros Hinv Hg; [done |].
  apply IH; [by eapply sys_step_inv | by rewrite (sys_ghost_step x y)].
Qed.

Lemma sys_reachable_inv items k s :
  0 <= k <= 12 -> rtc sys_step (sys_init dflt items (2 ^ k)) s ->
  sys_inv dflt s /\ ssent s ++ spending s = items.
Proof. intros Hk. apply sys_runs_inv; [by apply sys_init_inv | done]. Qed.

(** C37: a producer pushing the items of [items] in order (retrying a
    push that returns [false]) and a consumer popping, running
    concurrently on an [SPSCRingBuffer] of power-of-two capacity at most
    4096, with [push] and [pop] split into their atomic loads and stores
    and interleaved in any order: at every point of every interleaving,
    what the consumer has received, then what the queue holds, then what
    the producer has still to push, is exactly [items]. *)
Theorem spsc_concurrent_fifo k items s :
  0 <= k <= 12 -> rtc sys_step (sys_init dflt items (2 ^ k)) s ->
  sreceived s ++ spsc_contents dflt (squeue s) ++ spending s = items.
Proof.
  intros Hk Hrtc. destruct (sys_reachable_inv items k s Hk Hrtc) as [(_ & Hrc & _) Hg].
  by rewrite app_assoc, Hrc.
Qed.

(** In every interleaving the two array accesses stay inside [mBuf]: the
    producer's store, when its test passes, and the consumer's load,
    when its test passes. *)
Lemma spsc_concurrent_in_bounds k items s :
  0 <= k <= 12 -> rtc sys_step (sys_init dflt items (2 ^ k)) s ->
  (forall w r, sprod s = PLoadedR w r -> Z.land w (mMask (squeue s)) < kSlots) /\
  (forall r w, scons s = CLoadedW r w ->
     is_Some (mBuf (squeue s) !! Z.to_nat (Z.land r (mMask (squeue s))))).
Proof.
  intros Hk Hrtc. destruct (sys_reachable_inv items k s Hk Hrtc) as [(Hwf & _ & Hp & Hc) _].
  pose proof Hwf as (Hcap & _ & _ & Hr & Hw & Hlen). split.
  - intros w r He. rewrite He in Hp. destruct Hp as (-> & _). rewrite mask_idx by done. lia.
  - intros r w He. rewrite He in Hc. destruct Hc as (-> & _). rewrite mask_idx by done.
    apply lookup_lt_is_Some_2. change kSlots with 4096 in *. lia.
Qed.

End SPSCClaims.

(** ** Witnesses *)

Definition ex_sops : list (qop Z) :=
  [QPush 1; QPush 2; QPush 3; QPush 4; QPop; QPush 5; QPop; QPop; QPop; QPop].

Lemma spsc_queue_refines_witness :
  exists q', @run_queue _ _ (spsc_bq 0) (new_spsc 0 (2 ^ 2)) ex_sops =
               Some (q', snd (arun (Z.to_nat (2 ^ 2 - 1)) [] ex_sops)) /\
    spsc_contents 0 q' = fst (arun (Z.to_nat (2 ^ 2 - 1)) [] ex_sops).
Proof. apply (spsc_queue_refines 0 2 ex_sops). discharge. Defined.

Lemma spsc_odd_capacity_full_witness :
  @run_queue _ _ (spsc_bq 0) (new_spsc 0 5) ex_sops =
    Some (new_spsc 0 5,
          (fun op => match op with QPush _ => RPushed false | QPop => RPopped None end) <$> ex_sops).
Proof. apply (spsc_odd_capacity_full 0 5 ex_sops); discharge. Defined.

Lemma spsc_capacity_overflow_witness :
  @run_queue _ _ (spsc_bq 0) (new_spsc 0 (2 ^ 13)) ((QPush <$> replicate 4097 0) ++ []) = None.
Proof. apply (spsc_capacity_overflow 0 13 (replicate 4097 0) []); discharge. Defined.

(** An interleaving of two pushes and one pop on a queue of capacity 2:
    the producer loads both indices, the consumer loads both and finds
    the queue empty, the producer stores and publishes [7], the consumer
    loads again and fetches [7], the producer starts the push of [8], the
    consumer publishes its read index, the producer loads it. *)
Definition ex_sys : sys Z :=
  mkSys (mkSPSC 2 1 1 1 (<[0%nat := 7]> (replicate 4096 0))) (PLoadedR 1 1) CIdle [8] [7] [7].

Lemma ex_sys_reachable : rtc sys_step (sys_init 0 [7; 8] (2 ^ 1)) ex_sys.
Proof.
  vm_compute.
  eapply rtc_l; [eapply (PLoadW _ 7 [8]); reflexivity |]. vm_compute.
  eapply rtc_l; [eapply PLoadR; reflexivity |]. vm_compute.
  eapply rtc_l; [eapply CLoadR; reflexivity |]. vm_compute.
  eapply rtc_l; [eapply CLoadW; reflexivity |]. vm_compute.
  eapply rtc_l; [eapply (PStore _ 0 0 7 [8]); vm_compute; try reflexivity; discriminate |]. vm_compute.
  eapply rtc_l; [eapply (CEmpty _ 0 0); reflexivity |]. vm_compute.
  eapply rtc_l; [eapply (PPublish _ 0 7 [8]); reflexivity |]. vm_compute.
  eapply rtc_l; [eapply CLoadR; reflexivity |]. vm_compute.
  eapply rtc_l; [eapply (CLoadW _ 0); reflexivity |]. vm_compute.
  eapply rtc_l; [eapply (CFetch _ 0 1 7); vm_compute; try reflexivity; discriminate |]. vm_compute.
  eapply rtc_l; [eapply (PLoadW _ 8 []); reflexivity |]. vm_compute.
  eapply rtc_l; [eapply (CPublish _ 0 7); reflexivity |]. vm_compute.
  eapply rtc_l; [eapply (PLoadR _ 1); reflexivity |]. vm_compute.
  apply rtc_refl.
Qed.

Lemma spsc_concurrent_fifo_witness :
  sreceived ex_sys ++ spsc_contents 0 (squeue ex_sys) ++ spending ex_sys = [7; 8].
Proof. apply (spsc_concurrent_fifo 0 1 [7; 8] ex_sys); [discharge | exact ex_sys_reachable]. Defined.

End SPSC.
