(* ===== verification/Player.v ===== *)
(** * Player: the voice-player skeleton of [src/src/native/iplug/dsp]

    Two parts, both unused by the rest of the code but compiled into the
    native build:
    - [Envelope] (Envelope.h): a per-voice ADSR envelope generator, a
      state machine [Idle | Attack | Decay | Sustain | Release] with a time
      [t] advanced by [1/sr] per call of [process(sr)] and linear segments.
      Module [Envelope] translates [set], [noteOn], [noteOff] and
      [process]; [run] calls [process] [n] times and collects the gains.
    - [PlayerDSP] (PlayerDSP.h/.cpp): a pool of 32 [Voice]s and a
      [process] that zero-fills the host's output planes with two nested
      loops ([chans_loop], [fill_zero]).
    Times and gains are exact rationals ([Qc]); the [float] rounding of
    the code (and its [0.001f], [0.05f], [0.8f], [0.1f], which are not
    exact) is not modelled.  [process] is only meaningful for [sr > 0]:
    there [1/sr] is what the code computes; the theorems assume it.

    Counts of calls that depend on where the segment boundaries fall
    (for instance the number of calls the release takes, which float32
    rounding changes by one at [r = 0.3f], [sr = 44100]) are not
    stated: the exact arithmetic would get them wrong.

    The theorems: the decay segment ramps from 1 toward [1 - s], not toward
    the sustain level [s], so that the output jumps at the end of the
    decay; [PlayerDSP::process] writes silence into exactly the
    [nChans x nFrames] block it is given. *)

From S2P Require Import Prelude RingBuffer.
From stdpp Require Import base list strings.
From Stdlib Require Import ZArith Lia QArith Qcanon Qround Lqa.
Open Scope Z_scope.

Module Envelope.

(** [struct EnvelopeADSR { float a{0.001f}, d{0.05f}, s{0.8f}, r{0.1f}; }]. *)
Record EnvelopeADSR := mkADSR { a : Qc; d : Qc; s : Qc; r : Qc }.

Definition default_adsr : EnvelopeADSR :=
  mkADSR (Q2Qc (1 # 1000)) (Q2Qc (5 # 100)) (Q2Qc (8 # 10)) (Q2Qc (1 # 10)).

(** [enum { Idle, Attack, Decay, Sustain, Release }]. *)
Inductive env_state : Type := Idle | Attack | Decay | Sustain | Release.

#[export] Instance env_state_eq_dec : EqDecision env_state.
Proof. solve_decision. Defined.

(** The members [state{Idle}], [t{0}], [env{}]. *)
Record Envelope := mkEnv { state : env_state; t : Qc; env : EnvelopeADSR }.

Definition new_envelope : Envelope := mkEnv Idle 0%Qc default_adsr.

Definition set (e : Envelope) (x : EnvelopeADSR) : Envelope := mkEnv (state e) (t e) x.
Definition noteOn (e : Envelope) : Envelope := mkEnv Attack 0%Qc (env e).
Definition noteOff (e : Envelope) : Envelope := mkEnv Release 0%Qc (env e).

(** [float process(float sr)], lines 13-22: the new envelope and the
    gain returned. *)
Definition process (sr : Qc) (e : Envelope) : Envelope * Qc :=
  let E := env e in
  match state e with
  | Attack =>
      let g := if decide (a E <= 0)%Qc then 1%Qc else (t e / a E)%Qc in
      if decide (1 <= g)%Qc then (mkEnv Decay (0 + 1 / sr)%Qc E, 1%Qc)
      else (mkEnv Attack (t e + 1 / sr)%Qc E, g)
  | Decay =>
      let g := (1 - s E * (t e / d E))%Qc in
      if decide (d E <= t e)%Qc then (mkEnv Sustain (t e + 1 / sr)%Qc E, s E)
      else (mkEnv Decay (t e + 1 / sr)%Qc E, g)
  | Sustain => (e, s E)
  | Release =>
      let g := (s E * (1 - t e / r E))%Qc in
      if decide (r E <= t e)%Qc then (mkEnv Idle (t e + 1 / sr)%Qc E, 0%Qc)
      else (mkEnv Release (t e + 1 / sr)%Qc E, g)
  | Idle => (e, 0%Qc)
  end.

(** [n] consecutive calls of [process(sr)]: the envelope after them and
    the gains they returned, in order. *)
Fixpoint run (sr : Qc) (n : nat) (e : Envelope) : Envelope * list Qc :=
  match n with
  | O => (e, [])
  | S n' => let '(e1, g) := process sr e in let '(e2, gs) := run sr n' e1 in (e2, g :: gs)
  end.

End Envelope.

Module PlayerDSP.
Import Envelope.

(** [struct Voice { std::string id; int clipIndex{-1}; int64_t pos{0};
    Envelope env; bool active{false}; }]. *)
Record Voice := mkVoice {
  id : string; clipIndex : Z; pos : Z; venv : Envelope; active : bool
}.

Definition default_voice : Voice := mkVoice "" (-1) 0 new_envelope false.

(** [double mSR{48000.0}; std::vector<Voice> mVoices;]. *)
Record PlayerDSP := mkPlayer { mSR : Qc; mVoices : list Voice }.

(** [PlayerDSP()]: [mVoices.resize(32)] on the empty vector. *)
Definition new_player : PlayerDSP := mkPlayer (Q2Qc (inject_Z 48000)) (replicate 32 default_voice).

Definition setSampleRate (p : PlayerDSP) (sr : Qc) : PlayerDSP := mkPlayer sr (mVoices p).

(** The inner loop [for (i = 0; i < nFrames; ++i) outputs[c][i] = 0.f;]
    from frame [i], [k] iterations left; a store past the plane is
    undefined behaviour ([None]). *)
Fixpoint fill_zero (plane : list Qc) (i k : nat) : option (list Qc) :=
  match k with
  | O => Some plane
  | S k' => if decide (i < length plane)%nat then fill_zero (<[i := 0%Qc]> plane) (S i) k' else None
  end.

(** The outer loop [for (c = 0; c < nChans; ++c)] from channel [c], [k]
    iterations left; [outputs[c]] is only dereferenced by the inner loop,
    so a missing plane is undefined behaviour only when [nFrames > 0]. *)
Fixpoint chans_loop (outs : list (list Qc)) (c k nFrames : nat) : option (list (list Qc)) :=
  match k with
  | O => Some outs
  | S k' =>
      match nFrames with
      | O => chans_loop outs (S c) k' nFrames
      | S _ =>
          match outs !! c with
          | Some plane =>
              plane' ← fill_zero plane 0 nFrames;
              chans_loop (<[c := plane']> outs) (S c) k' nFrames
          | None => None
          end
      end
  end.

(** [void process(float** outputs, int nChans, int nFrames)]: the output
    planes as the host sees them afterwards.  The [int] loop bounds run
    no iteration when they are not positive. *)
Definition process (p : PlayerDSP) (outputs : list (list Qc)) (nChans nFrames : Z)
    : option (list (list Qc)) :=
  chans_loop outputs 0 (Z.to_nat nChans) (Z.to_nat nFrames).

End PlayerDSP.

Module EnvelopeProofs.
Import Envelope.

(** Moves a goal on [Qc] to [Q], where [lra] and [field] apply. *)
Ltac qc_q :=
  unfold Qcle, Qclt, Qcdiv, Qcmult, Qcinv, Qcplus, Qcminus, Qcopp in *;
  simpl this in *; repeat rewrite Qred_correct in *.

(** C38: the decay segment does not end at the sustain level.  For
    [sr > 0], [d > 0] and [s >= 0], at the last decay sample (time [t0]
    with [t0 < d <= t0 + 1/sr]) the gain is [1 - s * t0 / d], which is at
    most [1 - s + s / (d * sr)]; the next call moves to [Sustain] and
    returns [s].  With [s > 1/2] the gain falls toward [1 - s] during the
    decay and then jumps up to [s]. *)
Theorem decay_jump sr E t0 :
  (0 < sr)%Qc -> (0 < d E)%Qc -> (0 <= s E)%Qc -> (t0 < d E)%Qc -> (d E <= t0 + 1 / sr)%Qc ->
  let '(e1, g1) := process sr (mkEnv Decay t0 E) in
  let '(e2, g2) := process sr e1 in
  g1 = (1 - s E * (t0 / d E))%Qc /\ (g1 <= 1 - s E + s E * (1 / (d E * sr)))%Qc /\
  state e2 = Sustain /\ g2 = s E.
Proof.
  intros Hsr Hd Hs Ht Hlast. unfold process; simpl.
  rewrite decide_False by (apply Qclt_not_le; done). simpl.
  rewrite decide_True by done. simpl. split_and!; try done.
  qc_q. set (S := this (s E)) in *. set (D := this (d E)) in *. set (R := this sr) in *.
  assert (1 <= this t0 * / D + 1 * / (D * R))%Q as Hk.
  { assert (this t0 * / D + 1 * / (D * R) == (this t0 + 1 * / R) * / D)%Q as ->
      by (field; split; lra).
    assert (1 == D * / D)%Q as E1 by (field; lra). rewrite E1 at 1.
    apply Qmult_le_compat_r; [done | apply Qinv_le_0_compat; lra]. }
  nra.
Qed.

End EnvelopeProofs.

Module PlayerProofs.
Import PlayerDSP.

(** The inner loop zeroes frames [i .. i + k) of a plane that holds them. *)
Lemma fill_zero_spec plane i k :
  (i + k <= length plane)%nat ->
  fill_zero plane i k = Some (take i plane ++ replicate k 0%Qc ++ drop (i + k) plane).
Proof.
  revert plane i. induction k as [| k IH]; intros plane i Hlen; simpl.
  - by rewrite Nat.add_0_r, take_drop.
  - rewrite decide_True by lia. rewrite IH by (rewrite length_insert; lia).
    rewrite (take_S_r _ _ 0%Qc) by (apply list_lookup_insert_eq; lia).
    rewrite take_insert_ge, drop_insert_lt by lia.
    rewrite <- app_assoc. simpl. by rewrite Nat.add_succ_r.
Qed.

(** A plane that is too short makes the inner loop store past it. *)
Lemma fill_zero_short plane i k :
  (i <= length plane)%nat -> (length plane < i + k)%nat -> fill_zero plane i k = None.
Proof.
  revert plane i. induction k as [| k IH]; intros plane i Hi Hlen; simpl; [lia |].
  case_decide; [| done]. apply IH; rewrite length_insert; lia.
Qed.

Lemma imap_keep {A} (f : nat -> A -> A) l :
  (forall j o, l !! j = Some o -> f j o = o) -> imap f l = l.
Proof.
  intros H. apply list_eq. intros j. rewrite list_lookup_imap.
  destruct (l !! j) eqn:E; simpl; [by rewrite H | done].
Qed.

(** The outer loop from channel [c], [k] channels, [nF > 0] frames. *)
Lemma chans_loop_spec outs c k nF :
  (0 < nF)%nat ->
  (forall j, (c <= j < c + k)%nat -> exists o, outs !! j = Some o /\ (nF <= length o)%nat) ->
  chans_loop outs c k nF =
    Some (imap (fun j o => if decide (c <= j < c + k)%nat
                           then replicate nF 0%Qc ++ drop nF o else o) outs).
Proof.
  revert outs c. induction k as [| k IH]; intros outs c HnF Hcov.
  - simpl. f_equal. symmetry. apply imap_keep. intros j o _. by rewrite decide_False by lia.
  - destruct nF as [| nF']; [lia |]. cbn [chans_loop].
    destruct (Hcov c ltac:(lia)) as (o & Ho & Hlo). rewrite Ho.
    rewrite fill_zero_spec by (simpl; lia). cbn [mbind option_bind].
    rewrite IH; [| lia |].
    + f_equal. apply list_eq. intros j. rewrite !list_lookup_imap.
      destruct (decide (j = c)) as [-> |].
      * rewrite list_lookup_insert_eq by (by apply lookup_lt_Some in Ho). rewrite Ho. simpl.
        rewrite decide_False, decide_True by lia. done.
      * rewrite list_lookup_insert_ne by done.
        destruct (outs !! j); simpl; [| done]. f_equal.
        repeat case_decide; done || lia.
    + intros j Hj. destruct (Hcov j ltac:(lia)) as (o' & Ho' & Hl').
      exists o'. by rewrite list_lookup_insert_ne by lia.
Qed.

(** [PlayerDSP::process] on output planes that hold [nChans] planes of
    [nFrames] samples writes silence into the first [nFrames] samples of
    the first [nChans] planes and nothing else; it is a no-op when either
    count is not positive; its voices are untouched (it takes the player
    by value). *)
Lemma player_process_silence p outs nChans nFrames :
  planes_cover outs nChans nFrames ->
  process p outs nChans nFrames =
    Some (imap (fun c o => if bool_decide (Z.of_nat c < nChans)
                           then replicate (Z.to_nat nFrames) 0%Qc ++ drop (Z.to_nat nFrames) o
                           else o) outs).
Proof.
  intros [Hlen Hcov]. unfold process.
  destruct (decide (0 < Z.to_nat nFrames)%nat) as [HnF | HnF].
  - rewrite chans_loop_spec; [| done |].
    + f_equal. apply imap_ext. intros j o _.
      destruct (decide _), (bool_decide_reflect (Z.of_nat j < nChans)); done || lia.
    + intros j Hj. destruct (lookup_lt_is_Some_2 outs j) as [o Ho]; [lia |].
      exists o. split; [done |].
      rewrite Forall_lookup in Hcov. apply (Hcov j). by rewrite lookup_take_lt by lia.
  - assert (Z.to_nat nFrames = 0%nat) as -> by lia.
    assert (forall outs' c k, chans_loop outs' c k 0 = Some outs') as Hz
      by (intros outs' c k; revert c; induction k; simpl; auto).
    rewrite Hz. f_equal. symmetry. apply imap_keep. intros j o _. simpl. by case_bool_decide.
Qed.

(** With a positive frame count, fewer planes than [nChans] is undefined
    behaviour: the loop dereferences [outputs[c]] past the array. *)
Lemma player_process_missing_plane p outs nChans nFrames :
  0 < nFrames -> (length outs < Z.to_nat nChans)%nat -> process p outs nChans nFrames = None.
Proof.
  intros HnF Hlen. unfold process.
  assert (forall outs' c k, length outs' = length outs -> (c <= length outs)%nat ->
            (length outs < c + k)%nat -> chans_loop outs' c k (Z.to_nat nFrames) = None)
    as H; [| apply H; lia].
  intros outs' c k. revert outs' c.
  induction k as [| k IH]; intros outs' c Hl Hc Hck; [lia |].
  destruct (Z.to_nat nFrames) as [| nF] eqn:E; [lia |]. cbn [chans_loop].
  destruct (outs' !! c) as [o |] eqn:Ho; [| done].
  destruct (decide (S nF <= length o)%nat).
  - rewrite fill_zero_spec by (simpl; lia). cbn [mbind option_bind].
    apply lookup_lt_Some in Ho. apply IH; [by rewrite length_insert | lia | lia].
  - by rewrite fill_zero_short by (simpl; lia).
Qed.

End PlayerProofs.

(** ** Witnesses *)

Module PlayerWitnesses.
Import Envelope EnvelopeProofs.

Definition qc48k : Qc := Q2Qc (inject_Z 48000).

(** The default envelope at 48 kHz: the last decay sample is at
    [t0 = 2399 / 48000]. *)
Lemma decay_jump_witness :
  let '(e1, g1) := process qc48k (mkEnv Decay (Q2Qc (2399 # 48000)) default_adsr) in
  let '(e2, g2) := process qc48k e1 in
  g1 = (1 - s default_adsr * (Q2Qc (2399 # 48000) / d default_adsr))%Qc /\
  (g1 <= 1 - s default_adsr + s default_adsr * (1 / (d default_adsr * qc48k)))%Qc /\
  state e2 = Sustain /\ g2 = s default_adsr.
Proof. apply (decay_jump qc48k default_adsr (Q2Qc (2399 # 48000))); discharge. Defined.

End PlayerWitnesses.
