(* ===== verification/PlayerAPI.v ===== *)
(** * PlayerAPI: the player's C++ interface and the web bridge

    [src/src/native/iplug/include/PlayerAPI.h] declares, in namespace
    [SquirrelAudio], the option and event structs the player's callers
    exchange with it and the abstract class [PlayerAPI]; no class of the
    repository derives from it.  [src/src/native/iplug/bridge/WebBridge.h]
    declares [WebBridge], which holds a [PlayerAPI*] and an emit callback
    and would route the UI's JSON messages to the API.

    The structs are records whose default member initialisers are the
    constructors below (aggregate initialisation that gives the
    pointer fields and leaves the others at their initialisers).  A
    [const char*] is an [option string] ([None]: null); [int64_t] and
    [int] fields are [Z], [float] fields [Qc].  The abstract class is the
    typeclass [PlayerAPI] over the implementation's state: each pure
    virtual method is a function from the state and the arguments to the
    new state and the [bool] it returns.  [WebBridge] is a record of its
    two members with its constructor and [setEmit]; [onUIMessage] is
    declared and defined nowhere in the repository, so it has no
    definition here. *)

From S2P Require Import Prelude Player.
From Stdlib Require Import ZArith QArith Qcanon String.

Module PlayerAPI.

(** [struct EnvelopeADSR { float a{0.001f}, d{0.05f}, s{0.8f}, r{0.1f}; }]
    of namespace [SquirrelAudio], a type distinct from the global
    [EnvelopeADSR] of Envelope.h. *)
Record EnvelopeADSR := mkADSR { a : Qc; d : Qc; s : Qc; r : Qc }.

Definition default_adsr : EnvelopeADSR :=
  mkADSR (Q2Qc (1 # 1000)) (Q2Qc (5 # 100)) (Q2Qc (8 # 10)) (Q2Qc (1 # 10)).

(** [enum Mode { Preload, Stream }]. *)
Inductive Mode : Type := Preload | Stream.

(** [struct CreateClipOpts], lines 12-19. *)
Record CreateClipOpts := mkCreateClipOpts {
  id : option string;
  path_or_bookmark : option string;
  mode : Mode;
  gain_db : Qc;
  pan : Qc;
  envelope_default : EnvelopeADSR
}.

(** [CreateClipOpts{id, path}]: the other members take their
    initialisers [mode{Preload}], [gain_db{0.f}], [pan{0.f}],
    [envelope_default{}]. *)
Definition create_clip_opts (id path : option string) : CreateClipOpts :=
  mkCreateClipOpts id path Preload 0%Qc 0%Qc default_adsr.

(** [struct PlayOpts], lines 21-30: [int64_t start_frame{0}],
    [int64_t end_frame{-1}], [int xfade_samples{64}], [float velocity{1.f}]
    and three [float] offsets at [0.f]. *)
Record PlayOpts := mkPlayOpts {
  clip_id : option string;
  start_frame : Z;
  end_frame : Z;
  xfade_samples : Z;
  velocity : Qc;
  pitch_cents : Qc;
  gain_db_delta : Qc;
  pan_delta : Qc
}.

Definition play_opts (clip : option string) : PlayOpts :=
  mkPlayOpts clip 0 (-1) 64 1%Qc 0%Qc 0%Qc 0%Qc.

(** [enum Type { VoiceStarted, VoiceEnded, MarkerHit, FollowActionFired,
    ClipStreamXrun }]. *)
Inductive EventType : Type :=
| VoiceStarted | VoiceEnded | MarkerHit | FollowActionFired | ClipStreamXrun.

(** [struct Event], lines 32-35. *)
Record Event := mkEvent {
  type : EventType;
  ev_clip_id : option string;
  voice_id : option string;
  marker : option string;
  frame : Z;
  underruns : Z
}.

(** [Event{type, clip, voice, marker}]: [frame{0}], [underruns{0}].
    [type] and the pointers have no initialiser: an [Event] that is
    default-initialised (not aggregate-initialised) holds indeterminate
    values there, which has no model. *)
Definition event (t : EventType) (clip voice mk : option string) : Event :=
  mkEvent t clip voice mk 0 0.

(** [class PlayerAPI], lines 39-52, over the state [S] of an
    implementation and the type [Sink] of its [EventSink]s
    ([std::function<void(const Event&)>]).  The virtual destructor is
    empty. *)
Class PlayerAPI (S Sink : Type) := {
  setEventSink : S -> Sink -> S;
  create_clip : S -> CreateClipOpts -> S * bool;
  destroy_clip : S -> option string -> S * bool;
  play : S -> PlayOpts -> S * bool;
  stop : S -> option string -> Z -> S * bool;
  stop_clip : S -> option string -> Z -> S * bool;
  jump : S -> option string -> Z -> Z -> S * bool;
  set_param : S -> option string -> Z -> option string -> Qc -> S * bool
}.

(** [class WebBridge] of WebBridge.h: [PlayerAPI* mAPI{nullptr}] (a
    pointer [P], [None]: null) and the emit callback [mEmit] of type
    [Emit] ([None]: an empty [std::function]). *)
Record WebBridge (P Emit : Type) := mkWebBridge {
  mAPI : option P;
  mEmit : option Emit
}.
Arguments mkWebBridge {P Emit}. Arguments mAPI {P Emit}. Arguments mEmit {P Emit}.

(** [explicit WebBridge(PlayerAPI* api): mAPI(api) {}]: the constructor's
    initialiser replaces [mAPI]'s default; [mEmit] is empty. *)
Definition new_bridge {P Emit} (api : option P) : WebBridge P Emit := mkWebBridge api None.

(** [setEmit(emit) { mEmit = std::move(emit); }]: the moved-from
    argument is not observable after the call.  Moving an empty
    [std::function] leaves [mEmit] empty. *)
Definition setEmit {P Emit} (b : WebBridge P Emit) (emit : option Emit) : WebBridge P Emit :=
  mkWebBridge (mAPI b) emit.

End PlayerAPI.
