(* ===== verification/DiskReader.v ===== *)
(** * DiskReader: the background producer of [src/src/core/disk_reader.cpp]

    [atome::DiskReader] owns one thread that pushes blocks of 1024 silent
    frames (two planes aliasing one zeroed buffer) into the ring it was
    given, sleeping 2 ms when the ring is full, until [mShouldStop] is set.
    The thread is modelled by its program counter ([thread_pc]); one call
    of [thread_step] is one statement of [threadFunc] acting on the reader
    and on the shared ring; the load of [mShouldStop] (line 41) and the
    push (line 42) are two statements, so a thread that has read [false]
    pushes one more block after [stop] has set the flag.  [open] and
    [stop] are the control operations; [stop] joins the thread by running
    [thread_step] until it exits.
    Samples are rationals ([Qc]); the silence of the code is [0]. *)

From S2P Require Import Prelude RingBuffer.
From stdpp Require Import base list strings.
From Stdlib Require Import ZArith Lia QArith Qcanon.

Open Scope Z_scope.

Module DiskReader.

(** Where the thread of a reader stands. *)
Inductive thread_pc : Type :=
| NoThread                    (* never started, or joined *)
| AtLoopHead                  (* before [while (!mShouldStop.load())] *)
| InLoop                      (* the load read [false]: before [mRing.push] *)
| AfterPush (written : Z)     (* after [mRing.push]: [if (written == 0) sleep] *)
| Exited.                     (* [threadFunc] returned; the thread is joinable *)

#[export] Instance thread_pc_eq_dec : EqDecision thread_pc.
Proof. solve_decision. Defined.

(** The fields of the class ([mRing] is the ring passed to [step]). *)
Record DiskReader := mkReader {
  mRunning : bool;
  mShouldStop : bool;
  mPath : String.string;
  mSampleRate : Z;
  mThread : thread_pc
}.

(** [DiskReader(RingBuffer&)]: the member initialisers. *)
Definition new_reader : DiskReader := mkReader false false String.EmptyString 0 NoThread.

(** [constexpr int block = 1024] and the two planes of [threadFunc], both
    pointing to the same buffer of [0.0f]. *)
Definition block : Z := 1024.
Definition silence_planes : list (list Qc) :=
  let tmp := replicate (Z.to_nat block) (0%Qc) in [tmp; tmp].

(** [std::thread::joinable()]. *)
Definition joinable (pc : thread_pc) : bool :=
  match pc with NoThread => false | _ => true end.

(** [open(path, sampleRate)], lines 15-23.  A null [path] becomes the empty
    string.  Assigning a new [std::thread] over a joinable one calls
    [std::terminate]: that outcome is [None]. *)
Definition open (r : DiskReader) (path : option String.string) (sampleRate : Z)
    : option (DiskReader * bool) :=
  let r1 := mkReader (mRunning r) false (default String.EmptyString path) sampleRate (mThread r) in
  if mRunning r then Some (r1, true)
  else if joinable (mThread r) then None
  else Some (mkReader true false (mPath r1) sampleRate AtLoopHead, true).

(** One statement of [threadFunc] (lines 41-46) on the reader and the ring:
    the load of [mShouldStop] that tests the loop (line 41), the push
    (line 42), and the back-off sleep (lines 43-45; the sleep itself is
    time passing and changes no state).  The load and the push are two
    statements: [stop] can set [mShouldStop] between them. *)
Definition thread_step (r : DiskReader) (rb : RingBuffer Qc) : DiskReader * RingBuffer Qc :=
  let set pc := mkReader (mRunning r) (mShouldStop r) (mPath r) (mSampleRate r) pc in
  match mThread r with
  | AtLoopHead => if mShouldStop r then (set Exited, rb) else (set InLoop, rb)
  | InLoop => let '(rb', written) := push rb silence_planes 2 block in (set (AfterPush written), rb')
  | AfterPush _ => (set AtLoopHead, rb)
  | NoThread | Exited => (r, rb)
  end.

(** [mThread.join()]: the calling thread waits while the reader's thread
    runs; [fuel] bounds the statements it runs.  [None] when the fuel runs
    out before the thread has returned. *)
Fixpoint join (fuel : nat) (r : DiskReader) (rb : RingBuffer Qc)
    : option (DiskReader * RingBuffer Qc) :=
  match mThread r with
  | Exited => Some (mkReader (mRunning r) (mShouldStop r) (mPath r) (mSampleRate r) NoThread, rb)
  | NoThread => Some (r, rb)
  | _ =>
      match fuel with
      | O => None
      | S fuel' => let '(r', rb') := thread_step r rb in join fuel' r' rb'
      end
  end.

(** [stop()], lines 25-30: raise [mShouldStop]; if [mRunning] was set
    (the [exchange]), join the thread when it is joinable. *)
Definition stop (fuel : nat) (r : DiskReader) (rb : RingBuffer Qc)
    : option (DiskReader * RingBuffer Qc) :=
  let r1 := mkReader false true (mPath r) (mSampleRate r) (mThread r) in
  if mRunning r then
    if joinable (mThread r) then join fuel r1 rb else Some (r1, rb)
  else Some (mkReader (mRunning r) true (mPath r) (mSampleRate r) (mThread r), rb).

(** [~DiskReader()], line 13: [stop()] again (a no-op on a stopped
    reader). *)
Definition destroy (fuel : nat) (r : DiskReader) (rb : RingBuffer Qc)
    : option (DiskReader * RingBuffer Qc) :=
  stop fuel r rb.

(** The reader's own invariant: a reader that is not running has no live
    thread (its thread was joined), and a running reader has one. *)
Definition reader_inv (r : DiskReader) : Prop :=
  if mRunning r then mThread r <> NoThread /\ mThread r <> Exited else mThread r = NoThread.

#[export] Instance reader_inv_dec r : Decision (reader_inv r).
Proof. unfold reader_inv. destruct (mRunning r); apply _. Defined.

(** With the thread's view: a running reader has [mShouldStop] clear
    ([open] clears it, only [stop] sets it and clears [mRunning]). *)
Definition reader_ok (r : DiskReader) : Prop :=
  reader_inv r /\ (mRunning r = true -> mShouldStop r = false).

(** ** Lemmas *)

Definition with_thread (r : DiskReader) (pc : thread_pc) : DiskReader :=
  mkReader (mRunning r) (mShouldStop r) (mPath r) (mSampleRate r) pc.

(** The ring the thread leaves behind once [mShouldStop] is set: a
    thread that already passed its loop test (at [InLoop]) pushes one
    more block; from any other statement it returns without a push. *)
Definition last_push (pc : thread_pc) (rb : RingBuffer Qc) : RingBuffer Qc :=
  match pc with InLoop => fst (push rb silence_planes 2 block) | _ => rb end.

(** Once [mShouldStop] is set, the thread returns within three
    statements: [join] with three units of fuel or more ends with the
    thread joined and the ring as [last_push] leaves it. *)
Lemma join_stopping fuel r rb :
  mShouldStop r = true -> (3 <= fuel)%nat ->
  join fuel r rb = Some (with_thread r NoThread, last_push (mThread r) rb).
Proof.
  intros Hs Hf. destruct r as [run stp path sr pc]; simpl in *; subst stp.
  destruct pc; destruct fuel as [| [| [| [| fuel]]]]; try lia; try reflexivity.
  all: simpl; unfold thread_step; simpl; destruct (push rb silence_planes 2 block); reflexivity.
Qed.

Lemma silence_planes_zero : Forall (Forall (fun x => x = 0%Qc)) silence_planes.
Proof.
  assert (Forall (fun x => x = 0%Qc) (replicate (Z.to_nat block) 0%Qc)) as H
    by (apply Forall_replicate; reflexivity).
  unfold silence_planes. cbv zeta.
  apply Forall_cons; split; [exact H |]. apply Forall_cons; split; [exact H |].
  apply Forall_nil. exact I.
Qed.

(** A push of the silent block keeps every stored sample at [0]. *)
Lemma push_silence_zero rb :
  Forall (Forall (fun x => x = 0%Qc)) (mData rb) ->
  Forall (Forall (fun x => x = 0%Qc)) (mData (fst (push rb silence_planes 2 block))).
Proof.
  intros Hz. unfold push. cbv zeta. case_match; [exact Hz |]. simpl.
  apply Forall_lookup_2. intros ch plane Hch.
  rewrite lookup_planes_write in Hch.
  destruct (mData rb !! ch) as [p |] eqn:Hp; simplify_eq/=.
  assert (Forall (fun x => x = 0%Qc) p) as Hp0 by (rewrite Forall_lookup in Hz; eauto).
  assert (Forall (fun x => x = 0%Qc) (default [] (silence_planes !! ch))) as Hs.
  { destruct (silence_planes !! ch) as [q |] eqn:Hq; simpl; [| by apply Forall_nil].
    pose proof silence_planes_zero as Hz'. rewrite Forall_lookup in Hz'. eauto. }
  case_match; [| done]. unfold plane_write, memcpy_list.
  case_match; rewrite ?Forall_app; split_and!;
    try apply Forall_take; try apply Forall_drop; try done;
    rewrite ?Forall_app; split_and!; try apply Forall_take; try apply Forall_drop; try done.
Qed.

(** [stop] on a reader satisfying its invariant joins its thread. *)
Lemma stop_stops fuel r rb :
  reader_inv r -> (3 <= fuel)%nat ->
  stop fuel r rb = Some (mkReader false true (mPath r) (mSampleRate r) NoThread,
                         last_push (mThread r) rb).
Proof.
  intros Hinv Hf.
  destruct r as [run stp path sr pc]; unfold reader_inv, stop in *; simpl in *.
  destruct run.
  - destruct pc; simpl; try (destruct Hinv; congruence);
      rewrite join_stopping; done.
  - subst pc. reflexivity.
Qed.

Lemma thread_step_reader_ok r rb : reader_ok r -> reader_ok (thread_step r rb).1.
Proof.
  intros [Hinv Hs]. destruct r as [run stp path sr pc]; unfold reader_ok, reader_inv in *; simpl in *.
  destruct run; [specialize (Hs eq_refl); subst stp |].
  - unfold thread_step; simpl.
    destruct pc; try (destruct Hinv; congruence).
    + simpl; split; [split |]; done.
    + destruct (push rb silence_planes 2 block); simpl; split; [split |]; done.
    + simpl; split; [split |]; done.
  - subst pc. done.
Qed.

Lemma open_reader_ok r path sr r' b :
  reader_ok r -> open r path sr = Some (r', b) -> reader_ok r'.
Proof.
  intros [Hinv _]. destruct r as [run stp p0 sr0 pc]; unfold open; simpl.
  destruct run; [intros; simplify_eq/=; split; done |].
  destruct (joinable pc); [done |]. intros; simplify_eq/=.
  split; [split; discriminate | done].
Qed.

(** ** Properties of the reader *)

(** C8. [stop] is synchronous and idempotent: on a reader satisfying its
    invariant, with any bound of three statements or more for the joined
    thread, [stop] returns with the reader stopped, [mShouldStop] set and
    the thread joined.  A thread that had already read [mShouldStop] as
    clear pushes one more silent block into the ring before it sees the
    flag ([last_push]); from any other statement it returns without
    touching the ring.  A second [stop] changes nothing. *)
Theorem stop_joins fuel r rb :
  reader_inv r -> (3 <= fuel)%nat ->
  let r' := mkReader false true (mPath r) (mSampleRate r) NoThread in
  let rb' := last_push (mThread r) rb in
  stop fuel r rb = Some (r', rb') /\ stop fuel r' rb' = Some (r', rb').
Proof.
  intros Hinv Hf. cbv zeta. split; [by apply stop_stops | reflexivity].
Qed.

(** [open] always succeeds on a reader satisfying its invariant and
    never restarts a running thread: on a running reader it keeps the same
    thread, on a stopped one it starts exactly one, at the loop head; in
    both cases the path (empty for a null pointer) and the sample rate are
    recorded, [mShouldStop] is cleared and the invariant holds again. *)
Theorem open_spec r path sr :
  reader_inv r ->
  exists r', open r path sr = Some (r', true) /\
    mRunning r' = true /\ mShouldStop r' = false /\ reader_inv r' /\
    mPath r' = default String.EmptyString path /\ mSampleRate r' = sr /\
    mThread r' = (if mRunning r then mThread r else AtLoopHead).
Proof.
  intros Hinv. destruct r as [run stp p0 sr0 pc]; unfold reader_inv, open in *; simpl in *.
  destruct run; simpl.
  - destruct Hinv. eexists; split; [reflexivity |]. unfold reader_inv; simpl.
    split_and!; done.
  - subst pc. eexists; split; [reflexivity |]. unfold reader_inv; simpl. split_and!; done.
Qed.

(** Back-pressure: when the ring is full, the producer's push writes
    nothing and returns 0, the ring is unchanged, and the thread's next
    statement is the 2 ms sleep, after which it retries from the loop
    head: it never overwrites unread frames. *)
Theorem producer_backpressure r rb :
  mThread r = InLoop ->
  cursor_inv rb -> filled rb = mCapacityFrames rb ->
  thread_step r rb = (with_thread r (AfterPush 0), rb) /\
  thread_step (with_thread r (AfterPush 0)) rb = (with_thread r AtLoopHead, rb).
Proof.
  intros Hpc Hinv Hfull. split; [| reflexivity].
  unfold thread_step. rewrite Hpc.
  rewrite push_eq by (done || (unfold block; rewrite INT_MAX_val; lia)).
  cbv zeta. rewrite Hfull, Z.sub_diag, Z.min_r by (unfold block; lia).
  reflexivity.
Qed.

(** Witnesses: a reader running its loop, a fresh reader, and a full
    two-channel ring of capacity 2. *)
Definition ex_running : DiskReader := mkReader true false String.EmptyString 48000 AtLoopHead.
Definition ex_full_ring : RingBuffer Qc :=
  mkRing 2 2 [[0%Qc; 0%Qc]; [0%Qc; 0%Qc]] 2 0.

(** A reader that has passed its loop test, on an empty ring of
    capacity 2: the join lets it push two more frames. *)
Definition ex_in_loop : DiskReader := mkReader true false String.EmptyString 48000 InLoop.
Definition ex_empty_ring : RingBuffer Qc :=
  mkRing 2 2 [[0%Qc; 0%Qc]; [0%Qc; 0%Qc]] 0 0.

Lemma stop_joins_witness :
  let r' := mkReader false true (mPath ex_in_loop) (mSampleRate ex_in_loop) NoThread in
  let rb' := last_push (mThread ex_in_loop) ex_empty_ring in
  (stop 3 ex_in_loop ex_empty_ring = Some (r', rb') /\ stop 3 r' rb' = Some (r', rb')) /\
  filled rb' = 2.
Proof.
  split; [| vm_compute; reflexivity].
  apply (stop_joins 3 ex_in_loop ex_empty_ring);
    first [apply (bool_decide_unpack _); vm_compute; exact I | lia].
Defined.

Lemma open_spec_witness :
  exists r', open new_reader (Some "song.wav"%string) 44100 = Some (r', true) /\
    mRunning r' = true /\ mShouldStop r' = false /\ reader_inv r' /\
    mPath r' = default String.EmptyString (Some "song.wav"%string) /\ mSampleRate r' = 44100 /\
    mThread r' = (if mRunning new_reader then mThread new_reader else AtLoopHead).
Proof.
  apply (open_spec new_reader (Some "song.wav"%string) 44100).
  apply (bool_decide_unpack _); vm_compute; exact I.
Defined.

Lemma producer_backpressure_witness :
  thread_step ex_in_loop ex_full_ring = (with_thread ex_in_loop (AfterPush 0), ex_full_ring) /\
  thread_step (with_thread ex_in_loop (AfterPush 0)) ex_full_ring =
    (with_thread ex_in_loop AtLoopHead, ex_full_ring).
Proof.
  apply (producer_backpressure ex_in_loop ex_full_ring);
    first [reflexivity | apply (bool_decide_unpack _); vm_compute; exact I].
Defined.
End DiskReader.
