(* ===== verification/DSPCore.v ===== *)
(** * DSPCore: the real-time renderer of [src/src/core/dsp_core.cpp]

    [atome::DSPCore] owns a ring buffer of [Qc] samples and a disk reader
    that feeds it.  The host calls [init] (allocate once), [setParameter]
    (gain, play, position), [setTransport], [process] (the audio callback:
    pop, zero-fill on underrun, gain), [loadFile] and [clear].  Each is a
    function on the [DSPCore] record below.  [process] returns [None] when
    the C++ code has undefined behaviour (a [memset] whose byte count is a
    negative [int] converted to [size_t]); [init] returns [None] when the
    ring's constructor throws; [loadFile] and [clear] return [None] when the
    reader's thread handling calls [std::terminate] or (for the join) when
    the fuel given to the joined thread runs out.

    The concurrent system (the reader's thread stepping on the shared ring
    between host calls) is the relation [core_step]; its invariant
    [core_inv] is proved by induction on the steps. *)

From S2P Require Import Prelude RingBuffer DiskReader.
From stdpp Require Import base list strings relations.
From Stdlib Require Import ZArith Lia QArith Qcanon.

Open Scope Z_scope.

Module DSPCore.
Import DiskReader.

(** [enum class ParamId : uint32_t]. *)
Inductive ParamId : Type := Gain | Play | PositionFrames.

(** [static_cast<ParamId>(id)] of the [int] the WAM glue receives: any
    value is a valid [ParamId] object, but only 0, 1 and 2 name a case of
    the [switch]. *)
Definition ParamId_of_int (id : Z) : option ParamId :=
  if id =? 0 then Some Gain
  else if id =? 1 then Some Play
  else if id =? 2 then Some PositionFrames
  else None.

(** [struct TransportState]. *)
Record TransportState := mkTransport { tempo : Qc; ppq : Qc; playing : bool }.

Definition default_transport : TransportState := mkTransport (Q2Qc 120) 0%Qc false.

(** The fields of the class (dsp_core.h, lines 41-50). *)
Record DSPCore := mkCore {
  mSampleRate : Qc;
  mMaxChannels : Z;
  mGain : Qc;
  mPlay : Z;
  mPositionFrames : Qc;
  mTransport : TransportState;
  mRing : option (RingBuffer Qc);
  mReader : option DiskReader
}.

(** [DSPCore() = default]: the member initialisers. *)
Definition new_core : DSPCore :=
  mkCore (Q2Qc 48000) 2 1%Qc 0 0%Qc default_transport None None.

Definition set_ring (c : DSPCore) (rb : option (RingBuffer Qc)) : DSPCore :=
  mkCore (mSampleRate c) (mMaxChannels c) (mGain c) (mPlay c) (mPositionFrames c)
    (mTransport c) rb (mReader c).

Definition set_reader (c : DSPCore) (r : option DiskReader) : DSPCore :=
  mkCore (mSampleRate c) (mMaxChannels c) (mGain c) (mPlay c) (mPositionFrames c)
    (mTransport c) (mRing c) r.

(** [init(sampleRate, maxChannels, ringCapacityFrames)], lines 11-16: the
    ring and the reader are allocated only when missing. *)
Definition init (c : DSPCore) (sampleRate : Qc) (maxChannels ringCapacityFrames : Z)
    : option DSPCore :=
  let c1 := mkCore sampleRate maxChannels (mGain c) (mPlay c) (mPositionFrames c)
              (mTransport c) (mRing c) (mReader c) in
  let with_reader c2 :=
    match mReader c2 with None => set_reader c2 (Some new_reader) | Some _ => c2 end in
  match mRing c1 with
  | Some _ => Some (with_reader c1)
  | None =>
      match new_ring 0%Qc maxChannels ringCapacityFrames with
      | None => None
      | Some rb => Some (with_reader (set_ring c1 (Some rb)))
      end
  end.

(** [value > 0.5f ? 1 : 0]. *)
Definition play_of (value : Qc) : Z := if bool_decide (Q2Qc (1 # 2) < value)%Qc then 1 else 0.

(** [setParameter(id, value)], lines 18-24. *)
Definition setParameter (c : DSPCore) (id : ParamId) (value : Qc) : DSPCore :=
  match id with
  | Gain => mkCore (mSampleRate c) (mMaxChannels c) value (mPlay c) (mPositionFrames c)
              (mTransport c) (mRing c) (mReader c)
  | Play => mkCore (mSampleRate c) (mMaxChannels c) (mGain c) (play_of value)
              (mPositionFrames c) (mTransport c) (mRing c) (mReader c)
  | PositionFrames => mkCore (mSampleRate c) (mMaxChannels c) (mGain c) (mPlay c) value
              (mTransport c) (mRing c) (mReader c)
  end.

(** [atome_set_param(core, id, value)] of wam_entry.cpp: an [int] id that
    names no case leaves the core unchanged. *)
Definition setParameter_int (c : DSPCore) (id : Z) (value : Qc) : DSPCore :=
  match ParamId_of_int id with Some p => setParameter c p value | None => c end.

(** [setTransport(tempo, ppq, playing)], lines 26-30. *)
Definition setTransport (c : DSPCore) (t p : Qc) (pl : bool) : DSPCore :=
  mkCore (mSampleRate c) (mMaxChannels c) (mGain c) (mPlay c) (mPositionFrames c)
    (mkTransport t p pl) (mRing c) (mReader c).

(** The silence loops of [process] (lines 38-40 and 46-48):
    [memset(out[ch], 0, sizeof(float) * frames)] for [ch < channels].  A
    negative [frames] gives a byte count above 2^63: undefined behaviour. *)
Definition zero_fill (out : list (list Qc)) (channels frames : Z) : option (list (list Qc)) :=
  if channels <=? 0 then Some out
  else if frames <? 0 then None
  else Some (imap (fun ch o =>
                     if Z.of_nat ch <? channels
                     then memcpy_list o 0 (replicate (Z.to_nat frames) 0%Qc) (Z.to_nat frames)
                     else o) out).

(** The underrun fill (lines 54-58): [memset(out[ch] + popped, 0, ...)]
    of the [frames - popped] samples after the popped ones. *)
Definition fill_tail (out : list (list Qc)) (channels popped frames : Z) : list (list Qc) :=
  imap (fun ch o =>
          if Z.of_nat ch <? channels
          then memcpy_list o (Z.to_nat popped) (replicate (Z.to_nat (frames - popped)) 0%Qc)
                 (Z.to_nat (frames - popped))
          else o) out.

(** The gain loop (lines 61-65): [out[ch][n] *= gain] for [n < frames]. *)
Definition apply_gain (out : list (list Qc)) (channels frames : Z) (gain : Qc)
    : list (list Qc) :=
  imap (fun ch o =>
          if Z.of_nat ch <? channels
          then ((fun x => x * gain)%Qc <$> take (Z.to_nat frames) o) ++ drop (Z.to_nat frames) o
          else o) out.

(** [process(in, out, channels, frames)], lines 32-66.  The input planes
    are not read.  The result is the core (its ring's read cursor has
    moved) and the output planes. *)
Definition process (c : DSPCore) (inp out : list (list Qc)) (channels frames : Z)
    : option (DSPCore * list (list Qc)) :=
  let gain := mGain c in
  let play := mPlay c in
  match mRing c with
  | None => o ← zero_fill out channels frames; Some (c, o)
  | Some rb =>
      if (channels <=? 0) || (frames <=? 0) then o ← zero_fill out channels frames; Some (c, o)
      else if play =? 0 then o ← zero_fill out channels frames; Some (c, o)
      else
        let '(rb', out1, popped) := pop rb out channels frames in
        let out2 := if popped <? frames then fill_tail out1 channels popped frames else out1 in
        Some (set_ring c (Some rb'), apply_gain out2 channels frames gain)
  end.

(** [static_cast<int>(double)]: truncation toward zero. *)
Definition trunc_to_int (q : Qc) : Z := Z.quot (Qnum (this q)) (Zpos (Qden (this q))).

(** [loadFile(path)], lines 68-71. *)
Definition loadFile (c : DSPCore) (path : option String.string) : option DSPCore :=
  match mReader c with
  | None => Some c
  | Some r =>
      match DiskReader.open r path (trunc_to_int (mSampleRate c)) with
      | None => None
      | Some (r', _) => Some (set_reader c (Some r'))
      end
  end.

(** [clear()], lines 73-76: stop the reader, [delete] it (its
    destructor [DiskReader.destroy] stops it again), then delete the ring.
    The joined thread runs on the ring the reader was built with. *)
Definition clear (fuel : nat) (c : DSPCore) : option DSPCore :=
  match mReader c, mRing c with
  | Some r, Some rb =>
      match DiskReader.stop fuel r rb with
      | None => None
      | Some (r', rb') =>
          match DiskReader.destroy fuel r' rb' with
          | None => None
          | Some _ => Some (set_ring (set_reader c None) None)
          end
      end
  | _, _ => Some (set_ring (set_reader c None) None)
  end.

(** [~DSPCore()], line 9. *)
Definition destroy (fuel : nat) (c : DSPCore) : option DSPCore := clear fuel c.

(** [processTimeStretch], lines 78-80: an empty body (the future
    insertion point of a time-stretcher); the output planes are left as
    they are. *)
Definition processTimeStretch (inp out : list (list Qc)) (frames : Z) : list (list Qc) := out.

(** ** The concurrent system *)

(** One step of the system: a host call or one statement of the reader's
    thread acting on the shared ring.  Outcomes without defined behaviour
    ([None]) are not steps.  [init]'s capacity is a non-negative [int], as
    its callers pass it (four times the host's block size). *)
Inductive core_step : DSPCore -> DSPCore -> Prop :=
| CInit c sr mc cap c' :
    0 <= cap <= INT_MAX -> init c sr mc cap = Some c' -> core_step c c'
| CSetParameter c id v : core_step c (setParameter c id v)
| CSetTransport c t p pl : core_step c (setTransport c t p pl)
| CProcess c inp out ch fr c' out' :
    process c inp out ch fr = Some (c', out') -> core_step c c'
| CLoadFile c path c' : loadFile c path = Some c' -> core_step c c'
| CClear fuel c c' : clear fuel c = Some c' -> core_step c c'
| CReader c rb r :
    mRing c = Some rb -> mReader c = Some r ->
    core_step c (let '(r', rb') := thread_step r rb in set_reader (set_ring c (Some rb')) (Some r')).

Definition core_reachable (c : DSPCore) : Prop := rtc core_step new_core c.

(** The invariant: the ring, when there is one, is well formed and holds
    only silence (the reader pushes [silence_planes] and nothing else
    writes into it). *)
Definition core_inv (c : DSPCore) : Prop :=
  match mRing c with
  | Some rb => ring_wf rb /\ Forall (Forall (fun x => x = 0%Qc)) (mData rb)
  | None => True
  end.

(** The reader's side: the core's reader, when it has one, satisfies the
    reader's invariant and has a ring to run on. *)
Definition core_reader_inv (c : DSPCore) : Prop :=
  match mReader c with
  | Some r => reader_ok r /\ mRing c <> None
  | None => True
  end.

(** ** Lemmas on the output loops *)

Lemma lookup_apply_gain out channels frames g i :
  apply_gain out channels frames g !! i =
    (fun o => if Z.of_nat i <? channels
              then ((fun x => x * g)%Qc <$> take (Z.to_nat frames) o) ++ drop (Z.to_nat frames) o
              else o) <$> out !! i.
Proof. apply list_lookup_imap. Qed.

Lemma lookup_fill_tail out channels popped frames i :
  fill_tail out channels popped frames !! i =
    (fun o => if Z.of_nat i <? channels
              then memcpy_list o (Z.to_nat popped) (replicate (Z.to_nat (frames - popped)) 0%Qc)
                     (Z.to_nat (frames - popped))
              else o) <$> out !! i.
Proof. apply list_lookup_imap. Qed.

Lemma length_apply_gain out channels frames g :
  length (apply_gain out channels frames g) = length out.
Proof. apply length_imap. Qed.

Lemma length_fill_tail out channels popped frames :
  length (fill_tail out channels popped frames) = length out.
Proof. apply length_imap. Qed.

(** One output plane after the underrun fill and the gain loop: the [n]
    samples [pop] left at its start and [frames - n] zeros, all scaled by
    the gain, followed by the untouched rest of the plane. *)
Lemma tail_gain_plane (o1 : list Qc) n frames g :
  0 <= n <= frames -> (Z.to_nat frames <= length o1)%nat ->
  let o2 := if n <? frames
            then memcpy_list o1 (Z.to_nat n) (replicate (Z.to_nat (frames - n)) 0%Qc)
                   (Z.to_nat (frames - n))
            else o1 in
  ((fun x => x * g)%Qc <$> take (Z.to_nat frames) o2) ++ drop (Z.to_nat frames) o2 =
  ((fun x => x * g)%Qc <$> (take (Z.to_nat n) o1 ++ replicate (Z.to_nat (frames - n)) 0%Qc))
    ++ drop (Z.to_nat frames) o1.
Proof.
  intros Hn Hl. cbv zeta. destruct (Z.ltb_spec n frames).
  - unfold memcpy_list. rewrite take_replicate, Nat.min_id, app_assoc.
    rewrite take_app_length', drop_app_length'
      by (rewrite length_app, length_take, length_replicate; lia).
    f_equal. f_equal. lia.
  - replace frames with n by lia. rewrite Z.sub_diag. simpl. by rewrite app_nil_r.
Qed.

(** [process] on a configured core with play on and positive counts: the
    pop, then the underrun fill, then the gain. *)
Lemma process_play_eq c rb inp out channels frames :
  mRing c = Some rb -> mPlay c <> 0 -> 0 < channels -> 0 < frames ->
  process c inp out channels frames =
    let '(rb', out1, popped) := pop rb out channels frames in
    Some (set_ring c (Some rb'),
          apply_gain (if popped <? frames then fill_tail out1 channels popped frames else out1)
            channels frames (mGain c)).
Proof.
  intros Hr Hp Hc Hf. unfold process. rewrite Hr.
  rewrite (proj2 (Z.leb_gt _ _) Hc), (proj2 (Z.leb_gt _ _) Hf). simpl.
  rewrite (proj2 (Z.eqb_neq _ _) Hp). reflexivity.
Qed.

(** An output plane of [process] on the play path, for a channel below
    [channels]: on the channels the ring holds, the [n] popped frames of
    the channel's queue, on the others whatever the plane held; then zeros
    up to [frames]; all scaled by the gain; the rest of the plane kept. *)
Lemma process_play_plane c rb inp out channels frames i o :
  mRing c = Some rb -> ring_wf rb -> mReadIndex rb <= mWriteIndex rb ->
  mPlay c <> 0 -> 0 < channels -> 0 < frames <= INT_MAX ->
  planes_cover out channels frames -> out !! i = Some o -> (i < Z.to_nat channels)%nat ->
  let n := Z.min frames (filled rb) in
  let src := if decide (i < Z.to_nat (Z.min channels (mChannels rb)))%nat
             then contents 0%Qc rb i else o in
  exists out',
    process c inp out channels frames =
      Some (set_ring c (Some (fst (fst (pop rb out channels frames)))), out') /\
    out' !! i = Some (((fun x => x * mGain c)%Qc <$>
                         (take (Z.to_nat n) src ++ replicate (Z.to_nat (frames - n)) 0%Qc))
                      ++ drop (Z.to_nat frames) o).
Proof.
  intros Hr Hwf Hrw Hp Hc Hf Hcov Ho Hi. cbv zeta.
  rewrite (process_play_eq c rb) by (done || lia).
  pose proof (planes_cover_le out channels (Z.min channels (mChannels rb)) frames
                ltac:(lia) Hcov) as Hcov'.
  destruct (planes_cover_lookup out channels frames i Hcov) as (o' & Ho' & Hlo); [lia |].
  assert (o' = o) by congruence. subst o'.
  destruct (pop_plane 0%Qc rb out channels frames i o Hwf ltac:(lia) Hrw Hcov' Ho Hlo)
    as (o1 & Ho1 & Hl1 & Ht & Hd).
  pose proof (pop_filled rb out channels frames (proj1 Hwf) ltac:(lia)) as [Hn _].
  destruct (pop rb out channels frames) as [[rb' out1] popped]; simpl in *. subst popped.
  set (n := Z.min frames (filled rb)) in *.
  assert ((if n <? frames then fill_tail out1 channels n frames else out1) !! i =
          Some (if n <? frames
                then memcpy_list o1 (Z.to_nat n) (replicate (Z.to_nat (frames - n)) 0%Qc)
                       (Z.to_nat (frames - n))
                else o1)) as Ho2.
  { destruct (n <? frames); simpl; [| done]. rewrite lookup_fill_tail, Ho1. simpl.
    by rewrite (proj2 (Z.ltb_lt _ _)) by lia. }
  eexists; split; [reflexivity |].
  rewrite lookup_apply_gain, Ho2. simpl. rewrite (proj2 (Z.ltb_lt _ _)) by lia.
  assert (0 <= n <= frames) by (unfold n; pose proof (filled_range rb); lia).
  rewrite tail_gain_plane by lia.
  rewrite Ht, (drop_eq_ge o1 o (Z.to_nat n) (Z.to_nat frames)) by (done || lia).
  reflexivity.
Qed.

(** The planes from [channels] on are not touched by [process]. *)
Lemma process_play_other c rb inp out channels frames i :
  mRing c = Some rb -> ring_wf rb -> mPlay c <> 0 -> 0 < channels -> 0 < frames <= INT_MAX ->
  (Z.to_nat channels <= i)%nat ->
  exists out',
    process c inp out channels frames =
      Some (set_ring c (Some (fst (fst (pop rb out channels frames)))), out') /\
    out' !! i = out !! i.
Proof.
  intros Hr Hwf Hp Hc Hf Hi.
  rewrite (process_play_eq c rb) by (done || lia).
  pose proof (pop_out_other rb out channels frames i (proj1 Hwf) ltac:(lia) ltac:(lia)) as Ho.
  destruct (pop rb out channels frames) as [[rb' out1] popped]; simpl in *.
  eexists; split; [reflexivity |].
  rewrite lookup_apply_gain.
  assert ((if popped <? frames then fill_tail out1 channels popped frames else out1) !! i
          = out1 !! i) as E.
  { destruct (popped <? frames); simpl; [| done]. rewrite lookup_fill_tail.
    destruct (out1 !! i); simpl; [| done]. by rewrite (proj2 (Z.ltb_ge _ _)) by lia. }
  rewrite E, Ho. destruct (out !! i); simpl; [| done].
  by rewrite (proj2 (Z.ltb_ge _ _)) by lia.
Qed.
Lemma set_ring_same c rb : mRing c = Some rb -> set_ring c (Some rb) = c.
Proof. destruct c; simpl. by intros ->. Qed.

Lemma zero_fill_lookup out channels frames i o :
  0 < channels -> 0 <= frames -> out !! i = Some o ->
  exists out', zero_fill out channels frames = Some out' /\
    out' !! i = Some (if decide (i < Z.to_nat channels)%nat
                      then memcpy_list o 0 (replicate (Z.to_nat frames) 0%Qc) (Z.to_nat frames)
                      else o).
Proof.
  intros Hc Hf Ho. unfold zero_fill.
  rewrite (proj2 (Z.leb_gt _ _) Hc), (proj2 (Z.ltb_ge _ _) Hf).
  eexists; split; [reflexivity |]. rewrite list_lookup_imap, Ho. simpl.
  case_decide; [by rewrite (proj2 (Z.ltb_lt _ _)) by lia |].
  by rewrite (proj2 (Z.ltb_ge _ _)) by lia.
Qed.

Lemma memset_plane (o : list Qc) frames :
  (Z.to_nat frames <= length o)%nat ->
  memcpy_list o 0 (replicate (Z.to_nat frames) 0%Qc) (Z.to_nat frames) =
    replicate (Z.to_nat frames) 0%Qc ++ drop (Z.to_nat frames) o.
Proof. intros H. unfold memcpy_list. simpl. by rewrite take_replicate, Nat.min_id. Qed.

Lemma scale_zeros g k : ((fun x => x * g)%Qc <$> replicate k 0%Qc) = replicate k 0%Qc.
Proof. rewrite fmap_replicate. by rewrite Qcmult_0_l. Qed.

(** ** The ring holds only silence *)

Definition silent (ps : list (list Qc)) : Prop := Forall (Forall (fun x => x = 0%Qc)) ps.

Lemma silent_planes_write data inp nch wm f sc :
  silent data -> silent inp -> silent (planes_write data inp nch wm f sc).
Proof.
  intros Hd Hi. unfold silent, planes_write in *. apply Forall_lookup_2. intros ch p Hp.
  rewrite list_lookup_imap in Hp.
  destruct (data !! ch) as [plane |] eqn:Hpl; simplify_eq/=.
  assert (Forall (fun x => x = 0%Qc) plane) as Hplane
    by (rewrite Forall_lookup in Hd; by apply (Hd ch)).
  assert (Forall (fun x => x = 0%Qc) (default [] (inp !! ch))) as Hsrc.
  { destruct (inp !! ch) eqn:E; simpl; [| done]. rewrite Forall_lookup in Hi. by apply (Hi ch). }
  case_match; [| done]. unfold plane_write.
  case_match; repeat apply Forall_memcpy_list; auto using Forall_drop.
Qed.

Lemma silent_push rb inp ch n :
  silent (mData rb) -> silent inp -> silent (mData (fst (push rb inp ch n))).
Proof.
  intros Hd Hi. unfold push. cbv zeta. case_match; [done |]. simpl.
  by apply silent_planes_write.
Qed.

Lemma pop_data (rb : RingBuffer Qc) out ch n : mData (fst (fst (pop rb out ch n))) = mData rb.
Proof. unfold pop. cbv zeta. by case_match. Qed.

Lemma core_inv_ring c rb : mRing c = Some rb -> core_inv c -> ring_wf rb /\ silent (mData rb).
Proof. unfold core_inv. by intros ->. Qed.

Lemma reader_push_ok (rb : RingBuffer Qc) :
  ring_wf rb -> silent (mData rb) ->
  ring_wf (fst (push rb silence_planes 2 block)) /\ silent (mData (fst (push rb silence_planes 2 block))).
Proof.
  intros Hwf Hs. pose proof Hwf as [Hinv [Hc _]].
  assert (0 <= block <= INT_MAX) as Hb by (rewrite INT_MAX_val; unfold block; lia).
  split; [split |].
  - by apply push_cursor_inv.
  - apply push_shape; [done | done |].
    apply (planes_cover_le _ 2); [lia |]. apply (bool_decide_unpack _). by vm_compute.
  - apply silent_push; [done | exact silence_planes_zero].
Qed.

Lemma thread_step_ring_ok r (rb : RingBuffer Qc) :
  ring_wf rb -> silent (mData rb) ->
  ring_wf (snd (thread_step r rb)) /\ silent (mData (snd (thread_step r rb))).
Proof.
  intros Hwf Hs. unfold thread_step.
  destruct (mThread r); try (by destruct (mShouldStop r)).
  destruct (push rb silence_planes 2 block) as [rb' w] eqn:E. simpl.
  pose proof (reader_push_ok rb Hwf Hs) as H. by rewrite E in H.
Qed.

Lemma process_ring c inp out ch fr c' out' :
  process c inp out ch fr = Some (c', out') ->
  mRing c' = mRing c \/
  exists rb, mRing c = Some rb /\ mRing c' = Some (fst (fst (pop rb out ch fr))).
Proof.
  unfold process. intros Hp.
  destruct (mRing c) as [rb |] eqn:Hr.
  - destruct ((ch <=? 0) || (fr <=? 0)); [destruct (zero_fill _ _ _); simplify_eq/=; by left |].
    destruct (mPlay c =? 0); [destruct (zero_fill _ _ _); simplify_eq/=; by left |].
    destruct (pop rb out ch fr) as [[rb' o1] k] eqn:Ep. simplify_eq/=.
    right. exists rb. by rewrite Ep.
  - destruct (zero_fill _ _ _); simplify_eq/=. by left.
Qed.

Lemma init_ring c sr mc cap c' :
  init c sr mc cap = Some c' ->
  mRing c' = mRing c \/ (mRing c = None /\ new_ring 0%Qc mc cap = mRing c').
Proof.
  unfold init. intros Hi. destruct (mRing c) as [rb |] eqn:Hr; simpl in Hi.
  - left. destruct (mReader c); simplify_eq/=; done.
  - right. split; [done |]. destruct (new_ring _ _ _) as [rb |]; [| done].
    destruct (mReader c); simplify_eq/=; done.
Qed.

Lemma core_step_inv c c' : core_step c c' -> core_inv c -> core_inv c'.
Proof.
  unfold core_inv. destruct 1 as [c sr mc cap c' Hcap Hi | c id v | c t p pl
    | c inp out ch fr c' out' Hp | c path c' Hl | fuel c c' Hcl | c rb r Hr Hrd]; intros Hinv.
  - destruct (init_ring _ _ _ _ _ Hi) as [E | [_ Hn]]; [by rewrite E |].
    destruct (mRing c') as [rb |]; [| done].
    destruct (new_ring_fields 0%Qc _ _ _ Hn) as (_ & _ & _ & _ & Hd).
    split; [split; [by apply (new_ring_cursor_inv 0%Qc mc cap) | by apply (new_ring_shape 0%Qc mc cap)] |].
    rewrite Hd. apply Forall_replicate, Forall_replicate. done.
  - by destruct id.
  - done.
  - destruct (process_ring _ _ _ _ _ _ _ Hp) as [E | (rb & Hr & E)]; rewrite E; [done |].
    rewrite Hr in Hinv. destruct Hinv as [[Hci Hsh] Hs].
    split; [split; [by apply pop_cursor_inv | by apply pop_shape] | by rewrite pop_data].
  - unfold loadFile in Hl. destruct (mReader c) as [r |]; [| by simplify_eq].
    destruct (DiskReader.open _ _ _) as [[r' b] |]; simplify_eq/=; done.
  - unfold clear in Hcl. repeat case_match; simplify_eq/=; done.
  - rewrite Hr in Hinv. destruct Hinv as [Hwf Hs].
    pose proof (thread_step_ring_ok r rb Hwf Hs) as Hok.
    destruct (thread_step r rb) as [r' rb']. exact Hok.
Qed.

Lemma core_reachable_inv c : core_reachable c -> core_inv c.
Proof.
  unfold core_reachable. intros Hr.
  assert (core_inv new_core) as H0 by done.
  induction Hr as [| x y z Hxy _ IH]; [done |]. by apply IH, (core_step_inv x y).
Qed.

Lemma contents_silent (rb : RingBuffer Qc) ch :
  silent (mData rb) -> Forall (fun x => x = 0%Qc) (contents 0%Qc rb ch).
Proof.
  intros Hs. unfold contents. apply Forall_fmap, Forall_forall. intros i _. simpl.
  unfold slot. destruct (mData rb !! ch) as [p |] eqn:Hp; simpl; [| done].
  destruct (p !! _) as [x |] eqn:Hx; simpl; [| done].
  unfold silent in Hs. rewrite Forall_lookup in Hs. specialize (Hs ch p Hp).
  rewrite Forall_lookup in Hs. by eapply Hs.
Qed.
Lemma process_reader c inp out ch fr c' out' :
  process c inp out ch fr = Some (c', out') -> mReader c' = mReader c.
Proof.
  unfold process. intros Hp. repeat case_match; simplify_eq/=; try done.
  all: destruct (zero_fill out ch fr); simplify_eq/=; done.
Qed.

Lemma core_step_reader_inv c c' : core_step c c' -> core_reader_inv c -> core_reader_inv c'.
Proof.
  unfold core_reader_inv. destruct 1 as [c sr mc cap c' Hcap Hi | c id v | c t p pl
    | c inp out ch fr c' out' Hp | c path c' Hl | fuel c c' Hcl | c rb r Hr Hrd]; intros Hinv.
  - unfold init in Hi. repeat case_match; simplify_eq/=; try done;
      try done; [destruct Hinv; split; [done | congruence] | split; [split; done | congruence]].
  - by destruct id.
  - done.
  - rewrite (process_reader _ _ _ _ _ _ _ Hp). destruct (mReader c) as [r |]; [| done].
    destruct Hinv as [Hok Hne]. split; [done |].
    destruct (process_ring _ _ _ _ _ _ _ Hp) as [-> | (rb & _ & ->)]; done.
  - unfold loadFile in Hl. destruct (mReader c) as [r |] eqn:Er; [| simplify_eq; by rewrite Er].
    destruct (DiskReader.open _ _ _) as [[r' b] |] eqn:Eo; simplify_eq/=.
    destruct Hinv as [Hok Hne]. split; [by eapply open_reader_ok | done].
  - unfold clear in Hcl. repeat case_match; simplify_eq/=; done.
  - rewrite Hrd in Hinv. destruct Hinv as [Hok _].
    pose proof (thread_step_reader_ok r rb Hok) as Hok'.
    destruct (thread_step r rb) as [r' rb']. simpl. done.
Qed.

Lemma core_reachable_reader_inv c : core_reachable c -> core_reader_inv c.
Proof.
  unfold core_reachable. intros Hr.
  assert (core_reader_inv new_core) as H0 by done.
  induction Hr as [| x y z Hxy _ IH]; [done |]. by apply IH, (core_step_reader_inv x y).
Qed.

(** ** Properties of the renderer *)

(** C11. Underrun yields silence: with play on and an empty ring (for
    instance before the reader has produced anything), [process] writes
    exactly [frames] zeros at the start of every output plane below
    [channels], whatever the gain, leaves the rest of each plane and the
    ring as they were, and never fails. *)
Theorem process_underrun_silence c rb inp out channels frames :
  mRing c = Some rb -> cursor_inv rb -> filled rb = 0 -> mPlay c <> 0 ->
  0 < channels -> 0 < frames <= INT_MAX -> planes_cover out channels frames ->
  exists out', process c inp out channels frames = Some (c, out') /\
    length out' = length out /\
    forall i o, out !! i = Some o -> (i < Z.to_nat channels)%nat ->
      out' !! i = Some (replicate (Z.to_nat frames) 0%Qc ++ drop (Z.to_nat frames) o).
Proof.
  intros Hr Hinv H0 Hp Hc Hf Hcov.
  rewrite (process_play_eq c rb) by (done || lia).
  rewrite pop_eq by (done || lia). cbv zeta. rewrite H0, Z.min_r by lia. simpl.
  rewrite (proj2 (Z.ltb_lt 0 frames)) by lia. rewrite set_ring_same by done.
  eexists; split_and!; [reflexivity | by rewrite length_apply_gain, length_fill_tail |].
  intros i o Ho Hi.
  destruct (planes_cover_lookup out channels frames i Hcov) as (o' & Ho' & Hlo); [lia |].
  assert (o' = o) by congruence. subst o'.
  rewrite lookup_apply_gain, lookup_fill_tail, Ho. simpl.
  rewrite (proj2 (Z.ltb_lt _ _)) by lia.
  pose proof (tail_gain_plane o 0 frames (mGain c) ltac:(lia) Hlo) as E.
  simpl in E. rewrite (proj2 (Z.ltb_lt 0 frames)) in E by lia.
  rewrite E, Z.sub_0_r, scale_zeros. done.
Qed.

(** C12. Rendering: with play on, [process] pops
    [n = min(frames, filled)] frames from the ring (the ring afterwards is
    the one [pop] returns) and every output plane below [channels] holds
    the next [n] frames of its channel's queue followed by [frames - n]
    zeros, every sample multiplied by the gain; the rest of each plane and
    the planes from [channels] on are left as they were.  Hypotheses: a
    well-formed ring whose cursors have not wrapped, a channel count the
    ring holds, counts in the [int] range, output planes of [frames]
    samples. *)
Theorem process_spec c rb inp out channels frames :
  mRing c = Some rb -> ring_wf rb -> mReadIndex rb <= mWriteIndex rb -> mPlay c <> 0 ->
  0 < channels <= mChannels rb -> 0 < frames <= INT_MAX -> planes_cover out channels frames ->
  let n := Z.min frames (filled rb) in
  exists out',
    process c inp out channels frames =
      Some (set_ring c (Some (fst (fst (pop rb out channels frames)))), out') /\
    (forall i o, out !! i = Some o -> (i < Z.to_nat channels)%nat ->
       out' !! i = Some (((fun x => x * mGain c)%Qc <$>
                           (take (Z.to_nat n) (contents 0%Qc rb i)
                            ++ replicate (Z.to_nat (frames - n)) 0%Qc))
                         ++ drop (Z.to_nat frames) o)) /\
    (forall i, (Z.to_nat channels <= i)%nat -> out' !! i = out !! i).
Proof.
  intros Hr Hwf Hrw Hp Hc Hf Hcov. cbv zeta.
  destruct (process_play_other c rb inp out channels frames (Z.to_nat channels) Hr Hwf Hp
              ltac:(lia) Hf ltac:(lia)) as (out' & Hproc & _).
  exists out'. split_and!; [done | |].
  - intros i o Ho Hi.
    destruct (process_play_plane c rb inp out channels frames i o Hr Hwf Hrw Hp
                ltac:(lia) Hf Hcov Ho Hi) as (out'' & Hproc' & Hi'').
    rewrite Hproc in Hproc'. simplify_eq. rewrite Hi''.
    rewrite decide_True by lia. done.
  - intros i Hi.
    destruct (process_play_other c rb inp out channels frames i Hr Hwf Hp
                ltac:(lia) Hf Hi) as (out'' & Hproc' & Hi'').
    rewrite Hproc in Hproc'. by simplify_eq.
Qed.

(** C13. When the host asks for more channels than the ring holds (the
    ring is sized once, by the first [init]), the extra planes are not
    written by the pop: their first [n] samples keep whatever the host's
    buffer held, multiplied by the gain, instead of audio or silence. *)
Theorem process_extra_channels_stale c rb inp out channels frames i o :
  mRing c = Some rb -> ring_wf rb -> mReadIndex rb <= mWriteIndex rb -> mPlay c <> 0 ->
  0 < frames <= INT_MAX -> planes_cover out channels frames ->
  out !! i = Some o -> (Z.to_nat (mChannels rb) <= i < Z.to_nat channels)%nat ->
  let n := Z.min frames (filled rb) in
  exists out', process c inp out channels frames =
      Some (set_ring c (Some (fst (fst (pop rb out channels frames)))), out') /\
    out' !! i = Some (((fun x => x * mGain c)%Qc <$>
                        (take (Z.to_nat n) o ++ replicate (Z.to_nat (frames - n)) 0%Qc))
                      ++ drop (Z.to_nat frames) o).
Proof.
  intros Hr Hwf Hrw Hp Hf Hcov Ho Hi. cbv zeta.
  destruct (process_play_plane c rb inp out channels frames i o Hr Hwf Hrw Hp
              ltac:(lia) Hf Hcov Ho ltac:(lia)) as (out' & Hproc & Hi').
  exists out'. split; [done |]. rewrite Hi'. by rewrite decide_False by lia.
Qed.

(** The silence paths: when the core has no ring yet, or play is
    off, [process] leaves the core (and its ring) unchanged and writes
    [frames] zeros at the start of every plane below [channels]. *)
Theorem process_silent_paths c inp out channels frames :
  (mRing c = None \/ mPlay c = 0) -> 0 < channels -> 0 <= frames ->
  planes_cover out channels frames ->
  exists out', process c inp out channels frames = Some (c, out') /\
    forall i o, out !! i = Some o -> (i < Z.to_nat channels)%nat ->
      out' !! i = Some (replicate (Z.to_nat frames) 0%Qc ++ drop (Z.to_nat frames) o).
Proof.
  intros Hsil Hc Hf Hcov.
  assert (process c inp out channels frames =
          o ← zero_fill out channels frames; Some (c, o)) as ->.
  { unfold process. destruct (mRing c) as [rb |]; [| done].
    destruct Hsil as [? | Hp]; [done |]. rewrite Hp.
    by destruct ((channels <=? 0) || (frames <=? 0)). }
  unfold zero_fill. rewrite (proj2 (Z.leb_gt _ _) Hc), (proj2 (Z.ltb_ge _ _) Hf). simpl.
  eexists; split; [reflexivity |]. intros i o Ho Hi.
  destruct (zero_fill_lookup out channels frames i o Hc Hf Ho) as (out' & Hz & Hi').
  unfold zero_fill in Hz. rewrite (proj2 (Z.leb_gt _ _) Hc), (proj2 (Z.ltb_ge _ _) Hf) in Hz.
  simplify_eq. rewrite Hi', decide_True by lia.
  destruct (planes_cover_lookup out channels frames i Hcov) as (o' & Ho' & Hlo); [lia |].
  assert (o' = o) by congruence. subst o'. by rewrite memset_plane.
Qed.

(** C15. A negative frame count with at least one channel is undefined
    behaviour in every path of [process]: the byte count of the silence
    [memset] is the [int] converted to a [size_t] near 2^64.  The spec
    says non-positive counts are answered with silence. *)
Theorem process_negative_frames_ub c inp out channels frames :
  0 < channels -> frames < 0 -> process c inp out channels frames = None.
Proof.
  intros Hc Hf. unfold process, zero_fill.
  rewrite (proj2 (Z.leb_gt _ _) Hc), (proj2 (Z.ltb_lt _ _) Hf).
  destruct (mRing c); [| done].
  rewrite (proj2 (Z.leb_le frames 0)) by lia. rewrite orb_true_r. done.
Qed.

(** The position parameter is stored but inert: setting it changes
    neither the rendered output nor the ring; only [mPositionFrames]
    differs afterwards. *)
Theorem position_inert c v inp out channels frames :
  process (setParameter c PositionFrames v) inp out channels frames =
    option_map (fun '(c', o) => (setParameter c' PositionFrames v, o))
      (process c inp out channels frames).
Proof.
  destruct c as [sr mc g pl pos tr ring rd]. unfold process. simpl.
  destruct ring as [rb |]; simpl.
  - destruct ((channels <=? 0) || (frames <=? 0)); [by destruct (zero_fill _ _ _) |].
    destruct (pl =? 0); [by destruct (zero_fill _ _ _) |].
    by destruct (pop rb out channels frames) as [[? ?] ?].
  - by destruct (zero_fill _ _ _).
Qed.

(** [init] allocates the ring and the reader only once: on a core
    that already has them, a second [init] with other parameters records
    the new sample rate and channel count but keeps the old ring (sized
    for the old channel count and capacity) and the old reader. *)
Theorem init_allocates_once c rb r sr maxChannels capacity :
  mRing c = Some rb -> mReader c = Some r ->
  init c sr maxChannels capacity =
    Some (mkCore sr maxChannels (mGain c) (mPlay c) (mPositionFrames c) (mTransport c)
            (Some rb) (Some r)).
Proof. intros Hr Hd. unfold init. simpl. rewrite Hr, Hd. reflexivity. Qed.

(** C31. Whatever sequence of host calls ([init], [setParameter],
    [setTransport], [process], [loadFile], [clear]) and reader-thread
    statements runs, the core's ring, when it has one, stays well formed
    and holds only zeros: the disk reader pushes nothing but its silent
    block, so no decoded audio ever reaches the ring. *)
Theorem ring_always_silent c rb :
  core_reachable c -> mRing c = Some rb ->
  ring_wf rb /\ Forall (Forall (fun x => x = 0%Qc)) (mData rb).
Proof. intros Hr Hc. exact (core_inv_ring c rb Hc (core_reachable_inv c Hr)). Qed.

(** C10. Teardown joins the reader before it deletes the ring: in every
    reachable state, [clear] and the destructor [~DSPCore] (given three
    statements or more for the reader's thread to return) succeed and
    leave the core without reader and ring.  The [stop] they run on the
    reader returns with its thread joined; the joined thread pushes at
    most one last silent block into the ring, when it had already passed
    its loop test ([last_push]), and only before [stop] returns, so the
    ring is not deleted under a running thread and the reader's
    destructor does not meet a joinable [std::thread]
    ([std::terminate]). *)
Theorem core_destroy_joins c fuel :
  core_reachable c -> (3 <= fuel)%nat ->
  destroy fuel c = Some (set_ring (set_reader c None) None) /\
  forall r rb, mReader c = Some r -> mRing c = Some rb ->
    exists r', DiskReader.stop fuel r rb = Some (r', last_push (mThread r) rb) /\
               mThread r' = NoThread.
Proof.
  intros Hreach Hf. pose proof (core_reachable_reader_inv c Hreach) as Hinv.
  unfold core_reader_inv in Hinv. unfold destroy, clear.
  destruct (mReader c) as [r |]; [| split; [done | discriminate]].
  destruct Hinv as [[Hok _] Hne]. destruct (mRing c) as [rb |]; [| done].
  rewrite (stop_stops fuel r rb Hok Hf). unfold DiskReader.destroy.
  rewrite (stop_stops fuel _ _) by done. split; [done |].
  intros ? ? [= <-] [= <-]. eexists. split; [by apply stop_stops | done].
Qed.

(** Consequently playback renders silence: in every reachable state
    with play on, [process] writes [frames] zeros at the start of every
    output plane it fills from the ring (channel below both [channels]
    and the ring's channel count), whatever the gain and the fill level
    of the ring. *)
Theorem process_renders_silence c rb inp out channels frames i o :
  core_reachable c -> mRing c = Some rb -> mReadIndex rb <= mWriteIndex rb ->
  mPlay c <> 0 -> 0 < channels -> 0 < frames <= INT_MAX ->
  planes_cover out channels frames -> out !! i = Some o ->
  (i < Z.to_nat (Z.min channels (RingBuffer.mChannels rb)))%nat ->
  exists c' out', process c inp out channels frames = Some (c', out') /\
    out' !! i = Some (replicate (Z.to_nat frames) 0%Qc ++ drop (Z.to_nat frames) o).
Proof.
  intros Hreach Hr Hrw Hp Hc Hf Hcov Ho Hi.
  destruct (core_inv_ring c rb Hr (core_reachable_inv c Hreach)) as [Hwf Hs].
  destruct (process_play_plane c rb inp out channels frames i o Hr Hwf Hrw Hp Hc Hf Hcov Ho)
    as (out' & Hpr & Hout); [lia |].
  eexists _, out'. split; [exact Hpr |]. rewrite Hout, decide_True by done.
  pose proof (contents_silent rb i Hs) as Hz.
  pose proof (length_contents 0%Qc rb i) as Hl. pose proof Hwf as [Hinv _].
  pose proof (filled_range rb). cursor_facts rb.
  rewrite (Forall_eq_replicate _ _ Hz), take_replicate, Hl, <- replicate_add.
  rewrite scale_zeros. do 3 f_equal. lia.
Qed.

(** Witnesses: a playing core with gain 2 whose two-channel ring of
    capacity 4 holds two frames (or none), and three output planes. *)
Definition qz (z : Z) : Qc := Q2Qc (inject_Z z).
Definition ex_qring : RingBuffer Qc :=
  mkRing 2 4 [[qz 1; qz 2; 0%Qc; 0%Qc]; [qz 3; qz 4; 0%Qc; 0%Qc]] 2 0.
Definition ex_qring_empty : RingBuffer Qc :=
  mkRing 2 4 [[qz 1; qz 2; 0%Qc; 0%Qc]; [qz 3; qz 4; 0%Qc; 0%Qc]] 2 2.
Definition ex_core (rb : RingBuffer Qc) : DSPCore :=
  mkCore (qz 48000) 2 (qz 2) 1 0%Qc default_transport (Some rb) (Some new_reader).
Definition ex_planes : list (list Qc) :=
  [[qz 9; qz 9; qz 9; qz 9]; [qz 9; qz 9; qz 9; qz 9]; [qz 9; qz 9; qz 9; qz 9]].

Lemma process_underrun_silence_witness :
  exists out', process (ex_core ex_qring_empty) [] ex_planes 3 4 =
               Some (ex_core ex_qring_empty, out') /\
    length out' = length ex_planes /\
    forall i o, ex_planes !! i = Some o -> (i < Z.to_nat 3)%nat ->
      out' !! i = Some (replicate (Z.to_nat 4) 0%Qc ++ drop (Z.to_nat 4) o).
Proof. apply (process_underrun_silence _ ex_qring_empty); discharge. Defined.

Lemma process_spec_witness :
  let n := Z.min 3 (filled ex_qring) in
  exists out',
    process (ex_core ex_qring) [] ex_planes 2 3 =
      Some (set_ring (ex_core ex_qring) (Some (fst (fst (pop ex_qring ex_planes 2 3)))), out') /\
    (forall i o, ex_planes !! i = Some o -> (i < Z.to_nat 2)%nat ->
       out' !! i = Some (((fun x => x * mGain (ex_core ex_qring))%Qc <$>
                           (take (Z.to_nat n) (contents 0%Qc ex_qring i)
                            ++ replicate (Z.to_nat (3 - n)) 0%Qc))
                         ++ drop (Z.to_nat 3) o)) /\
    (forall i, (Z.to_nat 2 <= i)%nat -> out' !! i = ex_planes !! i).
Proof. apply (process_spec _ ex_qring); discharge. Defined.

Lemma process_extra_channels_stale_witness :
  let n := Z.min 3 (filled ex_qring) in
  exists out', process (ex_core ex_qring) [] ex_planes 3 3 =
      Some (set_ring (ex_core ex_qring) (Some (fst (fst (pop ex_qring ex_planes 3 3)))), out') /\
    out' !! 2%nat = Some (((fun x => x * mGain (ex_core ex_qring))%Qc <$>
                        (take (Z.to_nat n) [qz 9; qz 9; qz 9; qz 9]
                         ++ replicate (Z.to_nat (3 - n)) 0%Qc))
                      ++ drop (Z.to_nat 3) [qz 9; qz 9; qz 9; qz 9]).
Proof. apply (process_extra_channels_stale _ ex_qring); discharge. Defined.

Lemma process_silent_paths_witness :
  exists out', process new_core [] ex_planes 2 4 = Some (new_core, out') /\
    forall i o, ex_planes !! i = Some o -> (i < Z.to_nat 2)%nat ->
      out' !! i = Some (replicate (Z.to_nat 4) 0%Qc ++ drop (Z.to_nat 4) o).
Proof. apply process_silent_paths; [left; reflexivity | discharge ..]. Defined.

Lemma process_negative_frames_ub_witness :
  process (ex_core ex_qring) [] ex_planes 2 (-1) = None.
Proof. apply process_negative_frames_ub; discharge. Defined.

Lemma init_allocates_once_witness :
  init (ex_core ex_qring) (qz 44100) 8 4096 =
    Some (mkCore (qz 44100) 8 (mGain (ex_core ex_qring)) (mPlay (ex_core ex_qring))
            (mPositionFrames (ex_core ex_qring)) (mTransport (ex_core ex_qring))
            (Some ex_qring) (Some new_reader)).
Proof. apply init_allocates_once; discharge. Defined.

(** A core initialised by the host (two channels, a ring of four
    frames) with play switched on. *)
Definition ex_live : DSPCore :=
  setParameter (default new_core (init new_core (qz 48000) 2 4)) Play (qz 1).

Definition ex_live_ring : RingBuffer Qc := default ex_qring_empty (mRing ex_live).

Lemma ex_live_reachable : core_reachable ex_live.
Proof.
  eapply rtc_l;
    [apply (CInit _ (qz 48000) 2 4 (default new_core (init new_core (qz 48000) 2 4)));
     [rewrite INT_MAX_val; lia | vm_compute; reflexivity] |].
  eapply rtc_l; [apply (CSetParameter _ Play (qz 1)) | apply rtc_refl].
Defined.

(** [ex_live] after [loadFile]: its reader's thread is running. *)
Definition ex_loaded : DSPCore := default ex_live (loadFile ex_live (Some "take1.wav"%string)).

Lemma ex_loaded_reachable : core_reachable ex_loaded.
Proof.
  eapply rtc_r; [apply ex_live_reachable |].
  apply (CLoadFile _ (Some "take1.wav"%string)). vm_compute. reflexivity.
Defined.

(** [ex_loaded] after one statement of its reader: the load of
    [mShouldStop] read [false], the push is next. *)
Definition ex_loaded_reader : DiskReader := default new_reader (mReader ex_loaded).
Definition ex_in_loop : DSPCore :=
  let '(r', rb') := thread_step ex_loaded_reader ex_live_ring in
  set_reader (set_ring ex_loaded (Some rb')) (Some r').
Definition ex_in_loop_reader : DiskReader := default new_reader (mReader ex_in_loop).

Lemma ex_in_loop_reachable : core_reachable ex_in_loop.
Proof.
  eapply rtc_r; [apply ex_loaded_reachable |].
  apply (CReader _ ex_live_ring ex_loaded_reader); vm_compute; reflexivity.
Defined.

Lemma core_destroy_joins_witness :
  (destroy 3 ex_in_loop = Some (set_ring (set_reader ex_in_loop None) None) /\
   exists r', DiskReader.stop 3 ex_in_loop_reader ex_live_ring =
                Some (r', last_push (mThread ex_in_loop_reader) ex_live_ring) /\
              mThread r' = NoThread) /\
  filled (last_push (mThread ex_in_loop_reader) ex_live_ring) = 4.
Proof.
  split; [| vm_compute; reflexivity].
  destruct (core_destroy_joins ex_in_loop 3 ex_in_loop_reachable) as [H1 H2]; [lia |].
  split; [exact H1 |]. apply H2; vm_compute; reflexivity.
Defined.

Lemma ring_always_silent_witness :
  ring_wf ex_live_ring /\ Forall (Forall (fun x => x = 0%Qc)) (mData ex_live_ring).
Proof. apply (ring_always_silent ex_live ex_live_ring ex_live_reachable); discharge. Defined.

Lemma process_renders_silence_witness :
  exists c' out', process ex_live [] ex_planes 2 3 = Some (c', out') /\
    out' !! 0%nat = Some (replicate (Z.to_nat 3) 0%Qc ++ drop (Z.to_nat 3) [qz 9; qz 9; qz 9; qz 9]).
Proof.
  apply (process_renders_silence ex_live ex_live_ring [] ex_planes 2 3 0 _ ex_live_reachable);
    discharge.
Defined.
End DSPCore.
