(* ===== verification/WavFormat.v ===== *)
(** * WavFormat: the capture file format of [RecorderCore.cpp]

    The recorder writes a 44-byte canonical WAV header
    ([write_wav_header], lines 32-60) followed by interleaved 16-bit
    samples produced by the writer thread (lines 203-215).  This file
    models:
    - bytes as [Init.Byte.byte] and the [fwrite] of an integer field as its
      little-endian bytes ([le_bytes]; the targets are little-endian);
    - a C [FILE*] opened for writing as its contents and position
      ([CFile]), with [fseek(file, 0, SEEK_SET)] and [fwrite];
    - [write_wav_header] with its [uint16_t]/[uint32_t] arithmetic;
    - a parser of the header ([parse_wav_header]), the reader's view;
    - the conversion of a sample to [int16_t] (clamp to [-1, 1], multiply
      by 32767, truncate) and its two bytes.
    It proves the header round trip, the little-endian round trip, and the
    bounds, clipping and quantisation error of the sample conversion. *)

From S2P Require Import Prelude.
From stdpp Require Import base list.
From Stdlib Require Import ZArith Lia QArith Qcanon Qround Lqa Init.Byte Strings.Byte.

Open Scope Z_scope.

Module Wav.

#[export] Instance byte_eq_dec : EqDecision byte := Byte.byte_eq_dec.

(** The byte holding the low 8 bits of [z], and the value of a byte. *)
Definition byte_of_Z (z : Z) : byte :=
  match Byte.of_N (Z.to_N (z mod 256)) with Some b => b | None => Byte.x00 end.

Definition byte_val (b : byte) : Z := Z.of_N (Byte.to_N b).

(** [fwrite(&x, sizeof(x), 1, file)] of an [n]-byte unsigned integer on a
    little-endian host, and the value read back from [n] bytes. *)
Fixpoint le_bytes (n : nat) (z : Z) : list byte :=
  match n with
  | O => []
  | S n' => byte_of_Z z :: le_bytes n' (Z.shiftr z 8)
  end.

Fixpoint le_value (bs : list byte) : Z :=
  match bs with
  | [] => 0
  | b :: bs' => byte_val b + 256 * le_value bs'
  end.

(** The four-character tags, as [fwrite("RIFF", 1, 4, file)] writes them. *)
Definition tag_RIFF : list byte := [x52; x49; x46; x46].
Definition tag_WAVE : list byte := [x57; x41; x56; x45].
Definition tag_fmt : list byte := [x66; x6d; x74; x20].
Definition tag_data : list byte := [x64; x61; x74; x61].

(** The bytes [write_wav_header(file, sample_rate, channels, data_bytes)]
    writes, with its local [uint16_t]/[uint32_t] computations:
    [block_align = channels * 2], [byte_rate = sample_rate * block_align],
    [riff_size = 36 + data_bytes]. *)
Definition wav_header_bytes (sample_rate channels data_bytes : Z) : list byte :=
  let audio_format := 1 in
  let bits_per_sample := 16 in
  let block_align := u16[channels * (bits_per_sample / 8)] in
  let byte_rate := u32[sample_rate * block_align] in
  let riff_size := u32[36 + data_bytes] in
  let fmt_chunk_size := 16 in
  tag_RIFF ++ le_bytes 4 riff_size ++ tag_WAVE ++ tag_fmt ++ le_bytes 4 fmt_chunk_size ++
  le_bytes 2 audio_format ++ le_bytes 2 channels ++ le_bytes 4 sample_rate ++
  le_bytes 4 byte_rate ++ le_bytes 2 block_align ++ le_bytes 2 bits_per_sample ++
  tag_data ++ le_bytes 4 data_bytes.

(** A [FILE*] opened with mode "wb": its bytes and its position. *)
Record CFile := mkFile { fdata : list byte; fpos : nat }.

(** [std::fopen(path, "wb")] truncates the file. *)
Definition fopen_wb : CFile := mkFile [] 0.

(** [std::fseek(file, 0, SEEK_SET)]. *)
Definition fseek0 (f : CFile) : CFile := mkFile (fdata f) 0.

(** [std::fwrite]: overwrite from the position on, extending the file. *)
Definition fwrite (f : CFile) (bs : list byte) : CFile :=
  mkFile (take (fpos f) (fdata f) ++ bs ++ drop (fpos f + length bs) (fdata f))
         (fpos f + length bs).

(** [write_wav_header]: nothing on a null file; otherwise seek to 0 and
    write the 44 bytes ([fflush] changes nothing in this model). *)
Definition write_wav_header (file : option CFile) (sample_rate channels data_bytes : Z)
    : option CFile :=
  match file with
  | None => None
  | Some f => Some (fwrite (fseek0 f) (wav_header_bytes sample_rate channels data_bytes))
  end.

(** The fields a reader of the file finds in the header. *)
Record WavHeader := mkHeader {
  riff_size : Z; num_channels : Z; sample_rate : Z; byte_rate : Z;
  block_align : Z; data_size : Z
}.

(** The reader: the tags must be there, the fmt chunk must be a 16-byte
    integer-PCM chunk with 16 bits per sample. *)
Definition expect (tag bs : list byte) : option (list byte) :=
  if decide (take (length tag) bs = tag) then Some (drop (length tag) bs) else None.

Definition get_le (n : nat) (bs : list byte) : option (Z * list byte) :=
  if decide (n <= length bs)%nat then Some (le_value (take n bs), drop n bs) else None.

Definition parse_wav_header (bs : list byte) : option (WavHeader * list byte) :=
  bs ← expect tag_RIFF bs;
  '(riff, bs) ← get_le 4 bs;
  bs ← expect tag_WAVE bs;
  bs ← expect tag_fmt bs;
  '(fmt_size, bs) ← get_le 4 bs;
  '(fmt, bs) ← get_le 2 bs;
  '(ch, bs) ← get_le 2 bs;
  '(sr, bs) ← get_le 4 bs;
  '(rate, bs) ← get_le 4 bs;
  '(align, bs) ← get_le 2 bs;
  '(bits, bs) ← get_le 2 bs;
  bs ← expect tag_data bs;
  '(size, bs) ← get_le 4 bs;
  if decide (fmt_size = 16 /\ fmt = 1 /\ bits = 16)
  then Some (mkHeader riff ch sr rate align size, bs)
  else None.

(** ** Samples *)

(** The clamp of the writer thread (lines 205-207). *)
Definition clamp_sample (v : Qc) : Qc :=
  let v := if bool_decide (1 < v)%Qc then 1%Qc else v in
  if bool_decide (v < - 1)%Qc then (- 1)%Qc else v.

(** Truncation toward zero of a rational. *)
Definition trunc_Qc (q : Qc) : Z := Z.quot (Qnum (this q)) (Zpos (Qden (this q))).

(** [static_cast<int16_t>(v * 32767.0f)] of the clamped sample (line 208).
    The samples are finite: a NaN sample passes both comparisons of the
    clamp unchanged, and the cast of the NaN product to [int16_t] has no
    defined behaviour, which this model does not represent. *)
Definition to_int16 (v : Qc) : Z := trunc_Qc (clamp_sample v * Q2Qc (inject_Z 32767))%Qc.

(** The two bytes of an [int16_t] in the file, and the value a reader
    decodes from them. *)
Definition pcm16_bytes (s : Z) : list byte := le_bytes 2 u16[s].
Definition pcm16_value (bs : list byte) : Z := to_signed 16 (le_value bs).

(** ** Bytes and little-endian fields *)

Lemma byte_val_of_Z z : byte_val (byte_of_Z z) = z mod 256.
Proof.
  unfold byte_val, byte_of_Z.
  pose proof (Z.mod_pos_bound z 256 ltac:(lia)) as Hb.
  destruct (Byte.of_N (Z.to_N (z mod 256))) as [b |] eqn:E.
  - apply Byte.to_of_N in E. rewrite E. apply Z2N.id. lia.
  - apply Byte.of_N_None_iff in E. lia.
Qed.

Lemma byte_val_range b : 0 <= byte_val b < 256.
Proof. unfold byte_val. pose proof (Byte.to_N_bounded b). lia. Qed.

(** Splitting a residue modulo [256 * M] into its low byte and the rest. *)
Lemma mod_256_split z M :
  0 < M -> z mod (256 * M) = z mod 256 + 256 * ((z / 256) mod M).
Proof.
  intros HM. symmetry. apply (Z.mod_unique_pos _ _ ((z / 256) / M)).
  - pose proof (Z.mod_pos_bound z 256 ltac:(lia)).
    pose proof (Z.mod_pos_bound (z / 256) M HM). nia.
  - rewrite (Z.div_mod z 256) at 1 by lia.
    rewrite (Z.div_mod (z / 256) M) at 1 by lia. ring.
Qed.

Lemma le_value_bytes n z : le_value (le_bytes n z) = z mod 2 ^ (8 * Z.of_nat n).
Proof.
  revert z. induction n as [| n IH]; intros z; simpl.
  - rewrite Z.mod_1_r. done.
  - rewrite IH, byte_val_of_Z, Z.shiftr_div_pow2 by lia.
    replace (8 * Z.of_nat (S n)) with (8 + 8 * Z.of_nat n) by lia.
    rewrite Z.pow_add_r by lia. change (2 ^ 8) with 256.
    rewrite mod_256_split by (apply Z.pow_pos_nonneg; lia). done.
Qed.

Lemma length_le_bytes n z : length (le_bytes n z) = n.
Proof. revert z. induction n; intros z; simpl; auto. Qed.

Lemma get_le_app n z rest :
  get_le n (le_bytes n z ++ rest) = Some (z mod 2 ^ (8 * Z.of_nat n), rest).
Proof.
  unfold get_le. rewrite decide_True by (rewrite length_app, length_le_bytes; lia).
  rewrite take_app_length' by (by rewrite length_le_bytes).
  rewrite drop_app_length' by (by rewrite length_le_bytes).
  by rewrite le_value_bytes.
Qed.

Lemma expect_app tag rest : expect tag (tag ++ rest) = Some rest.
Proof.
  unfold expect. rewrite take_app_length, drop_app_length.
  by rewrite decide_True.
Qed.

Lemma length_wav_header sr ch db : length (wav_header_bytes sr ch db) = 44%nat.
Proof. unfold wav_header_bytes. by rewrite !length_app, !length_le_bytes. Qed.

(** [fwrite] at the end of the file appends. *)
Lemma fwrite_append f bs :
  fpos f = length (fdata f) ->
  fdata (fwrite f bs) = fdata f ++ bs /\ fpos (fwrite f bs) = length (fdata f ++ bs).
Proof.
  intros Hp. unfold fwrite; simpl. rewrite Hp, firstn_all, length_app.
  rewrite drop_ge by lia. by rewrite app_nil_r.
Qed.

(** [fseek(file, 0, SEEK_SET)] then [fwrite] of a prefix overwrites it. *)
Lemma fwrite_patch f hdr :
  fdata (fwrite (fseek0 f) hdr) = hdr ++ drop (length hdr) (fdata f).
Proof. reflexivity. Qed.


(** ** Truncation and clamping *)

Lemma trunc_Qc_nonneg (q : Qc) :
  (0 <= q)%Qc ->
  (inject_Z (trunc_Qc q) <= this q /\ this q < inject_Z (trunc_Qc q + 1))%Q /\
  0 <= trunc_Qc q.
Proof.
  destruct q as [[n d] Hc]; intros Hn; unfold Qcle, Qle in Hn; unfold trunc_Qc;
    simpl in *.
  rewrite Z.quot_div_nonneg by lia.
  split; [| apply Z.div_pos; lia].
  change (n / Z.pos d) with (Qfloor (n # d)).
  split; [apply Qfloor_le | apply Qlt_floor].
Qed.

Lemma trunc_Qc_nonpos (q : Qc) :
  (q <= 0)%Qc ->
  (inject_Z (trunc_Qc q - 1) < this q /\ this q <= inject_Z (trunc_Qc q))%Q /\
  trunc_Qc q <= 0.
Proof.
  destruct q as [[n d] Hc]; intros Hn; unfold Qcle, Qle in Hn; unfold trunc_Qc;
    simpl in *.
  pose proof (Qfloor_le (- n # d)) as H1. pose proof (Qlt_floor (- n # d)) as H2.
  assert (Hf : Qfloor (- n # d) = - n / Z.pos d) by reflexivity.
  assert (Hq : n ÷ Z.pos d = - Qfloor (- n # d)).
  { rewrite <- (Z.opp_involutive n) at 1. rewrite Z.quot_opp_l by lia.
    rewrite Z.quot_div_nonneg by lia. by rewrite Hf. }
  rewrite Hq. change (- n # d)%Q with (- (n # d))%Q in *.
  unfold Z.sub. rewrite ?inject_Z_plus, ?inject_Z_opp in *.
  split; [split; lra | ].
  apply Z.opp_nonpos_nonneg. rewrite Hf. apply Z.div_pos; lia.
Qed.

Lemma inject_Z_le_int a b : (inject_Z a <= inject_Z b)%Q -> a <= b.
Proof. by rewrite Zle_Qle. Qed.

Ltac qc_lra :=
  try apply Qc_is_canon; unfold Qcle, Qclt in *; simpl this in *;
  change (Qred 1) with 1%Q in *; change (Qred (Qopp 1)) with (-1)%Q in *;
  first [split; lra | lra].

Lemma clamp_sample_range v : (-1 <= clamp_sample v <= 1)%Qc.
Proof. unfold clamp_sample. repeat case_bool_decide; qc_lra. Qed.

Lemma clamp_sample_id v : (-1 <= v <= 1)%Qc -> clamp_sample v = v.
Proof. unfold clamp_sample. intros [H1 H2]. repeat case_bool_decide; qc_lra. Qed.

Lemma clamp_sample_high v : (1 <= v)%Qc -> clamp_sample v = 1%Qc.
Proof. unfold clamp_sample. intros H. repeat case_bool_decide; qc_lra. Qed.

Lemma clamp_sample_low v : (v <= -1)%Qc -> clamp_sample v = (-1)%Qc.
Proof. unfold clamp_sample. intros H. repeat case_bool_decide; qc_lra. Qed.

(** The product by 32767 the writer computes, as a rational. *)
Lemma scale_32767 (x : Qc) :
  (this (x * Q2Qc (inject_Z 32767))%Qc == this x * 32767)%Q.
Proof. unfold Qcmult, Q2Qc. simpl. rewrite Qred_correct. reflexivity. Qed.

(** ** Sample conversion *)

(** C19: a converted sample always fits the 16-bit range and never reaches
    -32768: the clamp to [-1, 1] keeps [v * 32767] within
    [-32767, 32767] and truncation keeps it there. *)
Theorem to_int16_range v : -32767 <= to_int16 v <= 32767.
Proof.
  unfold to_int16. pose proof (clamp_sample_range v) as Hc.
  set (c := clamp_sample v) in *. set (p := (c * Q2Qc (inject_Z 32767))%Qc).
  pose proof (scale_32767 c) as Hp. fold p in Hp.
  destruct Hc as [Hc1 Hc2]; unfold Qcle in Hc1, Hc2.
  change (this (-1)%Qc) with (-1)%Q in Hc1. change (this 1%Qc) with 1%Q in Hc2.
  destruct (Qlt_le_dec (this p) 0) as [Hn | Hn].
  - destruct (trunc_Qc_nonpos p) as [[H1 H2] H3]; [unfold Qcle; change (this 0%Qc) with 0%Q; lra |].
    split; [| lia]. apply inject_Z_le_int. change (inject_Z (-32767)) with (-32767)%Q.
    lra.
  - destruct (trunc_Qc_nonneg p) as [[H1 H2] H3]; [unfold Qcle; change (this 0%Qc) with 0%Q; lra |].
    split; [lia |]. apply inject_Z_le_int. change (inject_Z 32767) with 32767%Q.
    lra.
Qed.

(** Saturation: a sample at or above full scale is written as 32767
    and its negation as -32767 (never -32768), so 2.0 and -2.0 give
    32767 and -32767. *)
Theorem to_int16_saturates v :
  (1 <= v)%Qc -> to_int16 v = 32767 /\ to_int16 (- v) = -32767.
Proof.
  intros H. unfold to_int16.
  rewrite clamp_sample_high, clamp_sample_low by
    (unfold Qcle in *; simpl this in *; rewrite ?Qred_correct;
     change (Qred 1) with 1%Q in *; change (-1)%Qc with (Qcopp 1); simpl this;
     change (Qred (Qopp 1)) with (-1)%Q; lra).
  split; vm_compute; reflexivity.
Qed.

(** Inside full scale the conversion truncates toward zero: the
    written value is within one step of [v * 32767], below it for
    non-negative samples and above it for non-positive ones. *)
Theorem to_int16_truncates v :
  (-1 <= v <= 1)%Qc ->
  ((0 <= v)%Qc ->
     inject_Z (to_int16 v) <= this v * 32767 < inject_Z (to_int16 v + 1))%Q /\
  ((v <= 0)%Qc ->
     inject_Z (to_int16 v - 1) < this v * 32767 <= inject_Z (to_int16 v))%Q.
Proof.
  intros Hv. unfold to_int16. rewrite clamp_sample_id by done.
  set (p := (v * Q2Qc (inject_Z 32767))%Qc).
  pose proof (scale_32767 v) as Hp. fold p in Hp.
  split; intros Hs; unfold Qcle in Hs; change (this 0%Qc) with 0%Q in Hs.
  - destruct (trunc_Qc_nonneg p) as [[H1 H2] _];
      [unfold Qcle; change (this 0%Qc) with 0%Q; lra | split; lra].
  - destruct (trunc_Qc_nonpos p) as [[H1 H2] _];
      [unfold Qcle; change (this 0%Qc) with 0%Q; lra | split; lra].
Qed.

(** The two bytes the writer thread emits for a converted sample
    decode, as a little-endian [int16_t], to that sample. *)
Theorem pcm16_sample_roundtrip v : pcm16_value (pcm16_bytes (to_int16 v)) = to_int16 v.
Proof.
  pose proof (to_int16_range v).
  unfold pcm16_value, pcm16_bytes. rewrite le_value_bytes.
  change (2 ^ (8 * Z.of_nat 2)) with (2 ^ 16).
  change (u16[to_int16 v] mod 2 ^ 16) with (wrap 16 (wrap 16 (to_int16 v))).
  rewrite wrap_idem, to_signed_wrap by lia. done.
Qed.

(** The header bytes parse back to their fields. *)
Lemma parse_header_bytes sr ch db rest :
  0 <= sr < 2 ^ 32 -> 0 <= ch < 2 ^ 16 -> 0 <= db < 2 ^ 32 ->
  parse_wav_header (wav_header_bytes sr ch db ++ rest) =
  Some (mkHeader u32[36 + db] ch sr u32[sr * u16[ch * 2]] u16[ch * 2] db, rest).
Proof.
  intros Hsr Hch Hdb. unfold wav_header_bytes, parse_wav_header.
  rewrite <- !app_assoc.
  repeat (first [rewrite expect_app | rewrite get_le_app]; cbn [mbind option_bind]).
  rewrite decide_True by (vm_compute; auto).
  unfold wrap. change (16 / 8) with 2.
  rewrite !Z.mod_mod by lia.
  change (8 * Z.of_nat 4) with 32. change (8 * Z.of_nat 2) with 16.
  rewrite (Z.mod_small sr), (Z.mod_small ch), (Z.mod_small db) by lia. done.
Qed.

(** C18: a reader recovers every field [write_wav_header] writes, with
    the [uint16_t]/[uint32_t] wrap-around of the derived fields, and the
    bytes after the header are left untouched. *)
Theorem wav_header_roundtrip sr ch db rest :
  0 <= sr < 2 ^ 32 -> 0 <= ch < 2 ^ 16 -> 0 <= db < 2 ^ 32 ->
  parse_wav_header (wav_header_bytes sr ch db ++ rest) =
  Some (mkHeader u32[36 + db] ch sr u32[sr * u16[ch * 2]] u16[ch * 2] db, rest).
Proof. exact (parse_header_bytes sr ch db rest). Qed.

(** ** Witnesses *)

Definition ex_rest : list byte := [x34; x12].

Lemma wav_header_roundtrip_witness :
  parse_wav_header (wav_header_bytes 48000 2 1000 ++ ex_rest) =
  Some (mkHeader 1036 2 48000 192000 4 1000, ex_rest).
Proof. apply (wav_header_roundtrip 48000 2 1000 ex_rest); discharge. Defined.

Lemma to_int16_saturates_witness :
  to_int16 (Q2Qc 2) = 32767 /\ to_int16 (- Q2Qc 2)%Qc = -32767.
Proof. apply to_int16_saturates. vm_compute. discriminate. Defined.

Lemma to_int16_truncates_witness :
  ((0 <= Q2Qc (1 # 2))%Qc ->
     inject_Z (to_int16 (Q2Qc (1 # 2))) <= this (Q2Qc (1 # 2)) * 32767 <
     inject_Z (to_int16 (Q2Qc (1 # 2)) + 1))%Q /\
  ((Q2Qc (1 # 2) <= 0)%Qc ->
     inject_Z (to_int16 (Q2Qc (1 # 2)) - 1) < this (Q2Qc (1 # 2)) * 32767 <=
     inject_Z (to_int16 (Q2Qc (1 # 2))))%Q.
Proof. apply to_int16_truncates. split; vm_compute; discriminate. Defined.
End Wav.
