(* ===== verification/Recorder.v ===== *)
(** * Recorder: the WAV recorder of [src/src/native/iplug/recorder/RecorderCore.cpp]

    [RecorderCore] is a process-wide singleton ([recorder()]) behind a C
    ABI.  [start] opens the output file, writes a WAV header with a zero
    data size, allocates a ring buffer of [max(2048, 4 * sample_rate)]
    frames and launches a writer thread; the audio thread feeds the ring
    with [push] (planar) or [push_interleaved]; the writer thread pops
    chunks of 1024 frames, converts them to 16-bit PCM and appends them
    to the file; [stop] clears [mRunning], joins the writer (which drains
    the ring first, unless its last pop found the ring empty and it is
    about to load [mRunning]), patches the header with the data size and
    closes the file.

    The object is the record [Recorder] (its fields, [mMutex] apart:
    every public operation here is one atomic step of the model;
    RecorderRace splits [push] and [stop] at their atomic accesses).  The
    writer thread is [writer_state] (its position in the loop and its
    local [buffers]); [writer_step] is one of its two atomic accesses,
    the [pop] (line 200) or the load of [mRunning] (line 220), so that
    other threads act between them; [writer_iteration] is one whole
    iteration, [join] runs iterations with fuel.
    The file system is the [CFile] of [WavFormat]; [stop] hands back the
    closed file.  Environment outcomes the code cannot control (whether
    [fopen] succeeds) are boolean arguments.  [None] results are the
    outcomes where the C++ program has no defined behaviour or terminates:
    an exception out of [start] across the C ABI, assigning a thread over
    a joinable one, reading outside the caller's buffers. *)

From S2P Require Import Prelude RingBuffer WavFormat.
From stdpp Require Import base list list_monad strings relations.
From Stdlib Require Import ZArith Lia QArith Qcanon Init.Byte.

Open Scope Z_scope.

Module Recorder.
Import Wav.

(** ** Constants and data *)

Definition kDefaultSampleRate : Z := 48000.
Definition kMaxChannels : Z := 8.
Definition kChunkFrames : Z := 1024.
Definition kRingSeconds : Z := 4.

Inductive RecorderSource : Type := Mic | Plugin.

#[export] Instance RecorderSource_eq_dec : EqDecision RecorderSource.
Proof. solve_decision. Defined.

(** [parse_source], lines 25-30: a null string is [Mic]. *)
Definition parse_source (source : option string) : RecorderSource :=
  match source with
  | None => Mic
  | Some s =>
      if decide (s = "plugin"%string \/ s = "plugin_output"%string) then Plugin else Mic
  end.

(** The writer thread: not started (or joined); at the head of its
    loop, about to [pop] (line 200), with its local [buffers] (one plane
    of [kChunkFrames] samples per channel); past a [pop] that returned
    no frame, about to load [mRunning] (line 220); or returned and still
    joinable.  The pop and the load are two atomic accesses: another
    thread can act between them. *)
Inductive writer_state : Type :=
| WNoThread
| WLoop (buffers : list (list Qc))
| WCheck (buffers : list (list Qc))
| WExited.

(** The local buffers of a live writer. *)
Definition writer_buffers (w : writer_state) : option (list (list Qc)) :=
  match w with WLoop bufs | WCheck bufs => Some bufs | _ => None end.

Definition joinable (w : writer_state) : bool :=
  match w with WNoThread => false | _ => true end.

(** The fields of [RecorderCore], lines 229-239.  [mScratchPtrs] holds,
    for each channel, the index of the scratch plane it points to. *)
Record Recorder := mkRecorder {
  mRunning : bool;
  mSource : RecorderSource;
  mSampleRate : Z;
  mChannels : Z;
  mRing : option (RingBuffer Qc);
  mFile : option CFile;
  mWriter : writer_state;
  mTotalFrames : Z;
  mScratch : list (list Qc);
  mScratchPtrs : list nat
}.

(** The member initialisers: the state of [recorder()] at first use. *)
Definition recorder_init : Recorder :=
  mkRecorder false Mic 0 0 None None WNoThread 0 [] [].

(** [bool] result with its [err] string. *)
Inductive outcome : Type := Ok | Err (msg : string).

#[export] Instance outcome_eq_dec : EqDecision outcome.
Proof. solve_decision. Defined.

(** ** [start], lines 73-115 *)

(** [new std::vector<float>(kChunkFrames, 0.0f)] for each of [ch]
    channels. *)
Definition zero_planes (ch : Z) : list (list Qc) :=
  replicate (Z.to_nat ch) (replicate (Z.to_nat kChunkFrames) 0%Qc).

Definition start (r : Recorder) (abs_wav_path : option string)
    (sample_rate channels : Z) (source : RecorderSource) (fopen_ok : bool)
    : option (Recorder * outcome) :=
  if mRunning r then Some (r, Err "Recorder already running")
  else if decide (default ""%string abs_wav_path = ""%string)
  then Some (r, Err "Output path is empty")
  else
    let sr := if 0 <? sample_rate then sample_rate else kDefaultSampleRate in
    let ch := if channels =? 0 then 1 else channels in
    let ch := if kMaxChannels <? ch then kMaxChannels else ch in
    if negb fopen_ok then Some (r, Err "Unable to open output file")
    else
      let file := default fopen_wb (write_wav_header (Some fopen_wb) sr ch 0) in
      let ring_frames := Z.max (kChunkFrames * 2) u32[sr * kRingSeconds] in
      match new_ring 0%Qc ch i32[ring_frames] with
      | None => None
      | Some rb =>
          if joinable (mWriter r) then None
          else Some (mkRecorder true source sr ch (Some rb) (Some file)
                       (WLoop (zero_planes ch)) 0 (zero_planes ch) (seq 0 (Z.to_nat ch)),
                     Ok)
      end.

(** ** The writer thread, lines 188-227 *)

(** [buffers[c][f]]. *)
Definition sample (bufs : list (list Qc)) (c f : nat) : Qc :=
  default 0%Qc (default [] (bufs !! c) !! f).

(** Frame [f] of [interleaved]: [int16(buffers[c][f])] for each channel
    [c], clamped and truncated (lines 204-209). *)
Definition frame_row (bufs : list (list Qc)) (nch : Z) (f : nat) : list Z :=
  map (fun c => to_int16 (sample bufs c f)) (seq 0 (Z.to_nat nch)).

(** The [interleaved] samples of the first [frames] frames:
    [interleaved[f * mChannels + c] = int16(buffers[c][f])]. *)
Definition interleave (bufs : list (list Qc)) (nch frames : Z) : list Z :=
  flat_map (frame_row bufs nch) (seq 0 (Z.to_nat frames)).

(** [fwrite(interleaved.data(), sizeof(int16_t), n, file)]. *)
Definition samples_bytes (xs : list Z) : list byte := flat_map pcm16_bytes xs.

(** The recorder with its writer at [w]. *)
Definition set_writer (r : Recorder) (w : writer_state) : Recorder :=
  mkRecorder (mRunning r) (mSource r) (mSampleRate r) (mChannels r) (mRing r)
    (mFile r) w (mTotalFrames r) (mScratch r) (mScratchPtrs r).

(** One atomic step of the writer thread.  At the head of its loop: pop
    up to [kChunkFrames] frames; if some came, convert and append them
    and add them to [mTotalFrames] ([continue]); otherwise go on to the
    test.  At the test: leave the loop when [mRunning] is clear, or
    sleep and go back to the head. *)
Definition writer_step (r : Recorder) : Recorder :=
  match mWriter r with
  | WLoop bufs =>
      let '(ring', bufs', frames) :=
        match mRing r with
        | Some rb =>
            let '(rb', out, n) := pop rb bufs (mChannels r) kChunkFrames in (Some rb', out, n)
        | None => (None, bufs, 0)
        end in
      if 0 <? frames then
        let file' :=
          match mFile r with
          | Some f => Some (fwrite f (samples_bytes (interleave bufs' (mChannels r) frames)))
          | None => None
          end in
        mkRecorder (mRunning r) (mSource r) (mSampleRate r) (mChannels r) ring' file'
          (WLoop bufs') u64[mTotalFrames r + frames] (mScratch r) (mScratchPtrs r)
      else set_writer r (WCheck bufs)
  | WCheck bufs => set_writer r (if mRunning r then WLoop bufs else WExited)
  | _ => r
  end.

(** The pending test of [mRunning], if the writer is at it. *)
Definition to_loop_head (r : Recorder) : Recorder :=
  match mWriter r with WCheck _ => writer_step r | _ => r end.

(** One iteration of the loop while no other thread acts: the pop and,
    when it returned no frame, the test. *)
Definition writer_iteration (r : Recorder) : Recorder := to_loop_head (writer_step r).

(** [mWriterThread.join()]: the writer runs until it returns.  [None]:
    the fuel ran out, or [join] on a thread that is not joinable. *)
Fixpoint join (fuel : nat) (r : Recorder) : option Recorder :=
  match mWriter r with
  | WExited =>
      Some (mkRecorder (mRunning r) (mSource r) (mSampleRate r) (mChannels r) (mRing r)
              (mFile r) WNoThread (mTotalFrames r) (mScratch r) (mScratchPtrs r))
  | WNoThread => None
  | WLoop _ | WCheck _ =>
      match fuel with
      | O => None
      | S fuel' => join fuel' (writer_iteration r)
      end
  end.

Fixpoint writer_loop (n : nat) (r : Recorder) : Recorder :=
  match n with O => r | S n' => writer_loop n' (writer_iteration r) end.

(** The writer thread while no other thread acts on the recorder: it
    finishes the iteration it is in, then runs [n] more. *)
Definition writer_run (n : nat) (r : Recorder) : Recorder := writer_loop n (to_loop_head r).

(** ** [stop], lines 117-146 *)

(** [static_cast<uint32_t>(mTotalFrames * mChannels * sizeof(int16_t))]. *)
Definition data_bytes (r : Recorder) : Z := u32[u64[mTotalFrames r * mChannels r * 2]].

(** [mTotalFrames / mSampleRate] (the [double] division as a rational). *)
Definition duration (r : Recorder) : Qc :=
  if 0 <? mSampleRate r
  then Q2Qc (inject_Z (mTotalFrames r) / inject_Z (mSampleRate r))
  else 0%Qc.

(** The new state, the outcome, the duration stored through
    [out_duration] (when it is not null) and the file as [fclose] leaves
    it on disk. *)
Definition stop (fuel : nat) (r : Recorder) (out_duration : bool)
    : option (Recorder * outcome * option Qc * option CFile) :=
  if negb (mRunning r) then Some (r, Err "Recorder is not running", None, None)
  else
    let r1 := mkRecorder false (mSource r) (mSampleRate r) (mChannels r) (mRing r)
                (mFile r) (mWriter r) (mTotalFrames r) (mScratch r) (mScratchPtrs r) in
    r2 ← (if joinable (mWriter r1) then join fuel r1 else Some r1);
    let closed := write_wav_header (mFile r2) (mSampleRate r2) (mChannels r2) (data_bytes r2) in
    let d := if out_duration then Some (duration r2) else None in
    Some (mkRecorder (mRunning r2) (mSource r2) (mSampleRate r2) (mChannels r2) None None
            (mWriter r2) 0 (mScratch r2) (mScratchPtrs r2), Ok, d, closed).

(** ** [push], lines 148-153 *)

(** The audio thread's planar push.  [frames] is an [uint32_t] passed to
    [RingBuffer::push] as an [int].  [None]: the ring would read past the
    end of one of the caller's planes.  It reads none of them when it has
    no room ([if (toWrite == 0) return 0;], ring_buffer.cpp line 26). *)
Definition push (r : Recorder) (data : option (list (list Qc))) (channels frames : Z)
    : option Recorder :=
  match mRing r, data with
  | Some rb, Some planes =>
      if negb (mRunning r) || (frames =? 0) then Some r
      else
        let ch := Z.min channels (mChannels r) in
        let '(rb', n) := RingBuffer.push rb planes ch i32[frames] in
        if bool_decide (n = 0 \/ planes_cover planes (Z.min ch (RingBuffer.mChannels rb)) n)
        then Some (mkRecorder (mRunning r) (mSource r) (mSampleRate r) (mChannels r)
                     (Some rb') (mFile r) (mWriter r) (mTotalFrames r) (mScratch r)
                     (mScratchPtrs r))
        else None
  | _, _ => Some r
  end.

(** ** [push_interleaved], lines 155-177 *)

(** [mScratch[c][f] = src[f * ch + c]] for [f < chunk], with
    [src = data + offset * ch]; the [uint32_t] products wrap. *)
Definition deinterleave_plane (data : list Qc) (base ch chunk c : Z) : option (list Qc) :=
  mapM (fun f => data !! Z.to_nat (base + u32[Z.of_nat f * ch + c])) (seq 0 (Z.to_nat chunk)).

Fixpoint deinterleave_from (c : nat) (scratch : list (list Qc)) (data : list Qc)
    (base ch chunk : Z) : option (list (list Qc)) :=
  match scratch with
  | [] => Some []
  | plane :: rest =>
      plane' ← (if Z.of_nat c <? ch
                then (fun xs => xs ++ drop (Z.to_nat chunk) plane) <$>
                       deinterleave_plane data base ch chunk (Z.of_nat c)
                else Some plane);
      rest' ← deinterleave_from (S c) rest data base ch chunk;
      Some (plane' :: rest')
  end.

(** The planes [mScratchPtrs.data()] points to. *)
Definition scratch_planes (scratch : list (list Qc)) (ptrs : list nat) : list (list Qc) :=
  (fun i => default [] (scratch !! i)) <$> ptrs.

(** [while (offset < frames)]: one chunk of at most [kChunkFrames] frames
    per iteration; the result of [mRing->push] is ignored.  The loop runs
    at most [frames] times; [fuel] bounds it. *)
Fixpoint interleaved_loop (fuel : nat) (rb : RingBuffer Qc) (scratch : list (list Qc))
    (ptrs : list nat) (data : list Qc) (ch frames offset : Z)
    : option (RingBuffer Qc * list (list Qc)) :=
  if offset <? frames then
    match fuel with
    | O => None
    | S fuel' =>
        let remaining := frames - offset in
        let chunk := if kChunkFrames <? remaining then kChunkFrames else remaining in
        scratch' ← deinterleave_from 0 scratch data u32[offset * ch] ch chunk;
        let rb' := fst (RingBuffer.push rb (scratch_planes scratch' ptrs) ch i32[chunk]) in
        interleaved_loop fuel' rb' scratch' ptrs data ch frames (offset + chunk)
    end
  else Some (rb, scratch).

Definition push_interleaved (r : Recorder) (data : option (list Qc)) (channels frames : Z)
    : option Recorder :=
  match mRing r, data with
  | Some rb, Some d =>
      if negb (mRunning r) || (frames =? 0) then Some r
      else
        let ch := Z.min channels (mChannels r) in
        if ch =? 0 then Some r
        else if negb ((length (mScratch r) =? Z.to_nat ch)%nat &&
                      (length (mScratchPtrs r) =? Z.to_nat ch)%nat)
        then Some r
        else
          '(rb', scratch') ← interleaved_loop (Z.to_nat frames) rb (mScratch r)
                               (mScratchPtrs r) d ch frames 0;
          Some (mkRecorder (mRunning r) (mSource r) (mSampleRate r) (mChannels r)
                  (Some rb') (mFile r) (mWriter r) (mTotalFrames r) scratch' (mScratchPtrs r))
  | _, _ => Some r
  end.

(** ** Queries, lines 179-185 *)

Definition is_recording (r : Recorder) : bool := mRunning r.

Definition source_is (r : Recorder) (source : RecorderSource) : bool :=
  mRunning r && bool_decide (mSource r = source).

(** ** The C ABI, lines 249-296 *)

(** [dup_cstr(err.empty() ? default : err)] stored through [err_out]
    (a non-null [err_out]; [malloc] succeeds). *)
Definition err_out (default_msg : string) (o : outcome) : option string :=
  match o with
  | Ok => None
  | Err e => Some (if decide (e = ""%string) then default_msg else e)
  end.

Definition core_start (r : Recorder) (abs_wav_path : option string) (sample_rate channels : Z)
    (source : option string) (fopen_ok : bool) : option (Recorder * bool * option string) :=
  '(r', o) ← start r abs_wav_path sample_rate channels (parse_source source) fopen_ok;
  Some (r', bool_decide (o = Ok), err_out "Recorder start failed" o).

Definition core_stop (fuel : nat) (r : Recorder)
    : option (Recorder * bool * option string * option Qc * option CFile) :=
  '(r', o, d, closed) ← stop fuel r true;
  Some (r', bool_decide (o = Ok), err_out "Recorder stop failed" o, d, closed).

Definition core_source_is (r : Recorder) (source : option string) : bool :=
  source_is r (parse_source source).

(** ** Invariant and steps *)

(** [n] planes of [kChunkFrames] samples. *)
Definition planes_shape (ps : list (list Qc)) (n : Z) : Prop :=
  length ps = Z.to_nat n /\ Forall (fun p => length p = Z.to_nat kChunkFrames) ps.

(** While recording: a well-formed ring of [mChannels] planes, an open
    file positioned at its end past the header, a running writer whose
    buffers, like the scratch planes, are [mChannels] planes of a chunk,
    and [mScratchPtrs[c]] pointing to scratch plane [c]. *)
Definition running_inv (r : Recorder) : Prop :=
  match mRing r, mFile r, writer_buffers (mWriter r) with
  | Some rb, Some f, Some bufs =>
      1 <= mChannels r <= kMaxChannels /\ RingBuffer.mChannels rb = mChannels r /\
      ring_wf rb /\ planes_shape bufs (mChannels r) /\ planes_shape (mScratch r) (mChannels r) /\
      mScratchPtrs r = seq 0 (Z.to_nat (mChannels r)) /\
      fpos f = length (fdata f) /\ (44 <= length (fdata f))%nat /\
      0 <= mTotalFrames r < 2 ^ 64
  | _, _, _ => False
  end.

(** While idle: no ring, no file, no thread, no frames counted. *)
Definition idle_inv (r : Recorder) : Prop :=
  mRing r = None /\ mFile r = None /\ mWriter r = WNoThread /\ mTotalFrames r = 0.

Definition rec_inv (r : Recorder) : Prop :=
  if mRunning r then running_inv r else idle_inv r.

(** What channel [c] receives from frames [a] to [a + n] of an
    interleaved buffer read with stride [ch]: [data[f * ch + c]]. *)
Definition interleaved_channel (data : list Qc) (ch : Z) (c a n : nat) : list Qc :=
  (fun f => default 0%Qc (data !! Z.to_nat (Z.of_nat f * ch + Z.of_nat c))) <$> seq a n.

(** The queue of each of the first [nch] channels of a ring: what the
    writer still has to write. *)
Definition ring_queues (rb : RingBuffer Qc) (nch : Z) : list (list Qc) :=
  (fun c => contents 0%Qc rb c) <$> seq 0 (Z.to_nat nch).

#[export] Instance planes_shape_dec ps n : Decision (planes_shape ps n).
Proof. unfold planes_shape. apply _. Defined.

#[export] Instance running_inv_dec r : Decision (running_inv r).
Proof. unfold running_inv. repeat case_match; apply _. Defined.

#[export] Instance idle_inv_dec r : Decision (idle_inv r).
Proof.
  unfold idle_inv.
  destruct (mRing r), (mFile r), (mWriter r);
    try (right; intros (? & ? & ? & ?); discriminate).
  destruct (decide (mTotalFrames r = 0)); [left; done | right; intros (_ & _ & _ & ?); done].
Defined.

#[export] Instance rec_inv_dec r : Decision (rec_inv r).
Proof. unfold rec_inv. case_match; apply _. Defined.

(** Every call the program can make on the singleton, and one iteration
    of the writer thread; the outcomes without defined behaviour
    ([None]) are not steps. *)
Inductive rec_step : Recorder -> Recorder -> Prop :=
| StepStart r path sr ch src ok r' o :
    start r path sr ch src ok = Some (r', o) -> rec_step r r'
| StepStop fuel r out r' o d closed :
    stop fuel r out = Some (r', o, d, closed) -> rec_step r r'
| StepPush r data ch frames r' :
    push r data ch frames = Some r' -> rec_step r r'
| StepPushInterleaved r data ch frames r' :
    push_interleaved r data ch frames = Some r' -> rec_step r r'
| StepWriter r : rec_step r (writer_step r).

Definition reachable (r : Recorder) : Prop := rtc rec_step recorder_init r.

(** ** Frame of the state *)

Ltac rec_simpl := simplify_eq/=; repeat split; try done.

Lemma writer_step_fields r :
  let r' := writer_step r in
  mRunning r' = mRunning r /\ mSource r' = mSource r /\ mSampleRate r' = mSampleRate r /\
  mChannels r' = mChannels r /\ mScratch r' = mScratch r /\ mScratchPtrs r' = mScratchPtrs r.
Proof. unfold writer_step, set_writer. repeat case_match; rec_simpl. Qed.

Lemma writer_iteration_fields r :
  let r' := writer_iteration r in
  mRunning r' = mRunning r /\ mSource r' = mSource r /\ mSampleRate r' = mSampleRate r /\
  mChannels r' = mChannels r /\ mScratch r' = mScratch r /\ mScratchPtrs r' = mScratchPtrs r.
Proof.
  unfold writer_iteration, to_loop_head. destruct (writer_step_fields r) as (? & ? & ? & ? & ? & ?).
  case_match; try (split_and!; congruence).
  destruct (writer_step_fields (writer_step r)) as (? & ? & ? & ? & ? & ?). split_and!; congruence.
Qed.

Lemma join_fields fuel r r' :
  join fuel r = Some r' ->
  mRunning r' = mRunning r /\ mSource r' = mSource r /\ mSampleRate r' = mSampleRate r /\
  mChannels r' = mChannels r /\ mScratch r' = mScratch r /\ mScratchPtrs r' = mScratchPtrs r /\
  mWriter r' = WNoThread.
Proof.
  revert r. induction fuel as [| fuel IH]; intros r; simpl; case_match; try done;
    intros Hj; simplify_eq/=; try done.
  all: destruct (IH _ Hj) as (? & ? & ? & ? & ? & ? & ?).
  all: destruct (writer_iteration_fields r) as (? & ? & ? & ? & ? & ?); split_and!; congruence.
Qed.

(** ** Shapes of planes *)

Lemma zero_planes_shape ch : 0 <= ch -> planes_shape (zero_planes ch) ch.
Proof.
  intros Hch. unfold zero_planes, planes_shape. rewrite length_replicate.
  split; [done |]. apply Forall_replicate. by rewrite length_replicate.
Qed.

Lemma planes_shape_cover ps n k m :
  planes_shape ps n -> 0 <= k <= n -> 0 <= m <= kChunkFrames -> planes_cover ps k m.
Proof.
  intros [Hl Hf] Hk Hm. split; [lia |].
  apply Forall_take. eapply Forall_impl; [exact Hf |]. intros p Hp. unfold kChunkFrames in *. lia.
Qed.

Lemma scratch_planes_seq (s : list (list Qc)) :
  scratch_planes s (seq 0 (length s)) = s.
Proof.
  apply list_eq. intros i. unfold scratch_planes. rewrite list_lookup_fmap.
  destruct (decide (i < length s)%nat).
  - rewrite lookup_seq_lt by done. simpl.
    destruct (s !! i) eqn:E; [done |]. apply lookup_ge_None in E. lia.
  - rewrite lookup_seq_ge by lia. simpl. symmetry. apply lookup_ge_None. lia.
Qed.

Lemma deinterleave_plane_length data base ch chunk c xs :
  deinterleave_plane data base ch chunk c = Some xs -> length xs = Z.to_nat chunk.
Proof. intros H. apply length_mapM in H. by rewrite <- H, length_seq. Qed.

Lemma deinterleave_from_shape c scratch data base ch chunk s' :
  0 <= chunk <= kChunkFrames ->
  Forall (fun p => length p = Z.to_nat kChunkFrames) scratch ->
  deinterleave_from c scratch data base ch chunk = Some s' ->
  length s' = length scratch /\ Forall (fun p => length p = Z.to_nat kChunkFrames) s'.
Proof.
  intros Hc. revert c s'. induction scratch as [| p ps IH]; intros c s' Hf Hd; simpl in Hd.
  - by simplify_eq/=.
  - apply Forall_cons in Hf as [Hp Hps].
    destruct (if Z.of_nat c <? ch then _ else _) as [p' |] eqn:Ep; [simpl in Hd | done].
    destruct (deinterleave_from (S c) ps data base ch chunk) as [ps' |] eqn:Eps;
      simplify_eq/=.
    destruct (IH (S c) ps' Hps Eps) as [Hl Hf'].
    split; [simpl; lia |]. constructor; [| done].
    destruct (Z.of_nat c <? ch); simplify_eq/=; [| done].
    destruct (deinterleave_plane data base ch chunk (Z.of_nat c)) as [xs |] eqn:Ex;
      simplify_eq/=.
    apply deinterleave_plane_length in Ex.
    rewrite length_app, length_drop, Ex. unfold kChunkFrames in *. lia.
Qed.
(** ** Preservation of the invariant *)

(** What a successful [new_ring] of the recorder's ring gives. *)
Lemma start_ring_facts ch cap rb :
  new_ring 0%Qc ch cap = Some rb -> ch <> 0 -> cap <= INT_MAX ->
  0 < ch /\ RingBuffer.mChannels rb = ch /\ ring_wf rb.
Proof.
  intros Hn Hch Hcap.
  destruct (new_ring_fields 0%Qc ch cap rb Hn) as (Hc & _).
  pose proof Hn as Hn'. unfold new_ring in Hn'.
  destruct (Z.ltb_spec ch 0); [done |].
  destruct (Z.ltb_spec 0 ch), (Z.ltb_spec cap 0); simpl in Hn'; try done; try lia.
  split_and!; [lia | done | split].
  - apply (new_ring_cursor_inv 0%Qc ch cap rb Hn). lia.
  - apply (new_ring_shape 0%Qc ch cap rb Hn).
Qed.

Lemma header_file_facts sr ch :
  let f := default fopen_wb (write_wav_header (Some fopen_wb) sr ch 0) in
  fdata f = wav_header_bytes sr ch 0 /\ fpos f = length (fdata f) /\ length (fdata f) = 44%nat.
Proof.
  unfold write_wav_header, default, from_option, fwrite, fseek0, fopen_wb; cbn [fdata fpos].
  rewrite take_nil, drop_nil, app_nil_r, length_wav_header. done.
Qed.

Lemma start_inv r path sr ch src ok r' o :
  rec_inv r -> start r path sr ch src ok = Some (r', o) -> rec_inv r'.
Proof.
  unfold start. intros Hinv Hs.
  destruct (mRunning r) eqn:Er; [by simplify_eq/= |].
  case_decide; [by simplify_eq/= |].
  destruct ok; simpl in Hs; [| by simplify_eq/=].
  set (c := if kMaxChannels <? (if ch =? 0 then 1 else ch) then kMaxChannels
            else if ch =? 0 then 1 else ch) in *.
  assert (c <> 0 /\ c <= kMaxChannels) as [Hc0 Hc8].
  { subst c. unfold kMaxChannels. destruct (Z.eqb_spec ch 0), (Z.ltb_spec 8 1),
      (Z.ltb_spec 8 ch); simpl; lia. }
  destruct (new_ring _ _ _) as [rb |] eqn:Hn; [| done].
  destruct (joinable (mWriter r)); simplify_eq/=.
  destruct (start_ring_facts _ _ _ Hn Hc0) as (Hpos & Hrc & Hwf);
    [pose proof (to_signed_range 32 (Z.max (kChunkFrames * 2)
                   u32[(if 0 <? sr then sr else kDefaultSampleRate) * kRingSeconds]) ltac:(lia));
     rewrite INT_MAX_val; lia |].
  destruct (header_file_facts (if 0 <? sr then sr else kDefaultSampleRate) c)
    as (_ & Hp & Hl).
  unfold rec_inv, running_inv; simpl.
  split_and!; try done; try lia; apply zero_planes_shape; lia.
Qed.

Lemma stop_inv fuel r out r' o d closed :
  rec_inv r -> stop fuel r out = Some (r', o, d, closed) -> rec_inv r'.
Proof.
  unfold stop, rec_inv. intros Hinv Hs.
  destruct (mRunning r) eqn:Er; simpl in Hs; [| simplify_eq/=; by rewrite Er].
  unfold running_inv in Hinv.
  destruct (mRing r), (mFile r), (mWriter r) eqn:Hw; simpl in Hinv; try done; simpl in Hs.
  all: destruct (join fuel _) as [r2 |] eqn:Hj; simplify_eq/=.
  all: destruct (join_fields _ _ _ Hj) as (-> & _ & _ & _ & _ & _ & Hw2); simpl.
  all: by rewrite Hw2.
Qed.

(** A push that copies no frame leaves the ring as it was. *)
Lemma ring_push_nothing (rb : RingBuffer Qc) planes ch frames :
  cursor_inv rb -> - 2 ^ 31 <= frames <= INT_MAX -> snd (RingBuffer.push rb planes ch frames) = 0 ->
  fst (RingBuffer.push rb planes ch frames) = rb.
Proof.
  intros Hinv Hfr H0. destruct (push_exact rb planes ch frames Hinv Hfr) as [_ ->].
  rewrite H0. unfold RingBuffer.push. cbv zeta.
  rewrite (wrap_small 64 0), Z.min_l by (lia || (apply wrap_range; lia)). done.
Qed.

(** The ring after the recorder's planar push. *)
Lemma ring_push_wf (rb : RingBuffer Qc) planes ch frames :
  ring_wf rb -> - 2 ^ 31 <= frames <= INT_MAX ->
  snd (RingBuffer.push rb planes ch frames) = 0 \/
  planes_cover planes (Z.min ch (RingBuffer.mChannels rb)) (snd (RingBuffer.push rb planes ch frames)) ->
  ring_wf (fst (RingBuffer.push rb planes ch frames)) /\
  RingBuffer.mChannels (fst (RingBuffer.push rb planes ch frames)) = RingBuffer.mChannels rb.
Proof.
  intros Hwf Hfr [H0 | Hcov]; [by rewrite ring_push_nothing by (done || apply Hwf) |].
  pose proof Hwf as [Hinv _].
  destruct (push_exact rb planes ch frames Hinv Hfr) as [Hn ->].
  set (n := snd (RingBuffer.push rb planes ch frames)) in *.
  destruct (push_fields rb planes ch n Hinv Hn) as (Hc & _).
  split; [split; [apply push_cursor_inv, Hinv | by apply push_shape] | exact Hc].
Qed.

Lemma push_inv r data ch frames r' :
  rec_inv r -> push r data ch frames = Some r' -> rec_inv r'.
Proof.
  unfold push. intros Hinv Hp.
  destruct (mRing r) as [rb |] eqn:Hr, data as [planes |]; simplify_eq/=; try done.
  destruct (negb (mRunning r) || (frames =? 0)) eqn:Eg; simplify_eq/=; [done |].
  destruct (mRunning r) eqn:Er; [| done]. simpl in Eg.
  destruct (RingBuffer.push _ _ _ _) as [rb' n] eqn:Epush.
  case_bool_decide as Hcov; simplify_eq/=.
  unfold rec_inv in *. rewrite Er in Hinv. unfold running_inv in *. rewrite Hr in Hinv. simpl.
  destruct (mFile r), (writer_buffers (mWriter r)); try done.
  destruct Hinv as (Hch & Hrc & Hwf & Hb & Hs & Hptr & Hpos & Hlen & Htot).
  destruct (ring_push_wf rb planes (Z.min ch (mChannels r)) (to_signed 32 frames) Hwf)
    as [Hwf' Hc'];
    [pose proof (to_signed_range 32 frames); rewrite INT_MAX_val; lia | by rewrite Epush |].
  rewrite Epush in Hwf', Hc'. simpl in *. split_and!; try done; try lia.
Qed.

Lemma pop_bufs_shape rb bufs ch :
  ring_wf rb -> RingBuffer.mChannels rb = ch -> planes_shape bufs ch ->
  planes_shape (snd (fst (pop rb bufs ch kChunkFrames))) ch.
Proof.
  intros Hwf Hc [Hl Hf]. pose proof Hwf as [Hinv Hsh].
  rewrite pop_eq by (done || (rewrite INT_MAX_val; unfold kChunkFrames; lia)). cbv zeta.
  case_match; [done |]. simpl.
  split; [unfold planes_read; by rewrite length_imap |].
  apply Forall_lookup_2. intros i o' Hi. rewrite lookup_planes_read in Hi.
  destruct (bufs !! i) as [o |] eqn:Ho; simplify_eq/=.
  assert (length o = Z.to_nat kChunkFrames) as Hlo
    by (rewrite Forall_lookup in Hf; by apply (Hf i)).
  case_match; [| done].
  destruct (shape_plane rb i Hsh) as (plane & Hp & Hlp); [lia |].
  rewrite Hp. simpl. cursor_facts rb. pose proof (filled_range rb).
  rewrite length_plane_read; try done.
  - apply Z.mod_pos_bound. unfold kChunkFrames in *; lia.
  - unfold kChunkFrames in *; lia.
  - unfold kChunkFrames in *; lia.
Qed.

(** Moving a live writer between its loop head and its test keeps the
    invariant. *)
Lemma set_writer_inv r w bufs :
  rec_inv r -> writer_buffers (mWriter r) = Some bufs -> writer_buffers w = Some bufs ->
  rec_inv (set_writer r w).
Proof.
  unfold rec_inv, running_inv, idle_inv, set_writer. simpl. intros Hinv Hb Hw.
  rewrite Hw. rewrite Hb in Hinv. case_match; [done |]. destruct Hinv as (_ & _ & Hnt & _).
  by rewrite Hnt in Hb.
Qed.

Lemma writer_step_inv r : rec_inv r -> rec_inv (writer_step r).
Proof.
  intros Hinv0. pose proof Hinv0 as Hinv. unfold rec_inv in Hinv. destruct (mRunning r) eqn:Er.
  - unfold running_inv in Hinv.
    destruct (mRing r) as [rb |] eqn:Hr; [| done].
    destruct (mFile r) as [f |] eqn:Hf; [| done].
    destruct (mWriter r) as [| bufs | bufs |] eqn:Hw; try done; unfold writer_step; rewrite Hw;
      [| by apply (set_writer_inv _ _ bufs); rewrite ?Hw, ?Er].
    destruct Hinv as (Hch & Hrc & Hwf & Hb & Hs & Hptr & Hpos & Hlen & Htot).
    pose proof Hwf as [Hinv Hsh].
    pose proof (pop_bufs_shape rb bufs (mChannels r) Hwf Hrc Hb) as Hb'.
    pose proof (pop_cursor_inv rb bufs (mChannels r) kChunkFrames Hinv) as Hinv'.
    pose proof (pop_shape rb bufs (mChannels r) kChunkFrames Hsh) as Hsh'.
    destruct (pop_fields rb bufs (mChannels r) kChunkFrames Hinv) as (Hc' & _);
      [rewrite INT_MAX_val; unfold kChunkFrames; lia |].
    rewrite Hr, Hf.
    destruct (pop rb bufs (mChannels r) kChunkFrames) as [[rb' out] n] eqn:Ep. simpl in *.
    destruct (Z.ltb_spec 0 n); [| by apply (set_writer_inv _ _ bufs); rewrite ?Hw].
    destruct (fwrite_append f (samples_bytes (interleave out (mChannels r) n)) Hpos)
      as [Hd Hp'].
    unfold rec_inv. cbn [mRunning]. rewrite Er. unfold running_inv.
    cbn [mRing mFile mWriter mChannels mScratch mScratchPtrs mTotalFrames writer_buffers].
    rewrite Hp', Hd, length_app. pose proof (wrap_range 64 (mTotalFrames r + n)).
    split_and!; try done; lia.
  - destruct Hinv as (Hr & Hf & Hw & Ht). unfold writer_step. by rewrite Hw.
Qed.

(** A push of at most one chunk from chunk-sized planes keeps the ring
    well formed. *)
Lemma ring_push_chunk (rb : RingBuffer Qc) ps ch m :
  ring_wf rb -> RingBuffer.mChannels rb = ch -> planes_shape ps ch -> 0 <= m <= kChunkFrames ->
  ring_wf (fst (RingBuffer.push rb ps ch m)) /\
  RingBuffer.mChannels (fst (RingBuffer.push rb ps ch m)) = ch.
Proof.
  intros Hwf Hc Hs Hm. pose proof Hwf as [Hinv _].
  assert (0 <= m <= INT_MAX) as Hm' by (rewrite INT_MAX_val; unfold kChunkFrames in *; lia).
  destruct (push_fields rb ps ch m Hinv Hm') as (Hc' & _).
  split; [split |]; [by apply push_cursor_inv | | congruence].
  apply push_shape; [done | done |].
  apply (planes_shape_cover _ ch); [done | | done].
  destruct Hwf as [_ (? & _)]. lia.
Qed.

Lemma interleaved_loop_inv fuel rb scratch data ch frames offset rb' scratch' :
  ring_wf rb -> RingBuffer.mChannels rb = ch -> planes_shape scratch ch ->
  interleaved_loop fuel rb scratch (seq 0 (Z.to_nat ch)) data ch frames offset =
    Some (rb', scratch') ->
  ring_wf rb' /\ RingBuffer.mChannels rb' = ch /\ planes_shape scratch' ch.
Proof.
  revert rb scratch offset.
  induction fuel as [| fuel IH]; intros rb scratch offset Hwf Hc [Hl Hf] Hloop; simpl in Hloop;
    (destruct (Z.ltb_spec offset frames); [| by simplify_eq/=]); [done |].
  set (chunk := if kChunkFrames <? frames - offset then kChunkFrames else frames - offset)
    in *.
  assert (0 < chunk <= kChunkFrames) as Hch
    by (subst chunk; unfold kChunkFrames; destruct (Z.ltb_spec 1024 (frames - offset)); lia).
  destruct (deinterleave_from 0 scratch data _ ch chunk) as [s1 |] eqn:Hd; [| done].
  simpl in Hloop.
  destruct (deinterleave_from_shape 0 scratch data _ ch chunk s1 ltac:(lia) Hf Hd) as [Hl1 Hf1].
  assert (planes_shape s1 ch) as Hs1 by (split; [lia | done]).
  rewrite <- Hl, <- Hl1, scratch_planes_seq in Hloop.
  rewrite to_signed_small in Hloop by (unfold kChunkFrames in *; lia).
  destruct (ring_push_chunk rb s1 ch chunk Hwf Hc Hs1 ltac:(lia)) as [Hwf1 Hc1].
  rewrite Hl1, Hl in Hloop. exact (IH _ _ _ Hwf1 Hc1 Hs1 Hloop).
Qed.

Lemma push_interleaved_inv r data ch frames r' :
  rec_inv r -> push_interleaved r data ch frames = Some r' -> rec_inv r'.
Proof.
  unfold push_interleaved. intros Hinv Hp.
  destruct (mRing r) as [rb |] eqn:Hr, data as [d |]; simplify_eq/=; try done.
  destruct (negb (mRunning r) || (frames =? 0)) eqn:Eg; simplify_eq/=; [done |].
  destruct (mRunning r) eqn:Er; [| done].
  destruct (Z.min ch (mChannels r) =? 0); simplify_eq/=; [done |].
  destruct (_ && _) eqn:Eguard; simplify_eq/=; [| done].
  apply andb_true_iff in Eguard as [E1 E2]. apply Nat.eqb_eq in E1, E2.
  destruct (interleaved_loop _ _ _ _ _ _ _ _) as [[rb' s'] |] eqn:Hloop; simplify_eq/=.
  unfold rec_inv in *. rewrite Er in Hinv. cbn [mRunning]. unfold running_inv in *. rewrite Hr in Hinv.
  cbn [mRing mFile mWriter mChannels mScratch mScratchPtrs mTotalFrames].
  destruct (mFile r), (writer_buffers (mWriter r)); try done.
  destruct Hinv as (Hch & Hrc & Hwf & Hb & [Hsl Hsf] & Hptr & Hpos & Hlen & Htot).
  assert (Z.min ch (mChannels r) = mChannels r) as Hm by lia.
  rewrite Hm, Hptr in Hloop.
  destruct (interleaved_loop_inv _ _ _ _ _ _ _ _ _ Hwf Hrc (conj Hsl Hsf) Hloop)
    as (Hwf' & Hc' & Hs').
  split_and!; try done; lia.
Qed.

Lemma rec_step_inv r r' : rec_step r r' -> rec_inv r -> rec_inv r'.
Proof.
  destruct 1; intros Hinv.
  - eauto using start_inv.
  - eauto using stop_inv.
  - eauto using push_inv.
  - eauto using push_interleaved_inv.
  - by apply writer_step_inv.
Qed.

Lemma rec_inv_init : rec_inv recorder_init.
Proof. by split_and!. Qed.

(** ** Interleaving *)

Lemma sample_drop ps a c f : sample (drop a <$> ps) c f = sample ps c (a + f).
Proof.
  unfold sample. rewrite list_lookup_fmap.
  destruct (ps !! c); simpl; [by rewrite lookup_drop | done].
Qed.

Lemma flat_map_seq_shift {B} (g : nat -> list B) a b :
  flat_map g (seq a b) = flat_map (fun f => g (a + f)%nat) (seq 0 b).
Proof.
  revert g a. induction b as [| b IH]; intros g a; [done |]. simpl.
  rewrite Nat.add_0_r. f_equal. rewrite (IH g (S a)), (IH _ 1%nat).
  apply flat_map_ext. intros f. f_equal. lia.
Qed.

Lemma interleave_split ps nch a b :
  0 <= a -> 0 <= b ->
  interleave ps nch (a + b) =
    interleave ps nch a ++ interleave (drop (Z.to_nat a) <$> ps) nch b.
Proof.
  intros Ha Hb. unfold interleave.
  rewrite Z2Nat.inj_add, seq_app, flat_map_app by done. f_equal.
  rewrite flat_map_seq_shift. apply flat_map_ext. intros f.
  unfold frame_row. apply map_ext. intros c. by rewrite sample_drop.
Qed.

Lemma interleave_ext ps qs nch n :
  (forall c f, (c < Z.to_nat nch)%nat -> (f < Z.to_nat n)%nat -> sample ps c f = sample qs c f) ->
  interleave ps nch n = interleave qs nch n.
Proof.
  intros H. unfold interleave. rewrite !flat_map_concat_map. f_equal.
  apply map_ext_in. intros f Hf. apply in_seq in Hf.
  unfold frame_row. apply map_ext_in. intros c Hc. apply in_seq in Hc.
  f_equal. apply H; lia.
Qed.

Lemma sample_take ps qs c f n :
  take n (default [] (ps !! c)) = take n (default [] (qs !! c)) -> (f < n)%nat ->
  sample ps c f = sample qs c f.
Proof.
  intros Ht Hf. unfold sample.
  rewrite <- (lookup_take_lt _ n f Hf), Ht, lookup_take_lt by done. done.
Qed.

Lemma samples_bytes_app xs ys : samples_bytes (xs ++ ys) = samples_bytes xs ++ samples_bytes ys.
Proof. apply flat_map_app. Qed.

Lemma lookup_ring_queues rb nch c :
  (c < Z.to_nat nch)%nat -> ring_queues rb nch !! c = Some (contents 0%Qc rb c).
Proof. intros Hc. unfold ring_queues. by rewrite list_lookup_fmap, lookup_seq_lt. Qed.

(** ** Draining *)

(** One [pop] of the writer: it takes [n = min(1024, filled)] frames, the
    interleaved samples of its buffers are those of the head of the
    channel queues, and the queues lose their first [n] samples. *)
Lemma writer_pop_facts (rb : RingBuffer Qc) bufs ch :
  ring_wf rb -> RingBuffer.mChannels rb = ch -> planes_shape bufs ch ->
  mReadIndex rb <= mWriteIndex rb ->
  let '(rb', out, n) := pop rb bufs ch kChunkFrames in
  n = Z.min kChunkFrames (filled rb) /\ ring_wf rb' /\ RingBuffer.mChannels rb' = ch /\
  planes_shape out ch /\ mReadIndex rb' <= mWriteIndex rb' /\ filled rb' = filled rb - n /\
  interleave out ch n = interleave (ring_queues rb ch) ch n /\
  ring_queues rb' ch = drop (Z.to_nat n) <$> ring_queues rb ch.
Proof.
  intros Hwf Hc Hb Hrw. pose proof Hwf as [Hinv Hsh].
  assert (0 <= kChunkFrames <= INT_MAX) as Hfr
    by (rewrite INT_MAX_val; unfold kChunkFrames; lia).
  destruct Hsh as (Hc0 & _).
  assert (planes_cover bufs (Z.min ch (RingBuffer.mChannels rb)) kChunkFrames) as Hcov
    by (apply (planes_shape_cover _ ch); [done | lia | unfold kChunkFrames; lia]).
  destruct (pop_filled rb bufs ch kChunkFrames Hinv Hfr) as [Hn Hf].
  destruct (pop_fields rb bufs ch kChunkFrames Hinv Hfr) as (Hc' & _ & _ & Hw & Hr).
  pose proof (pop_cursor_inv rb bufs ch kChunkFrames Hinv) as Hinv'.
  pose proof (pop_shape rb bufs ch kChunkFrames (proj2 Hwf)) as Hsh'.
  pose proof (pop_bufs_shape rb bufs ch Hwf Hc Hb) as Hb'.
  pose proof (fun c Hc => pop_contents 0%Qc rb bufs ch kChunkFrames c Hwf Hfr Hcov Hc Hrw)
    as Hct.
  pose proof (filled_nowrap rb Hinv Hrw) as Hfw.
  destruct (pop rb bufs ch kChunkFrames) as [[rb' out] n]; simpl in *.
  assert (Z.min ch (RingBuffer.mChannels rb) = ch) as Hm by lia. rewrite Hm in Hct.
  subst n.
  pose proof (filled_range rb). cursor_facts rb.
  split_and!; try done; try congruence.
  - rewrite Hr, Hw, wrap_small; unfold kChunkFrames in *; lia.
  - apply interleave_ext. intros c f Hcc Hff.
    apply (sample_take _ _ c f (Z.to_nat (Z.min kChunkFrames (filled rb)))); [| lia].
    rewrite lookup_ring_queues by done. simpl. by apply Hct.
  - unfold ring_queues. rewrite <- list_fmap_compose. apply list_fmap_ext.
    intros i c Hi. apply lookup_seq in Hi as [-> Hi]. simpl. by apply Hct.
Qed.

Lemma wrap_add_assoc w a b c : 0 <= w -> wrap w (wrap w (a + b) + c) = wrap w (a + (b + c)).
Proof.
  intros Hw. unfold wrap. rewrite Zplus_mod_idemp_l. f_equal. lia.
Qed.

(** One iteration from the head of the loop, by the outcome of its pop. *)
Lemma writer_iteration_loop r rb f bufs :
  mRing r = Some rb -> mFile r = Some f -> mWriter r = WLoop bufs ->
  writer_iteration r =
    let '(rb1, out, n) := pop rb bufs (mChannels r) kChunkFrames in
    if 0 <? n
    then mkRecorder (mRunning r) (mSource r) (mSampleRate r) (mChannels r) (Some rb1)
           (Some (fwrite f (samples_bytes (interleave out (mChannels r) n)))) (WLoop out)
           u64[mTotalFrames r + n] (mScratch r) (mScratchPtrs r)
    else set_writer r (if mRunning r then WLoop bufs else WExited).
Proof.
  intros Hr Hf Hw. unfold writer_iteration, writer_step. rewrite Hw, Hr, Hf.
  destruct (pop rb bufs (mChannels r) kChunkFrames) as [[rb1 out] n].
  by destruct (0 <? n).
Qed.

(** The step case of the two drains below: the pop of a non-empty ring
    takes one chunk, whose samples extend the file and the count. *)
Lemma drain_chunk (rb rb1 : RingBuffer Qc) out f f' ch n total :
  n = Z.min kChunkFrames (filled rb) -> filled rb1 = filled rb - n -> 0 < n ->
  interleave out ch n = interleave (ring_queues rb ch) ch n ->
  ring_queues rb1 ch = drop (Z.to_nat n) <$> ring_queues rb ch ->
  fdata (fwrite f (samples_bytes (interleave out ch n))) =
    fdata f ++ samples_bytes (interleave out ch n) ->
  fdata f' = fdata (fwrite f (samples_bytes (interleave out ch n))) ++
    samples_bytes (interleave (ring_queues rb1 ch) ch (filled rb1)) ->
  0 <= total ->
  u64[u64[total + n] + filled rb1] = u64[total + filled rb] /\
  fdata f' = fdata f ++ samples_bytes (interleave (ring_queues rb ch) ch (filled rb)).
Proof.
  intros Hn Hf1 Hn0 Hint Hq Hd1 Hd Ht. pose proof (filled_range rb1). split.
  - rewrite Hf1, wrap_add_assoc by lia. do 3 f_equal. lia.
  - rewrite Hd, Hd1, Hf1, Hq, Hint.
    rewrite <- app_assoc, <- samples_bytes_app, <- interleave_split by lia.
    do 4 f_equal. lia.
Qed.

(** Once [mRunning] is clear, a writer at the head of its loop empties
    the ring into the file, chunk by chunk, and returns: [join] ends with
    the queued frames appended to the file in interleaved 16-bit form and
    counted, given one iteration per chunk and one more to see the empty
    ring. *)
Lemma join_drain_loop fuel r rb f bufs :
  mRunning r = false -> mRing r = Some rb -> mFile r = Some f -> mWriter r = WLoop bufs ->
  ring_wf rb -> RingBuffer.mChannels rb = mChannels r -> planes_shape bufs (mChannels r) ->
  mReadIndex rb <= mWriteIndex rb -> fpos f = length (fdata f) ->
  0 <= mTotalFrames r < 2 ^ 64 -> filled rb <= kChunkFrames * (Z.of_nat fuel - 1) ->
  exists rb' f',
    join fuel r = Some (mkRecorder false (mSource r) (mSampleRate r) (mChannels r) (Some rb')
                          (Some f') WNoThread u64[mTotalFrames r + filled rb]
                          (mScratch r) (mScratchPtrs r)) /\
    fdata f' = fdata f ++
      samples_bytes (interleave (ring_queues rb (mChannels r)) (mChannels r) (filled rb)) /\
    fpos f' = length (fdata f') /\ filled rb' = 0.
Proof.
  revert r rb f bufs.
  induction fuel as [| fuel IH]; intros r rb f bufs Er Hr Hf Hw Hwf Hc Hb Hrw Hpos Htot Hfuel;
    pose proof (filled_range rb); [unfold kChunkFrames in *; lia |].
  pose proof (writer_pop_facts rb bufs (mChannels r) Hwf Hc Hb Hrw) as Hpop.
  simpl. rewrite Hw, (writer_iteration_loop r rb f bufs Hr Hf Hw).
  destruct (pop rb bufs (mChannels r) kChunkFrames) as [[rb1 out] n] eqn:Ep.
  destruct Hpop as (Hn & Hwf1 & Hc1 & Hb1 & Hrw1 & Hf1 & Hint & Hq).
  destruct (Z.ltb_spec 0 n) as [Hn0 | Hn0].
  - destruct (fwrite_append f (samples_bytes (interleave out (mChannels r) n)) Hpos)
      as [Hd1 Hp1].
    assert (filled rb1 <= kChunkFrames * (Z.of_nat fuel - 1)) as Hfuel1
      by (rewrite Hf1; unfold kChunkFrames in *; lia).
    destruct (IH (mkRecorder (mRunning r) (mSource r) (mSampleRate r) (mChannels r) (Some rb1)
                   (Some (fwrite f (samples_bytes (interleave out (mChannels r) n))))
                   (WLoop out) u64[mTotalFrames r + n] (mScratch r) (mScratchPtrs r))
                  rb1 _ out Er eq_refl eq_refl eq_refl Hwf1 Hc1 Hb1 Hrw1
                  ltac:(by rewrite Hp1, Hd1) (wrap_range 64 _ ltac:(lia)) Hfuel1)
      as (rb' & f' & Hj & Hd & Hp & H0).
    cbn [mChannels mSource mSampleRate mScratch mScratchPtrs mTotalFrames] in Hj, Hd.
    destruct (drain_chunk rb rb1 out f f' (mChannels r) n (mTotalFrames r))
      as [Ht Hd']; try done; [lia |].
    exists rb', f'. rewrite Hj, Ht. by split_and!.
  - assert (filled rb = 0) as H0 by (unfold kChunkFrames in *; lia).
    exists rb, f. rewrite Er. simpl. rewrite H0, Z.add_0_r, wrap_small by done.
    unfold interleave. destruct r; simpl in *; subst. destruct fuel; simpl; by rewrite app_nil_r.
Qed.

(** While [mRunning] is set, the writer alone empties the ring into the
    file, one chunk per iteration; once the ring is empty its iterations
    only sleep. *)
Lemma writer_loop_drain n r rb f bufs :
  mRunning r = true -> mRing r = Some rb -> mFile r = Some f -> mWriter r = WLoop bufs ->
  ring_wf rb -> RingBuffer.mChannels rb = mChannels r -> planes_shape bufs (mChannels r) ->
  mReadIndex rb <= mWriteIndex rb -> fpos f = length (fdata f) ->
  0 <= mTotalFrames r < 2 ^ 64 -> filled rb <= kChunkFrames * Z.of_nat n ->
  exists rb' f' bufs',
    writer_loop n r = mkRecorder true (mSource r) (mSampleRate r) (mChannels r) (Some rb')
                        (Some f') (WLoop bufs') u64[mTotalFrames r + filled rb]
                        (mScratch r) (mScratchPtrs r) /\
    fdata f' = fdata f ++
      samples_bytes (interleave (ring_queues rb (mChannels r)) (mChannels r) (filled rb)) /\
    fpos f' = length (fdata f') /\ filled rb' = 0.
Proof.
  revert r rb f bufs.
  induction n as [| n IH]; intros r rb f bufs Er Hr Hf Hw Hwf Hc Hb Hrw Hpos Htot Hfuel;
    pose proof (filled_range rb).
  - assert (filled rb = 0) as H0 by (unfold kChunkFrames in *; lia).
    exists rb, f, bufs. destruct r; simpl in *; subst.
    rewrite H0, Z.add_0_r, wrap_small by done. split_and!; try done.
    unfold interleave. by rewrite app_nil_r.
  - pose proof (writer_pop_facts rb bufs (mChannels r) Hwf Hc Hb Hrw) as Hpop.
    simpl. rewrite (writer_iteration_loop r rb f bufs Hr Hf Hw).
    destruct (pop rb bufs (mChannels r) kChunkFrames) as [[rb1 out] k] eqn:Ep.
    destruct Hpop as (Hk & Hwf1 & Hc1 & Hb1 & Hrw1 & Hf1 & Hint & Hq).
    destruct (Z.ltb_spec 0 k) as [Hk0 | Hk0]; [| rewrite Er].
    + destruct (fwrite_append f (samples_bytes (interleave out (mChannels r) k)) Hpos)
        as [Hd1 Hp1].
      assert (filled rb1 <= kChunkFrames * Z.of_nat n) as Hfuel1
        by (rewrite Hf1; unfold kChunkFrames in *; lia).
      destruct (IH (mkRecorder (mRunning r) (mSource r) (mSampleRate r) (mChannels r) (Some rb1)
                     (Some (fwrite f (samples_bytes (interleave out (mChannels r) k))))
                     (WLoop out) u64[mTotalFrames r + k] (mScratch r) (mScratchPtrs r))
                    rb1 _ out Er eq_refl eq_refl eq_refl Hwf1 Hc1 Hb1 Hrw1
                    ltac:(by rewrite Hp1, Hd1) (wrap_range 64 _ ltac:(lia)) Hfuel1)
        as (rb' & f' & bufs' & Hj & Hd & Hp & H0).
      cbn [mChannels mSource mSampleRate mScratch mScratchPtrs mTotalFrames] in Hj, Hd.
      destruct (drain_chunk rb rb1 out f f' (mChannels r) k (mTotalFrames r))
        as [Ht Hd']; try done; [lia |].
      exists rb', f', bufs'. rewrite Hj, Ht. by split_and!.
    + assert (filled rb <= kChunkFrames * Z.of_nat n) as Hfuel1
        by (unfold kChunkFrames in *; lia).
      exact (IH (set_writer r (WLoop bufs)) rb f bufs Er Hr Hf eq_refl Hwf Hc Hb Hrw Hpos Htot
               Hfuel1).
Qed.

(** The same from a writer anywhere in its loop: it first finishes the
    iteration it is in. *)
Lemma writer_run_drain n r rb f bufs :
  mRunning r = true -> mRing r = Some rb -> mFile r = Some f ->
  writer_buffers (mWriter r) = Some bufs ->
  ring_wf rb -> RingBuffer.mChannels rb = mChannels r -> planes_shape bufs (mChannels r) ->
  mReadIndex rb <= mWriteIndex rb -> fpos f = length (fdata f) ->
  0 <= mTotalFrames r < 2 ^ 64 -> filled rb <= kChunkFrames * Z.of_nat n ->
  exists rb' f' bufs',
    writer_run n r = mkRecorder true (mSource r) (mSampleRate r) (mChannels r) (Some rb')
                       (Some f') (WLoop bufs') u64[mTotalFrames r + filled rb]
                       (mScratch r) (mScratchPtrs r) /\
    fdata f' = fdata f ++
      samples_bytes (interleave (ring_queues rb (mChannels r)) (mChannels r) (filled rb)) /\
    fpos f' = length (fdata f') /\ filled rb' = 0.
Proof.
  intros Er Hr Hf Hw. unfold writer_run, to_loop_head.
  destruct (mWriter r) as [| b | b |] eqn:Ew; simplify_eq/=.
  - by apply (writer_loop_drain n r rb f bufs).
  - unfold writer_step. rewrite Ew, Er.
    by apply (writer_loop_drain n (set_writer r (WLoop bufs)) rb f bufs).
Qed.

(** The frames [stop]'s join still writes: the whole queue when the
    writer is at its pop or outside its loop, none when it has already
    seen an empty ring and only has to load [mRunning] (lines 200 and
    220 are two atomic accesses). *)
Definition flushed_frames (w : writer_state) (rb : RingBuffer Qc) : Z :=
  match w with WCheck _ => 0 | _ => filled rb end.

(** [join] once [mRunning] is clear, from anywhere in the loop. *)
Lemma join_drain fuel r rb f bufs :
  mRunning r = false -> mRing r = Some rb -> mFile r = Some f ->
  writer_buffers (mWriter r) = Some bufs ->
  ring_wf rb -> RingBuffer.mChannels rb = mChannels r -> planes_shape bufs (mChannels r) ->
  mReadIndex rb <= mWriteIndex rb -> fpos f = length (fdata f) ->
  0 <= mTotalFrames r < 2 ^ 64 -> filled rb <= kChunkFrames * (Z.of_nat fuel - 1) ->
  let k := flushed_frames (mWriter r) rb in
  exists rb' f',
    join fuel r = Some (mkRecorder false (mSource r) (mSampleRate r) (mChannels r) (Some rb')
                          (Some f') WNoThread u64[mTotalFrames r + k]
                          (mScratch r) (mScratchPtrs r)) /\
    fdata f' = fdata f ++
      samples_bytes (interleave (ring_queues rb (mChannels r)) (mChannels r) k) /\
    fpos f' = length (fdata f') /\ filled rb' = filled rb - k.
Proof.
  intros Er Hr Hf Hw Hwf Hc Hb Hrw Hpos Htot Hfuel k. subst k.
  destruct (mWriter r) as [| b | b |] eqn:Ew; simplify_eq/=.
  - destruct (join_drain_loop fuel r rb f bufs) as (rb' & f' & ? & ? & ? & H0); try done.
    exists rb', f'. rewrite H0. split_and!; try done; lia.
  - pose proof (filled_range rb). destruct fuel; [unfold kChunkFrames in *; lia |].
    exists rb, f. simpl. rewrite Ew. unfold writer_iteration, writer_step. rewrite Ew, Er.
    rewrite Z.add_0_r, wrap_small by done. unfold interleave. simpl. rewrite app_nil_r.
    destruct r; simpl in *; subst. split_and!; try done; [| lia].
    by destruct fuel.
Qed.

(** The header patch of [stop] on a file that grew by [bs] past a
    header. *)
Lemma closed_file f f' bs sr ch db :
  fdata f' = fdata f ++ bs -> (44 <= length (fdata f))%nat ->
  fdata (fwrite (fseek0 f') (wav_header_bytes sr ch db)) =
    wav_header_bytes sr ch db ++ drop 44 (fdata f) ++ bs.
Proof.
  intros Hd Hl. rewrite fwrite_patch, length_wav_header, Hd.
  by rewrite drop_app_le.
Qed.

Lemma running_facts r :
  rec_inv r -> mRunning r = true ->
  exists rb f bufs, mRing r = Some rb /\ mFile r = Some f /\
    writer_buffers (mWriter r) = Some bufs /\
    ring_wf rb /\ RingBuffer.mChannels rb = mChannels r /\ planes_shape bufs (mChannels r) /\
    fpos f = length (fdata f) /\ (44 <= length (fdata f))%nat /\ 0 <= mTotalFrames r < 2 ^ 64 /\
    1 <= mChannels r <= kMaxChannels /\ planes_shape (mScratch r) (mChannels r) /\
    mScratchPtrs r = seq 0 (Z.to_nat (mChannels r)).
Proof.
  unfold rec_inv, running_inv. intros Hinv Er. rewrite Er in Hinv.
  destruct (mRing r) as [rb |], (mFile r) as [f |], (writer_buffers (mWriter r)) as [bufs |];
    try done.
  destruct Hinv as (? & ? & ? & ? & ? & ? & ? & ? & ?). by exists rb, f, bufs.
Qed.

(** [stop] on a recording state: the writer drains what it still sees of
    the ring, the header is patched, the file closed. *)
Lemma stop_drains fuel r rb f out :
  rec_inv r -> mRunning r = true -> mRing r = Some rb -> mFile r = Some f ->
  mReadIndex rb <= mWriteIndex rb -> filled rb <= kChunkFrames * (Z.of_nat fuel - 1) ->
  let k := flushed_frames (mWriter r) rb in
  let total := u64[mTotalFrames r + k] in
  exists r' closed,
    stop fuel r out =
      Some (r', Ok,
            (if out then Some (if 0 <? mSampleRate r
                               then Q2Qc (inject_Z total / inject_Z (mSampleRate r))
                               else 0%Qc)
             else None),
            Some closed) /\
    fdata closed =
      wav_header_bytes (mSampleRate r) (mChannels r) u32[u64[total * mChannels r * 2]] ++
      drop 44 (fdata f) ++
      samples_bytes (interleave (ring_queues rb (mChannels r)) (mChannels r) k) /\
    mRunning r' = false /\ rec_inv r'.
Proof.
  intros Hinv Er Hr Hf Hrw Hfuel k total.
  destruct (running_facts r Hinv Er)
    as (rb0 & f0 & bufs & Hr0 & Hf0 & Hw & Hwf & Hc & Hb & Hpos & Hlen & Htot & _).
  rewrite Hr0 in Hr. rewrite Hf0 in Hf. simplify_eq/=.
  destruct (join_drain fuel (mkRecorder false (mSource r) (mSampleRate r) (mChannels r)
              (Some rb) (Some f) (mWriter r) (mTotalFrames r) (mScratch r) (mScratchPtrs r))
              rb f bufs eq_refl eq_refl eq_refl Hw Hwf Hc Hb Hrw Hpos Htot Hfuel)
    as (rb' & f' & Hj & Hd & _ & _).
  assert (joinable (mWriter r) = true) as Hjn by (by destruct (mWriter r)).
  unfold stop. rewrite Er, Hr0, Hf0. simpl. rewrite Hjn, Hj. simpl.
  eexists; exists (fwrite (fseek0 f') (wav_header_bytes (mSampleRate r) (mChannels r)
                   u32[u64[total * mChannels r * 2]])).
  split_and!; [done | by apply closed_file | done |].
  by split_and!.
Qed.

(** ** De-interleaving *)

(** The samples [src[f * ch + c]] for [f < chunk], when they are all
    inside the caller's buffer. *)
Lemma deinterleave_plane_ok data base ch chunk c :
  (forall f, (f < Z.to_nat chunk)%nat -> (Z.to_nat (base + u32[Z.of_nat f * ch + c]) < length data)%nat) ->
  deinterleave_plane data base ch chunk c =
    Some ((fun f => default 0%Qc (data !! Z.to_nat (base + u32[Z.of_nat f * ch + c])))
          <$> seq 0 (Z.to_nat chunk)).
Proof.
  intros Hin. apply mapM_Some_2. apply Forall2_fmap_r, Forall_Forall2_diag.
  apply Forall_forall. intros f Hf. apply elem_of_seq in Hf.
  specialize (Hin f ltac:(lia)). apply lookup_lt_is_Some_2 in Hin as [x Hx].
  simpl. by rewrite Hx.
Qed.

Lemma deinterleave_from_ok c0 scratch data base ch chunk :
  (forall c f, (c < Z.to_nat ch)%nat -> (f < Z.to_nat chunk)%nat ->
     (Z.to_nat (base + u32[Z.of_nat f * ch + Z.of_nat c]) < length data)%nat) ->
  deinterleave_from c0 scratch data base ch chunk =
    Some (imap (fun i p =>
                  if Z.of_nat (c0 + i) <? ch
                  then ((fun f => default 0%Qc (data !! Z.to_nat
                                   (base + u32[Z.of_nat f * ch + Z.of_nat (c0 + i)])))
                        <$> seq 0 (Z.to_nat chunk)) ++ drop (Z.to_nat chunk) p
                  else p) scratch).
Proof.
  intros Hin. revert c0. induction scratch as [| p ps IH]; intros c0; [done |]. simpl.
  rewrite Nat.add_0_r.
  destruct (Z.ltb_spec (Z.of_nat c0) ch).
  - rewrite deinterleave_plane_ok by (intros f Hf; apply Hin; lia). simpl.
    rewrite IH. simpl. do 2 f_equal. apply imap_ext. intros i x _. simpl.
    by replace (S (c0 + i))%nat with (c0 + S i)%nat by lia.
  - simpl. rewrite IH. simpl. do 2 f_equal. apply imap_ext. intros i x _. simpl.
    by replace (S (c0 + i))%nat with (c0 + S i)%nat by lia.
Qed.

(** One iteration of the [push_interleaved] loop, with room in the ring
    and the chunk inside the caller's buffer. *)
Lemma interleaved_chunk (rb : RingBuffer Qc) scratch data ch offset chunk :
  ring_wf rb -> RingBuffer.mChannels rb = ch -> 1 <= ch -> planes_shape scratch ch ->
  0 <= offset -> 0 < chunk <= kChunkFrames -> chunk <= mCapacityFrames rb - filled rb ->
  mReadIndex rb <= mWriteIndex rb -> mWriteIndex rb + chunk < 2 ^ 64 ->
  (offset + chunk) * ch <= 2 ^ 32 -> (Z.to_nat ((offset + chunk) * ch) <= length data)%nat ->
  exists s1, deinterleave_from 0 scratch data u32[offset * ch] ch chunk = Some s1 /\
    planes_shape s1 ch /\
    let rb1 := fst (RingBuffer.push rb (scratch_planes s1 (seq 0 (Z.to_nat ch))) ch i32[chunk]) in
    ring_wf rb1 /\ RingBuffer.mChannels rb1 = ch /\ filled rb1 = filled rb + chunk /\
    mCapacityFrames rb1 = mCapacityFrames rb /\
    mReadIndex rb1 = mReadIndex rb /\ mWriteIndex rb1 = mWriteIndex rb + chunk /\
    forall c, (c < Z.to_nat ch)%nat ->
      contents 0%Qc rb1 c =
        contents 0%Qc rb c ++ interleaved_channel data ch c (Z.to_nat offset) (Z.to_nat chunk).
Proof.
  intros Hwf Hc Hch [Hl Hf] Ho Hk Hfree Hrw Hov Hw32 Hlen.
  rewrite deinterleave_from_ok; last first.
  { intros c f Hcc Hff. rewrite !wrap_small by nia. nia. }
  eexists; split; [done |].
  set (s1 := imap _ scratch).
  assert (planes_shape s1 ch) as Hs1.
  { split; [unfold s1; by rewrite length_imap |]. apply Forall_lookup_2. intros i p Hi.
    unfold s1 in Hi. rewrite list_lookup_imap in Hi.
    destruct (scratch !! i) as [p0 |] eqn:Hp0; simplify_eq/=.
    assert (length p0 = Z.to_nat kChunkFrames) by (rewrite Forall_lookup in Hf; by apply (Hf i)).
    case_match; [| done]. rewrite length_app, length_fmap, length_seq, length_drop.
    unfold kChunkFrames in *; lia. }
  split; [done |].
  assert (length s1 = Z.to_nat ch) as Hl1 by apply Hs1.
  rewrite <- Hl1, scratch_planes_seq, Hl1, to_signed_small by (unfold kChunkFrames in *; lia).
  assert (0 <= chunk <= INT_MAX) as Hk' by (rewrite INT_MAX_val; unfold kChunkFrames in *; lia).
  pose proof Hwf as [Hinv _].
  destruct (ring_push_chunk rb s1 ch chunk Hwf Hc Hs1 ltac:(lia)) as [Hwf1 Hc1].
  destruct (push_filled rb s1 ch chunk Hinv Hk') as [Hn Hf1].
  destruct (push_fields rb s1 ch chunk Hinv Hk') as (_ & Hcap1 & Hr1 & Hw1).
  rewrite Z.min_l in Hn, Hf1 by lia. rewrite Hn in Hw1.
  assert (planes_cover s1 (Z.min ch (RingBuffer.mChannels rb)) chunk) as Hcov
    by (apply (planes_shape_cover _ ch); [done | lia | lia]).
  split_and!; try done; [rewrite Hw1, wrap_small; [done | cursor_facts rb; lia] |].
  intros c Hcc.
  rewrite (push_contents 0%Qc rb s1 ch chunk c Hwf Hk' Hcov) by (done || lia).
  rewrite Hn. f_equal. unfold s1. rewrite list_lookup_imap.
  destruct (lookup_lt_is_Some_2 scratch c ltac:(lia)) as [p Hp]. rewrite Hp. simpl.
  rewrite (proj2 (Z.ltb_lt _ _)) by lia.
  rewrite take_app_length' by (by rewrite length_fmap, length_seq).
  unfold interleaved_channel.
  replace (seq (Z.to_nat offset) (Z.to_nat chunk)) with (Nat.add (Z.to_nat offset) <$> seq 0 (Z.to_nat chunk)) by (rewrite fmap_add_seq; f_equal; lia).
  rewrite <- list_fmap_compose. apply list_fmap_ext. intros i f Hi.
  apply lookup_seq in Hi as [-> Hi]. simpl. do 3 f_equal.
  rewrite !wrap_small by nia. lia.
Qed.

Lemma interleaved_channel_app data ch c a n m :
  interleaved_channel data ch c a (n + m) =
    interleaved_channel data ch c a n ++ interleaved_channel data ch c (a + n) m.
Proof. unfold interleaved_channel. by rewrite seq_app, fmap_app. Qed.

(** The [push_interleaved] loop delivers every remaining frame when the
    ring has room for them, one chunk per iteration. *)
Lemma interleaved_loop_spec fuel (rb : RingBuffer Qc) scratch data ch frames offset :
  ring_wf rb -> RingBuffer.mChannels rb = ch -> 1 <= ch -> planes_shape scratch ch ->
  0 <= offset <= frames -> frames - offset <= mCapacityFrames rb - filled rb ->
  mReadIndex rb <= mWriteIndex rb -> mWriteIndex rb + (frames - offset) < 2 ^ 64 ->
  frames * ch <= 2 ^ 32 -> (Z.to_nat (frames * ch) <= length data)%nat ->
  frames - offset <= kChunkFrames * Z.of_nat fuel ->
  exists rb' s',
    interleaved_loop fuel rb scratch (seq 0 (Z.to_nat ch)) data ch frames offset = Some (rb', s') /\
    forall c, (c < Z.to_nat ch)%nat ->
      contents 0%Qc rb' c =
        contents 0%Qc rb c ++
        interleaved_channel data ch c (Z.to_nat offset) (Z.to_nat (frames - offset)).
Proof.
  revert rb scratch offset.
  induction fuel as [| fuel IH];
    intros rb scratch offset Hwf Hc Hch Hs Ho Hfree Hrw Hov Hw32 Hlen Hfuel; simpl;
    (destruct (Z.ltb_spec offset frames) as [Hlt | Hge];
     [| exists rb, scratch; split; [done |]; intros c _;
        rewrite (Z2Nat.nonpos (frames - offset)) by lia; by rewrite app_nil_r]);
    [unfold kChunkFrames in *; lia |].
  set (chunk := if kChunkFrames <? frames - offset then kChunkFrames else frames - offset).
  assert (0 < chunk <= kChunkFrames /\ chunk <= frames - offset /\
          (chunk = kChunkFrames \/ chunk = frames - offset)) as (Hk & Hk2 & Hk3)
    by (subst chunk; unfold kChunkFrames; destruct (Z.ltb_spec 1024 (frames - offset)); lia).
  destruct (interleaved_chunk rb scratch data ch offset chunk Hwf Hc Hch Hs)
    as (s1 & Hd & Hs1 & Hwf1 & Hc1 & Hf1 & Hcap1 & Hr1 & Hw1 & Hct); try (done || lia || nia).
  rewrite Hd. simpl.
  destruct (IH _ s1 (offset + chunk) Hwf1 Hc1 Hch Hs1) as (rb' & s' & Hl & Hct');
    try (rewrite ?Hf1, ?Hcap1, ?Hr1, ?Hw1; unfold kChunkFrames in *; lia).
  exists rb', s'. split; [done |]. intros c Hcc.
  rewrite Hct', Hct, <- app_assoc by done. f_equal.
  rewrite Z2Nat.inj_add, <- interleaved_channel_app by lia. f_equal. lia.
Qed.

(** ** Sessions *)

(** The ring [start] allocates for a sample rate below 2^29. *)
Definition session_ring (sr ch : Z) : RingBuffer Qc :=
  mkRing ch (Z.max 2048 (sr * 4))
    (replicate (Z.to_nat ch) (replicate (Z.to_nat (Z.max 2048 (sr * 4))) 0%Qc)) 0 0.

Lemma start_ok r path sr ch src :
  mRunning r = false -> mWriter r = WNoThread -> path <> ""%string ->
  0 < sr < 2 ^ 29 -> 1 <= ch <= kMaxChannels ->
  start r (Some path) sr ch src true =
    Some (mkRecorder true src sr ch (Some (session_ring sr ch))
            (Some (mkFile (wav_header_bytes sr ch 0) 44)) (WLoop (zero_planes ch)) 0
            (zero_planes ch) (seq 0 (Z.to_nat ch)), Ok).
Proof.
  intros Er Hw Hp Hsr Hch. unfold start. rewrite Er, Hw. simpl.
  rewrite decide_False by done.
  destruct (Z.ltb_spec 0 sr); [| lia]. destruct (Z.eqb_spec ch 0); [lia |].
  destruct (Z.ltb_spec kMaxChannels ch); [unfold kMaxChannels in *; lia |].
  unfold kChunkFrames, kRingSeconds.
  rewrite (wrap_small 32 (sr * 4)) by lia.
  rewrite to_signed_small by lia.
  unfold new_ring. destruct (Z.ltb_spec ch 0); [lia |].
  destruct (Z.ltb_spec (Z.max (1024 * 2) (sr * 4)) 0); [lia |].
  rewrite andb_false_r. simpl.
  unfold fwrite, fseek0, fopen_wb; cbn [fdata fpos].
  rewrite take_nil, drop_nil, app_nil_r, length_wav_header. done.
Qed.

(** The first planar push into the ring of a fresh session. *)
Lemma session_push sr ch planes n :
  0 < sr < 2 ^ 29 -> 1 <= ch <= kMaxChannels -> 0 < n <= 2 * kChunkFrames ->
  planes_cover planes ch n ->
  let rb1 := fst (RingBuffer.push (session_ring sr ch) planes ch n) in
  snd (RingBuffer.push (session_ring sr ch) planes ch n) = n /\
  filled rb1 = n /\ mReadIndex rb1 <= mWriteIndex rb1 /\
  interleave (ring_queues rb1 ch) ch n = interleave planes ch n.
Proof.
  intros Hsr Hch Hn Hcov rb1.
  assert (ring_wf (session_ring sr ch)) as Hwf.
  { split; [| split_and!; simpl; rewrite ?length_replicate; try lia;
              apply Forall_replicate; by rewrite length_replicate].
    unfold cursor_inv, filled; simpl. rewrite INT_MAX_val, Z_pow2_64. unfold wrap.
    rewrite Z.sub_diag, Z.mod_0_l by lia. lia. }
  assert (filled (session_ring sr ch) = 0) as H0
    by (unfold filled, wrap; simpl; by rewrite Z.sub_diag, Z.mod_0_l).
  assert (0 <= n <= INT_MAX) as Hn' by (rewrite INT_MAX_val; unfold kChunkFrames in *; lia).
  assert (Z.min ch (RingBuffer.mChannels (session_ring sr ch)) = ch) as Hm by (simpl; lia).
  destruct (push_filled (session_ring sr ch) planes ch n (proj1 Hwf) Hn') as [Hk Hf].
  destruct (push_fields (session_ring sr ch) planes ch n (proj1 Hwf) Hn') as (_ & _ & Hr & Hw).
  rewrite H0, Z.sub_0_r, Z.min_l in Hk, Hf by (simpl; unfold kChunkFrames in *; lia).
  assert (planes_cover planes (Z.min ch (RingBuffer.mChannels (session_ring sr ch))) n)
    as Hcov' by (by rewrite Hm).
  assert (mWriteIndex (session_ring sr ch) + n < 2 ^ 64) as Hov
    by (simpl; rewrite Z_pow2_64; unfold kChunkFrames in *; lia).
  pose proof (fun c Hcc => push_contents 0%Qc (session_ring sr ch) planes ch n c Hwf Hn'
                 Hcov' Hcc ltac:(simpl; lia) Hov) as Hc.
  rewrite Hm in Hc. fold rb1 in Hc, Hf, Hr, Hw. rewrite Hk in Hc, Hw.
  split_and!; [done | lia | rewrite Hr, Hw; simpl; rewrite wrap_small; rewrite ?Z_pow2_64;
                 unfold kChunkFrames in *; lia |].
  apply interleave_ext. intros c f Hcc Hff.
  apply (sample_take _ _ c f (Z.to_nat n)); [| lia].
  rewrite lookup_ring_queues, Hc, contents_empty by done. simpl.
  by rewrite take_take, Nat.min_id.
Qed.

Lemma session_ring_wf sr ch :
  0 < sr < 2 ^ 29 -> 1 <= ch <= kMaxChannels ->
  ring_wf (session_ring sr ch) /\ filled (session_ring sr ch) = 0.
Proof.
  intros Hsr Hch. split.
  - split; [| split_and!; simpl; rewrite ?length_replicate; try lia;
              apply Forall_replicate; by rewrite length_replicate].
    unfold cursor_inv, filled; simpl. rewrite INT_MAX_val, Z_pow2_64. unfold wrap.
    rewrite Z.sub_diag, Z.mod_0_l by lia. lia.
  - unfold filled, wrap; simpl. by rewrite Z.sub_diag, Z.mod_0_l.
Qed.

(** The first planar push into a fresh session, wherever its writer is. *)
Lemma session_push_writer src sr ch planes n w file :
  0 < sr < 2 ^ 29 -> 1 <= ch <= kMaxChannels -> 0 < n <= 2 * kChunkFrames ->
  planes_cover planes ch n ->
  push (mkRecorder true src sr ch (Some (session_ring sr ch)) (Some file) w 0
          (zero_planes ch) (seq 0 (Z.to_nat ch))) (Some planes) ch n =
    Some (mkRecorder true src sr ch
            (Some (fst (RingBuffer.push (session_ring sr ch) planes ch n))) (Some file) w 0
            (zero_planes ch) (seq 0 (Z.to_nat ch))).
Proof.
  intros Hsr Hch Hn Hcov. destruct (session_push sr ch planes n Hsr Hch Hn Hcov) as (Hk & _).
  unfold push. cbn [mRing mRunning mChannels]. simpl negb.
  destruct (Z.eqb_spec n 0); [unfold kChunkFrames in *; lia |]. simpl orb.
  rewrite Z.min_id, to_signed_small by (unfold kChunkFrames in *; lia).
  destruct (RingBuffer.push _ _ _ _) as [rb1 k] eqn:Ep. simpl in Hk. subst k.
  rewrite bool_decide_true; [done |]. right. simpl. by rewrite Z.min_id.
Qed.

(** The writer's first pop in a fresh session finds the ring empty. *)
Lemma session_first_pop src sr ch file :
  0 < sr < 2 ^ 29 -> 1 <= ch <= kMaxChannels ->
  writer_step (mkRecorder true src sr ch (Some (session_ring sr ch)) (Some file)
                 (WLoop (zero_planes ch)) 0 (zero_planes ch) (seq 0 (Z.to_nat ch))) =
    mkRecorder true src sr ch (Some (session_ring sr ch)) (Some file)
      (WCheck (zero_planes ch)) 0 (zero_planes ch) (seq 0 (Z.to_nat ch)).
Proof.
  intros Hsr Hch. destruct (session_ring_wf sr ch Hsr Hch) as [Hwf H0].
  pose proof (writer_pop_facts (session_ring sr ch) (zero_planes ch) ch Hwf eq_refl
                (zero_planes_shape ch ltac:(lia)) ltac:(simpl; lia)) as Hpop.
  unfold writer_step. cbn [mWriter mRing mChannels].
  destruct (pop _ _ _ _) as [[rb1 out] k]. destruct Hpop as (Hk & _).
  rewrite H0 in Hk. simpl in Hk. by subst k.
Qed.

Lemma reachable_rec_inv r : reachable r -> rec_inv r.
Proof.
  unfold reachable. intros Hr. pose proof rec_inv_init as H0.
  induction Hr as [| x y z Hxy _ IH]; [done |]. by apply IH, (rec_step_inv x y).
Qed.

(** C23. [stop] while recording finishes the file with what the writer
    still sees of the ring: from any state the program can reach with
    recording on, given one writer iteration per chunk of 1024 queued
    frames and one more, it returns [true]; the closed file is the
    header, patched with the sample rate, the channel count and the data
    size [(total * channels * 2) mod 2^32] of the final frame count,
    followed by the samples written so far and then, interleaved and
    converted to 16 bits, the [k] frames the join writes: every frame
    still queued when the writer is at the head of its loop, none when
    its last pop had found the ring empty and it has yet to load
    [mRunning] (frames pushed in between are dropped); the duration is
    the final frame count over the sample rate; the recorder is idle
    again. *)
Theorem stop_flushes fuel r rb f out :
  reachable r -> mRunning r = true -> mRing r = Some rb -> mFile r = Some f ->
  mReadIndex rb <= mWriteIndex rb -> filled rb <= kChunkFrames * (Z.of_nat fuel - 1) ->
  let k := flushed_frames (mWriter r) rb in
  let total := u64[mTotalFrames r + k] in
  exists r' closed,
    stop fuel r out =
      Some (r', Ok,
            (if out then Some (if 0 <? mSampleRate r
                               then Q2Qc (inject_Z total / inject_Z (mSampleRate r))
                               else 0%Qc)
             else None),
            Some closed) /\
    fdata closed =
      wav_header_bytes (mSampleRate r) (mChannels r) u32[u64[total * mChannels r * 2]] ++
      drop 44 (fdata f) ++
      samples_bytes (interleave (ring_queues rb (mChannels r)) (mChannels r) k) /\
    mRunning r' = false /\ rec_inv r'.
Proof. intros Hr. apply stop_drains. by apply reachable_rec_inv. Qed.

(** C36. Progress of the capture: while a session records, the writer
    thread alone, with no further push, moves every queued frame into
    the file.  From any reachable state with recording on, [n]
    iterations of its loop, for [n] chunks of 1024 frames or more of
    queued audio, leave the ring empty, the file grown by the queued
    frames interleaved and converted to 16 bits, the frame count raised
    by their number, and the recorder still recording. *)
Theorem writer_drains n r rb f :
  reachable r -> mRunning r = true -> mRing r = Some rb -> mFile r = Some f ->
  mReadIndex rb <= mWriteIndex rb -> filled rb <= kChunkFrames * Z.of_nat n ->
  exists rb' f' bufs',
    writer_run n r = mkRecorder true (mSource r) (mSampleRate r) (mChannels r) (Some rb')
                       (Some f') (WLoop bufs') u64[mTotalFrames r + filled rb]
                       (mScratch r) (mScratchPtrs r) /\
    fdata f' = fdata f ++
      samples_bytes (interleave (ring_queues rb (mChannels r)) (mChannels r) (filled rb)) /\
    filled rb' = 0.
Proof.
  intros Hreach Er Hr Hf Hrw Hn.
  destruct (running_facts r (reachable_rec_inv r Hreach) Er)
    as (rb0 & f0 & bufs & Hr0 & Hf0 & Hw & Hwf & Hc & Hb & Hpos & _ & Htot & _).
  assert (rb0 = rb) by congruence. assert (f0 = f) by congruence. subst rb0 f0.
  destruct (writer_run_drain n r rb f bufs Er Hr Hf Hw Hwf Hc Hb Hrw Hpos Htot Hn)
    as (rb' & f' & bufs' & H1 & H2 & _ & H3).
  by exists rb', f', bufs'.
Qed.

(** C24. The recorder invariant holds along every run: from a state
    satisfying it, any sequence of [start], [stop], [push],
    [push_interleaved] calls (any arguments, any [fopen] outcome) and
    writer iterations keeps, while recording, a well-formed ring of
    [mChannels] planes, 1 to 8 channels, an open file positioned at its
    end past the 44-byte header, a running writer with chunk-sized
    buffers and scratch planes, and a frame count below 2^64; and, while
    idle, no ring, no file, no thread and a zero count. *)
Theorem rec_inv_runs r r' : rec_inv r -> rtc rec_step r r' -> rec_inv r'.
Proof.
  intros H0 Hr. induction Hr as [| x y z Hxy _ IH]; [done |].
  by apply IH, (rec_step_inv x y).
Qed.

(** C25. A whole recording session, end to end, under the two orders in
    which the writer's first pop can fall.  From an idle recorder,
    [start] with a non-empty path, a sample rate in [1, 2^29) and 1 to 8
    channels succeeds; one planar [push] of [n <= 2048] frames from
    [ch] caller planes is accepted whole; [stop] (three writer
    iterations suffice) succeeds.  When the push comes before the
    writer's first pop, the closed file is exactly the WAV header
    announcing [n * ch * 2] data bytes followed by the pushed frames,
    interleaved, clamped and converted to 16 bits.  When the writer's
    first pop runs between [start] and the push, finds the ring empty
    and has not yet loaded [mRunning] when [stop] clears it, the writer
    leaves its loop without popping again: the closed file is the bare
    header announcing 0 data bytes, and the [n] accepted frames are
    lost. *)
Theorem session_roundtrip r path sr ch src planes n out :
  rec_inv r -> mRunning r = false -> path <> ""%string -> 0 < sr < 2 ^ 29 ->
  1 <= ch <= kMaxChannels -> 0 < n <= 2 * kChunkFrames -> planes_cover planes ch n ->
  exists r1 r2 r3 d closed r2' r3' d' closed',
    start r (Some path) sr ch src true = Some (r1, Ok) /\
    push r1 (Some planes) ch n = Some r2 /\
    stop 3 r2 out = Some (r3, Ok, d, Some closed) /\
    fdata closed = wav_header_bytes sr ch (n * ch * 2) ++ samples_bytes (interleave planes ch n) /\
    push (writer_step r1) (Some planes) ch n = Some r2' /\
    stop 3 r2' out = Some (r3', Ok, d', Some closed') /\
    fdata closed' = wav_header_bytes sr ch 0.
Proof.
  intros Hinv Er Hp Hsr Hch Hn Hcov.
  assert (mWriter r = WNoThread) as Hw by (unfold rec_inv in Hinv; rewrite Er in Hinv; apply Hinv).
  pose proof (start_ok r path sr ch src Er Hw Hp Hsr Hch) as Hs.
  pose proof (start_inv _ _ _ _ _ _ _ _ Hinv Hs) as Hinv1.
  destruct (session_push sr ch planes n Hsr Hch Hn Hcov) as (Hk & Hf & Hrw & Hint).
  pose proof (session_push_writer src sr ch planes n (WLoop (zero_planes ch))
                (mkFile (wav_header_bytes sr ch 0) 44) Hsr Hch Hn Hcov) as Hpush.
  pose proof (session_push_writer src sr ch planes n (WCheck (zero_planes ch))
                (mkFile (wav_header_bytes sr ch 0) 44) Hsr Hch Hn Hcov) as Hpush'.
  rewrite <- (session_first_pop src sr ch (mkFile (wav_header_bytes sr ch 0) 44) Hsr Hch)
    in Hpush'.
  pose proof (push_inv _ _ _ _ _ Hinv1 Hpush) as Hinv2.
  pose proof (push_inv _ _ _ _ _ (writer_step_inv _ Hinv1) Hpush') as Hinv2'.
  destruct (stop_drains 3 _ _ _ out Hinv2 eq_refl eq_refl eq_refl Hrw)
    as (r3 & closed & Hstop & Hd & _); [simpl; rewrite Hf; unfold kChunkFrames in *; lia |].
  destruct (stop_drains 3 _ _ _ out Hinv2' eq_refl eq_refl eq_refl Hrw)
    as (r3' & closed' & Hstop' & Hd' & _); [simpl; rewrite Hf; unfold kChunkFrames in *; lia |].
  do 2 eexists; exists r3; eexists; exists closed; eexists; exists r3'; eexists; exists closed'.
  split_and!; [exact Hs | exact Hpush | exact Hstop | | exact Hpush' | exact Hstop' |].
  - rewrite Hd. cbn [mSampleRate mChannels mTotalFrames mWriter fdata flushed_frames].
    rewrite (drop_ge (wav_header_bytes sr ch 0)) by (by rewrite length_wav_header).
    rewrite app_nil_l, Hf, Hint.
    f_equal. f_equal. rewrite Z.add_0_l.
    rewrite (wrap_small 64 n), (wrap_small 64 (n * ch * 2)), (wrap_small 32 (n * ch * 2));
      [done | ..]; rewrite ?Z_pow2_64; unfold kChunkFrames, kMaxChannels in *; nia.
  - rewrite Hd'. cbn [mSampleRate mChannels mTotalFrames mWriter fdata flushed_frames].
    rewrite (drop_ge (wav_header_bytes sr ch 0)) by (by rewrite length_wav_header).
    unfold interleave. simpl. by rewrite ?app_nil_r.
Qed.

(** ** Error paths and limits *)

(** The error paths of the C ABI: [squirrel_recorder_core_start]
    while recording returns [false] with "Recorder already running"; on
    an idle recorder with a null or empty path, "Output path is empty";
    when [fopen] fails, "Unable to open output file";
    [squirrel_recorder_core_stop] while idle returns [false] with
    "Recorder is not running"; in every case the recorder is unchanged. *)
Theorem core_error_paths r path sr ch src fuel :
  (mRunning r = true ->
   core_start r path sr ch src true = Some (r, false, Some "Recorder already running"%string)) /\
  (mRunning r = false -> default ""%string path = ""%string ->
   core_start r path sr ch src true = Some (r, false, Some "Output path is empty"%string)) /\
  (mRunning r = false -> default ""%string path <> ""%string ->
   core_start r path sr ch src false = Some (r, false, Some "Unable to open output file"%string)) /\
  (mRunning r = false ->
   core_stop fuel r = Some (r, false, Some "Recorder is not running"%string, None, None)).
Proof.
  unfold core_start, core_stop, start, stop.
  split_and!; intros Er; rewrite Er; simpl; try intros Hp;
    rewrite ?decide_True, ?decide_False by done; done.
Qed.

(** C27. [start] with a sample rate in [2^29, 2^30) has no defined
    outcome: [sr * kRingSeconds] fits an [uint32_t] but exceeds
    [INT_MAX], [static_cast<int>] makes the ring capacity negative and
    the [RingBuffer] constructor throws out of the C ABI, after the
    output file was created and its header written. *)
Theorem start_ring_overflow r path sr ch src :
  mRunning r = false -> path <> ""%string -> 2 ^ 29 <= sr < 2 ^ 30 ->
  1 <= ch <= kMaxChannels ->
  start r (Some path) sr ch src true = None.
Proof.
  intros Er Hp Hsr Hch. unfold start. rewrite Er. simpl.
  rewrite decide_False by done.
  destruct (Z.ltb_spec 0 sr); [| lia]. destruct (Z.eqb_spec ch 0); [lia |].
  destruct (Z.ltb_spec kMaxChannels ch); [unfold kMaxChannels in *; lia |].
  unfold kChunkFrames, kRingSeconds.
  rewrite (wrap_small 32 (sr * 4)) by lia.
  rewrite Z.max_r by lia.
  assert (to_signed 32 (sr * 4) = sr * 4 - 2 ^ 32) as ->.
  { unfold to_signed. change (32 - 1) with 31. rewrite wrap_small by lia. destruct (Z.ltb_spec (sr * 4) (2 ^ 31)); lia. }
  unfold new_ring. destruct (Z.ltb_spec ch 0); [lia |].
  destruct (Z.ltb_spec 0 ch); [| lia]. destruct (Z.ltb_spec (sr * 4 - 2 ^ 32) 0); [done | lia].
Qed.

(** C28. [push_interleaved] de-interleaves with the session's channel
    count as stride, whatever the caller's [channels]: when the caller
    passes at least the session's channels and the frames fit in the
    ring, every frame is accepted and channel [c] receives
    [data[f * mChannels + c]] for [f < frames].  A caller buffer with more
    channels than the session (stride [channels]) is therefore recorded
    with its frames mixed up. *)
Theorem push_interleaved_stride r rb d channels frames :
  reachable r -> mRunning r = true -> mRing r = Some rb -> mChannels r <= channels ->
  0 < frames <= mCapacityFrames rb - filled rb ->
  mReadIndex rb <= mWriteIndex rb -> mWriteIndex rb + frames < 2 ^ 64 ->
  frames * mChannels r <= 2 ^ 32 -> (Z.to_nat (frames * mChannels r) <= length d)%nat ->
  exists r' rb', push_interleaved r (Some d) channels frames = Some r' /\ mRing r' = Some rb' /\
    forall c, (c < Z.to_nat (mChannels r))%nat ->
      contents 0%Qc rb' c =
        contents 0%Qc rb c ++ interleaved_channel d (mChannels r) c 0 (Z.to_nat frames).
Proof.
  intros Hreach Er Hr Hch Hfr Hrw Hov Hw32 Hlen.
  destruct (running_facts r (reachable_rec_inv r Hreach) Er)
    as (rb0 & f & bufs & Hr0 & _ & _ & Hwf & Hc & _ & _ & _ & _ & Hch8 & [Hsl Hsf] & Hptr).
  rewrite Hr0 in Hr. simplify_eq/=.
  destruct (interleaved_loop_spec (Z.to_nat frames) rb (mScratch r) d (mChannels r) frames 0
              Hwf Hc ltac:(lia) (conj Hsl Hsf)) as (rb' & s' & Hl & Hct);
    try (rewrite ?Z.sub_0_r; unfold kChunkFrames; lia).
  unfold push_interleaved. rewrite Hr0, Er. simpl.
  destruct (Z.eqb_spec frames 0); [lia |]. simpl.
  rewrite Z.min_r by done. destruct (Z.eqb_spec (mChannels r) 0); [lia |].
  rewrite Hsl, Hptr, length_seq, Nat.eqb_refl. simpl. rewrite Hl. simpl.
  eexists; exists rb'. split_and!; [done | done |]. intros c Hcc.
  rewrite Hct by done. by rewrite Z.sub_0_r.
Qed.

(** [push_interleaved] with fewer channels than the session
    records nothing: [min(channels, mChannels)] no longer matches the
    size of the scratch planes, and the call returns early. *)
Theorem push_interleaved_fewer_channels r d channels frames :
  reachable r -> mRunning r = true -> 1 <= channels < mChannels r -> frames <> 0 ->
  push_interleaved r (Some d) channels frames = Some r.
Proof.
  intros Hreach Er Hch Hfr.
  destruct (running_facts r (reachable_rec_inv r Hreach) Er)
    as (rb & _ & _ & Hr & _ & _ & _ & _ & _ & _ & _ & _ & _ & [Hsl _] & _).
  unfold push_interleaved. rewrite Hr, Er. simpl.
  destruct (Z.eqb_spec frames 0); [lia |]. simpl.
  rewrite Z.min_l by lia. destruct (Z.eqb_spec channels 0); [lia |].
  rewrite Hsl. destruct (Nat.eqb_spec (Z.to_nat (mChannels r)) (Z.to_nat channels)); [lia |].
  done.
Qed.

(** C30. A planar [push] of an [uint32_t] count above [INT_MAX]: the
    count becomes a negative [int], [RingBuffer::push] converts it to a
    huge [size_t] and copies the whole free space [N - filled] from the
    caller's planes, filling the ring; when the ring has room and the
    caller's planes are fewer or shorter than that, the copy reads past
    their end (no defined behaviour). *)
Theorem push_frames_overflow r rb planes channels frames :
  reachable r -> mRunning r = true -> mRing r = Some rb -> 2 ^ 31 <= frames < 2 ^ 32 ->
  let ch := Z.min (Z.min channels (mChannels r)) (RingBuffer.mChannels rb) in
  let n := mCapacityFrames rb - filled rb in
  (planes_cover planes ch n ->
   exists r' rb', push r (Some planes) channels frames = Some r' /\ mRing r' = Some rb' /\
     filled rb' = mCapacityFrames rb) /\
  (0 < n -> ~ planes_cover planes ch n -> push r (Some planes) channels frames = None).
Proof.
  intros Hreach Er Hr Hfr ch n.
  destruct (running_facts r (reachable_rec_inv r Hreach) Er)
    as (rb0 & _ & _ & Hr0 & _ & _ & [Hinv _] & _).
  rewrite Hr0 in Hr. simplify_eq/=.
  assert (to_signed 32 frames = frames - 2 ^ 32) as Hs.
  { unfold to_signed. change (32 - 1) with 31. rewrite wrap_small by lia.
    destruct (Z.ltb_spec frames (2 ^ 31)); lia. }
  pose proof (filled_range rb). cursor_facts rb.
  assert (0 <= n <= INT_MAX) as Hn by (subst n; rewrite INT_MAX_val; lia).
  destruct (push_filled rb planes (Z.min channels (mChannels r)) n Hinv Hn) as [Hk Hfl].
  rewrite Z.min_id in Hk, Hfl.
  unfold push. rewrite Hr0, Er. simpl. destruct (Z.eqb_spec frames 0); [lia |]. simpl.
  rewrite Hs, (push_negative_eq rb planes _ _ Hinv) by lia. fold n.
  destruct (RingBuffer.push rb planes _ n) as [rb' k] eqn:Ep. simpl in Hk, Hfl. subst k.
  split.
  - intros Hc. rewrite bool_decide_true by (by right). eexists; exists rb'.
    split_and!; [done | done | subst n; lia].
  - intros Hn0 Hc. rewrite bool_decide_false; [done |]. intros [? | ?]; [lia | done].
Qed.

(** ** Concrete runs *)

Definition qs (n : Z) (d : positive) : Qc := Q2Qc (n # d).

Definition ex_started : Recorder :=
  match start recorder_init (Some "take.wav"%string) 100 2 Mic true with
  | Some (r, _) => r | None => recorder_init
  end.

Definition ex_rplanes : list (list Qc) :=
  [[qs 1 2; qs (-1) 4; qs 3 1]; [qs 1 8; qs 0 1; qs (-3) 1]].

Definition ex_pushed : Recorder := default ex_started (push ex_started (Some ex_rplanes) 2 3).

Definition ex_pushed_ring : RingBuffer Qc := default (session_ring 100 2) (mRing ex_pushed).

Definition ex_pushed_file : CFile := default fopen_wb (mFile ex_pushed).

Lemma ex_pushed_reachable : reachable ex_pushed.
Proof.
  eapply rtc_l; [apply (StepStart _ (Some "take.wav"%string) 100 2 Mic true _ Ok);
                 vm_compute; reflexivity |].
  eapply rtc_l; [apply (StepPush _ (Some ex_rplanes) 2 3); vm_compute; reflexivity |].
  apply rtc_refl.
Defined.

Lemma ex_started_reachable : reachable ex_started.
Proof.
  eapply rtc_l; [apply (StepStart _ (Some "take.wav"%string) 100 2 Mic true _ Ok);
                 vm_compute; reflexivity |].
  apply rtc_refl.
Defined.

Lemma stop_flushes_witness :
  let k := flushed_frames (mWriter ex_pushed) ex_pushed_ring in
  let total := u64[mTotalFrames ex_pushed + k] in
  exists r' closed,
    stop 3 ex_pushed true =
      Some (r', Ok,
            Some (if 0 <? mSampleRate ex_pushed
                  then Q2Qc (inject_Z total / inject_Z (mSampleRate ex_pushed))
                  else 0%Qc),
            Some closed) /\
    fdata closed =
      wav_header_bytes (mSampleRate ex_pushed) (mChannels ex_pushed)
        u32[u64[total * mChannels ex_pushed * 2]] ++
      drop 44 (fdata ex_pushed_file) ++
      samples_bytes (interleave (ring_queues ex_pushed_ring (mChannels ex_pushed))
                       (mChannels ex_pushed) k) /\
    mRunning r' = false /\ rec_inv r'.
Proof.
  apply (stop_flushes 3 ex_pushed ex_pushed_ring ex_pushed_file true ex_pushed_reachable);
    discharge.
Defined.

Lemma writer_drains_witness :
  exists rb' f' bufs',
    writer_run 1 ex_pushed =
      mkRecorder true (mSource ex_pushed) (mSampleRate ex_pushed) (mChannels ex_pushed)
        (Some rb') (Some f') (WLoop bufs') u64[mTotalFrames ex_pushed + filled ex_pushed_ring]
        (mScratch ex_pushed) (mScratchPtrs ex_pushed) /\
    fdata f' = fdata ex_pushed_file ++
      samples_bytes (interleave (ring_queues ex_pushed_ring (mChannels ex_pushed))
                       (mChannels ex_pushed) (filled ex_pushed_ring)) /\
    filled rb' = 0.
Proof.
  apply (writer_drains 1 ex_pushed ex_pushed_ring ex_pushed_file ex_pushed_reachable); discharge.
Defined.

Lemma rec_inv_runs_witness : rec_inv ex_pushed.
Proof.
  apply (rec_inv_runs recorder_init ex_pushed); [discharge | exact ex_pushed_reachable].
Defined.

Lemma session_roundtrip_witness :
  exists r1 r2 r3 d closed r2' r3' d' closed',
    start recorder_init (Some "take.wav"%string) 100 2 Mic true = Some (r1, Ok) /\
    push r1 (Some ex_rplanes) 2 3 = Some r2 /\
    stop 3 r2 false = Some (r3, Ok, d, Some closed) /\
    fdata closed = wav_header_bytes 100 2 (3 * 2 * 2) ++ samples_bytes (interleave ex_rplanes 2 3) /\
    push (writer_step r1) (Some ex_rplanes) 2 3 = Some r2' /\
    stop 3 r2' false = Some (r3', Ok, d', Some closed') /\
    fdata closed' = wav_header_bytes 100 2 0.
Proof.
  apply (session_roundtrip recorder_init "take.wav"%string 100 2 Mic ex_rplanes 3 false);
    try discharge; unfold kMaxChannels, kChunkFrames; lia.
Defined.

Lemma start_ring_overflow_witness :
  start recorder_init (Some "take.wav"%string) 600000000 2 Mic true = None.
Proof.
  apply start_ring_overflow; [reflexivity | discharge | lia | unfold kMaxChannels; lia].
Defined.

Lemma push_interleaved_stride_witness :
  exists r' rb',
    push_interleaved ex_started (Some [qs 1 2; qs 1 4; qs 1 8; qs 1 16; qs 1 32; qs 1 64]) 3 2
      = Some r' /\ mRing r' = Some rb' /\
    forall c, (c < Z.to_nat (mChannels ex_started))%nat ->
      contents 0%Qc rb' c =
        contents 0%Qc (session_ring 100 2) c ++
        interleaved_channel [qs 1 2; qs 1 4; qs 1 8; qs 1 16; qs 1 32; qs 1 64]
          (mChannels ex_started) c 0 (Z.to_nat 2).
Proof.
  apply (push_interleaved_stride ex_started (session_ring 100 2) _ 3 2 ex_started_reachable);
    discharge.
Defined.

Lemma push_interleaved_fewer_channels_witness :
  push_interleaved ex_started (Some [qs 1 2; qs 1 4]) 1 2 = Some ex_started.
Proof.
  apply (push_interleaved_fewer_channels ex_started _ 1 2 ex_started_reachable); discharge.
Defined.

Lemma push_frames_overflow_witness :
  let ch := Z.min (Z.min 2 (mChannels ex_started)) (RingBuffer.mChannels (session_ring 100 2)) in
  let n := mCapacityFrames (session_ring 100 2) - filled (session_ring 100 2) in
  (planes_cover ex_rplanes ch n ->
   exists r' rb', push ex_started (Some ex_rplanes) 2 (2 ^ 31 + 5) = Some r' /\
     mRing r' = Some rb' /\ filled rb' = mCapacityFrames (session_ring 100 2)) /\
  (0 < n -> ~ planes_cover ex_rplanes ch n ->
   push ex_started (Some ex_rplanes) 2 (2 ^ 31 + 5) = None).
Proof.
  apply (push_frames_overflow ex_started (session_ring 100 2) ex_rplanes 2 (2 ^ 31 + 5)
           ex_started_reachable); try discharge; lia.
Defined.
End Recorder.
