(* ===== verification/RecorderABI.v ===== *)
(** * RecorderABI: the C ABI of [src/src/native/iplug/recorder/RecorderCore.cpp]

    The [extern "C"] functions of lines 249-296 (declared in
    [RecorderCore.h]) act on two pieces of process state: the singleton
    [recorder()] (a [Recorder.Recorder]) and the C heap that holds the
    error strings [dup_cstr] allocates with [malloc] and the caller
    releases with [squirrel_string_free].  A [World] is the pair; each ABI
    function is a function of the world and of its arguments, and
    [abi_step] runs one call (or one iteration of the writer thread).

    Pointers are [option positive] ([None] is [nullptr]); [malloc] either
    returns the next fresh address or fails ([malloc_ok] is the
    environment's answer).  A [char**] or [double*] argument is a boolean
    (non-null or not); what the callee stores through [err_out] is
    returned.  [free] of an address that is not live (a double free) has no
    defined behaviour: [None].

    The Tauri header [src/src-tauri/native/recorder.h] declares the same
    entry points under other names with their contract in comments: the
    contract is the class [RecorderCAPI] with its laws, and [core_capi]
    (the core ABI when [malloc] succeeds) is an instance.

    The theorems: the ownership discipline of the error strings (every
    string handed to the caller is live and the caller's to free exactly
    once; a client that frees what it receives leaks nothing), what
    [err_out] receives, the shape of the file a recording session leaves
    on disk, and the equivalence of the interleaved and the planar
    push. *)

From S2P Require Import Prelude RingBuffer WavFormat Recorder.
From stdpp Require Import base list gmap strings relations.
From Stdlib Require Import ZArith Lia QArith Qcanon Init.Byte.

Open Scope Z_scope.

Module RecorderABI.
Import Wav Recorder.

(** ** The C heap of the error strings *)

Definition cptr := option positive.

Record CHeap := mkHeap { hNext : positive; hLive : gmap positive string }.

Definition heap_init : CHeap := mkHeap 1 ∅.

(** [dup_cstr], lines 62-69: [malloc(n + 1)], [nullptr] when it fails,
    otherwise a fresh block holding the bytes of [s] and a NUL. *)
Definition dup_cstr (h : CHeap) (s : string) (malloc_ok : bool) : CHeap * cptr :=
  if malloc_ok then (mkHeap (Pos.succ (hNext h)) (<[hNext h := s]> (hLive h)), Some (hNext h))
  else (h, None).

(** [squirrel_string_free], lines 292-294: [if (s) std::free(s)]. *)
Definition squirrel_string_free (h : CHeap) (s : cptr) : option CHeap :=
  match s with
  | None => Some h
  | Some p =>
      match hLive h !! p with
      | Some _ => Some (mkHeap (hNext h) (delete p (hLive h)))
      | None => None
      end
  end.

(** ** The process state and the ABI functions *)

Record World := mkWorld { wRec : Recorder; wHeap : CHeap }.

Definition world_init : World := mkWorld recorder_init heap_init.

(** [if (err_out) *err_out = nullptr; ... if (!ok && err_out) *err_out =
    dup_cstr(err.empty() ? default_msg : err)]: the heap after the call
    and what [*err_out] holds ([None] when [err_out] is null). *)
Definition set_err_out (h : CHeap) (err_out : bool) (default_msg : string) (o : outcome)
    (malloc_ok : bool) : CHeap * option cptr :=
  if err_out then
    match Recorder.err_out default_msg o with
    | None => (h, Some None)
    | Some msg => let '(h', p) := dup_cstr h msg malloc_ok in (h', Some p)
    end
  else (h, None).

(** Lines 251-262.  The arguments arrive as [uint32_t] and [uint16_t]. *)
Definition squirrel_recorder_core_start (w : World) (abs_wav_path : option string)
    (sample_rate channels : Z) (source : option string) (err_out : bool)
    (fopen_ok malloc_ok : bool) : option (World * bool * option cptr) :=
  '(r', o) ← start (wRec w) abs_wav_path u32[sample_rate] u16[channels]
               (parse_source source) fopen_ok;
  let '(h', e) := set_err_out (wHeap w) err_out "Recorder start failed" o malloc_ok in
  Some (mkWorld r' h', bool_decide (o = Ok), e).

(** Lines 264-270; [fuel] bounds the iterations of the writer thread
    [join] waits for. *)
Definition squirrel_recorder_core_stop (fuel : nat) (w : World) (err_out out_duration_sec : bool)
    (malloc_ok : bool) : option (World * bool * option cptr * option Qc * option CFile) :=
  '(r', o, d, closed) ← stop fuel (wRec w) out_duration_sec;
  let '(h', e) := set_err_out (wHeap w) err_out "Recorder stop failed" o malloc_ok in
  Some (mkWorld r' h', bool_decide (o = Ok), e, d, closed).

(** Lines 272-274. *)
Definition squirrel_recorder_core_is_recording (w : World) : bool := is_recording (wRec w).

(** Lines 276-278. *)
Definition squirrel_recorder_core_source_is (w : World) (source : option string) : bool :=
  source_is (wRec w) (parse_source source).

(** Lines 280-284. *)
Definition squirrel_recorder_core_push (w : World) (data : option (list (list Qc)))
    (channels frames : Z) : option World :=
  r' ← push (wRec w) data u16[channels] u32[frames];
  Some (mkWorld r' (wHeap w)).

(** Lines 286-290. *)
Definition squirrel_recorder_core_push_interleaved (w : World) (data : option (list Qc))
    (channels frames : Z) : option World :=
  r' ← push_interleaved (wRec w) data u16[channels] u32[frames];
  Some (mkWorld r' (wHeap w)).

(** ** One call at a time *)

Inductive abi_call : Type :=
| CallStart (path : option string) (sample_rate channels : Z) (source : option string)
    (err_out fopen_ok malloc_ok : bool)
| CallStop (fuel : nat) (err_out out_duration_sec malloc_ok : bool)
| CallIsRecording
| CallSourceIs (source : option string)
| CallPush (data : option (list (list Qc))) (channels frames : Z)
| CallPushInterleaved (data : option (list Qc)) (channels frames : Z)
| CallStringFree (s : cptr)
| WriterIteration.

(** What a call returns to the caller, with what it stores through its
    pointer arguments. *)
Inductive abi_ret : Type :=
| RetBool (b : bool)
| RetStart (ok : bool) (err : option cptr)
| RetStop (ok : bool) (err : option cptr) (duration : option Qc) (closed : option CFile)
| RetVoid.

Definition abi_step (w : World) (c : abi_call) : option (World * abi_ret) :=
  match c with
  | CallStart path sr ch src eo fo mo =>
      '(w', ok, e) ← squirrel_recorder_core_start w path sr ch src eo fo mo;
      Some (w', RetStart ok e)
  | CallStop fuel eo od mo =>
      '(w', ok, e, d, closed) ← squirrel_recorder_core_stop fuel w eo od mo;
      Some (w', RetStop ok e d closed)
  | CallIsRecording => Some (w, RetBool (squirrel_recorder_core_is_recording w))
  | CallSourceIs src => Some (w, RetBool (squirrel_recorder_core_source_is w src))
  | CallPush data ch frames =>
      w' ← squirrel_recorder_core_push w data ch frames; Some (w', RetVoid)
  | CallPushInterleaved data ch frames =>
      w' ← squirrel_recorder_core_push_interleaved w data ch frames; Some (w', RetVoid)
  | CallStringFree s =>
      h' ← squirrel_string_free (wHeap w) s; Some (mkWorld (wRec w) h', RetVoid)
  | WriterIteration => Some (mkWorld (writer_step (wRec w)) (wHeap w), RetVoid)
  end.

(** ** A client of the ABI

    The caller owns the strings it has received through [err_out] and not
    yet released; it calls [squirrel_string_free] on [nullptr] or on a
    string it owns. *)

Definition stored (e : option cptr) : gset positive :=
  match e with Some (Some p) => {[p]} | _ => ∅ end.

Definition received (ret : abi_ret) : gset positive :=
  match ret with
  | RetStart _ e | RetStop _ e _ _ => stored e
  | _ => ∅
  end.

Definition freed (s : cptr) : gset positive :=
  match s with Some p => {[p]} | None => ∅ end.

Inductive client_step : World * gset positive -> World * gset positive -> Prop :=
| ClientCall w c w' ret owned :
    (forall s, c <> CallStringFree s) -> abi_step w c = Some (w', ret) ->
    client_step (w, owned) (w', owned ∪ received ret)
| ClientFree w s w' owned :
    (forall p, s = Some p -> p ∈ owned) -> abi_step w (CallStringFree s) = Some (w', RetVoid) ->
    client_step (w, owned) (w', owned ∖ freed s).

Definition client_reachable (w : World) (owned : gset positive) : Prop :=
  rtc client_step (world_init, ∅) (w, owned).

(** The heap holds exactly the strings the client owns, all below the
    allocation frontier. *)
Definition heap_owned (h : CHeap) (owned : gset positive) : Prop :=
  dom (hLive h) = owned /\ set_Forall (fun p => (p < hNext h)%positive) owned.

(** The messages [RecorderCore::start] and [RecorderCore::stop] put in
    [err]. *)
Definition abi_messages : list string :=
  ["Recorder already running"; "Output path is empty"; "Unable to open output file";
   "Recorder is not running"]%string.

Definition heap_messages (h : CHeap) : Prop :=
  map_Forall (fun _ m => m ∈ abi_messages) (hLive h).

(** While recording, the file holds the header and [2 * channels] bytes
    for each of the [T] frames written so far, [mTotalFrames] is [T]
    modulo 2^64, and the sample rate, which came through the ABI as an
    [uint32_t], is positive and below 2^32. *)
Definition file_inv (r : Recorder) : Prop :=
  mRunning r = true ->
  exists f T, mFile r = Some f /\ 0 <= T /\
    Z.of_nat (length (fdata f)) = 44 + 2 * mChannels r * T /\ mTotalFrames r = u64[T] /\
    0 < mSampleRate r < 2 ^ 32.

(** ** The contract of [src/src-tauri/native/recorder.h]

    The Tauri side declares [squirrel_recorder_start], [_stop] and
    [squirrel_string_free] with their contract in comments (lines
    11-23) and no definition.  The contract, over any process state [W]:
    a failing start stores a [malloc]'ed C string through [err_out], a
    successful stop reports a duration, and [squirrel_string_free]
    releases a string handed out. *)
Class RecorderCAPI (W : Type) := {
  capi_start : W -> option string -> Z -> Z -> option string -> bool ->
               option (W * bool * option cptr);
  capi_stop : W -> bool -> bool -> option (W * bool * option cptr * option Qc);
  capi_string_free : W -> cptr -> option W;
  capi_string : W -> positive -> option string
}.

Class RecorderCAPILaws (W : Type) `{RecorderCAPI W} : Prop := {
  capi_start_fails_with_string w path sr ch src w' e :
    capi_start w path sr ch src true = Some (w', false, e) ->
    exists p msg, e = Some (Some p) /\ capi_string w' p = Some msg;
  capi_stop_duration w w' e d :
    capi_stop w true true = Some (w', true, e, d) -> exists secs, d = Some secs;
  capi_free_releases w p msg :
    capi_string w p = Some msg ->
    exists w', capi_string_free w (Some p) = Some w' /\ capi_string w' p = None
}.

(** The core ABI under the names of the header, in an environment where
    [fopen] answers [fopen_ok], the writer gets [fuel] iterations and
    [malloc] succeeds. *)
Definition core_capi (fopen_ok : bool) (fuel : nat) : RecorderCAPI World := {|
  capi_start w path sr ch src eo := squirrel_recorder_core_start w path sr ch src eo fopen_ok true;
  capi_stop w eo od :=
    '(w', ok, e, d, _) ← squirrel_recorder_core_stop fuel w eo od true; Some (w', ok, e, d);
  capi_string_free w s := h' ← squirrel_string_free (wHeap w) s; Some (mkWorld (wRec w) h');
  capi_string w p := hLive (wHeap w) !! p
|}.

(** The reference the interleaved push is compared with: the planes of
    the first [frames] frames of an interleaved buffer of stride [ch]. *)
Definition deinterleave (data : list Qc) (ch frames : Z) : list (list Qc) :=
  (fun c => interleaved_channel data ch c 0 (Z.to_nat frames)) <$> seq 0 (Z.to_nat ch).

(** The hypotheses under which the planar and the interleaved push accept every frame. *)
Definition push_room (r : Recorder) (rb : RingBuffer Qc) (frames : Z) : Prop :=
  mRunning r = true /\ mRing r = Some rb /\ 0 < frames <= mCapacityFrames rb - filled rb /\
  mReadIndex rb <= mWriteIndex rb /\ mWriteIndex rb + frames < 2 ^ 64.

(** ** Ownership of the error strings *)

Lemma dup_cstr_owned h owned s malloc_ok :
  heap_owned h owned ->
  let '(h', p) := dup_cstr h s malloc_ok in
  heap_owned h' (owned ∪ stored (Some p)) /\ (forall q, p = Some q -> q ∉ owned) /\
  (forall q, p = Some q -> hLive h' !! q = Some s).
Proof.
  intros [Hd Hlt]. unfold dup_cstr. destruct malloc_ok; simpl.
  - assert (hNext h ∉ owned) as Hn by (intros Hin; specialize (Hlt _ Hin); simpl in Hlt; lia).
    refine (conj (conj _ _) (conj _ _)); simpl.
    + rewrite dom_insert_L, Hd. set_solver.
    + intros q Hq. apply elem_of_union in Hq as [Hq | ->%elem_of_singleton];
        [specialize (Hlt _ Hq); simpl in Hlt |]; simpl; lia.
    + by intros q [= <-].
    + intros q [= <-]. by simplify_map_eq.
  - refine (conj (conj _ _) (conj _ _)); [set_solver | intros q Hq; apply Hlt; set_solver | done | done].
Qed.

Lemma set_err_out_owned h owned eo msg o malloc_ok :
  heap_owned h owned ->
  heap_owned (set_err_out h eo msg o malloc_ok).1
             (owned ∪ stored (set_err_out h eo msg o malloc_ok).2).
Proof.
  intros Hh. unfold set_err_out.
  destruct eo; [| simpl; by rewrite union_empty_r_L].
  destruct (Recorder.err_out msg o) as [m |]; [| simpl; by rewrite union_empty_r_L].
  pose proof (dup_cstr_owned h owned m malloc_ok Hh) as Hd.
  destruct (dup_cstr h m malloc_ok). by destruct Hd.
Qed.

Lemma free_owned h owned p :
  heap_owned h owned -> p ∈ owned ->
  exists h', squirrel_string_free h (Some p) = Some h' /\ heap_owned h' (owned ∖ {[p]}) /\
    hNext h' = hNext h.
Proof.
  intros [Hd Hlt] Hp. rewrite <- Hd in Hp. apply elem_of_dom in Hp as [v Hv].
  simpl. rewrite Hv. eexists; refine (conj eq_refl (conj (conj _ _) eq_refl)); simpl.
  - by rewrite dom_delete_L, Hd.
  - intros q Hq. apply Hlt. set_solver.
Qed.

Lemma free_not_owned h owned p :
  heap_owned h owned -> p ∉ owned -> squirrel_string_free h (Some p) = None.
Proof.
  intros [Hd _] Hp. simpl. rewrite <- Hd, not_elem_of_dom in Hp. by rewrite Hp.
Qed.

(** Every ABI call is zero or one step of the recorder model. *)
Lemma abi_step_rec w c w' ret :
  abi_step w c = Some (w', ret) -> rtc rec_step (wRec w) (wRec w').
Proof.
  intros Hs. destruct c; simpl in Hs.
  - unfold squirrel_recorder_core_start in Hs.
    destruct (start _ _ _ _ _ _) as [[r' o] |] eqn:E; [| done]. simpl in Hs.
    destruct (set_err_out _ _ _ _ _). simplify_eq/=.
    apply rtc_once. by eapply StepStart.
  - unfold squirrel_recorder_core_stop in Hs.
    destruct (stop _ _ _) as [[[[r' o] d] cl] |] eqn:E; [| done]. simpl in Hs.
    destruct (set_err_out _ _ _ _ _). simplify_eq/=.
    apply rtc_once. by eapply StepStop.
  - by simplify_eq/=.
  - by simplify_eq/=.
  - unfold squirrel_recorder_core_push in Hs.
    destruct (push _ _ _ _) as [r' |] eqn:E; [| done]. simplify_eq/=.
    apply rtc_once. by eapply StepPush.
  - unfold squirrel_recorder_core_push_interleaved in Hs.
    destruct (push_interleaved _ _ _ _) as [r' |] eqn:E; [| done]. simplify_eq/=.
    apply rtc_once. by eapply StepPushInterleaved.
  - destruct (squirrel_string_free _ _); by simplify_eq/=.
  - simplify_eq/=. apply rtc_once, StepWriter.
Qed.

Lemma abi_step_heap w c w' ret owned :
  (forall s, c <> CallStringFree s) -> heap_owned (wHeap w) owned ->
  abi_step w c = Some (w', ret) -> heap_owned (wHeap w') (owned ∪ received ret).
Proof.
  intros Hc Hh Hs. destruct c as [path sr ch src eo fo mo | fuel eo od mo | | | | | s |];
    simpl in Hs.
  - unfold squirrel_recorder_core_start in Hs.
    destruct (start _ _ _ _ _ _) as [[r' o] |]; [| done]. simpl in Hs.
    pose proof (set_err_out_owned _ _ eo "Recorder start failed" o mo Hh) as He.
    destruct (set_err_out _ _ _ _ _). by simplify_eq/=.
  - unfold squirrel_recorder_core_stop in Hs.
    destruct (stop _ _ _) as [[[[r' o] d] cl] |]; [| done]. simpl in Hs.
    pose proof (set_err_out_owned _ _ eo "Recorder stop failed" o mo Hh) as He.
    destruct (set_err_out _ _ _ _ _). by simplify_eq/=.
  - simplify_eq/=. by rewrite union_empty_r_L.
  - simplify_eq/=. by rewrite union_empty_r_L.
  - unfold squirrel_recorder_core_push in Hs.
    destruct (push _ _ _ _); simplify_eq/=. by rewrite union_empty_r_L.
  - unfold squirrel_recorder_core_push_interleaved in Hs.
    destruct (push_interleaved _ _ _ _); simplify_eq/=. by rewrite union_empty_r_L.
  - by destruct (Hc s).
  - simplify_eq/=. by rewrite union_empty_r_L.
Qed.

Lemma start_err_msg r path sr ch src fo r' m :
  start r path sr ch src fo = Some (r', Err m) -> m ∈ abi_messages.
Proof. unfold start. repeat case_match; intros; simplify_eq; set_solver. Qed.

Lemma stop_err_msg fuel r out r' m d cl :
  stop fuel r out = Some (r', Err m, d, cl) -> m ∈ abi_messages.
Proof.
  unfold stop. destruct (mRunning r); simpl; [| intros; simplify_eq; set_solver].
  destruct (if joinable _ then _ else _); simpl; intros; simplify_eq.
Qed.

Lemma set_err_out_messages h eo msg o mo :
  heap_messages h -> (forall m, o = Err m -> m ∈ abi_messages) ->
  heap_messages (set_err_out h eo msg o mo).1.
Proof.
  intros Hh Ho. unfold set_err_out. destruct eo; [| done].
  destruct o as [| m]; [done |]. simpl.
  rewrite decide_False by (intros ->; specialize (Ho _ eq_refl); set_solver).
  destruct mo; [| done]. simpl. apply map_Forall_insert_2; [by apply Ho | done].
Qed.

Lemma abi_step_messages w c w' ret :
  heap_messages (wHeap w) -> abi_step w c = Some (w', ret) -> heap_messages (wHeap w').
Proof.
  intros Hh Hs. destruct c as [path sr ch src eo fo mo | fuel eo od mo | | | | | s |];
    simpl in Hs.
  - unfold squirrel_recorder_core_start in Hs.
    destruct (start _ _ _ _ _ _) as [[r' o] |] eqn:E; [| done]. simpl in Hs.
    pose proof (set_err_out_messages (wHeap w) eo "Recorder start failed" o mo Hh) as He.
    destruct (set_err_out _ _ _ _ _). simplify_eq/=.
    apply He. intros m ->. by eapply start_err_msg.
  - unfold squirrel_recorder_core_stop in Hs.
    destruct (stop _ _ _) as [[[[r' o] d] cl] |] eqn:E; [| done]. simpl in Hs.
    pose proof (set_err_out_messages (wHeap w) eo "Recorder stop failed" o mo Hh) as He.
    destruct (set_err_out _ _ _ _ _). simplify_eq/=.
    apply He. intros m ->. by eapply stop_err_msg.
  - by simplify_eq/=.
  - by simplify_eq/=.
  - unfold squirrel_recorder_core_push in Hs. destruct (push _ _ _ _); by simplify_eq/=.
  - unfold squirrel_recorder_core_push_interleaved in Hs.
    destruct (push_interleaved _ _ _ _); by simplify_eq/=.
  - destruct s as [p |]; simpl in Hs; [| by simplify_eq/=].
    destruct (hLive (wHeap w) !! p); simplify_eq/=. by apply map_Forall_delete.
  - by simplify_eq/=.
Qed.

Lemma client_step_inv w owned w' owned' :
  client_step (w, owned) (w', owned') -> heap_owned (wHeap w) owned ->
  heap_owned (wHeap w') owned' /\ rtc rec_step (wRec w) (wRec w').
Proof.
  inversion 1 as [? c ? ret ? Hc Hs | ? s ? ? Hown Hs]; subst; intros Hh.
  - split; [by eapply abi_step_heap | by eapply abi_step_rec].
  - split; [| by eapply abi_step_rec].
    destruct s as [p |]; cbn [abi_step] in Hs.
    + destruct (free_owned _ _ p Hh (Hown p eq_refl)) as (h' & Hf & Hh' & _).
      rewrite Hf in Hs. by simplify_eq/=.
    + simplify_eq/=. by rewrite difference_empty_L.
Qed.

Lemma client_runs_inv w owned w' owned' :
  rtc client_step (w, owned) (w', owned') -> heap_owned (wHeap w) owned ->
  heap_owned (wHeap w') owned' /\ rtc rec_step (wRec w) (wRec w').
Proof.
  remember (w, owned) as x. remember (w', owned') as y. intros Hr.
  revert w owned Heqx. induction Hr as [x | x [w1 o1] z Hs Hr IH]; intros w owned -> Hh.
  - simplify_eq. split; [done | constructor].
  - destruct (client_step_inv _ _ _ _ Hs Hh) as [Hh1 Hr1].
    destruct (IH Heqy w1 o1 eq_refl Hh1) as [Hh2 Hr2].
    split; [done | by etrans].
Qed.

Lemma heap_owned_init : heap_owned heap_init ∅.
Proof. split; [simpl; by rewrite dom_empty_L | apply set_Forall_empty]. Qed.

Lemma client_reachable_facts w owned :
  client_reachable w owned -> heap_owned (wHeap w) owned /\ reachable (wRec w).
Proof. intros Hr. exact (client_runs_inv _ _ _ _ Hr heap_owned_init). Qed.

(** A property of the world every call preserves holds along every run of
    the client. *)
Lemma client_runs_world (P : World -> Prop) x y :
  (forall w c w' ret, P w -> abi_step w c = Some (w', ret) -> P w') ->
  rtc client_step x y -> P x.1 -> P y.1.
Proof.
  intros HP Hr. induction Hr as [| x y z Hs _ IH]; [done |].
  intros Hx. apply IH. inversion Hs; subst; eauto.
Qed.

Lemma heap_messages_init : heap_messages heap_init.
Proof. apply map_Forall_empty. Qed.

(** The client frees every string it owns, in any order. *)
Lemma client_frees_all owned : forall w,
  heap_owned (wHeap w) owned ->
  exists w', rtc client_step (w, owned) (w', ∅) /\ hLive (wHeap w') = ∅ /\ wRec w' = wRec w.
Proof.
  induction owned as [| x X Hx IH] using set_ind_L; intros w Hh.
  - exists w. split_and!; [constructor | | done].
    destruct Hh as [Hd _]. by apply dom_empty_inv_L.
  - destruct (free_owned _ _ x Hh ltac:(set_solver)) as (h' & Hf & Hh' & _).
    replace (({[x]} ∪ X) ∖ {[x]}) with X in Hh' by set_solver.
    destruct (IH (mkWorld (wRec w) h') Hh') as (w' & Hr & He & Hw).
    exists w'. split_and!; [| done | done].
    eapply rtc_l; [| exact Hr].
    replace X with (({[x]} ∪ X) ∖ freed (Some x)) at 2 by (simpl; set_solver).
    apply ClientFree; [intros p [= <-]; set_solver |]. simpl in Hf |- *. by rewrite Hf.
Qed.

(** ** The file of a recording session *)

Lemma length_samples_interleave bufs nch n :
  0 <= nch -> 0 <= n ->
  Z.of_nat (length (samples_bytes (interleave bufs nch n))) = 2 * nch * n.
Proof.
  intros Hc Hn. unfold samples_bytes, interleave.
  rewrite (flat_map_constant_length (c := 2%nat)) by (intros; apply length_le_bytes).
  rewrite (flat_map_constant_length (c := Z.to_nat nch))
    by (intros; unfold frame_row; by rewrite length_map, length_seq).
  rewrite length_seq. lia.
Qed.

Lemma wrap_64_32 x : u32[u64[x]] = u32[x].
Proof.
  unfold wrap. apply Z.mod_mod_divide. exists (2 ^ 32). by rewrite <- Z.pow_add_r.
Qed.

Lemma push_frame r data ch frames r' :
  push r data ch frames = Some r' ->
  mRunning r' = mRunning r /\ mFile r' = mFile r /\ mTotalFrames r' = mTotalFrames r /\
  mChannels r' = mChannels r /\ mSampleRate r' = mSampleRate r.
Proof. unfold push. repeat case_match; intros; by simplify_eq/=. Qed.

Lemma push_interleaved_frame r data ch frames r' :
  push_interleaved r data ch frames = Some r' ->
  mRunning r' = mRunning r /\ mFile r' = mFile r /\ mTotalFrames r' = mTotalFrames r /\
  mChannels r' = mChannels r /\ mSampleRate r' = mSampleRate r.
Proof.
  unfold push_interleaved. repeat case_match; intros; simplify_eq/=; try done.
  by destruct (interleaved_loop _ _ _ _ _ _ _ _) as [[??] |]; simplify_eq/=.
Qed.

Lemma stop_idle fuel r out r' o d cl :
  stop fuel r out = Some (r', o, d, cl) -> mRunning r' = false.
Proof.
  unfold stop. destruct (mRunning r) eqn:Er; simpl; [| intros; by simplify_eq/=].
  destruct (joinable (mWriter r)) eqn:Ej; simpl.
  - destruct (join _ _) as [r2 |] eqn:Hj; simpl; [| done]. intros; simplify_eq/=.
    by destruct (join_fields _ _ _ Hj) as (-> & _).
  - intros; by simplify_eq/=.
Qed.

Lemma writer_step_file r : rec_inv r -> file_inv r -> file_inv (writer_step r).
Proof.
  intros Hinv Hfi Er'. destruct (writer_step_fields r) as (Er & _ & Esr & Ech & _).
  rewrite Er in Er'. destruct (Hfi Er') as (f & T & Hf & HT & Hl & Ht & Hsr).
  destruct (running_facts r Hinv Er')
    as (rb & f0 & bufs & Hr & Hf0 & Hw & _ & _ & _ & Hpos & _ & _ & Hch & _).
  rewrite Hf in Hf0. injection Hf0 as <-.
  unfold writer_step. destruct (mWriter r) as [| b | b |]; simplify_eq/=; [| by exists f, T].
  rewrite Hr.
  destruct (pop rb bufs (mChannels r) kChunkFrames) as [[rb' out] n] eqn:Ep.
  destruct (Z.ltb_spec 0 n); [| by exists f, T].
  rewrite Hf. eexists _, (T + n); cbn [mFile mChannels mTotalFrames mSampleRate].
  split_and!; [done | lia | | | lia | lia].
  - rewrite (proj1 (fwrite_append f _ Hpos)), length_app, Nat2Z.inj_add, Hl,
      length_samples_interleave by lia. lia.
  - rewrite Ht. unfold wrap. by rewrite Zplus_mod_idemp_l.
Qed.

Lemma start_file r path sr ch src fo r' o :
  file_inv r -> 0 <= sr < 2 ^ 32 -> start r path sr ch src fo = Some (r', o) -> file_inv r'.
Proof.
  intros Hfi Hsr. unfold start.
  destruct (mRunning r); [intros; by simplify_eq/= |].
  case_decide; [intros; by simplify_eq/= |].
  destruct fo; cbn [negb]; [| intros; by simplify_eq/=].
  destruct (new_ring _ _ _); [| done].
  destruct (joinable (mWriter r)); [done |]. intros [= <- _] _.
  eexists _, 0; cbn [mFile mTotalFrames mSampleRate mChannels].
  split_and!; [done | lia | simpl; lia | done | |];
    destruct (Z.ltb_spec 0 sr); unfold kDefaultSampleRate; lia.
Qed.

Lemma abi_step_file w c w' ret :
  reachable (wRec w) /\ file_inv (wRec w) -> abi_step w c = Some (w', ret) ->
  reachable (wRec w') /\ file_inv (wRec w').
Proof.
  intros [Hr Hfi] Hs. split; [unfold reachable; etrans; [exact Hr | by eapply abi_step_rec] |].
  destruct c as [path sr ch src eo fo mo | fuel eo od mo | | | | | s |]; cbn [abi_step] in Hs.
  - unfold squirrel_recorder_core_start in Hs.
    destruct (start _ _ _ _ _ _) as [[r' o] |] eqn:E; [| done]. simpl in Hs.
    destruct (set_err_out _ _ _ _ _). simplify_eq/=.
    apply (start_file _ _ _ _ _ _ _ _ Hfi (wrap_range 32 sr ltac:(lia)) E).
  - unfold squirrel_recorder_core_stop in Hs.
    destruct (stop _ _ _) as [[[[r' o] d] cl] |] eqn:E; [| done]. simpl in Hs.
    destruct (set_err_out _ _ _ _ _). simplify_eq/=.
    unfold file_inv; cbn [wRec]. by rewrite (stop_idle _ _ _ _ _ _ _ E).
  - by simplify_eq/=.
  - by simplify_eq/=.
  - unfold squirrel_recorder_core_push in Hs.
    destruct (push _ _ _ _) as [r' |] eqn:E; simplify_eq/=.
    destruct (push_frame _ _ _ _ _ E) as (Er & Ef & Et & Ec & Es).
    unfold file_inv in *. by rewrite Er, Ef, Et, Ec, Es.
  - unfold squirrel_recorder_core_push_interleaved in Hs.
    destruct (push_interleaved _ _ _ _) as [r' |] eqn:E; simplify_eq/=.
    destruct (push_interleaved_frame _ _ _ _ _ E) as (Er & Ef & Et & Ec & Es).
    unfold file_inv in *. by rewrite Er, Ef, Et, Ec, Es.
  - destruct (squirrel_string_free _ _); by simplify_eq/=.
  - simplify_eq/=. by apply writer_step_file; [apply reachable_rec_inv |].
Qed.

Lemma client_reachable_file w owned :
  client_reachable w owned -> reachable (wRec w) /\ file_inv (wRec w).
Proof.
  intros Hr. apply (client_runs_world (fun w => reachable (wRec w) /\ file_inv (wRec w)) _ _
                     abi_step_file Hr).
  split; [constructor | done].
Qed.

(** ** The interleaved push against the planar push *)

Lemma deinterleave_cover data ch frames :
  0 <= ch -> planes_cover (deinterleave data ch frames) ch frames.
Proof.
  intros Hc. unfold deinterleave, planes_cover. rewrite length_fmap, length_seq.
  split; [lia |]. apply Forall_take, Forall_fmap, Forall_forall. intros c _. simpl.
  unfold interleaved_channel. by rewrite length_fmap, length_seq.
Qed.

Lemma lookup_deinterleave data ch frames c :
  (c < Z.to_nat ch)%nat ->
  default [] (deinterleave data ch frames !! c) = interleaved_channel data ch c 0 (Z.to_nat frames).
Proof.
  intros Hc. unfold deinterleave. rewrite list_lookup_fmap, lookup_seq_lt by done. done.
Qed.

Lemma planar_push_running r rb planes frames :
  rec_inv r -> push_room r rb frames -> planes_cover planes (mChannels r) frames ->
  exists rb', push r (Some planes) (mChannels r) frames =
      Some (mkRecorder (mRunning r) (mSource r) (mSampleRate r) (mChannels r) (Some rb')
              (mFile r) (mWriter r) (mTotalFrames r) (mScratch r) (mScratchPtrs r)) /\
    forall c, (c < Z.to_nat (mChannels r))%nat ->
      contents 0%Qc rb' c = contents 0%Qc rb c ++ take (Z.to_nat frames) (default [] (planes !! c)).
Proof.
  intros Hinv (Er & Hr & Hfr & Hrw & Hov) Hcov.
  destruct (running_facts r Hinv Er)
    as (rb0 & _ & _ & Hr0 & _ & _ & Hwf & Hc & _ & _ & _ & _ & Hch8 & _).
  rewrite Hr0 in Hr. injection Hr as Hr. subst rb0. pose proof (proj1 Hwf) as Hci.
  pose proof (filled_range rb).
  assert (0 <= frames <= INT_MAX) as Hfr' by (destruct Hci; lia).
  assert (i32[frames] = frames) as Hi
    by (apply to_signed_small; [lia | rewrite INT_MAX_val in Hfr'; change (32 - 1) with 31; lia]).
  destruct (push_filled rb planes (mChannels r) frames Hci Hfr') as [Hn _].
  rewrite Z.min_l in Hn by lia.
  assert (Z.min (mChannels r) (RingBuffer.mChannels rb) = mChannels r) as Hm by lia.
  unfold push. rewrite Hr0, Er. simpl. destruct (Z.eqb_spec frames 0); [lia |]. simpl.
  rewrite Z.min_id, Hi. destruct (RingBuffer.push rb planes (mChannels r) frames) as [rb' k] eqn:Ep.
  simpl in Hn. subst k. rewrite bool_decide_true by (right; by rewrite Hm).
  exists rb'. split; [done |]. intros c Hcc.
  pose proof (push_contents 0%Qc rb planes (mChannels r) frames c Hwf Hfr') as Hct.
  rewrite Hm, Ep in Hct. by apply Hct.
Qed.

Lemma interleaved_push_running r rb data frames :
  rec_inv r -> push_room r rb frames -> frames * mChannels r <= 2 ^ 32 ->
  (Z.to_nat (frames * mChannels r) <= length data)%nat ->
  exists rb' s', push_interleaved r (Some data) (mChannels r) frames =
      Some (mkRecorder (mRunning r) (mSource r) (mSampleRate r) (mChannels r) (Some rb')
              (mFile r) (mWriter r) (mTotalFrames r) s' (mScratchPtrs r)) /\
    forall c, (c < Z.to_nat (mChannels r))%nat ->
      contents 0%Qc rb' c =
        contents 0%Qc rb c ++ interleaved_channel data (mChannels r) c 0 (Z.to_nat frames).
Proof.
  intros Hinv (Er & Hr & Hfr & Hrw & Hov) Hw32 Hlen.
  destruct (running_facts r Hinv Er)
    as (rb0 & _ & _ & Hr0 & _ & _ & Hwf & Hc & _ & _ & _ & _ & Hch8 & [Hsl Hsf] & Hptr).
  rewrite Hr0 in Hr. injection Hr as Hr. subst rb0.
  destruct (interleaved_loop_spec (Z.to_nat frames) rb (mScratch r) data (mChannels r) frames 0
              Hwf Hc ltac:(lia) (conj Hsl Hsf)) as (rb' & s' & Hl & Hct);
    try (rewrite ?Z.sub_0_r; unfold kChunkFrames; lia).
  unfold push_interleaved. rewrite Hr0, Er. simpl.
  destruct (Z.eqb_spec frames 0); [lia |]. simpl.
  rewrite Z.min_id. destruct (Z.eqb_spec (mChannels r) 0); [lia |].
  rewrite Hsl, Hptr, length_seq, Nat.eqb_refl. simpl. rewrite Hl. simpl.
  exists rb', s'. split; [done |]. intros c Hcc. rewrite Hct by done. by rewrite Z.sub_0_r.
Qed.

(** ** The core ABI meets the contract of the Tauri header *)

Lemma stop_ok_duration fuel r r' d cl :
  stop fuel r true = Some (r', Ok, d, cl) -> exists secs, d = Some secs.
Proof.
  unfold stop. destruct (mRunning r); simpl; [| intros; by simplify_eq].
  destruct (if joinable _ then _ else _); simpl; intros; simplify_eq; eauto.
Qed.

Lemma core_capi_laws fopen_ok fuel : @RecorderCAPILaws World (core_capi fopen_ok fuel).
Proof.
  split; simpl.
  - intros w path sr ch src w' e. unfold squirrel_recorder_core_start, set_err_out.
    destruct (start _ _ _ _ _ _) as [[r' [| m]] |]; simpl; intros; simplify_eq/=.
    eexists _, _. split; [done |]. by simplify_map_eq.
  - intros w w' e d. unfold squirrel_recorder_core_stop.
    destruct (stop _ _ _) as [[[[r' o] d'] cl] |] eqn:E; simpl; [| done].
    destruct o as [| m]; simpl; intros Hs; simplify_eq/=. by eapply stop_ok_duration.
  - intros w p msg Hp. rewrite Hp. eexists; split; [done |]. simpl. by simplify_map_eq.
Qed.

(** ** Properties of the ABI *)

(** C9. The ownership discipline of the error strings.  Along every
    sequence of ABI calls by a client that frees only what it has
    received, the live heap blocks are exactly the strings the client
    holds, each is one of the four messages of [start] and [stop] (the
    defaults "Recorder start failed"/"Recorder stop failed" are never
    handed out), and the singleton is a reachable state of the recorder
    model. *)
Theorem abi_error_strings_owned w owned :
  client_reachable w owned ->
  dom (hLive (wHeap w)) = owned /\ heap_messages (wHeap w) /\ reachable (wRec w).
Proof.
  intros Hr. destruct (client_reachable_facts w owned Hr) as [[Hd _] Hrec].
  split_and!; [done | | done].
  apply (client_runs_world (fun w => heap_messages (wHeap w)) _ _ abi_step_messages Hr
           heap_messages_init).
Qed.

(** C14. Every string the client holds can be released exactly once:
    [squirrel_string_free] on it is defined and leaves the recorder
    alone, and a second [squirrel_string_free] on the same pointer is a
    double free. *)
Theorem abi_free_exactly_once w owned p :
  client_reachable w owned -> p ∈ owned ->
  exists w', client_step (w, owned) (w', owned ∖ {[p]}) /\ wRec w' = wRec w /\
    abi_step w' (CallStringFree (Some p)) = None.
Proof.
  intros Hr Hp. destruct (client_reachable_facts w owned Hr) as [Hh _].
  destruct (free_owned _ _ p Hh Hp) as (h' & Hf & Hh' & _).
  exists (mkWorld (wRec w) h'). split_and!; [| done |].
  - change {[p]} with (freed (Some p)). apply ClientFree; [by intros q [= <-] |].
    simpl in Hf |- *. by rewrite Hf.
  - cbn [abi_step wHeap]. by rewrite (free_not_owned h' _ p Hh') by set_solver.
Qed.

(** No error string leaks: from every state of such a client,
    freeing the strings it holds empties the heap of the ABI. *)
Theorem abi_no_leak w owned :
  client_reachable w owned ->
  exists w', rtc client_step (w, owned) (w', ∅) /\ hLive (wHeap w') = ∅ /\ wRec w' = wRec w.
Proof.
  intros Hr. apply client_frees_all. apply (client_reachable_facts w owned Hr).
Qed.

(** C17. What [squirrel_recorder_core_start] stores through a non-null
    [err_out]: [nullptr] on success (no allocation); on failure a fresh
    block holding the message when [malloc] succeeds, [nullptr] when it
    fails. *)
Theorem abi_start_err_out w path sr ch src fo mo w' ok e :
  squirrel_recorder_core_start w path sr ch src true fo mo = Some (w', ok, e) ->
  if ok then e = Some None /\ wHeap w' = wHeap w
  else exists msg, msg ∈ abi_messages /\
    (if mo then e = Some (Some (hNext (wHeap w))) /\
                hLive (wHeap w') = <[hNext (wHeap w) := msg]> (hLive (wHeap w))
     else e = Some None /\ wHeap w' = wHeap w).
Proof.
  unfold squirrel_recorder_core_start, set_err_out.
  destruct (start _ _ _ _ _ _) as [[r' [| m]] |] eqn:E; cbn [mbind option_bind]; [| | done].
  - intros; by simplify_eq/=.
  - pose proof (start_err_msg _ _ _ _ _ _ _ _ E) as Hm. simpl.
    rewrite decide_False by (intros ->; set_solver).
    destruct mo; simpl; intros; simplify_eq/=; exists m; done.
Qed.

Lemma wrap32_u64_mul b k : u32[u64[b] * k] = u32[b * k].
Proof.
  unfold wrap. rewrite <- Zmult_mod_idemp_l, Z.mod_mod_divide, Zmult_mod_idemp_l; [done |].
  exists (2 ^ 32). by rewrite <- Z.pow_add_r.
Qed.

Lemma wrap32_u64_affine b n k : u32[(u64[b] + n) * k] = u32[(b + n) * k].
Proof.
  unfold wrap.
  rewrite <- Zmult_mod_idemp_l, <- Zplus_mod_idemp_l, Z.mod_mod_divide,
    Zplus_mod_idemp_l, Zmult_mod_idemp_l; [done |].
  exists (2 ^ 32). by rewrite <- Z.pow_add_r.
Qed.

(** C32. The file a recording session leaves on disk is a well-formed
    PCM16 WAV file of the session's format.  From every state of a
    client of the ABI with recording on, [squirrel_recorder_core_stop]
    (with one writer iteration per chunk of 1024 queued frames and one
    more) returns [true], stores [nullptr] through a non-null [err_out],
    allocates nothing, and the closed file parses as a WAV header with
    the session's channel count and sample rate, a block of 2 bytes per
    channel, a data size equal to the number of bytes that follow modulo
    2^32 (exactly that number below 4 GiB), and a RIFF size of 36 more. *)
Theorem abi_stop_writes_wav w owned fuel eo od mo rb :
  client_reachable w owned -> squirrel_recorder_core_is_recording w = true ->
  mRing (wRec w) = Some rb -> mReadIndex rb <= mWriteIndex rb ->
  filled rb <= kChunkFrames * (Z.of_nat fuel - 1) ->
  exists w' d closed hdr rest,
    squirrel_recorder_core_stop fuel w eo od mo =
      Some (w', true, (if eo then Some None else None), d, Some closed) /\
    wHeap w' = wHeap w /\
    parse_wav_header (fdata closed) = Some (hdr, rest) /\
    num_channels hdr = mChannels (wRec w) /\ sample_rate hdr = mSampleRate (wRec w) /\
    block_align hdr = 2 * mChannels (wRec w) /\
    data_size hdr = u32[Z.of_nat (length rest)] /\ riff_size hdr = u32[36 + data_size hdr].
Proof.
  intros Hr Er Hrb Hrw Hfuel.
  destruct (client_reachable_file w owned Hr) as [Hreach Hfi].
  pose proof (reachable_rec_inv _ Hreach) as Hinv.
  unfold squirrel_recorder_core_is_recording, is_recording in Er.
  destruct (Hfi Er) as (f & T & Hf & HT & Hl & Ht & Hsr).
  destruct (running_facts _ Hinv Er)
    as (rb0 & f0 & bufs & _ & Hf0 & _ & _ & _ & _ & _ & Hl44 & _ & Hch & _).
  rewrite Hf in Hf0. injection Hf0 as Hf0. subst f0.
  destruct (stop_drains fuel (wRec w) rb f od Hinv Er Hrb Hf Hrw Hfuel) as (r' & closed & Hs & Hd & _).
  assert (0 <= flushed_frames (mWriter (wRec w)) rb) as Hfl
    by (pose proof (filled_range rb); destruct (mWriter (wRec w)); simpl; lia).
  set (k := flushed_frames (mWriter (wRec w)) rb) in *.
  set (ch := mChannels (wRec w)) in *. set (sr := mSampleRate (wRec w)) in *.
  set (db := u32[u64[u64[mTotalFrames (wRec w) + k] * ch * 2]]) in *.
  set (rest := drop 44 (fdata f) ++ samples_bytes (interleave (ring_queues rb ch) ch k)).
  unfold squirrel_recorder_core_stop. rewrite Hs. cbn [mbind option_bind].
  eexists _, _, closed, _, rest. split_and!.
  - unfold set_err_out. destruct eo; reflexivity.
  - unfold set_err_out. destruct eo; reflexivity.
  - rewrite Hd. apply parse_header_bytes; [lia | unfold kMaxChannels in Hch; lia | apply wrap_range; lia].
  - done.
  - done.
  - cbn. unfold kMaxChannels in Hch. rewrite wrap_small by lia. lia.
  - cbn. unfold db, rest. rewrite length_app, length_drop, Nat2Z.inj_add, Nat2Z.inj_sub by lia.
    rewrite length_samples_interleave by lia.
    rewrite Hl, wrap_64_32, <- Z.mul_assoc, wrap32_u64_mul, Ht, wrap32_u64_affine.
    f_equal. nia.
  - done.
Qed.

(** C20. [squirrel_recorder_core_push_interleaved] is equivalent to
    [squirrel_recorder_core_push] of the de-interleaved planes: from
    every state of a client of the ABI with recording on, for a buffer of
    the session's channel count whose frames fit in the ring, the chunked
    copy through the scratch planes and the planar push leave the same
    queue on every channel and the same file, frame count, writer and
    heap. *)
Theorem abi_push_interleaved_equiv w owned rb d frames :
  client_reachable w owned -> push_room (wRec w) rb frames ->
  frames * mChannels (wRec w) <= 2 ^ 32 ->
  (Z.to_nat (frames * mChannels (wRec w)) <= length d)%nat ->
  exists w1 w2 rb1 rb2,
    squirrel_recorder_core_push_interleaved w (Some d) (mChannels (wRec w)) frames = Some w1 /\
    squirrel_recorder_core_push w (Some (deinterleave d (mChannels (wRec w)) frames))
      (mChannels (wRec w)) frames = Some w2 /\
    mRing (wRec w1) = Some rb1 /\ mRing (wRec w2) = Some rb2 /\
    (forall c, (c < Z.to_nat (mChannels (wRec w)))%nat -> contents 0%Qc rb1 c = contents 0%Qc rb2 c) /\
    wHeap w1 = wHeap w2 /\ mFile (wRec w1) = mFile (wRec w2) /\
    mTotalFrames (wRec w1) = mTotalFrames (wRec w2) /\ mWriter (wRec w1) = mWriter (wRec w2).
Proof.
  intros Hr Hroom Hw32 Hlen.
  pose proof (reachable_rec_inv _ (proj1 (client_reachable_file w owned Hr))) as Hinv.
  pose proof Hroom as (Er & Hrb & Hfr & _).
  destruct (running_facts _ Hinv Er) as (rb0 & _ & _ & Hr0 & _ & _ & [Hci _] & _ & _ & _ & _ & _ & Hch & _).
  rewrite Hr0 in Hrb. injection Hrb as Hrb. subst rb0. pose proof (filled_range rb).
  unfold squirrel_recorder_core_push_interleaved, squirrel_recorder_core_push.
  rewrite (wrap_small 16), (wrap_small 32)
    by (destruct Hci; rewrite ?INT_MAX_val in *; unfold kMaxChannels in *; lia).
  destruct (interleaved_push_running _ _ d frames Hinv Hroom Hw32 Hlen) as (rb1 & s1 & H1 & Hc1).
  destruct (planar_push_running _ _ (deinterleave d (mChannels (wRec w)) frames) frames Hinv Hroom
              (deinterleave_cover d (mChannels (wRec w)) frames ltac:(lia))) as (rb2 & H2 & Hc2).
  rewrite H1, H2. simpl. eexists _, _, rb1, rb2. split_and!; try done.
  intros c Hc. rewrite Hc1, Hc2, lookup_deinterleave by done. f_equal.
  rewrite take_ge; [done |]. unfold interleaved_channel. by rewrite length_fmap, length_seq.
Qed.

(** ** Witnesses *)

(** [squirrel_recorder_core_start(nullptr, 48000, 2, nullptr, &err)]. *)
Definition ex_w1 : World :=
  mkWorld recorder_init (mkHeap 2 {[1%positive := "Output path is empty"%string]}).

Lemma ex_w1_step :
  abi_step world_init (CallStart None 48000 2 None true true true) =
    Some (ex_w1, RetStart false (Some (Some 1%positive))).
Proof. vm_compute. reflexivity. Qed.

Lemma ex_w1_reachable : client_reachable ex_w1 {[1%positive]}.
Proof.
  apply rtc_once. replace {[1%positive]} with (∅ ∪ received (RetStart false (Some (Some 1%positive))))
    by (simpl; set_solver).
  apply (ClientCall _ (CallStart None 48000 2 None true true true)); [discriminate | exact ex_w1_step].
Qed.

Lemma abi_error_strings_owned_witness :
  dom (hLive (wHeap ex_w1)) = {[1%positive]} /\ heap_messages (wHeap ex_w1) /\
  reachable (wRec ex_w1).
Proof. apply (abi_error_strings_owned ex_w1 {[1%positive]}). exact ex_w1_reachable. Defined.

Lemma abi_free_exactly_once_witness :
  exists w', client_step (ex_w1, {[1%positive]}) (w', {[1%positive]} ∖ {[1%positive]}) /\
    wRec w' = wRec ex_w1 /\ abi_step w' (CallStringFree (Some 1%positive)) = None.
Proof.
  apply (abi_free_exactly_once ex_w1 {[1%positive]} 1%positive);
    [exact ex_w1_reachable | discharge].
Defined.

Lemma abi_no_leak_witness :
  exists w', rtc client_step (ex_w1, {[1%positive]}) (w', ∅) /\ hLive (wHeap w') = ∅ /\
    wRec w' = wRec ex_w1.
Proof. apply (abi_no_leak ex_w1 {[1%positive]}). exact ex_w1_reachable. Defined.

Lemma abi_start_err_out_witness :
  exists msg, msg ∈ abi_messages /\
    (Some (Some 1%positive) = Some (Some (hNext heap_init)) /\
     hLive (wHeap ex_w1) = <[hNext heap_init := msg]> (hLive heap_init)).
Proof.
  apply (abi_start_err_out world_init None 48000 2 None true true ex_w1 false
           (Some (Some 1%positive))).
  vm_compute. reflexivity.
Defined.

(** [squirrel_recorder_core_start("take.wav", 100, 1, nullptr, &err)]
    succeeds: a session of one channel at 100 Hz. *)
Definition ex_rec_w : World :=
  match squirrel_recorder_core_start world_init (Some "take.wav"%string) 100 1 None true true true with
  | Some (w', _, _) => w'
  | None => world_init
  end.

Definition ex_rec_ring : RingBuffer Qc := default (session_ring 100 1) (mRing (wRec ex_rec_w)).

Lemma ex_rec_w_reachable : client_reachable ex_rec_w ∅.
Proof.
  assert (client_step (world_init, ∅) (ex_rec_w, ∅ ∪ received (RetStart true (Some None)))) as Hs.
  { apply (ClientCall _ (CallStart (Some "take.wav"%string) 100 1 None true true true));
      [discriminate | vm_compute; reflexivity]. }
  simpl in Hs. rewrite union_empty_l_L in Hs. by apply rtc_once.
Qed.

Lemma ex_rec_w_ring : mRing (wRec ex_rec_w) = Some ex_rec_ring.
Proof. vm_compute. reflexivity. Qed.

Lemma abi_stop_writes_wav_witness :
  exists w' d closed hdr rest,
    squirrel_recorder_core_stop 1 ex_rec_w true true true =
      Some (w', true, Some None, d, Some closed) /\
    wHeap w' = wHeap ex_rec_w /\
    parse_wav_header (fdata closed) = Some (hdr, rest) /\
    num_channels hdr = mChannels (wRec ex_rec_w) /\ sample_rate hdr = mSampleRate (wRec ex_rec_w) /\
    block_align hdr = 2 * mChannels (wRec ex_rec_w) /\
    data_size hdr = u32[Z.of_nat (length rest)] /\ riff_size hdr = u32[36 + data_size hdr].
Proof.
  apply (abi_stop_writes_wav ex_rec_w ∅ 1 true true true ex_rec_ring);
    [exact ex_rec_w_reachable | discharge | exact ex_rec_w_ring | discharge | discharge].
Defined.

Definition ex_idata : list Qc := [qs 1 2; qs (-1) 4].

Lemma ex_rec_w_room : push_room (wRec ex_rec_w) ex_rec_ring 2.
Proof. split_and!; [discharge | exact ex_rec_w_ring | discharge | discharge | discharge | discharge]. Qed.

Lemma abi_push_interleaved_equiv_witness :
  exists w1 w2 rb1 rb2,
    squirrel_recorder_core_push_interleaved ex_rec_w (Some ex_idata) (mChannels (wRec ex_rec_w)) 2 = Some w1 /\
    squirrel_recorder_core_push ex_rec_w (Some (deinterleave ex_idata (mChannels (wRec ex_rec_w)) 2))
      (mChannels (wRec ex_rec_w)) 2 = Some w2 /\
    mRing (wRec w1) = Some rb1 /\ mRing (wRec w2) = Some rb2 /\
    (forall c, (c < Z.to_nat (mChannels (wRec ex_rec_w)))%nat -> contents 0%Qc rb1 c = contents 0%Qc rb2 c) /\
    wHeap w1 = wHeap w2 /\ mFile (wRec w1) = mFile (wRec w2) /\
    mTotalFrames (wRec w1) = mTotalFrames (wRec w2) /\ mWriter (wRec w1) = mWriter (wRec w2).
Proof.
  apply (abi_push_interleaved_equiv ex_rec_w ∅ ex_rec_ring ex_idata 2);
    [exact ex_rec_w_reachable | exact ex_rec_w_room | discharge | discharge].
Defined.

End RecorderABI.
