(* ===== verification/RecorderRace.v ===== *)
(** * RecorderRace: the audio thread's push racing the UI thread's stop

    [RecorderCore::push] (RecorderCore.cpp, lines 148-153) takes no
    lock: it tests [mRunning], [mRing], [data] and [frames] (line 149),
    then reads [mChannels] and calls [mRing->push] (lines 150-152).
    [RecorderCore::stop] (lines 117-146) holds [mMutex] while it clears
    [mRunning] and again while it patches the header, closes the file and
    deletes the ring, but not while it joins the writer.  The plugin's
    tap calls [push] on the audio thread while the UI may call [stop].

    Both are split here into those steps: [push_guard] and [push_body]
    for [push] (whose composition is [Recorder.push], [push_split]);
    [stop_clear], the join and [stop_finish] for [stop] ([stop_split]).
    [race_step] interleaves the tap thread, the stopping thread and the
    writer thread on one recorder, each step being one of those
    statements; a [push_body] that dereferences the deleted ring is
    [None]. *)

From S2P Require Import Prelude RingBuffer WavFormat Recorder.
From stdpp Require Import base list strings relations.
From Stdlib Require Import ZArith Lia QArith Qcanon.

Open Scope Z_scope.

Module RecorderRace.
Import Wav Recorder.

(** ** The steps of [push] and [stop] *)

(** Line 149: [if (!mRunning.load() || !mRing || !data || frames == 0)
    return;]. *)
Definition push_guard (r : Recorder) (data : option (list (list Qc))) (frames : Z) : bool :=
  mRunning r && bool_decide (mRing r <> None) && bool_decide (data <> None) &&
  negb (frames =? 0).

(** Lines 150-152, run after the guard: [mChannels] and [mRing] are read
    again.  [None]: [mRing->push] on the null [unique_ptr] (the ring was
    deleted since the guard), or a read past the end of a plane. *)
Definition push_body (r : Recorder) (planes : list (list Qc)) (channels frames : Z)
    : option Recorder :=
  match mRing r with
  | None => None
  | Some rb =>
      let ch := Z.min channels (mChannels r) in
      let '(rb', n) := RingBuffer.push rb planes ch i32[frames] in
      if bool_decide (n = 0 \/ planes_cover planes (Z.min ch (RingBuffer.mChannels rb)) n)
      then Some (mkRecorder (mRunning r) (mSource r) (mSampleRate r) (mChannels r)
                   (Some rb') (mFile r) (mWriter r) (mTotalFrames r) (mScratch r)
                   (mScratchPtrs r))
      else None
  end.

(** Lines 118-125 of [stop] on a running recorder: [mRunning.store(false)]
    under the lock, which is then released. *)
Definition stop_clear (r : Recorder) : Recorder :=
  mkRecorder false (mSource r) (mSampleRate r) (mChannels r) (mRing r)
    (mFile r) (mWriter r) (mTotalFrames r) (mScratch r) (mScratchPtrs r).

(** Lines 127-129: [if (mWriterThread.joinable()) mWriterThread.join();]. *)
Definition stop_join (fuel : nat) (r : Recorder) : option Recorder :=
  if joinable (mWriter r) then join fuel r else Some r.

(** Lines 131-145, under the lock again: the header patch and [fclose],
    the duration, [mRing.reset()] and [mTotalFrames = 0].  The recorder,
    the duration and the file as it is left on disk. *)
Definition stop_finish (r : Recorder) (out_duration : bool)
    : Recorder * option Qc * option CFile :=
  let closed := write_wav_header (mFile r) (mSampleRate r) (mChannels r) (data_bytes r) in
  let d := if out_duration then Some (duration r) else None in
  (mkRecorder (mRunning r) (mSource r) (mSampleRate r) (mChannels r) None None
     (mWriter r) 0 (mScratch r) (mScratchPtrs r), d, closed).

(** ** The three threads *)

(** The tap thread: before the guard, or between the guard and the body
    with the arguments of its call. *)
Inductive tap_pc : Type :=
| TapIdle
| TapChecked (planes : list (list Qc)) (channels frames : Z).

(** The thread running [stop]: before it, after the store of [mRunning],
    after the join, and returned with the file it closed. *)
Inductive ctl_pc : Type :=
| CtlIdle
| CtlCleared
| CtlJoined
| CtlStopped (closed : option CFile).

Record RaceState := mkRace { rs_rec : Recorder; rs_tap : tap_pc; rs_ctl : ctl_pc }.

Definition race_init (r : Recorder) : RaceState := mkRace r TapIdle CtlIdle.

(** One statement of one thread.  The writer's iterations are
    [writer_step]; [fuel] bounds the iterations of the join, which runs
    the writer until it returns. *)
Inductive race_step : RaceState -> RaceState -> Prop :=
| RTapGuard r planes channels frames c :
    push_guard r (Some planes) frames = true ->
    race_step (mkRace r TapIdle c) (mkRace r (TapChecked planes channels frames) c)
| RTapBody r planes channels frames c r' :
    push_body r planes channels frames = Some r' ->
    race_step (mkRace r (TapChecked planes channels frames) c) (mkRace r' TapIdle c)
| RCtlClear r t :
    mRunning r = true -> race_step (mkRace r t CtlIdle) (mkRace (stop_clear r) t CtlCleared)
| RCtlJoin fuel r t r' :
    stop_join fuel r = Some r' -> race_step (mkRace r t CtlCleared) (mkRace r' t CtlJoined)
| RCtlFinish r t out :
    race_step (mkRace r t CtlJoined)
      (mkRace (stop_finish r out).1.1 t (CtlStopped (stop_finish r out).2))
| RWriter r t c : race_step (mkRace r t c) (mkRace (writer_step r) t c).

(** ** The split is faithful *)

(** Run without interruption, the guard and the body are [push]. *)
Lemma push_split r data channels frames :
  push r data channels frames =
    if push_guard r data frames
    then match data with Some planes => push_body r planes channels frames | None => Some r end
    else Some r.
Proof.
  unfold push, push_guard, push_body.
  destruct (mRing r) as [rb |], data as [planes |], (mRunning r), (frames =? 0); done.
Qed.

(** Run without interruption, the three steps of a [stop] on a running
    recorder are [stop]. *)
Lemma stop_split fuel r out :
  mRunning r = true ->
  stop fuel r out =
    r2 ← stop_join fuel (stop_clear r);
    let '(r3, d, closed) := stop_finish r2 out in Some (r3, Ok, d, closed).
Proof. intros Er. unfold stop. by rewrite Er. Qed.

(** A step of the writer keeps a ring with its channel count and
    capacity. *)
Lemma writer_step_ring r rb :
  mRing r = Some rb -> cursor_inv rb ->
  exists rb', mRing (writer_step r) = Some rb' /\ cursor_inv rb' /\
    RingBuffer.mChannels rb' = RingBuffer.mChannels rb /\ mCapacityFrames rb' = mCapacityFrames rb.
Proof.
  intros Hr Hinv. unfold writer_step.
  destruct (mWriter r) as [| bufs | bufs |]; try by exists rb. rewrite Hr.
  assert (0 <= kChunkFrames <= INT_MAX) as Hk by (rewrite INT_MAX_val; unfold kChunkFrames; lia).
  pose proof (pop_fields rb bufs (mChannels r) kChunkFrames Hinv Hk) as (Hc & Hcap & _).
  pose proof (pop_cursor_inv rb bufs (mChannels r) kChunkFrames Hinv) as Hinv'.
  destruct (pop rb bufs (mChannels r) kChunkFrames) as [[rb1 out] n]; simpl in *.
  destruct (0 <? n); [by exists rb1 | by exists rb].
Qed.

(** The join keeps a ring with its channel count and capacity. *)
Lemma join_ring fuel r r' rb :
  join fuel r = Some r' -> mRing r = Some rb -> cursor_inv rb ->
  exists rb', mRing r' = Some rb' /\ cursor_inv rb' /\
    RingBuffer.mChannels rb' = RingBuffer.mChannels rb /\ mCapacityFrames rb' = mCapacityFrames rb.
Proof.
  revert r rb. induction fuel as [| fuel IH]; intros r rb Hj Hr Hinv; simpl in Hj;
    destruct (mWriter r) as [| bufs | bufs |] eqn:Hw; simplify_eq/=; try by exists rb.
  all: unfold writer_iteration, to_loop_head in Hj.
  all: destruct (writer_step_ring r rb Hr Hinv) as (rb1 & Hr1 & Hinv1 & Hc1 & Hcap1).
  all: destruct (writer_step_ring (writer_step r) rb1 Hr1 Hinv1) as (rb2 & Hr2 & Hinv2 & Hc2 & Hcap2).
  all: destruct (mWriter (writer_step r));
    [destruct (IH _ rb1 Hj Hr1 Hinv1) as (rb' & ? & ? & ? & ?) ..
    | destruct (IH _ rb2 Hj Hr2 Hinv2) as (rb' & ? & ? & ? & ?)
    | destruct (IH _ rb1 Hj Hr1 Hinv1) as (rb' & ? & ? & ? & ?)].
  all: exists rb'; split_and!; congruence.
Qed.

(** ** The race *)

(** The schedule shared by the two outcomes: the tap passes its guard
    on a recording state, then the UI thread clears [mRunning] and joins
    the writer, which drains the ring into the file and returns. *)
Lemma race_prefix fuel r rb planes channels frames :
  reachable r -> mRunning r = true -> mRing r = Some rb -> mReadIndex rb <= mWriteIndex rb ->
  filled rb <= kChunkFrames * (Z.of_nat fuel - 1) -> frames <> 0 ->
  exists r2 rb2,
    rtc race_step (race_init r) (mkRace r2 (TapChecked planes channels frames) CtlJoined) /\
    stop_join fuel (stop_clear r) = Some r2 /\
    mRing r2 = Some rb2 /\ cursor_inv rb2 /\ mChannels r2 = mChannels r /\
    RingBuffer.mChannels rb2 = mChannels r /\ mCapacityFrames rb2 = mCapacityFrames rb.
Proof.
  intros Hreach Er Hr Hrw Hfuel Hfr.
  destruct (running_facts r (reachable_rec_inv r Hreach) Er)
    as (rb0 & f & bufs & Hr0 & Hf & Hw & Hwf & Hc & Hb & Hpos & _ & Htot & _).
  assert (rb0 = rb) by congruence. subst rb0.
  destruct (join_drain fuel (stop_clear r) rb f bufs eq_refl Hr Hf Hw Hwf Hc Hb Hrw Hpos Htot Hfuel)
    as (rb2 & f2 & Hj & _ & _ & _).
  destruct (join_ring _ _ _ rb Hj Hr (proj1 Hwf)) as (rb2' & Hr2 & Hinv2 & Hc2 & Hcap2).
  simpl in Hr2. injection Hr2 as Hr2. subst rb2'.
  assert (joinable (mWriter r) = true) as Hjn by (by destruct (mWriter r)).
  assert (stop_join fuel (stop_clear r) = Some
            (mkRecorder false (mSource r) (mSampleRate r) (mChannels r) (Some rb2) (Some f2)
               WNoThread u64[mTotalFrames r + flushed_frames (mWriter r) rb]
               (mScratch r) (mScratchPtrs r))) as Hsj
    by (unfold stop_join; simpl; rewrite Hjn; exact Hj).
  eexists _, rb2. split_and!; try done; [| congruence].
  eapply rtc_l; [apply RTapGuard | ].
  { unfold push_guard. rewrite Er, Hr. repeat (case_bool_decide; try done).
    simpl. by rewrite (proj2 (Z.eqb_neq _ _)). }
  eapply rtc_l; [by apply RCtlClear |].
  eapply rtc_l; [apply (RCtlJoin fuel); exact Hsj | apply rtc_refl].
Qed.

(** C6. [push] races [stop].  From every reachable recording state, with
    a push the tap accepts and a join given one writer iteration per chunk
    and one more, two schedules of the tap, the UI thread running [stop]
    and the writer are possible:
    - the tap passes its guard, [stop] runs to its end and deletes the
      ring, then the tap's body calls [mRing->push] on the null pointer
      (undefined behaviour);
    - the tap passes its guard, [stop] clears [mRunning] and joins the
      writer, then the tap's body puts [min(frames, free space)] frames
      into the ring the writer has left (drained, when it was at the
      head of its loop); [stop] then closes
      exactly the file a [stop] without that push closes: the frames
      the push accepted are lost. *)
Theorem tap_stop_race fuel r rb planes channels frames :
  reachable r -> mRunning r = true -> mRing r = Some rb -> mReadIndex rb <= mWriteIndex rb ->
  filled rb <= kChunkFrames * (Z.of_nat fuel - 1) -> 0 < frames <= INT_MAX ->
  planes_cover planes (Z.min channels (mChannels r)) frames ->
  (exists s, rtc race_step (race_init r) s /\ rs_tap s = TapChecked planes channels frames /\
     push_body (rs_rec s) planes channels frames = None) /\
  (exists s1 s2 s3 rb1 rb2 closed r',
     rtc race_step (race_init r) s1 /\ race_step s1 s2 /\ rtc race_step s2 s3 /\
     rs_tap s1 = TapChecked planes channels frames /\ rs_tap s2 = TapIdle /\
     mRing (rs_rec s1) = Some rb1 /\ mRing (rs_rec s2) = Some rb2 /\
     filled rb2 = filled rb1 + Z.min frames (mCapacityFrames rb - filled rb1) /\
     rs_ctl s3 = CtlStopped closed /\ stop fuel r false = Some (r', Ok, None, closed)).
Proof.
  intros Hreach Er Hr Hrw Hfuel Hfr Hcov.
  destruct (race_prefix fuel r rb planes channels frames Hreach Er Hr Hrw Hfuel ltac:(lia))
    as (r2 & rb2 & Hrun & Hsj & Hr2 & Hinv2 & Hch2 & Hc2 & Hcap2).
  split.
  - eexists. split; [eapply rtc_r; [exact Hrun | apply (RCtlFinish _ _ false)] |]. done.
  - pose proof (push_filled rb2 planes (Z.min channels (mChannels r)) frames Hinv2 ltac:(lia))
      as [Hn Hf].
    assert (push_body r2 planes channels frames =
              Some (mkRecorder (mRunning r2) (mSource r2) (mSampleRate r2) (mChannels r2)
                      (Some (RingBuffer.push rb2 planes (Z.min channels (mChannels r)) frames).1)
                      (mFile r2) (mWriter r2) (mTotalFrames r2) (mScratch r2) (mScratchPtrs r2)))
      as Hb.
    { unfold push_body. rewrite Hr2, Hch2, to_signed_small by (rewrite ?INT_MAX_val in *; lia).
      destruct (RingBuffer.push rb2 planes _ frames) as [rb3 n] eqn:Ep. simpl in Hn.
      rewrite bool_decide_eq_true_2; [done |]. right.
      rewrite Hc2, Z.min_l by lia. apply (planes_cover_frames _ _ frames); [| done].
      pose proof (filled_range rb2). destruct Hinv2 as (? & ? & ? & ?). lia. }
    do 7 eexists. split_and!.
    + exact Hrun.
    + exact (RTapBody _ _ _ _ _ _ Hb).
    + apply rtc_once, (RCtlFinish _ _ false).
    + done.
    + done.
    + exact Hr2.
    + done.
    + simpl. rewrite Hf, Hcap2. lia.
    + done.
    + rewrite stop_split, Hsj by done. done.
Qed.

(** ** Witness *)

(** The session of [Recorder] with three frames queued, and the tap
    pushing the same three frames again while [stop] runs. *)
Lemma tap_stop_race_witness :
  (exists s, rtc race_step (race_init ex_pushed) s /\ rs_tap s = TapChecked ex_rplanes 2 3 /\
     push_body (rs_rec s) ex_rplanes 2 3 = None) /\
  (exists s1 s2 s3 rb1 rb2 closed r',
     rtc race_step (race_init ex_pushed) s1 /\ race_step s1 s2 /\ rtc race_step s2 s3 /\
     rs_tap s1 = TapChecked ex_rplanes 2 3 /\ rs_tap s2 = TapIdle /\
     mRing (rs_rec s1) = Some rb1 /\ mRing (rs_rec s2) = Some rb2 /\
     filled rb2 = filled rb1 + Z.min 3 (mCapacityFrames ex_pushed_ring - filled rb1) /\
     rs_ctl s3 = CtlStopped closed /\ stop 2 ex_pushed false = Some (r', Ok, None, closed)).
Proof.
  apply (tap_stop_race 2 ex_pushed ex_pushed_ring ex_rplanes 2 3 ex_pushed_reachable); discharge.
Defined.

End RecorderRace.
