(* ===== verification/Plugin.v ===== *)
(** * Plugin: the host glue of [src/src/au/Plugin.cpp] and [src/src/web/wam_entry.cpp]

    The plugin class owns one [atome::DSPCore]; the WAV recorder is the
    process-wide singleton of RecorderCore.cpp, reached through its C ABI.
    Module [Plugin] translates the constructor (three parameters with
    their defaults), [OnReset] ([init] of the core with the host's sample
    rate, channel count and four blocks of ring), [OnParamChange]
    (routing of a parameter index to [setParameter]), [ProcessBlock]
    (render, then tap the rendered planes into the recorder when it is
    recording the plugin source) and [LoadFile].  What the plugin reads
    from the host SDK ([GetSampleRate()], [NOutChansConnected()],
    [GetBlockSize()], the parameter values) is the record [Host] and the
    parameter fields of [Plugin]; the SDK itself is not in the repository.
    Module [Wam] translates the four [extern "C"] entry points of the web
    build.  The system state of the glue is the pair of the plugin and the
    recorder: a block of the host touches both.  [plugin_step] is the
    system's step relation (the host's callbacks, the reader thread of
    the core, the recorder's other threads); its reachable states are
    made of reachable states of the core and of the recorder. *)

From S2P Require Import Prelude RingBuffer DiskReader DSPCore WavFormat Recorder.
From stdpp Require Import base list strings relations.
From Stdlib Require Import ZArith Lia QArith Qcanon.
Open Scope Z_scope.

Module Plugin.

(** [enum EParams { kParamGain = 0, kParamPlay, kParamPosition, kNumParams }]. *)
Inductive EParams : Type := kParamGain | kParamPlay | kParamPosition.

Definition EParams_of_int (paramIdx : Z) : option EParams :=
  match paramIdx with
  | 0 => Some kParamGain
  | 1 => Some kParamPlay
  | 2 => Some kParamPosition
  | _ => None
  end.

(** What the host SDK reports. *)
Record Host := mkHost {
  hSampleRate : Qc;      (* GetSampleRate() *)
  hOutChans : Z;         (* NOutChansConnected() *)
  hBlockSize : Z         (* GetBlockSize() *)
}.

(** The values of the three parameter objects ([GetParam(i)->Value()]) and
    the member [mCore]. *)
Record Plugin := mkPlugin {
  pGain : Qc;
  pPlay : Qc;
  pPosition : Qc;
  mCore : DSPCore.DSPCore
}.

Definition with_core (p : Plugin) (c : DSPCore.DSPCore) : Plugin :=
  mkPlugin (pGain p) (pPlay p) (pPosition p) c.

(** [Plugin(const InstanceInfo&)], lines 13-19: [InitDouble("gain", 1.0,
    ...)], [InitBool("play", false)], [InitDouble("positionFrames", 0.0,
    ...)], and the default-constructed core. *)
Definition new_plugin : Plugin := mkPlugin 1%Qc 0%Qc 0%Qc DSPCore.new_core.

(** [OnReset()], lines 21-26.  [4 * GetBlockSize()] is an [int] product:
    its overflow has no defined behaviour ([None]). *)
Definition OnReset (host : Host) (p : Plugin) : option Plugin :=
  let sr := hSampleRate host in
  let ch := Z.max 1 (hOutChans host) in
  let ringFrames := 4 * hBlockSize host in
  if bool_decide (- 2 ^ 31 <= ringFrames <= INT_MAX) then
    c' ← DSPCore.init (mCore p) sr ch ringFrames; Some (with_core p c')
  else None.

(** [OnParamChange(paramIdx)], lines 28-36: the new value of the
    parameter, converted to [float], goes to [setParameter]; other
    indices are ignored. *)
Definition OnParamChange (p : Plugin) (paramIdx : Z) : Plugin :=
  match EParams_of_int paramIdx with
  | Some kParamGain => with_core p (DSPCore.setParameter (mCore p) DSPCore.Gain (pGain p))
  | Some kParamPlay => with_core p (DSPCore.setParameter (mCore p) DSPCore.Play (pPlay p))
  | Some kParamPosition =>
      with_core p (DSPCore.setParameter (mCore p) DSPCore.PositionFrames (pPosition p))
  | None => p
  end.

(** [ProcessBlock(inputs, outputs, nFrames)], lines 38-46: the plugin,
    the recorder singleton and the output planes after the block.  The
    tap passes the rendered planes with [static_cast<uint16_t>(chans)] and
    [static_cast<uint32_t>(nFrames)]. *)
Definition ProcessBlock (host : Host) (p : Plugin) (r : Recorder.Recorder)
    (inputs outputs : list (list Qc)) (nFrames : Z)
    : option (Plugin * Recorder.Recorder * list (list Qc)) :=
  let chans := hOutChans host in
  '(c', outs) ← DSPCore.process (mCore p) inputs outputs chans nFrames;
  if Recorder.core_source_is r (Some "plugin"%string) then
    r' ← Recorder.push r (Some outs) u16[chans] u32[nFrames];
    Some (with_core p c', r', outs)
  else Some (with_core p c', r, outs).

(** [LoadFile(path)], lines 48-50. *)
Definition LoadFile (p : Plugin) (path : option string) : option Plugin :=
  c' ← DSPCore.loadFile (mCore p) path; Some (with_core p c').

(** ** The system of the glue

    The state is the plugin and the recorder singleton.  A step is a
    callback of the host ([OnReset], a parameter change, a block,
    [LoadFile]), a statement of the core's reader thread, or a step of
    the recorder on another thread (the UI's [start]/[stop] calls through
    the C ABI, the writer thread).  The host sets a parameter's value
    before it calls [OnParamChange]; it reports a non-negative block
    size. *)
Inductive plugin_step : Plugin * Recorder.Recorder -> Plugin * Recorder.Recorder -> Prop :=
| PReset host p r p' :
    0 <= hBlockSize host -> OnReset host p = Some p' -> plugin_step (p, r) (p', r)
| PParamValue p r g pl pos : plugin_step (p, r) (mkPlugin g pl pos (mCore p), r)
| PParamChange p r idx : plugin_step (p, r) (OnParamChange p idx, r)
| PBlock host p r ins outs n p' r' outs' :
    ProcessBlock host p r ins outs n = Some (p', r', outs') -> plugin_step (p, r) (p', r')
| PLoadFile p r path p' : LoadFile p path = Some p' -> plugin_step (p, r) (p', r)
| PReader p r rb rd :
    DSPCore.mRing (mCore p) = Some rb -> DSPCore.mReader (mCore p) = Some rd ->
    plugin_step (p, r)
      (with_core p (let '(rd', rb') := DiskReader.thread_step rd rb in
                    DSPCore.set_reader (DSPCore.set_ring (mCore p) (Some rb')) (Some rd')), r)
| PRecorder p r r' : Recorder.rec_step r r' -> plugin_step (p, r) (p, r').

Definition plugin_reachable (s : Plugin * Recorder.Recorder) : Prop :=
  rtc plugin_step (new_plugin, Recorder.recorder_init) s.

End Plugin.

Module Wam.

(** [atome_create_core(sampleRate, channels, ringFrames)]: a new core,
    initialised. *)
Definition atome_create_core (sampleRate : Qc) (channels ringFrames : Z)
    : option DSPCore.DSPCore :=
  DSPCore.init DSPCore.new_core sampleRate channels ringFrames.

(** [atome_destroy_core(core)]: [delete core] runs [~DSPCore()], which is
    [clear()]. *)
Definition atome_destroy_core (fuel : nat) (core : DSPCore.DSPCore) : option DSPCore.DSPCore :=
  DSPCore.destroy fuel core.

(** [atome_set_param(core, id, value)]. *)
Definition atome_set_param (core : DSPCore.DSPCore) (id : Z) (value : Qc) : DSPCore.DSPCore :=
  DSPCore.setParameter_int core id value.

(** [atome_process(core, in, out, ch, n)]. *)
Definition atome_process (core : DSPCore.DSPCore) (inp out : list (list Qc)) (ch n : Z)
    : option (DSPCore.DSPCore * list (list Qc)) :=
  DSPCore.process core inp out ch n.

End Wam.

Module PluginProofs.
Import Plugin.

Lemma source_is_plugin r :
  Recorder.mRunning r = true -> Recorder.mSource r = Recorder.Plugin ->
  Recorder.core_source_is r (Some "plugin"%string) = true.
Proof.
  intros Hrun Hsrc. unfold Recorder.core_source_is, Recorder.source_is, Recorder.parse_source.
  rewrite decide_True by (by left). rewrite Hrun, Hsrc. done.
Qed.

(** The recorder tap of [ProcessBlock].  While the recorder (in any
    reachable state) records the plugin source, a block of [nFrames]
    frames renders through the core and then appends, on every channel
    below both the host's channel count and the session's, the first
    [min(nFrames, free space)] rendered samples of that channel to the
    recorder's ring; the plugin keeps the rendered core and the host gets
    the rendered planes.  The casts to [uint16_t] and [uint32_t] are
    exact for the counts a host passes. *)
Theorem process_block_tap host p r inputs outputs nFrames c' outs rb :
  Recorder.reachable r -> Recorder.mRunning r = true -> Recorder.mSource r = Recorder.Plugin ->
  Recorder.mRing r = Some rb -> mReadIndex rb <= mWriteIndex rb ->
  mWriteIndex rb + nFrames < 2 ^ 64 ->
  0 < nFrames <= INT_MAX -> 0 <= hOutChans host < 2 ^ 16 ->
  DSPCore.process (mCore p) inputs outputs (hOutChans host) nFrames = Some (c', outs) ->
  planes_cover outs (Z.min (hOutChans host) (Recorder.mChannels r)) nFrames ->
  exists r' rb',
    ProcessBlock host p r inputs outputs nFrames = Some (with_core p c', r', outs) /\
    Recorder.mRing r' = Some rb' /\
    forall ch, (ch < Z.to_nat (Z.min (hOutChans host) (Recorder.mChannels r)))%nat ->
      contents 0%Qc rb' ch =
        contents 0%Qc rb ch ++
        take (Z.to_nat (Z.min nFrames (mCapacityFrames rb - filled rb))) (default [] (outs !! ch)).
Proof.
  intros Hreach Hrun Hsrc Hring Hrw Hov Hfr Hch Hproc Hcov.
  destruct (Recorder.running_facts r (Recorder.reachable_rec_inv r Hreach) Hrun)
    as (rb0 & f & bufs & Hr0 & _ & _ & Hwf & Hrch & _).
  rewrite Hring in Hr0. symmetry in Hr0. simplify_eq.
  assert (0 <= nFrames <= INT_MAX) as Hfr' by lia.
  set (ch := Z.min (hOutChans host) (Recorder.mChannels r)).
  assert (Z.min ch (RingBuffer.mChannels rb) = ch) as Hmin by (subst ch; lia).
  pose proof (push_filled rb outs ch nFrames (proj1 Hwf) Hfr') as [Hn _].
  pose proof (push_contents 0%Qc rb outs ch nFrames) as Hct. rewrite Hmin in Hct.
  unfold ProcessBlock. rewrite Hproc. cbn [mbind option_bind].
  rewrite source_is_plugin by done.
  unfold Recorder.push. rewrite Hring.
  rewrite (wrap_small 32 nFrames), (wrap_small 16 (hOutChans host))
    by (rewrite ?INT_MAX_val in *; lia).
  rewrite to_signed_small by (rewrite ?INT_MAX_val in *; lia).
  rewrite Hrun. rewrite (proj2 (Z.eqb_neq nFrames 0)) by lia. simpl. fold ch.
  destruct (RingBuffer.push rb outs ch nFrames) as [rb' n] eqn:E. simpl in Hn, Hct.
  rewrite Hmin, bool_decide_eq_true_2.
  - eexists _, rb'. split; [done |]. split; [done |].
    intros c Hc. rewrite Hct, Hn; try done; lia.
  - right. apply (planes_cover_frames _ _ nFrames); [| done].
    pose proof (filled_range rb). destruct Hwf as [Hinv _]. cursor_facts rb. lia.
Qed.

(** ** The composed system *)

(** Each step of the glue is at most one step of the core's system and
    at most one step of the recorder's: the glue adds no behaviour of its
    own to either component. *)
Lemma plugin_step_parts s s' :
  plugin_step s s' ->
  rtc DSPCore.core_step (mCore s.1) (mCore s'.1) /\ rtc Recorder.rec_step s.2 s'.2.
Proof.
  destruct 1 as [host p r p' Hb Hr | p r g pl pos | p r idx | host p r ins outs n p' r' outs' Hb
    | p r path p' Hl | p r rb rd Hr Hd | p r r' Hs]; simpl.
  - unfold OnReset in Hr. case_bool_decide as Hc; [| done].
    destruct (DSPCore.init _ _ _ _) as [c' |] eqn:Ei; simplify_eq/=. split; [| done].
    apply rtc_once. eapply DSPCore.CInit; [| exact Ei]. rewrite INT_MAX_val in *. lia.
  - split; apply rtc_refl.
  - split; [| apply rtc_refl]. unfold OnParamChange.
    destruct (EParams_of_int idx) as [[] |];
      [apply rtc_once, DSPCore.CSetParameter .. | apply rtc_refl].
  - unfold ProcessBlock in Hb.
    destruct (DSPCore.process _ _ _ _ _) as [[c' o] |] eqn:Ep; [| done]. simpl in Hb.
    assert (rtc DSPCore.core_step (mCore p) c') by (apply rtc_once; econstructor; exact Ep).
    destruct (Recorder.core_source_is r _); [| by simplify_eq/=; split; [| apply rtc_refl]].
    destruct (Recorder.push _ _ _ _) as [r1 |] eqn:Er; simplify_eq/=.
    split; [done |]. apply rtc_once. exact (Recorder.StepPush _ _ _ _ _ Er).
  - unfold LoadFile in Hl. destruct (DSPCore.loadFile _ _) as [c' |] eqn:El; simplify_eq/=.
    split; [| apply rtc_refl]. apply rtc_once. exact (DSPCore.CLoadFile _ _ _ El).
  - split; [| apply rtc_refl]. apply rtc_once. exact (DSPCore.CReader _ _ _ Hr Hd).
  - split; [apply rtc_refl | by apply rtc_once].
Qed.

(** The invariant of the glue: its core is a reachable state of the
    core's system and its recorder a reachable state of the recorder's,
    so every invariant of either component holds of the glue's states. *)
Lemma plugin_steps_parts s s' :
  rtc plugin_step s s' ->
  rtc DSPCore.core_step (mCore s.1) (mCore s'.1) /\ rtc Recorder.rec_step s.2 s'.2.
Proof.
  induction 1 as [| x y z Hxy _ [Hc Hr]]; [split; apply rtc_refl |].
  destruct (plugin_step_parts x y Hxy) as [Hc' Hr'].
  split; [by etrans | by etrans].
Qed.

Lemma plugin_reachable_parts s :
  plugin_reachable s -> DSPCore.core_reachable (mCore s.1) /\ Recorder.reachable s.2.
Proof. exact (plugin_steps_parts _ s). Qed.

Lemma planes_cover_intro {A} (ps : list (list A)) nch n :
  (forall i, (i < Z.to_nat nch)%nat -> exists o, ps !! i = Some o /\ (Z.to_nat n <= length o)%nat) ->
  planes_cover ps nch n.
Proof.
  intros H. split.
  - destruct (decide (Z.to_nat nch = 0%nat)) as [E | E]; [lia |].
    destruct (H (Z.to_nat nch - 1)%nat ltac:(lia)) as (o & Ho & _).
    apply lookup_lt_Some in Ho. lia.
  - apply Forall_lookup. intros i o Ho. apply lookup_take_Some in Ho as [Ho Hi].
    destruct (H i Hi) as (o' & Ho' & Hl). congruence.
Qed.

(** On the play path, [process] keeps every plane below [channels] at
    least [frames] samples long. *)
Lemma process_cover c rb inp out channels frames c' out' :
  DSPCore.mRing c = Some rb -> ring_wf rb -> mReadIndex rb <= mWriteIndex rb ->
  DSPCore.mPlay c <> 0 -> 0 < channels -> 0 < frames <= INT_MAX ->
  planes_cover out channels frames ->
  DSPCore.process c inp out channels frames = Some (c', out') ->
  planes_cover out' channels frames.
Proof.
  intros Hr Hwf Hrw Hpl Hc Hf Hcov Hp. apply planes_cover_intro. intros i Hi.
  destruct (planes_cover_lookup out channels frames i Hcov Hi) as (o & Ho & Hlo).
  destruct (DSPCore.process_play_plane c rb inp out channels frames i o Hr Hwf Hrw Hpl Hc Hf
              Hcov Ho Hi) as (o' & Hp' & Hi').
  rewrite Hp in Hp'. simplify_eq. eexists; split; [exact Hi' |].
  rewrite length_app, length_fmap, length_app, length_take, length_replicate, length_drop.
  pose proof (filled_range rb).
  destruct (decide _); [rewrite length_contents |]; lia.
Qed.

(** C39. Composition of the renderer, the glue and the recorder: the
    plugin records silence.  In every state the glue reaches (any
    sequence of host callbacks, statements of the core's reader thread
    and recorder calls), while the recorder records the plugin source
    and the core plays, a block of [nFrames] frames appends to the
    recorder's ring, on every channel below the host's, the session's
    and the core ring's channel counts, exactly [min(nFrames, free
    space)] zeros: whatever file was loaded, the capture of the plugin's
    output is silence. *)
Theorem plugin_records_silence host p r inputs outputs nFrames rbc rb :
  plugin_reachable (p, r) ->
  Recorder.mRunning r = true -> Recorder.mSource r = Recorder.Plugin ->
  Recorder.mRing r = Some rb -> mReadIndex rb <= mWriteIndex rb ->
  mWriteIndex rb + nFrames < 2 ^ 64 ->
  DSPCore.mRing (mCore p) = Some rbc -> mReadIndex rbc <= mWriteIndex rbc ->
  DSPCore.mPlay (mCore p) <> 0 ->
  0 < nFrames <= INT_MAX -> 0 < hOutChans host < 2 ^ 16 ->
  planes_cover outputs (hOutChans host) nFrames ->
  exists p' r' outs rb',
    ProcessBlock host p r inputs outputs nFrames = Some (p', r', outs) /\
    Recorder.mRing r' = Some rb' /\
    forall ch, (ch < Z.to_nat (Z.min (hOutChans host)
                  (Z.min (Recorder.mChannels r) (RingBuffer.mChannels rbc))))%nat ->
      contents 0%Qc rb' ch =
        contents 0%Qc rb ch ++
        replicate (Z.to_nat (Z.min nFrames (mCapacityFrames rb - filled rb))) 0%Qc.
Proof.
  intros Hreach Hrun Hsrc Hring Hrw Hov Hrc Hrwc Hpl Hfr Hch Hcov.
  destruct (plugin_reachable_parts _ Hreach) as [Hcore Hrec]; simpl in Hcore, Hrec.
  destruct (DSPCore.core_inv_ring _ rbc Hrc (DSPCore.core_reachable_inv _ Hcore)) as [Hwf _].
  destruct (DSPCore.process_play_other (mCore p) rbc inputs outputs (hOutChans host) nFrames
              (Z.to_nat (hOutChans host)) Hrc Hwf Hpl ltac:(lia) Hfr ltac:(lia)) as (outs & Hp & _).
  pose proof (process_cover (mCore p) rbc inputs outputs (hOutChans host) nFrames _ outs Hrc Hwf Hrwc Hpl ltac:(lia) Hfr Hcov Hp) as Hcov'.
  destruct (process_block_tap host p r inputs outputs nFrames _ outs rb Hrec Hrun Hsrc Hring Hrw
              Hov Hfr ltac:(lia) Hp
              (planes_cover_le outs (hOutChans host) (Z.min (hOutChans host) (Recorder.mChannels r))
                 nFrames ltac:(lia) Hcov')) as (r' & rb' & Hb & Hr' & Hct).
  do 4 eexists. split_and!; [exact Hb | exact Hr' |].
  intros ch Hch'. rewrite Hct by lia.
  destruct (planes_cover_lookup outputs (hOutChans host) nFrames ch Hcov ltac:(lia))
    as (o & Ho & Hlo).
  destruct (DSPCore.process_renders_silence (mCore p) rbc inputs outputs (hOutChans host) nFrames
              ch o Hcore Hrc Hrwc Hpl ltac:(lia) Hfr Hcov Ho ltac:(lia)) as (c2 & o2 & Hp2 & Ho2).
  rewrite Hp in Hp2. simplify_eq. rewrite Ho2. simpl. f_equal.
  rewrite take_app_le by (rewrite length_replicate; lia). rewrite take_replicate. f_equal. lia.
Qed.

End PluginProofs.

(** ** Witnesses *)

Module PluginWitnesses.
Import Plugin PluginProofs.

(** A two-channel host at 48 kHz, a plugin whose core plays, and a
    recorder session on the plugin source. *)
Definition ex_host : Host := mkHost (DSPCore.qz 48000) 2 64.
Definition ex_plugin : Plugin := mkPlugin 1%Qc 1%Qc 0%Qc DSPCore.ex_live.
Definition ex_outputs : list (list Qc) := [[DSPCore.qz 5; DSPCore.qz 5; DSPCore.qz 5];
                                           [DSPCore.qz 6; DSPCore.qz 6; DSPCore.qz 6]].

Definition ex_rec : Recorder.Recorder :=
  match Recorder.start Recorder.recorder_init (Some "take.wav"%string) 100 2 Recorder.Plugin true with
  | Some (r, _) => r | None => Recorder.recorder_init
  end.
Definition ex_rec_ring : RingBuffer Qc := default (Recorder.session_ring 100 2) (Recorder.mRing ex_rec).

Definition ex_render : DSPCore.DSPCore * list (list Qc) :=
  default (DSPCore.ex_live, ex_outputs) (DSPCore.process DSPCore.ex_live [] ex_outputs 2 3).

Lemma ex_rec_reachable : Recorder.reachable ex_rec.
Proof.
  eapply rtc_l; [apply (Recorder.StepStart _ (Some "take.wav"%string) 100 2 Recorder.Plugin true _
                          Recorder.Ok); vm_compute; reflexivity |].
  apply rtc_refl.
Qed.

Lemma process_block_tap_witness :
  exists r' rb',
    ProcessBlock ex_host ex_plugin ex_rec [] ex_outputs 3 =
      Some (with_core ex_plugin (fst ex_render), r', snd ex_render) /\
    Recorder.mRing r' = Some rb' /\
    forall ch, (ch < Z.to_nat (Z.min (hOutChans ex_host) (Recorder.mChannels ex_rec)))%nat ->
      contents 0%Qc rb' ch =
        contents 0%Qc ex_rec_ring ch ++
        take (Z.to_nat (Z.min 3 (mCapacityFrames ex_rec_ring - filled ex_rec_ring)))
          (default [] (snd ex_render !! ch)).
Proof.
  apply (process_block_tap ex_host ex_plugin ex_rec [] ex_outputs 3 (fst ex_render)
           (snd ex_render) ex_rec_ring);
    first [exact ex_rec_reachable | discharge].
Defined.

(** The host reaches [ex_plugin] with [ex_rec]: a reset with blocks of
    one frame (a ring of four frames), the play parameter switched on,
    then the recorder started on the plugin source from the UI. *)
Definition ex_reset_host : Host := mkHost (DSPCore.qz 48000) 2 1.
Definition ex_reset : Plugin := default new_plugin (OnReset ex_reset_host new_plugin).

Lemma ex_plugin_reachable : plugin_reachable (ex_plugin, ex_rec).
Proof.
  eapply rtc_l.
  { apply (PReset ex_reset_host new_plugin Recorder.recorder_init ex_reset);
      [simpl; lia | vm_compute; reflexivity]. }
  eapply rtc_l; [apply (PParamValue _ _ 1%Qc 1%Qc 0%Qc) |].
  eapply rtc_l; [apply (PParamChange _ _ 1) |].
  eapply rtc_l.
  { apply PRecorder, (Recorder.StepStart _ (Some "take.wav"%string) 100 2 Recorder.Plugin true ex_rec
                        Recorder.Ok).
    vm_compute; reflexivity. }
  vm_compute. apply rtc_refl.
Qed.

Lemma plugin_records_silence_witness :
  exists p' r' outs rb',
    ProcessBlock ex_host ex_plugin ex_rec [] ex_outputs 3 = Some (p', r', outs) /\
    Recorder.mRing r' = Some rb' /\
    forall ch, (ch < Z.to_nat (Z.min (hOutChans ex_host)
                  (Z.min (Recorder.mChannels ex_rec) (RingBuffer.mChannels DSPCore.ex_live_ring))))%nat ->
      contents 0%Qc rb' ch =
        contents 0%Qc ex_rec_ring ch ++
        replicate (Z.to_nat (Z.min 3 (mCapacityFrames ex_rec_ring - filled ex_rec_ring))) 0%Qc.
Proof.
  apply (plugin_records_silence ex_host ex_plugin ex_rec [] ex_outputs 3 DSPCore.ex_live_ring
           ex_rec_ring);
    first [exact ex_plugin_reachable | discharge].
Defined.

End PluginWitnesses.
