(* ===== verification/Converter.v ===== *)
(** * Converter: the drum-hit splitter [src/server/src/assets/uploads/DKD_converter.cpp]

    [main] checks its arguments, runs Essentia's onset detection on the
    input file (lines 20-74), prints the number of hits and, for each
    onset [i], cuts the segment from onset [i] to 50 ms before onset
    [i + 1] (one second for the last one) into [<outDir>/hit_<i+1>.wav]
    by running an ffmpeg command line through [system].

    [main] takes the result of the analysis (the onset times, or an
    exception) as an argument [analyse]; the analysis itself is the
    frame loop of lines 55-72 over the algorithms of Essentia, an
    external library given as the record [Essentia] of functions and of
    the table of their ports, and [dkd_main] is [main] with it.  Each
    [input(name).set(v)] and [output(name).set(v)] of the code is checked
    against that table as Essentia checks it (the port must exist and
    hold the type of [v]); [essentia_ports] is the table the library
    documents, under which the binding of line 52 throws.  Times are
    rationals ([Real] and [double] rounding is not modelled; [0.05] is
    [1/20]).  The observable behaviour of [main] is its exit status and
    the list of its effects ([effect]): writes to [cerr]/[cout], the
    directory it creates, the command lines it hands to [system].  The
    formatting it relies on is written out: [%zu], [%03zu], the
    truncation of [snprintf] to the 512-byte buffer, and [std::to_string]
    of a [double] ([%f]: six decimals, the exact value rounded half to
    even).  What [system] does with a command line is given by a model
    of the word splitting of [/bin/sh] ([sh_parse]) on the characters
    the commands contain. *)

From S2P Require Import Prelude.
From stdpp Require Import base list strings.
From Stdlib Require Import ZArith NArith QArith Qround Qabs Ascii Lia Lqa.

Module Converter.

(** ** Decimal formatting *)

Definition digit_char (d : N) : ascii := ascii_of_N (48 + d)%N.

(** The last [k] decimal digits of [n], most significant first. *)
Fixpoint to_digits (k : nat) (n : N) : list N :=
  match k with
  | O => []
  | S k' => to_digits k' (n / 10)%N ++ [(n mod 10)%N]
  end.

(** The number of decimal digits of [n] (one for [0]); the fuel covers
    every [size_t], below 2^64 < 10^20. *)
Fixpoint dec_width_fuel (fuel : nat) (n : N) : nat :=
  match fuel with
  | O => 1
  | S f => if (n <? 10)%N then 1 else S (dec_width_fuel f (n / 10)%N)
  end.

Definition dec_width (n : N) : nat := dec_width_fuel 20 n.

Fixpoint digits_string (ds : list N) : string :=
  match ds with
  | [] => EmptyString
  | d :: ds' => String (digit_char d) (digits_string ds')
  end.

(** [%zu]. *)
Definition fmt_zu (n : N) : string := digits_string (to_digits (dec_width n) n).

(** [%03zu]: at least three digits, padded with zeros. *)
Definition fmt_03zu (n : N) : string := digits_string (to_digits (Nat.max 3 (dec_width n)) n).

(** [snprintf(buf, size, ...)] keeps the first [size - 1] characters. *)
Definition snprintf_trunc (size : nat) (s : string) : string := String.substring 0 (size - 1) s.

(** [std::to_string(double)], i.e. [%f]. *)
Definition round_half_even (q : Q) : Z :=
  let f := Qfloor q in
  let r := (q - inject_Z f)%Q in
  if Qlt_le_dec (1 # 2) r then (f + 1)%Z
  else if Qeq_dec r (1 # 2) then (if Z.even f then f else (f + 1)%Z)
  else f.

Definition std_to_string (x : Q) : string :=
  let m := Z.to_N (round_half_even (Qabs x * inject_Z (10 ^ 6))) in
  (if Qlt_le_dec x 0 then "-" else "") +:+ fmt_zu (m / 10 ^ 6)%N +:+ "." +:+
  digits_string (to_digits 6 (m mod 10 ^ 6)%N).

Definition dq : ascii := "034"%char.
Definition endl : string := String "010"%char EmptyString.
Definition quoted (s : string) : string := String dq (s +:+ String dq EmptyString).

(** ** The segments and their files, lines 78-85 *)

(** [start] and [end] of hit [i]: the next onset less 50 ms, or one
    second after the last onset. *)
Definition seg_start (onsetTimes : list Q) (i : nat) : Q := default 0%Q (onsetTimes !! i).

Definition seg_end (onsetTimes : list Q) (i : nat) : Q :=
  if decide (i + 1 < length onsetTimes)%nat
  then (default 0 (onsetTimes !! (i + 1)%nat) - (1 # 20))%Q
  else (seg_start onsetTimes i + 1)%Q.

(** [snprintf(outName, 512, "%s/hit_%03zu.wav", outDir.c_str(), i + 1)]. *)
Definition hit_name (outDir : string) (i : nat) : string :=
  snprintf_trunc 512 (outDir +:+ "/hit_" +:+ fmt_03zu (N.of_nat (i + 1)) +:+ ".wav").

Definition ffmpeg_cmd (inputFile : string) (start end_ : Q) (outName : string) : string :=
  "ffmpeg -v error -y -i " +:+ quoted inputFile +:+ " -ss " +:+ std_to_string start +:+
  " -to " +:+ std_to_string end_ +:+ " -c copy " +:+ quoted outName.

(** ** The Essentia pipeline (lines 20-74)

    The algorithms the code creates from Essentia's factory (lines
    29-45) belong to a library the program only calls: [Essentia]
    collects them as functions on the vectors the code binds to their
    ports, with the table of their ports.  The frame cutter and the
    onset detector keep state between two [compute] calls (the cutter
    its position in the signal, the "complex" detector the spectra of
    the previous frames): their states are the types [C] and [D]. *)
Inductive algorithm : Type :=
| MonoLoader | OnsetDetection | FrameCutter | Windowing | FFT | CartesianToPolar | Onsets.

Inductive port_dir : Type := Input | Output.

(** The types of the ports involved: [Real], [std::vector<Real>],
    [std::vector<std::complex<Real>>], [TNT::Array2D<Real>]. *)
Inductive port_type : Type := TReal | TVectorReal | TVectorComplex | TMatrixReal.

#[export] Instance port_type_eq_dec : EqDecision port_type.
Proof. solve_decision. Defined.

Record Essentia (C D : Type) := mkEssentia {
  port : algorithm -> port_dir -> string -> option port_type;
  mono_loader : string -> option (list Q);
  cutter_init : list Q -> C;
  frame_cutter : C -> list Q * C;
  windowing : list Q -> list Q;
  fft : list Q -> list Q;
  cartesian_to_polar : list Q -> list Q * list Q;
  detector_init : D;
  onset_detection : D -> list Q -> list Q -> D * list Q;
  onsets : list Q -> list Q
}.
Arguments port {C D}. Arguments mono_loader {C D}. Arguments cutter_init {C D}.
Arguments frame_cutter {C D}. Arguments windowing {C D}. Arguments fft {C D}.
Arguments cartesian_to_polar {C D}. Arguments detector_init {C D}.
Arguments onset_detection {C D}. Arguments onsets {C D}.

(** The port table of Essentia's standard algorithms, as the library
    documents them: [Onsets] takes [detections] (a matrix) and
    [weights]; [OnsetDetection] takes [spectrum] and [phase] and gives a
    [Real]; [FFT] gives complex values, which [CartesianToPolar] takes. *)
Fixpoint port_lookup (ports : list (string * port_type)) (name : string) : option port_type :=
  match ports with
  | [] => None
  | (n, t) :: ports' => if String.eqb n name then Some t else port_lookup ports' name
  end.

Definition essentia_ports (a : algorithm) (dir : port_dir) : string -> option port_type :=
  port_lookup
    match a, dir with
    | MonoLoader, Output => [("audio", TVectorReal)]
    | FrameCutter, Input => [("signal", TVectorReal)]
    | FrameCutter, Output => [("frame", TVectorReal)]
    | Windowing, Input | Windowing, Output => [("frame", TVectorReal)]
    | FFT, Input => [("frame", TVectorReal)]
    | FFT, Output => [("fft", TVectorComplex)]
    | CartesianToPolar, Input => [("complex", TVectorComplex)]
    | CartesianToPolar, Output => [("magnitude", TVectorReal); ("phase", TVectorReal)]
    | OnsetDetection, Input => [("spectrum", TVectorReal); ("phase", TVectorReal)]
    | OnsetDetection, Output => [("onsetDetection", TReal)]
    | Onsets, Input => [("detections", TMatrixReal); ("weights", TVectorReal)]
    | Onsets, Output => [("onsets", TVectorReal)]
    | MonoLoader, Input => []
    end%string.

Section Pipeline.
Context {C D : Type} (E : Essentia C D).

(** [alg->input(name).set(v)] or [alg->output(name).set(v)] with [v] a
    [vector<Real>]: Essentia throws when the algorithm has no port of
    that name, or when the port holds another type. *)
Definition bind_ok (a : algorithm) (dir : port_dir) (name : string) : bool :=
  bool_decide (port E a dir name = Some TVectorReal).

(** A sequence of bindings, in the order of the code. *)
Definition binds_ok (l : list (algorithm * port_dir * string)) : bool :=
  forallb (fun '(a, dir, name) => bind_ok a dir name) l.

(** The [while (true)] loop of lines 55-72, one iteration per frame:
    [frameCutter->compute()], the [break] on an empty frame, then the
    bindings and [compute] calls of windowing, FFT, polar conversion and
    onset detection.  [det] is the vector [onsetDetOut], which each
    [onsetDet->compute()] overwrites.  [fuel] bounds the iterations
    ([None] when it runs out, or when a binding throws). *)
Fixpoint frame_loop (fuel : nat) (c : C) (d : D) (det : list Q) : option (list Q) :=
  match fuel with
  | O => None
  | S fuel' =>
      let '(frame, c') := frame_cutter E c in
      match frame with
      | [] => Some det
      | _ :: _ =>
          if negb (binds_ok [(Windowing, Input, "frame"); (Windowing, Output, "frame")]%string)
          then None else
          let windowedFrame := windowing E frame in
          if negb (binds_ok [(FFT, Input, "frame"); (FFT, Output, "fft")]%string) then None else
          let spectrum := fft E windowedFrame in
          if negb (binds_ok [(CartesianToPolar, Input, "complex");
                             (CartesianToPolar, Output, "magnitude");
                             (CartesianToPolar, Output, "phase")]%string) then None else
          let '(mag, phase) := cartesian_to_polar E spectrum in
          if negb (binds_ok [(OnsetDetection, Input, "magnitude");
                             (OnsetDetection, Input, "phase");
                             (OnsetDetection, Output, "onsetDetection")]%string) then None else
          let '(d', det') := onset_detection E d mag phase in
          frame_loop fuel' c' d' det'
      end
  end.

(** Lines 28-74: bind the loader's output and load the file (line 34
    throws when it cannot), bind the cutter to [audio] and [Onsets] to
    [onsetDetOut] (initially empty) and to [onsetTimes] (lines 50-53),
    run the loop, then [onset->compute()] once.  [None]: an exception. *)
Definition essentia_analyse (fuel : nat) (inputFile : string) : option (list Q) :=
  if negb (bind_ok MonoLoader Output "audio") then None else
  audio ← mono_loader E inputFile;
  if negb (binds_ok [(FrameCutter, Input, "signal"); (FrameCutter, Output, "frame");
                     (Onsets, Input, "onsetDetections"); (Onsets, Output, "onsets")]%string)
  then None else
  det ← frame_loop fuel (cutter_init E audio) (detector_init E) [];
  Some (onsets E det).

End Pipeline.

(** ** [main] *)

Inductive effect : Type :=
| Stderr (s : string)
| Stdout (s : string)
| CreateDirectories (p : string)
| System (cmd : string).

Definition usage (argv0 : string) : string :=
  "Usage: " +:+ argv0 +:+ " input.wav output_dir" +:+ endl.

(** Line 77: [cout << "→ " << onsetTimes.size() << " coups détectés" << endl]. *)
Definition count_message (n : nat) : string :=
  "→ " +:+ fmt_zu (N.of_nat n) +:+ " coups détectés" +:+ endl.

(** The loop of lines 78-87: one [system] call per onset. *)
Definition split_commands (inputFile outDir : string) (onsetTimes : list Q) : list effect :=
  (fun i => System (ffmpeg_cmd inputFile (seg_start onsetTimes i) (seg_end onsetTimes i)
                      (hit_name outDir i))) <$> seq 0 (length onsetTimes).

(** [argv] is the argument vector ([argc] its length).  [analyse] is
    the Essentia pipeline of lines 26-74 on the input file ([None]: it
    throws); [mkdir_ok] whether [fs::create_directories] succeeds (it
    throws otherwise).  [None]: no defined outcome ([argv[0]] is null
    when [argc = 0]) or an uncaught exception ([std::terminate]). *)
Definition main (analyse : string -> option (list Q)) (mkdir_ok : bool) (argv : list string)
    : option (Z * list effect) :=
  match argv with
  | [] => None
  | argv0 :: _ =>
      if decide (length argv < 3)%nat then Some (1%Z, [Stderr (usage argv0)])
      else
        let inputFile := default "" (argv !! 1%nat) in
        let outDir := default "" (argv !! 2%nat) in
        if negb mkdir_ok then None
        else
          onsetTimes ← analyse inputFile;
          Some (0%Z, [CreateDirectories outDir; Stdout (count_message (length onsetTimes))] ++
                     split_commands inputFile outDir onsetTimes)
  end.


(** The whole program (lines 14-99): [main] with the Essentia pipeline
    as its analysis.  The [delete]s of the algorithms and
    [essentia::shutdown()] (lines 89-97) change nothing the model
    observes. *)
Definition dkd_main {C D} (E : Essentia C D) (fuel : nat) (mkdir_ok : bool) (argv : list string)
    : option (Z * list effect) :=
  main (essentia_analyse E fuel) mkdir_ok argv.

(** ** The shell

    [system] runs [/bin/sh -c cmd].  [sh_parse] splits a command line
    into commands (at [;]) and words (at spaces), with double quotes
    grouping characters into one word.  Outside quotes only the
    characters of [plain_char] are followed; inside quotes, a [\], [$]
    or backquote would start an escape or an expansion the model does not
    follow.  Those cases, and an unterminated quote, are [None]. *)
Definition plain_char (c : ascii) : bool :=
  let n := nat_of_ascii c in
  (48 <=? n) && (n <=? 57) || (65 <=? n) && (n <=? 90) || (97 <=? n) && (n <=? 122) ||
  bool_decide (c ∈ ["-"; "."; "_"; "/"; ","; ":"; "+"; "="; "@"]%char).

Definition quote_char (c : ascii) : bool :=
  negb (bool_decide (c ∈ [dq; "\"; "$"; "`"]%char)).

(** [cur]: the word being read, reversed ([None] between words);
    [ws]: the words of the current command, reversed; [cs]: the
    commands read so far. *)
Fixpoint sh_go (s : string) (inq : bool) (cur : option (list ascii)) (ws : list string)
    (cs : list (list string)) : option (list (list string)) :=
  let flush := match cur with Some w => String.string_of_list_ascii (rev w) :: ws | None => ws end in
  match s with
  | EmptyString => if inq then None else Some (cs ++ [rev flush])
  | String c s' =>
      if inq then
        if decide (c = dq) then sh_go s' false cur ws cs
        else if quote_char c then sh_go s' true (Some (c :: default [] cur)) ws cs
        else None
      else if decide (c = " "%char) then sh_go s' false None flush cs
      else if decide (c = ";"%char) then sh_go s' false None [] (cs ++ [rev flush])
      else if decide (c = dq) then sh_go s' true (Some (default [] cur)) ws cs
      else if plain_char c then sh_go s' false (Some (c :: default [] cur)) ws cs
      else None
  end.

Definition sh_parse (cmd : string) : option (list (list string)) := sh_go cmd false None [] [].

(** The argument vector the command of hit [i] is meant to run. *)
Definition ffmpeg_argv (inputFile : string) (start end_ : Q) (outName : string) : list string :=
  ["ffmpeg"; "-v"; "error"; "-y"; "-i"; inputFile; "-ss"; std_to_string start;
   "-to"; std_to_string end_; "-c"; "copy"; outName].

(** What the shell runs for an effect of [main] that is a [system]
    call. *)
Definition system_argv (e : effect) : option (list (list string)) :=
  match e with System c => sh_parse c | _ => None end.

Fixpoint quote_safe (s : string) : bool :=
  match s with EmptyString => true | String c s' => quote_char c && quote_safe s' end.

(** ** Reading the names back *)

Fixpoint strip_prefix (p s : string) : option string :=
  match p, s with
  | EmptyString, _ => Some s
  | String a p', String b s' => if decide (a = b) then strip_prefix p' s' else None
  | _, _ => None
  end.

Definition is_digit (c : ascii) : bool := (48 <=? nat_of_ascii c) && (nat_of_ascii c <=? 57).

Fixpoint read_digits (acc : N) (s : string) : N * string :=
  match s with
  | String c s' =>
      if is_digit c then read_digits (acc * 10 + (N_of_ascii c - 48))%N s' else (acc, s)
  | EmptyString => (acc, s)
  end.

(** The hit number a file name of [outDir] carries. *)
Definition parse_hit (outDir name : string) : option N :=
  rest ← strip_prefix (outDir +:+ "/hit_") name;
  let '(n, tl) := read_digits 0 rest in
  if decide (tl = ".wav") then Some n else None.

Definition digits_value (ds : list N) : N := foldl (fun a d => a * 10 + d)%N 0%N ds.

Fixpoint plain_str (s : string) : bool :=
  match s with EmptyString => true | String c s' => plain_char c && plain_str s' end.

(** Words, each followed by a space. *)
Fixpoint spaced (ws : list string) : string :=
  match ws with [] => EmptyString | w :: ws' => w +:+ String " " (spaced ws') end.

(** An input name that closes the quote of line 83, ends the command
    with [;], adds the command [ws] and opens a new quote. *)
Definition injected (x : string) (ws : list string) : string :=
  x +:+ String dq ("; " +:+ spaced ws +:+ String ";" (String " " (String dq EmptyString))).

(** ** Strings

    [String.append] does not reduce under [simpl]: these equations
    do. *)

Lemma str_app_cons c (a b : string) : String c a +:+ b = String c (a +:+ b).
Proof. reflexivity. Qed.

Lemma str_app_empty (b : string) : "" +:+ b = b.
Proof. reflexivity. Qed.

Ltac str_simpl := rewrite ?str_app_cons, ?str_app_empty.

Lemma str_app_assoc (a b c : string) : (a +:+ b) +:+ c = a +:+ (b +:+ c).
Proof. induction a as [| x a IH]; str_simpl; [done | by rewrite IH]. Qed.

Lemma str_app_nil (a : string) : a +:+ "" = a.
Proof. induction a as [| x a IH]; str_simpl; [done | by rewrite IH]. Qed.

Lemma strip_prefix_app p s : strip_prefix p (p +:+ s) = Some s.
Proof. induction p as [| a p IH]; str_simpl; simpl; [by destruct s |]. by rewrite decide_True. Qed.

Lemma substring_all n s : (String.length s <= n)%nat -> String.substring 0 n s = s.
Proof.
  revert n. induction s as [| c s IH]; intros [| n] Hl; simpl in *; try done; [lia |].
  f_equal. apply IH. lia.
Qed.

Lemma substring_app n a b :
  (n <= String.length a)%nat -> String.substring 0 n (a +:+ b) = String.substring 0 n a.
Proof.
  revert n. induction a as [| c a IH]; intros [| n] Hl; str_simpl; simpl in *; try done;
    [by destruct b | lia | f_equal; apply IH; lia].
Qed.

Lemma length_str_app a b : String.length (a +:+ b) = (String.length a + String.length b)%nat.
Proof. induction a as [| c a IH]; str_simpl; simpl; [done | by rewrite IH]. Qed.

(** ** Digits *)

Lemma length_to_digits k n : length (to_digits k n) = k.
Proof.
  revert n. induction k as [| k IH]; intros n; simpl; [done |].
  rewrite length_app, IH. simpl. lia.
Qed.

Lemma length_digits_string ds : String.length (digits_string ds) = length ds.
Proof. induction ds as [| d ds IH]; simpl; [done | by rewrite IH]. Qed.

Lemma to_digits_small k n : Forall (fun d => d < 10)%N (to_digits k n).
Proof.
  revert n. induction k as [| k IH]; intros n; simpl; [constructor |].
  apply Forall_app; split; [apply IH | constructor; [apply N.mod_lt; lia | constructor]].
Qed.

Lemma digits_value_to_digits k n : digits_value (to_digits k n) = (n mod 10 ^ N.of_nat k)%N.
Proof.
  unfold digits_value. revert n. induction k as [| k IH]; intros n; simpl.
  - by rewrite N.mod_1_r.
  - rewrite foldl_app, IH. simpl.
    rewrite Nat2N.inj_succ, N.pow_succ_r', N.Div0.mod_mul_r. lia.
Qed.

Lemma dec_width_fuel_bound fuel n :
  (n < 10 ^ N.of_nat (S fuel))%N -> (n < 10 ^ N.of_nat (dec_width_fuel fuel n))%N.
Proof.
  revert n. induction fuel as [| fuel IH]; intros n Hn; simpl; [done |].
  destruct (N.ltb_spec n 10); [simpl; lia |].
  assert (n / 10 < 10 ^ N.of_nat (S fuel))%N as Hd.
  { apply N.Div0.div_lt_upper_bound. rewrite <- N.pow_succ_r'.
    by replace (N.succ (N.of_nat (S fuel))) with (N.of_nat (S (S fuel))) by lia. }
  specialize (IH _ Hd). rewrite Nat2N.inj_succ, N.pow_succ_r'.
  pose proof (N.Div0.div_mod n 10). pose proof (N.mod_lt n 10). lia.
Qed.

Lemma digit_char_digit d : (d < 10)%N -> is_digit (digit_char d) = true /\
  plain_char (digit_char d) = true /\ quote_char (digit_char d) = true /\
  (N_of_ascii (digit_char d) - 48 = d)%N.
Proof.
  intros Hd. assert (d = 0 \/ d = 1 \/ d = 2 \/ d = 3 \/ d = 4 \/ d = 5 \/ d = 6 \/ d = 7 \/
                     d = 8 \/ d = 9)%N as Hc by lia.
  repeat destruct Hc as [-> | Hc]; [..| subst d]; vm_compute; auto.
Qed.

Lemma read_digits_app acc ds tl :
  Forall (fun d => d < 10)%N ds ->
  (match tl with String c _ => is_digit c = false | EmptyString => True end) ->
  read_digits acc (digits_string ds +:+ tl) = (foldl (fun a d => a * 10 + d)%N acc ds, tl).
Proof.
  intros Hds Htl. revert acc. induction Hds as [| d ds Hd _ IH]; intros acc; simpl; str_simpl.
  - destruct tl as [| c tl]; simpl in *; [done | by rewrite Htl].
  - destruct (digit_char_digit d Hd) as (-> & _ & _ & ->). apply IH.
Qed.

Lemma plain_str_app a b : plain_str (a +:+ b) = plain_str a && plain_str b.
Proof. induction a as [| c a IH]; str_simpl; simpl; [done | by rewrite IH, andb_assoc]. Qed.

Lemma quote_safe_app a b : quote_safe (a +:+ b) = quote_safe a && quote_safe b.
Proof. induction a as [| c a IH]; str_simpl; simpl; [done | by rewrite IH, andb_assoc]. Qed.

Lemma digits_string_safe ds :
  Forall (fun d => d < 10)%N ds -> plain_str (digits_string ds) && quote_safe (digits_string ds) = true.
Proof.
  induction 1 as [| d ds Hd _ IH]; simpl; [done |].
  destruct (digit_char_digit d Hd) as (_ & -> & -> & _). simpl.
  apply andb_true_iff in IH as [-> ->]. done.
Qed.

(** ** The shell on the command lines *)

Lemma quoted_app s r : quoted s +:+ r = String dq (s +:+ String dq r).
Proof. unfold quoted. by rewrite str_app_cons, str_app_assoc. Qed.

Lemma plain_not_special c :
  plain_char c = true -> c <> " "%char /\ c <> ";"%char /\ c <> dq.
Proof. intros Hc. split_and!; intros ->; discriminate. Qed.

(** Reading a quoted string that holds no [\], [$], backquote or quote. *)
Lemma sh_quoted s r cur ws cs :
  quote_safe s = true ->
  sh_go (s +:+ String dq r) true (Some cur) ws cs =
    sh_go r false (Some (rev (String.list_ascii_of_string s) ++ cur)) ws cs.
Proof.
  revert cur. induction s as [| c s IH]; intros cur Hs; str_simpl; simpl; [done |].
  - apply andb_true_iff in Hs as [Hc Hs].
    rewrite decide_False by (intros ->; discriminate). rewrite Hc. simpl.
    rewrite IH by done. by rewrite <- app_assoc.
Qed.

Lemma sh_plain s r cur ws cs :
  plain_str s = true ->
  sh_go (s +:+ r) false (Some cur) ws cs =
    sh_go r false (Some (rev (String.list_ascii_of_string s) ++ cur)) ws cs.
Proof.
  revert cur. induction s as [| c s IH]; intros cur Hs; str_simpl; simpl; [done |].
  apply andb_true_iff in Hs as [Hc Hs].
  destruct (plain_not_special c Hc) as (H1 & H2 & H3).
  rewrite !decide_False by done. rewrite Hc. simpl.
  rewrite IH by done. by rewrite <- app_assoc.
Qed.

Lemma string_of_rev_rev l :
  String.string_of_list_ascii (rev (rev l ++ [])) = String.string_of_list_ascii l.
Proof. by rewrite app_nil_r, rev_involutive. Qed.

(** A non-empty word of plain characters followed by a space. *)
Lemma sh_word w r ws cs :
  plain_str w = true -> w <> ""%string ->
  sh_go (w +:+ String " " r) false None ws cs = sh_go r false None (w :: ws) cs.
Proof.
  destruct w as [| c w]; intros Hw Hne; [done |].
  simpl in Hw. apply andb_true_iff in Hw as [Hc Hw].
  destruct (plain_not_special c Hc) as (H1 & H2 & H3).
  str_simpl. simpl. rewrite !decide_False by done. rewrite Hc. simpl.
  rewrite sh_plain by done. simpl.
  rewrite rev_app_distr, rev_involutive. simpl. by rewrite String.string_of_list_ascii_of_string.
Qed.

Lemma std_to_string_plain x : plain_str (std_to_string x) = true.
Proof.
  unfold std_to_string, fmt_zu. rewrite !plain_str_app.
  pose proof (fun k n => andb_prop _ _ (digits_string_safe _ (to_digits_small k n))) as Hd.
  rewrite (proj1 (Hd _ _)), (proj1 (Hd _ _)). by destruct (Qlt_le_dec x 0).
Qed.

Lemma std_to_string_nonempty x : std_to_string x <> ""%string.
Proof.
  intros He. apply (f_equal String.length) in He. revert He.
  unfold std_to_string. rewrite !length_str_app. simpl. lia.
Qed.

(** The command line of a hit, for file names without [\], [$],
    backquote or quote, is the one command meant. *)
Lemma sh_ffmpeg inputFile start end_ outName :
  quote_safe inputFile = true -> quote_safe outName = true ->
  sh_parse (ffmpeg_cmd inputFile start end_ outName) =
    Some [ffmpeg_argv inputFile start end_ outName].
Proof.
  intros Hi Ho. unfold sh_parse, ffmpeg_cmd, ffmpeg_argv. rewrite !quoted_app.
  pose proof (std_to_string_plain start). pose proof (std_to_string_nonempty start).
  pose proof (std_to_string_plain end_). pose proof (std_to_string_nonempty end_).
  generalize dependent (std_to_string end_). generalize dependent (std_to_string start).
  intros a Pa Na b Pb Nb.
  str_simpl. simpl. rewrite sh_quoted by done. str_simpl. simpl.
  rewrite sh_word by done. str_simpl. simpl. rewrite sh_word by done.
  str_simpl. simpl. rewrite sh_quoted by done. simpl.
  rewrite !string_of_rev_rev, !String.string_of_list_ascii_of_string. done.
Qed.

Lemma sh_words ws r acc cs :
  Forall (fun w => plain_str w = true /\ w <> ""%string) ws ->
  sh_go (spaced ws +:+ r) false None acc cs = sh_go r false None (rev ws ++ acc) cs.
Proof.
  intros Hws. revert acc. induction Hws as [| w ws [Pw Nw] _ IH]; intros acc; [done |].
  simpl. rewrite str_app_assoc. str_simpl. rewrite sh_word by done.
  rewrite IH. by rewrite <- app_assoc.
Qed.

(** The command line of a hit whose input name is [injected x ws]: the
    shell runs three commands. *)
Lemma sh_ffmpeg_injected x ws start end_ outName :
  quote_safe x = true -> Forall (fun w => plain_str w = true /\ w <> ""%string) ws ->
  quote_safe outName = true ->
  sh_parse (ffmpeg_cmd (injected x ws) start end_ outName) =
    Some [["ffmpeg"; "-v"; "error"; "-y"; "-i"; x]; ws;
          [""; "-ss"; std_to_string start; "-to"; std_to_string end_; "-c"; "copy"; outName]].
Proof.
  intros Hx Hws Ho. unfold sh_parse, ffmpeg_cmd, injected. rewrite !quoted_app.
  pose proof (std_to_string_plain start). pose proof (std_to_string_nonempty start).
  pose proof (std_to_string_plain end_). pose proof (std_to_string_nonempty end_).
  generalize dependent (std_to_string end_). generalize dependent (std_to_string start).
  intros a Pa Na b Pb Nb.
  rewrite !str_app_assoc. str_simpl. simpl. rewrite sh_quoted by done. str_simpl. simpl.
  rewrite str_app_assoc, sh_words by done. str_simpl. simpl.
  rewrite sh_word by done. str_simpl. simpl. rewrite sh_word by done.
  str_simpl. simpl. rewrite sh_quoted by done. simpl.
  rewrite !string_of_rev_rev, !String.string_of_list_ascii_of_string, app_nil_r, rev_involutive.
  done.
Qed.

Lemma quote_safe_substring n s : quote_safe s = true -> quote_safe (String.substring 0 n s) = true.
Proof.
  revert n. induction s as [| c s IH]; intros [| n] Hs; simpl in *; try done.
  apply andb_true_iff in Hs as [-> Hs]. by apply IH.
Qed.

Lemma hit_name_safe outDir i : quote_safe outDir = true -> quote_safe (hit_name outDir i) = true.
Proof.
  intros Hd. unfold hit_name, snprintf_trunc. apply quote_safe_substring.
  rewrite !quote_safe_app, Hd. unfold fmt_03zu.
  by rewrite (proj2 (andb_prop _ _ (digits_string_safe _ (to_digits_small _ _)))).
Qed.

Lemma main_args analyse argv0 inputFile outDir rest :
  main analyse true (argv0 :: inputFile :: outDir :: rest) =
    onsetTimes ← analyse inputFile;
    Some (0%Z, [CreateDirectories outDir; Stdout (count_message (length onsetTimes))] ++
               split_commands inputFile outDir onsetTimes).
Proof. unfold main. rewrite decide_False by (simpl; lia). done. Qed.

Lemma width_bound n : (n <= 2 ^ 64)%N -> (n < 10 ^ N.of_nat (dec_width n))%N.
Proof.
  intros Hn. apply dec_width_fuel_bound.
  assert (2 ^ 64 < 10 ^ N.of_nat 21)%N by (vm_compute; reflexivity). lia.
Qed.

(** ** Properties of the converter *)

(** C21. Round trip of the file names: when [outDir] leaves room for
    the whole name in the 512-byte buffer, the name of hit [i] is
    [outDir/hit_<digits>.wav], where the digits are the decimal digits
    of [i + 1] padded with zeros to at least three ([%03zu]: exactly
    [max(3, width of i + 1)] of them), and reading the digits back gives
    [i + 1]. *)
Theorem hit_name_roundtrip outDir i :
  (N.of_nat i < 2 ^ 64)%N ->
  (String.length outDir + 9 + Nat.max 3 (dec_width (N.of_nat (i + 1))) <= 511)%nat ->
  exists ds,
    hit_name outDir i = outDir +:+ "/hit_" +:+ digits_string ds +:+ ".wav" /\
    length ds = Nat.max 3 (dec_width (N.of_nat (i + 1))) /\
    Forall (fun d => d < 10)%N ds /\ digits_value ds = N.of_nat (i + 1) /\
    parse_hit outDir (hit_name outDir i) = Some (N.of_nat (i + 1)).
Proof.
  intros Hi Hl. set (w := Nat.max 3 (dec_width (N.of_nat (i + 1)))).
  assert (digits_value (to_digits w (N.of_nat (i + 1))) = N.of_nat (i + 1)) as Hv.
  { rewrite digits_value_to_digits. apply N.mod_small.
    pose proof (width_bound (N.of_nat (i + 1)) ltac:(lia)).
    pose proof (N.pow_le_mono_r 10 (N.of_nat (dec_width (N.of_nat (i + 1)))) (N.of_nat w)
                  ltac:(lia) ltac:(lia)).
    lia. }
  assert (hit_name outDir i =
            outDir +:+ "/hit_" +:+ digits_string (to_digits w (N.of_nat (i + 1))) +:+ ".wav") as Hn.
  { unfold hit_name, snprintf_trunc.
    rewrite substring_all; [done |].
    rewrite !length_str_app; unfold fmt_03zu; rewrite length_digits_string, length_to_digits.
    simpl. lia. }
  exists (to_digits w (N.of_nat (i + 1))).
  split_and!; [exact Hn | apply length_to_digits | apply to_digits_small | exact Hv |].
  rewrite Hn. unfold parse_hit. rewrite <- str_app_assoc, strip_prefix_app.
  cbn [mbind option_bind]. rewrite read_digits_app by (apply to_digits_small || done).
  fold (digits_value (to_digits w (N.of_nat (i + 1)))). by rewrite Hv, decide_True.
Qed.

(** C22. With at least two arguments whose names hold no [\], [$],
    backquote or double quote, [main] creates the output directory,
    prints the number of hits and runs, for each onset [i] in order,
    exactly one command, which the shell splits into
    [ffmpeg -v error -y -i <input> -ss <start i> -to <end i> -c copy
    <outDir/hit_i.wav>]: start at onset [i], end 50 ms before onset
    [i + 1] (one second after the last onset); it exits with 0. *)
Theorem converter_runs_ffmpeg analyse argv0 inputFile outDir rest onsetTimes :
  analyse inputFile = Some onsetTimes -> quote_safe inputFile = true -> quote_safe outDir = true ->
  exists effs,
    main analyse true (argv0 :: inputFile :: outDir :: rest) =
      Some (0%Z, [CreateDirectories outDir; Stdout (count_message (length onsetTimes))] ++ effs) /\
    system_argv <$> effs =
      (fun i => Some [ffmpeg_argv inputFile (seg_start onsetTimes i) (seg_end onsetTimes i)
                        (hit_name outDir i)]) <$> seq 0 (length onsetTimes).
Proof.
  intros Ha Hi Ho. rewrite main_args, Ha. eexists. split; [reflexivity |].
  unfold split_commands. rewrite <- list_fmap_compose. apply list_fmap_ext. intros k j _.
  simpl. rewrite sh_ffmpeg by (done || by apply hit_name_safe). done.
Qed.

(** C26. A double quote in the input file name ends the quoting of the
    command line of line 83, so the name can inject a shell command that
    runs once per hit: for an input name [x"; <ws>; "] (any [x] the
    quotes keep whole, any words [ws] of plain characters), every
    [system] call of [main] makes the shell run three commands: ffmpeg
    cut off after [-i x], the injected command [ws], and a command with
    an empty name followed by the rest of the ffmpeg arguments. *)
Theorem converter_quote_injection analyse argv0 x ws outDir rest onsetTimes :
  analyse (injected x ws) = Some onsetTimes -> quote_safe x = true ->
  Forall (fun w => plain_str w = true /\ w <> ""%string) ws -> quote_safe outDir = true ->
  exists effs,
    main analyse true (argv0 :: injected x ws :: outDir :: rest) =
      Some (0%Z, [CreateDirectories outDir; Stdout (count_message (length onsetTimes))] ++ effs) /\
    system_argv <$> effs =
      (fun i => Some [["ffmpeg"; "-v"; "error"; "-y"; "-i"; x]; ws;
                      [""; "-ss"; std_to_string (seg_start onsetTimes i); "-to";
                       std_to_string (seg_end onsetTimes i); "-c"; "copy"; hit_name outDir i]])
        <$> seq 0 (length onsetTimes).
Proof.
  intros Ha Hx Hws Ho. rewrite main_args, Ha. eexists. split; [reflexivity |].
  unfold split_commands. rewrite <- list_fmap_compose. apply list_fmap_ext. intros k j _.
  simpl. rewrite sh_ffmpeg_injected by (done || by apply hit_name_safe). done.
Qed.

(** C29. An output directory of 511 characters or more leaves no room
    for the file name: [snprintf] truncates every name to the first 511
    characters of [outDir], so every ffmpeg command writes the same file
    (with [-y], each hit overwrites the previous one). *)
Theorem converter_long_outdir_one_file analyse argv0 inputFile outDir rest onsetTimes :
  analyse inputFile = Some onsetTimes -> (511 <= String.length outDir)%nat ->
  main analyse true (argv0 :: inputFile :: outDir :: rest) =
    Some (0%Z, [CreateDirectories outDir; Stdout (count_message (length onsetTimes))] ++
               ((fun i => System (ffmpeg_cmd inputFile (seg_start onsetTimes i) (seg_end onsetTimes i)
                                   (String.substring 0 511 outDir))) <$> seq 0 (length onsetTimes))).
Proof.
  intros Ha Hl. rewrite main_args, Ha. simpl. do 5 f_equal.
  apply list_fmap_ext. intros k j _. unfold hit_name, snprintf_trunc. simpl.
  by rewrite substring_app.
Qed.

(** The usage path: fewer than two arguments print the usage line and
    exit with 1; an empty [argv] reads [argv[0]] as a null pointer. *)
Lemma converter_usage analyse ok argv0 rest :
  (length rest < 2)%nat -> main analyse ok (argv0 :: rest) = Some (1%Z, [Stderr (usage argv0)]).
Proof. intros Hr. unfold main. rewrite decide_True by (simpl; lia). done. Qed.

Lemma converter_no_argv analyse ok : main analyse ok [] = None.
Proof. done. Qed.

(** Two onsets less than 50 ms apart give a segment that ends before it
    starts. *)
Lemma seg_end_before_start onsetTimes i :
  (i + 1 < length onsetTimes)%nat ->
  (default 0 (onsetTimes !! (i + 1)%nat) - seg_start onsetTimes i < 1 # 20)%Q ->
  (seg_end onsetTimes i < seg_start onsetTimes i)%Q.
Proof.
  intros Hi Hgap. unfold seg_end. rewrite decide_True by done. lra.
Qed.


(** ** The bindings with Essentia's ports *)

Lemma frame_cutter_binds_throw {C D} (E : Essentia C D) :
  port E Onsets Input "onsetDetections" = None ->
  binds_ok E [(FrameCutter, Input, "signal"); (FrameCutter, Output, "frame");
              (Onsets, Input, "onsetDetections"); (Onsets, Output, "onsets")]%string = false.
Proof.
  intros H. unfold binds_ok. simpl. unfold bind_ok at 3. rewrite H.
  rewrite (bool_decide_false (None = _)) by done. by rewrite !andb_false_r.
Qed.

(** C16. With Essentia's documented ports the program can never cut a
    hit: [Onsets] has no input named [onsetDetections] (its inputs are
    [detections] and [weights]), so [onset->input("onsetDetections")]
    throws at line 52, after the directory is created and the file
    loaded and before any frame is analysed.  For every Essentia
    instance with that port table, any fuel and any outcome of
    [create_directories], the analysis throws and [main] with at least
    two arguments ends in an uncaught exception. *)
Theorem converter_always_throws {C D} (E : Essentia C D) fuel mkdir_ok argv0 inputFile outDir rest :
  (forall a dir name, port E a dir name = essentia_ports a dir name) ->
  essentia_analyse E fuel inputFile = None /\
  dkd_main E fuel mkdir_ok (argv0 :: inputFile :: outDir :: rest) = None.
Proof.
  intros Hp.
  assert (essentia_analyse E fuel inputFile = None) as Ha.
  { unfold essentia_analyse. rewrite frame_cutter_binds_throw by (by rewrite Hp).
    destruct (bind_ok E MonoLoader Output "audio"); [| done]. simpl.
    by destruct (mono_loader E inputFile). }
  split; [done |]. unfold dkd_main, main. rewrite decide_False by (simpl; lia).
  destruct mkdir_ok; [| done]. simpl. by rewrite Ha.
Qed.

(** ** Witnesses *)

Definition ex_analyse (_ : string) : option (list Q) := Some [1 # 2; 53 # 100; 2 # 1].

Lemma hit_name_roundtrip_witness :
  exists ds,
    hit_name "out" 6 = "out" +:+ "/hit_" +:+ digits_string ds +:+ ".wav" /\
    length ds = 3%nat /\ Forall (fun d => d < 10)%N ds /\ digits_value ds = 7%N /\
    parse_hit "out" (hit_name "out" 6) = Some 7%N.
Proof. apply (hit_name_roundtrip "out" 6); discharge. Defined.

Lemma converter_runs_ffmpeg_witness :
  exists effs,
    main ex_analyse true ["dkd"; "in put.wav"; "out"] =
      Some (0%Z, [CreateDirectories "out"; Stdout (count_message 3)] ++ effs) /\
    system_argv <$> effs =
      (fun i => Some [ffmpeg_argv "in put.wav" (seg_start [1 # 2; 53 # 100; 2 # 1] i)
                        (seg_end [1 # 2; 53 # 100; 2 # 1] i) (hit_name "out" i)]) <$> seq 0 3.
Proof.
  apply (converter_runs_ffmpeg ex_analyse "dkd" "in put.wav" "out" [] [1 # 2; 53 # 100; 2 # 1]);
    discharge.
Defined.

Lemma converter_quote_injection_witness :
  exists effs,
    main (fun _ => Some [0%Q]) true ["dkd"; injected "x" ["touch"; "pwned"]; "out"] =
      Some (0%Z, [CreateDirectories "out"; Stdout (count_message 1)] ++ effs) /\
    system_argv <$> effs =
      [Some [["ffmpeg"; "-v"; "error"; "-y"; "-i"; "x"]; ["touch"; "pwned"];
             [""; "-ss"; "0.000000"; "-to"; "1.000000"; "-c"; "copy"; "out/hit_001.wav"]]].
Proof.
  apply (converter_quote_injection (fun _ => Some [0%Q]) "dkd" "x" ["touch"; "pwned"] "out" []
           [0%Q]); [reflexivity | reflexivity | | reflexivity].
  repeat (constructor; [split; [reflexivity | discriminate] |]). constructor.
Defined.

Definition ex_long_dir : string := String.string_of_list_ascii (repeat "a"%char 511).

Lemma converter_long_outdir_one_file_witness :
  main ex_analyse true ["dkd"; "in.wav"; ex_long_dir] =
    Some (0%Z, [CreateDirectories ex_long_dir; Stdout (count_message 3)] ++
               ((fun i => System (ffmpeg_cmd "in.wav" (seg_start [1 # 2; 53 # 100; 2 # 1] i)
                                   (seg_end [1 # 2; 53 # 100; 2 # 1] i)
                                   (String.substring 0 511 ex_long_dir))) <$> seq 0 3)).
Proof.
  apply (converter_long_outdir_one_file ex_analyse "dkd" "in.wav" ex_long_dir []
           [1 # 2; 53 # 100; 2 # 1]); discharge.
Defined.

(** A small pipeline over Essentia's port table: the file loads as
    [1; 3; 2], frames of two samples with a hop of one, identity
    transforms, a detector that reports the change of the frame's
    energy, [Onsets] returning its input. *)
Definition ex_essentia (ports : algorithm -> port_dir -> string -> option port_type)
    : Essentia (list Q) Q :=
  mkEssentia (list Q) Q ports (fun _ => Some [1; 3; 2]%Q) (fun a => a)
    (fun c => (take 2 c, drop 1 c)) (fun f => f) (fun f => f) (fun m => (m, m)) 0%Q
    (fun d mag _ => let e := foldr Qplus 0%Q mag in (e, [e - d]%Q)) (fun det => det).

Lemma converter_always_throws_witness :
  essentia_analyse (ex_essentia essentia_ports) 5 "in.wav" = None /\
  dkd_main (ex_essentia essentia_ports) 5 true ["dkd"; "in.wav"; "out"] = None.
Proof.
  apply (converter_always_throws (ex_essentia essentia_ports) 5 true "dkd" "in.wav" "out" []).
  reflexivity.
Defined.

(** The same pipeline with ports that take every binding of the code:
    the frames are [1; 3], [3; 2] and [2], with detections 4, 1 and -3;
    only -3 reaches [Onsets], and the program cuts one hit from it. *)
Lemma ex_dkd_main :
  dkd_main (ex_essentia (fun _ _ _ => Some TVectorReal)) 5 true ["dkd"; "in.wav"; "out"] =
    Some (0%Z, [CreateDirectories "out"; Stdout (count_message 1);
                System (ffmpeg_cmd "in.wav" (-3) (-2) "out/hit_001.wav")]).
Proof. vm_compute. reflexivity. Qed.

End Converter.
